(* ===== verification/_CoqProject ===== *)
-Q . S2P
Prelude.v
Errors.v
Env.v
Ssea.v
Simd.v
Checksum.v
Base94Codec.v
Base94.v
Cipher.v
Binary.v
KeyConfig.v
Handshake.v
Transmission.v
Session.v
Link.v
Mux.v
Pump.v
Listen.v
Tunnel.v
Framing.v
Addr.v
NetText.v
Fmt.v
HostPort.v
Dns.v
Connect.v
Config.v
Server.v
Pool.v
Socks5.v
Client.v
Shutdown.v
Serve.v
Bond.v
TunnelPair.v
TunnelPool.v
PumpStream.v
Relay.v
Proxy.v
Net.v
FrameSize.v
Answer.v
Deliver.v
DeliverBack.v
Exchange.v
NetLive.v
ByteTunnel.v
WireNet.v
Establish.v
Dialer.v
