(* ===== verification/Prelude.v ===== *)
(** * A verified model of nextppp

    nextppp is a tunnelling proxy in Rust.  A client accepts SOCKS5 connections,
    multiplexes them over a few long-lived tunnels to a server, and the server
    connects to the targets.  A tunnel is a TCP connection whose bytes are
    obfuscated and encrypted; a bonded tunnel spreads over several of them.  This
    library models the crates [core], [common], [client], [server] and [nextppp]
    under [src/crates] and proves what makes them correct.

    ** The program and the files

    From the bottom up; paths are under [src/crates].

    - Foundations.  [Prelude]: the code's [Result] and [?], machine integers as [Z]
      with their wrap-around ([u8] ... [u128], [is_byte], [wf_bytes]), lists,
      counting ([count]) and the liveness operator [eventually].  [Errors]:
      [core/error.rs] and the part of [io::Error] the program inspects.  [Env]: the
      interfaces to random numbers and to byte transports.
    - Obfuscation primitives.  [Ssea] ([core/crypto/ssea.rs]): LCG, fast modulo,
      shuffle, evolving mask.  [Simd] ([core/crypto/simd.rs]): the delta kernels of
      the three back ends.  [Checksum] ([core/frame/checksum.rs]).
    - Ciphers.  [Cipher] ([core/crypto/cipher.rs]): methods, key derivation, nonces
      per packet, CFB and CTR modes; AES, ChaCha20 and HKDF are the interface
      [CryptoBackend] with the laws [CryptoLaws].
    - Framing.  [Base94Codec] is the interface to the [base94-simd] crate, [Base94]
      ([core/frame/base94.rs]) the printable envelope, [Binary]
      ([core/frame/binary.rs]) the binary frame.
    - The session.  [KeyConfig] ([core/config.rs]), [Handshake]
      ([core/handshake.rs]), [Transmission] ([core/transmission.rs]: both codec
      directions, the handshake, the split halves) and [Session]
      ([core/session.rs]: incremental decoding out of a caller's buffer).
    - The tunnel.  [Mux] ([common/mux.rs], [common/proto.rs]): frame headers.
      [Tunnel] ([common/tunnel.rs]): writer task, frame reader, stream pumps.
      [Link] ([common/link.rs]): a tunnel member as poll-level byte pipe.  [Pump]
      ([common/pump.rs]): error classes.
    - Addresses.  [Addr] ([common/addr.rs]): the binary form; [NetText]: the
      printers and parsers of the standard library's addresses; [HostPort]: the
      textual form.  [Dns] ([common/dns.rs]): the cache.  [Connect]
      ([common/pump.rs], [common/dns.rs]): [tcp_connect] from the resolution to the
      last address, under one deadline.
    - The endpoints.  [Config] ([common/config.rs]), [Server] ([server/lib.rs]: accept
      gates, counters, demux loop, stream tasks with the event receiver that lives as
      long as their [pump_down]), [Pool] ([client/pool.rs]: one tunnel
      of the client, assignment, dialing, refilling), [Socks5] ([client/socks5.rs]),
      [Client] ([client/lib.rs], [nextppp/main.rs]: start-up and the inbound accept
      loops), [Bond] ([client/bond.rs], [server/bond.rs]: dialing all links of a bonded
      tunnel, registering one) and [Shutdown] ([common/shutdown.rs]).
    - Both ends together.  [TunnelPair]: a client's and a server's tunnel joined by
      whole frames.  [Framing] and [ByteTunnel]: the same two joined by bytes, with
      the writers' batches and the readers' partial reads; the two framings of a
      tunnel are instances of the class [Framing].  [FrameSize]: the sizes of the
      frames.  [PumpStream] ([pump_stream] of [common/tunnel.rs]): the two tasks of a
      proxied stream and their aborts, up to the sockets; [Relay] the pair of tunnels
      with such tasks for every stream at both ends.  [Deliver] and [DeliverBack]: the
      steps that move a stream's bytes along, towards the target and back, and that
      they get there; [Exchange]: both at once, in any order.  [Answer]: the way of an
      OPEN to its answer.
      [Establish] ([client/pool.rs], [server/lib.rs]): from two connections to the two
      ends of a tunnel.
    - The whole.  [TunnelPool] ([client/pool.rs]): the pool over its tunnels, with the
      callers of [open_stream].  [Proxy]: what a SOCKS5 application asks for, sends
      and gets back.  [Net]: the pool with a relay for every tunnel it ever dialed and
      an application for every caller, as one step relation; [NetLive] its liveness,
      from that of one tunnel; [WireNet] the same over the bytes of the tunnels.
    - Around them.  [Serve] ([client/lib.rs], [server/lib.rs], [common/shutdown.rs],
      [nextppp/main.rs]): both processes from start to exit, with the signal handler,
      the accept loops of all inbounds, the drain and the drop of the runtime.  [Dialer] ([client/pool.rs], [client/bond.rs]): the
      interface [TunnelDialer] between pool and tunnels, with plain and bonded tunnels
      as its instances, rounds of upkeep, and the wiring of a bonded tunnel's two
      ends.  [Listen] ([common/listen.rs]): the calls that make a listener.  [Fmt]
      ([common/fmt.rs]): durations and byte counts in log lines.
    ** How code becomes definitions

    A pure function is a function.  A method that mutates [self] takes the state
    and returns it next to its [Result], on the error paths too; [let?] is [?].
    An [impl Rng] is a type class whose state is threaded; a socket is the list of
    what its reads or polls return; a channel the list of what is queued, with its
    bound; a clock an argument at every read.  Tasks that share state ([Server],
    [Pool], [Client]) are step relations over one record, a step per section the
    code runs without releasing its lock or awaiting, and every handler a step
    uses is an executable function.  Fields that only record history, for the
    statements, say so where they are declared.  Counters wrap as in the release
    profile.

    ** What is proved

    - The data plane: a handshake between two matching endpoints succeeds and leaves
      both in step ([Establish.tunnel_established]); ends that differ in the payload
      switches are told apart; noise is bounded; messages round trip through every layer
      ([Cipher], [Binary], [Base94], [Transmission]), incrementally under any split
      of the bytes ([Session]), and through writer task and reader of a whole
      tunnel ([Tunnel]) or a bonded link ([Link]); a receiver survives any input.
    - The primitives: batched cipher modes, SIMD kernels and fast modulo compute
      their textbook definitions; nonces are never reused; key domains are
      separate; random filler is authenticated.
    - The concurrent parts: invariants of one tunnel on both ends, of the counters
      that gate connections and sessions, and of the pool's size, under every
      interleaving; the pool refills, rounds over dials in flight included; connects,
      dials, bonded dials, their upkeep and the final drain are bounded; what is lost
      behind an EOF ([Server.event_behind_eof_lost]).
    - The edges: SOCKS5, address frames, endpoint texts, the DNS cache and the
      configuration are characterised on every branch, errors included.
    - The whole: every application gets its own target, sees its target's bytes and
      nobody else's, whatever tunnel it is put on ([Net.net_end_to_end]); encrypted
      bytes, batches and partial reads change nothing about that, and no tunnel is
      lost to its codecs ([WireNet.bytes_refine_net], from
      [ByteTunnel.bytes_refine_frames] for one tunnel); a handshake leads to such a
      tunnel ([Establish.tunnel_established]); what a mux tunnel promises its streams
      end to end ([TunnelPair.tunnel_end_to_end]); an OPEN that the server has room for
      is answered ([Answer.open_is_answered]); what was sent can always be
      moved to where it goes, both ways at once and past whatever else waits, and every
      run of such moves gets there ([NetLive.net_exchange_completes]); the pool's load
      is its users ([TunnelPool.load_is_use]); a round of upkeep does what it should
      ([Dialer.upkeep_round_exact]); a signal ends either process, in bounded time but for
      the blocking work that still runs ([Serve.processes_exit]).

    Loops that are not structural take fuel, with a lemma that the fuel given is
    enough: [poll_frame_impl] one turn per phase, [read_session_id] the count of
    noise packets the code allows, [dial_sync] one turn per attempt, [drain_loop]
    101 turns of 100 ms for a deadline of 10 s.

    Hypotheses appear only for code outside the repository ([CryptoLaws],
    [Base94Laws], [RngLaws]: documented shapes and round trips), each with a
    concrete instance under which the theorems are applied.

    ** Not modelled

    Log lines (their wording, and the heartbeat tasks, which only log), the log level,
    the command line parser, socket options ([pump::keepalive]), the tokio runtime and
    channels (represented by the step relations; in [Serve] by when blocking functions
    begin and running work ends, which the drop of the runtime waits for), the link aggregator (its answers are
    arguments), json5 and file reading (arguments of the loaders), buffers that only
    save allocations, and the cancellation of an [open] future from outside.  The
    texts of error messages are represented by what they say, not by their wording.
    Time is explicit where the code compares it (deadlines, timeouts, retries, the DNS
    cache) and absent from the step relations, where a timeout may come at any step; that
    dials in flight get anywhere is a condition of [Pool.pool_refills], not of the code.
    Of an OPEN that finds no room [Answer] says nothing: the server sends a CLOSE, which
    is no answer, and the call waits out its budget. *)
From stdpp Require Export base tactics list list_numbers gmap strings.
From Stdlib Require Export ZArith Lia.

#[global] Open Scope Z_scope.

(** ** Results: the code's [Result<T, E>] *)

Inductive result (E A : Type) : Type :=
| Ok (a : A)
| Err (e : E).
Arguments Ok {E A} a.
Arguments Err {E A} e.

Declare Scope rs_scope.
Delimit Scope rs_scope with rs.
#[global] Open Scope rs_scope.

(** The [?] operator on a pure fallible call. *)
Notation "'let?' x ':=' m 'in' k" :=
  (match m with Ok x => k | Err e => Err e end)
  (at level 10, x pattern, m at level 100, k at level 200) : rs_scope.

(** The [?] operator on a call that also returns the updated [&mut] state:
    the state is threaded on both outcomes, as in the code. *)
Notation "'let?' x '&' s ':=' m 'in' k" :=
  (match m with (Ok x, s) => k | (Err e, s) => (Err e, s) end)
  (at level 10, x pattern, s name, m at level 100, k at level 200) : rs_scope.

Definition is_ok {E A} (r : result E A) : bool :=
  match r with Ok _ => true | Err _ => false end.

Definition result_map {E A B} (f : A -> B) (r : result E A) : result E B :=
  match r with Ok a => Ok (f a) | Err e => Err e end.

Definition ok_or {E A} (o : option A) (e : E) : result E A :=
  match o with Some a => Ok a | None => Err e end.

(** ** Machine integers: [Z] with the wrap-around written out *)

Definition u8 (z : Z) : Z := z mod 2 ^ 8.
Definition u16 (z : Z) : Z := z mod 2 ^ 16.
Definition u32 (z : Z) : Z := z mod 2 ^ 32.
Definition u64 (z : Z) : Z := z mod 2 ^ 64.
Definition u128 (z : Z) : Z := z mod 2 ^ 128.

(** [x as i32] of a [u32]. *)
Definition as_i32 (z : Z) : Z := if z <? 2 ^ 31 then z else z - 2 ^ 32.

Abbreviation is_u32 x := (0 <= x < 2 ^ 32).
Abbreviation is_u64 x := (0 <= x < 2 ^ 64).
Abbreviation is_u128 x := (0 <= x < 2 ^ 128).

(** ** Bytes *)

Abbreviation bytes := (list Z).
Abbreviation is_byte b := (0 <= b < 256).
Definition wf_bytes (l : bytes) : Prop := Forall (fun b => is_byte b) l.
Definition wf_bytesb (l : bytes) : bool := forallb (fun b => (0 <=? b) && (b <? 256)) l.

Create HintDb bytes.
Create Rewrite HintDb zbits.

(** Bitwise automation: turn an equality of integers into an equality of bits. *)
#[global] Hint Rewrite Z.lxor_spec Z.land_spec Z.lor_spec Z.testbit_0_l : zbits.
#[global] Hint Rewrite Z.shiftl_spec Z.shiftr_spec using lia : zbits.

Ltac zbits := apply Z.bits_inj'; intros ? ?; autorewrite with zbits.

(** Membership in an explicit list. *)
Ltac in_list := first [apply list_elem_of_here | apply list_elem_of_further; in_list].

(** Evaluate a closed decidable goal. *)
Ltac eval_dec := vm_compute; repeat split; (reflexivity || discriminate || exact I).


Lemma wf_bytes_nil : wf_bytes [].
Proof. constructor. Qed.

Lemma wf_bytes_cons b l : wf_bytes (b :: l) <-> is_byte b /\ wf_bytes l.
Proof. unfold wf_bytes. by rewrite Forall_cons. Qed.

Lemma wf_bytes_app l1 l2 : wf_bytes (l1 ++ l2) <-> wf_bytes l1 /\ wf_bytes l2.
Proof. unfold wf_bytes. by rewrite Forall_app. Qed.

Lemma wf_bytes_app_2 l1 l2 : wf_bytes l1 -> wf_bytes l2 -> wf_bytes (l1 ++ l2).
Proof. intros. by apply wf_bytes_app. Qed.

Lemma wf_bytes_take n l : wf_bytes l -> wf_bytes (take n l).
Proof. apply Forall_take. Qed.

Lemma wf_bytes_drop n l : wf_bytes l -> wf_bytes (drop n l).
Proof. apply Forall_drop. Qed.

Lemma wf_bytes_rev l : wf_bytes l -> wf_bytes (rev l).
Proof. apply List.Forall_rev. Qed.

Lemma wf_bytesb_spec l : wf_bytesb l = true <-> wf_bytes l.
Proof.
  unfold wf_bytesb, wf_bytes. rewrite forallb_forall, List.Forall_forall.
  split; intros H x Hx; specialize (H x Hx); lia.
Qed.

Lemma wf_bytes_eval l : wf_bytesb l = true -> wf_bytes l.
Proof. apply wf_bytesb_spec. Qed.

Lemma wf_bytes_insert i b l : wf_bytes l -> is_byte b -> wf_bytes (<[i := b]> l).
Proof. intros. by apply Forall_insert. Qed.

Lemma wf_bytes_lookup i b l : wf_bytes l -> l !! i = Some b -> is_byte b.
Proof. intros H E. by eapply (Forall_lookup_1 (fun b => is_byte b)). Qed.

#[export] Hint Resolve wf_bytes_nil wf_bytes_app_2 wf_bytes_take wf_bytes_drop
  wf_bytes_rev wf_bytes_insert : bytes.

Lemma u8_byte z : is_byte (u8 z).
Proof. unfold u8. apply Z.mod_pos_bound. lia. Qed.

Lemma u8_small z : is_byte z -> u8 z = z.
Proof. intros. unfold u8. apply Z.mod_small. lia. Qed.

#[export] Hint Resolve u8_byte : bytes.

(** ** XOR of integers of a fixed width *)

Lemma lxor_bound n a b : 0 <= n -> 0 <= a < 2 ^ n -> 0 <= b < 2 ^ n -> 0 <= Z.lxor a b < 2 ^ n.
Proof.
  intros Hn Ha Hb. split; [apply Z.lxor_nonneg; lia|].
  destruct (Z.eq_dec (Z.lxor a b) 0) as [->|Hne]; [lia|].
  assert (0 <= Z.lxor a b) by (apply Z.lxor_nonneg; lia).
  apply Z.log2_lt_pow2; [lia|].
  pose proof (Z.log2_lxor a b ltac:(lia) ltac:(lia)) as Hl.
  assert (forall c, 0 <= c < 2 ^ n -> c <> 0 -> Z.log2 c < n) as Hlog.
  { intros c Hc Hc0. apply Z.log2_lt_pow2; lia. }
  destruct (Z.eq_dec a 0) as [->|], (Z.eq_dec b 0) as [->|]; try done.
  - rewrite Z.lxor_0_l in *. by apply Hlog.
  - rewrite Z.lxor_0_r in *. by apply Hlog.
  - pose proof (Hlog a ltac:(lia) ltac:(done)). pose proof (Hlog b ltac:(lia) ltac:(done)). lia.
Qed.

Lemma lxor_cancel_r a k : Z.lxor (Z.lxor a k) k = a.
Proof. by rewrite Z.lxor_assoc, Z.lxor_nilpotent, Z.lxor_0_r. Qed.

Lemma lxor_mod_pow2 n a b : 0 <= n -> Z.lxor a b mod 2 ^ n = Z.lxor (a mod 2 ^ n) (b mod 2 ^ n).
Proof.
  intros. rewrite <- !Z.land_ones by lia. zbits.
  by destruct (Z.testbit a n0), (Z.testbit b n0), (Z.testbit (Z.ones n) n0).
Qed.

Lemma lxor_div_pow2 n a b : 0 <= n -> Z.lxor a b / 2 ^ n = Z.lxor (a / 2 ^ n) (b / 2 ^ n).
Proof. intros. rewrite <- !Z.shiftr_div_pow2 by lia. apply Z.shiftr_lxor. Qed.

Lemma lxor_byte a b : is_byte a -> is_byte b -> is_byte (Z.lxor a b).
Proof. intros. apply (lxor_bound 8); lia. Qed.

#[export] Hint Resolve lxor_byte : bytes.

Lemma testbit_high n b i : 0 <= b < 2 ^ n -> 0 <= n <= i -> Z.testbit b i = false.
Proof. intros Hb Hi. rewrite <- (Z.mod_small b (2 ^ n)) by lia. apply Z.mod_pow2_bits_high. lia. Qed.

(** Disjoint bit fields: [^] and [|] are [+]. *)
Lemma lxor_disjoint_add n a b : 0 <= n -> 0 <= b < 2 ^ n -> Z.lxor (Z.shiftl a n) b = a * 2 ^ n + b.
Proof.
  intros Hn Hb. rewrite Z.shiftl_mul_pow2 by lia. symmetry. apply Z.add_nocarry_lxor.
  apply Z.bits_inj'. intros i Hi. rewrite Z.land_spec, Z.testbit_0_l.
  destruct (Z.ltb_spec i n).
  - by rewrite Z.mul_pow2_bits_low by lia.
  - rewrite (testbit_high n b i) by lia. apply andb_false_r.
Qed.

Lemma lor_disjoint_add n a b : 0 <= n -> 0 <= b < 2 ^ n -> Z.lor (Z.shiftl a n) b = a * 2 ^ n + b.
Proof.
  intros Hn Hb. rewrite <- lxor_disjoint_add by done. symmetry. apply Z.lxor_lor.
  apply Z.bits_inj'. intros i Hi. rewrite Z.land_spec, Z.testbit_0_l.
  destruct (Z.ltb_spec i n).
  - by rewrite Z.shiftl_spec_low by lia.
  - rewrite (testbit_high n b i) by lia. apply andb_false_r.
Qed.

(** ** Byte-wise XOR of two sequences (stops at the shorter one, like [zip]) *)

Definition xor_bytes (a k : bytes) : bytes := zip_with Z.lxor a k.

Lemma xor_bytes_length a k : (length a ≤ length k)%nat -> length (xor_bytes a k) = length a.
Proof. intros. unfold xor_bytes. rewrite length_zip_with. lia. Qed.

Lemma xor_bytes_cancel a k : (length a ≤ length k)%nat -> xor_bytes (xor_bytes a k) k = a.
Proof.
  revert k. induction a as [|x a IH]; intros [|y k]; simpl; intros; try done; try lia.
  rewrite lxor_cancel_r, IH by lia. done.
Qed.

Lemma xor_bytes_wf a k : wf_bytes a -> wf_bytes k -> wf_bytes (xor_bytes a k).
Proof.
  intros Ha. revert k. induction Ha; intros [|y k] Hk; simpl; try constructor;
    apply wf_bytes_cons in Hk as [??]; auto with bytes. by apply IHHa.
Qed.

Lemma xor_bytes_app a1 a2 k1 k2 :
  length a1 = length k1 -> xor_bytes (a1 ++ a2) (k1 ++ k2) = xor_bytes a1 k1 ++ xor_bytes a2 k2.
Proof. intros. by apply zip_with_app. Qed.

#[export] Hint Resolve xor_bytes_wf : bytes.

Lemma xor_bytes_prefix a k k' : (length a ≤ length k)%nat -> xor_bytes a (k ++ k') = xor_bytes a k.
Proof.
  revert k. induction a as [|x a IH]; intros [|y k]; simpl; intros; try done; try lia.
  unfold xor_bytes in *. simpl. by rewrite IH by lia.
Qed.

Lemma xor_bytes_inj a k1 k2 :
  length k1 = length a -> length k2 = length a -> xor_bytes a k1 = xor_bytes a k2 -> k1 = k2.
Proof.
  revert k1 k2. induction a as [|x a IH]; intros [|y1 k1] [|y2 k2]; simpl; intros H1 H2 E; try done.
  injection E as E1 E2. f_equal; [|apply IH; auto].
  rewrite <- (lxor_cancel_r y1 x), <- (lxor_cancel_r y2 x), !(Z.lxor_comm _ x), E1. done.
Qed.

(** ** Little- and big-endian integers *)

Fixpoint le_bytes (n : nat) (v : Z) : bytes :=
  match n with
  | O => []
  | S n => v mod 256 :: le_bytes n (v / 256)
  end.

Fixpoint le_val (l : bytes) : Z :=
  match l with
  | [] => 0
  | b :: l => b + 256 * le_val l
  end.

Definition be_bytes (n : nat) (v : Z) : bytes := rev (le_bytes n v).
Definition be_val (l : bytes) : Z := le_val (rev l).

Lemma le_bytes_length n v : length (le_bytes n v) = n.
Proof. revert v. induction n; intros; simpl; auto. Qed.

Lemma le_bytes_wf n v : wf_bytes (le_bytes n v).
Proof.
  revert v. induction n; intros; simpl; constructor; auto.
  - apply Z.mod_pos_bound. lia.
  - apply IHn.
Qed.

Lemma le_val_bytes n v : le_val (le_bytes n v) = v mod 256 ^ Z.of_nat n.
Proof.
  revert v. induction n; intros; cbn [le_bytes le_val].
  - by rewrite Z.mod_1_r.
  - rewrite IHn, Nat2Z.inj_succ, Z.pow_succ_r by lia.
    rewrite Z.rem_mul_r by lia. lia.
Qed.

Lemma le_bytes_val l : wf_bytes l -> le_bytes (length l) (le_val l) = l.
Proof.
  induction 1 as [|b l Hb Hl IH]; [done|]. cbn [length le_bytes le_val].
  rewrite (Z.mul_comm 256), Z.mod_add, Z.div_add, Z.mod_small, Z.div_small by lia.
  by rewrite Z.add_0_l, IH.
Qed.

Lemma le_val_bound l : wf_bytes l -> 0 <= le_val l < 256 ^ Z.of_nat (length l).
Proof.
  induction 1; cbn [length le_val]; [lia|].
  rewrite Nat2Z.inj_succ, Z.pow_succ_r by lia. lia.
Qed.

Lemma le_bytes_lxor n a b : le_bytes n (Z.lxor a b) = xor_bytes (le_bytes n a) (le_bytes n b).
Proof.
  revert a b. induction n; intros; [done|]. unfold xor_bytes. cbn [le_bytes zip_with].
  change 256 with (2 ^ 8). rewrite lxor_mod_pow2, lxor_div_pow2 by lia. f_equal. apply IHn.
Qed.

Lemma le_bytes_mod n m v :
  (n ≤ m)%nat -> le_bytes n (v mod 256 ^ Z.of_nat m) = le_bytes n v.
Proof.
  revert m v. induction n; intros m v Hm; [done|]. destruct m; [lia|]. cbn [le_bytes].
  rewrite Nat2Z.inj_succ, Z.pow_succ_r by lia.
  f_equal.
  - rewrite Z.rem_mul_r by lia. rewrite Z.mul_comm, Z.mod_add, Z.mod_mod by lia. done.
  - rewrite Z.rem_mul_r by lia.
    rewrite Z.mul_comm, Z.div_add, Z.div_small, Z.add_0_l by (try lia; apply Z.mod_pos_bound; lia).
    apply IHn. lia.
Qed.

Lemma be_bytes_length n v : length (be_bytes n v) = n.
Proof. unfold be_bytes. by rewrite length_rev, le_bytes_length. Qed.

Lemma be_bytes_wf n v : wf_bytes (be_bytes n v).
Proof. apply wf_bytes_rev, le_bytes_wf. Qed.

Lemma be_val_bytes n v : be_val (be_bytes n v) = v mod 256 ^ Z.of_nat n.
Proof. unfold be_val, be_bytes. by rewrite rev_involutive, le_val_bytes. Qed.

Lemma be_bytes_val l : wf_bytes l -> be_bytes (length l) (be_val l) = l.
Proof.
  intros. unfold be_bytes, be_val. rewrite <- (length_rev l), le_bytes_val by auto with bytes.
  apply rev_involutive.
Qed.

#[export] Hint Resolve le_bytes_wf be_bytes_wf : bytes.

(** ** Fixed-size chunks: [slice::as_chunks::<N>] *)

Section Chunks.
Context {A : Type}.
Implicit Types l c r : list A.

Fixpoint chunks_fuel (fuel n : nat) (l : list A) : list (list A) * list A :=
  match fuel with
  | O => ([], l)
  | S fuel =>
      if (length l <? n)%nat then ([], l)
      else let (cs, t) := chunks_fuel fuel n (drop n l) in (take n l :: cs, t)
  end.

(** The full chunks of [n] elements and the remainder. *)
Definition as_chunks (n : nat) (l : list A) : list (list A) * list A :=
  chunks_fuel (length l) n l.

Lemma chunks_fuel_enough fuel n l :
  (0 < n)%nat -> (length l ≤ fuel)%nat -> chunks_fuel fuel n l = as_chunks n l.
Proof.
  intros Hn. unfold as_chunks. remember (length l) as m eqn:Hm. revert fuel l Hm.
  induction m as [m IH] using lt_wf_ind. intros fuel l Hm Hf.
  destruct fuel as [|fuel], m as [|m]; try lia; [done| |].
  - apply (eq_sym) , nil_length_inv in Hm as ->. simpl.
    destruct (Nat.ltb_spec 0 n); [done|lia].
  - simpl. rewrite <- Hm. destruct (Nat.ltb_spec (S m) n); [done|].
    assert (Hl : length (drop n l) = (S m - n)%nat) by (rewrite length_drop; lia).
    rewrite (IH (S m - n)%nat ltac:(lia) fuel), (IH (S m - n)%nat ltac:(lia) m); auto; lia.
Qed.

Lemma as_chunks_short n l : (length l < n)%nat -> as_chunks n l = ([], l).
Proof.
  intros. unfold as_chunks. destruct l; [done|]. cbn [length chunks_fuel].
  destruct (Nat.ltb_spec (S (length l)) n); [done|]. simpl in *. lia.
Qed.

Lemma as_chunks_app n c r :
  (0 < n)%nat -> length c = n ->
  as_chunks n (c ++ r) = let (cs, t) := as_chunks n r in (c :: cs, t).
Proof.
  intros Hn Hc. unfold as_chunks at 1. rewrite length_app, Hc.
  destruct n as [|n]; [lia|]. cbn [Nat.add chunks_fuel]. rewrite length_app, Hc.
  destruct (Nat.ltb_spec (S n + length r) (S n)); [lia|].
  rewrite drop_app_length', take_app_length' by done.
  by rewrite chunks_fuel_enough by lia.
Qed.

(** Induction following the chunks. *)
Lemma chunks_ind (n : nat) (Hn : (0 < n)%nat) (P : list A -> Prop) :
  (forall l, (length l < n)%nat -> P l) ->
  (forall c r, length c = n -> P r -> P (c ++ r)) ->
  forall l, P l.
Proof.
  intros Hs Hc l. remember (length l) as m eqn:Hm. revert l Hm.
  induction m as [m IH] using lt_wf_ind. intros l Hm.
  destruct (decide (length l < n)%nat) as [|Hge]; [by apply Hs|].
  rewrite <- (take_drop n l). apply Hc; [rewrite length_take; lia|].
  apply (IH (length (drop n l))); [|done]. rewrite length_drop. lia.
Qed.

Lemma as_chunks_of_concat n (cs : list (list A)) t :
  Forall (fun c => length c = n) cs -> (length t < n)%nat -> as_chunks n (concat cs ++ t) = (cs, t).
Proof.
  intros Hcs Ht. induction Hcs as [|c cs Hc Hcs IH]; simpl; [by apply as_chunks_short|].
  rewrite <- app_assoc, as_chunks_app by (done || lia). by rewrite IH.
Qed.

Lemma as_chunks_concat n l :
  (0 < n)%nat ->
  let (cs, t) := as_chunks n l in
  l = concat cs ++ t /\ Forall (fun c => length c = n) cs /\ (length t < n)%nat.
Proof.
  intros Hn. induction l as [l Hl|c r Hc IH] using (chunks_ind n Hn).
  - by rewrite as_chunks_short by done.
  - rewrite as_chunks_app by done. destruct (as_chunks n r) as [cs t].
    destruct IH as (-> & ? & ?). split; [|by auto]. simpl. by rewrite app_assoc.
Qed.
End Chunks.

(** ** Swapping two cells: [std::ptr::swap(p.add(i), p.add(j))]

    Both cells are read before either is written.  Out of range the code would
    be undefined behaviour; the definition leaves the list alone there and the
    components prove that their indices are in range. *)

Section Swap.
Context {A : Type}.
Implicit Types l : list A.

Definition swap (l : list A) (i j : nat) : list A :=
  match l !! i, l !! j with
  | Some x, Some y => <[i := y]> (<[j := x]> l)
  | _, _ => l
  end.

Lemma swap_length l i j : length (swap l i j) = length l.
Proof. unfold swap. destruct (l !! i), (l !! j); by rewrite ?length_insert. Qed.

Definition transpose (i j k : nat) : nat :=
  if decide (k = i) then j else if decide (k = j) then i else k.

Lemma swap_lookup l i j k :
  (i < length l)%nat -> (j < length l)%nat -> swap l i j !! k = l !! transpose i j k.
Proof.
  intros Hi Hj. unfold swap, transpose.
  destruct (lookup_lt_is_Some_2 l i Hi) as [x Hx], (lookup_lt_is_Some_2 l j Hj) as [y Hy].
  rewrite Hx, Hy. repeat case_decide; subst.
  - rewrite list_lookup_insert_eq; [done|]. by rewrite length_insert.
  - rewrite list_lookup_insert_ne by done. by rewrite list_lookup_insert_eq.
  - by rewrite !list_lookup_insert_ne by done.
Qed.

Lemma swap_out l i j : ¬ (i < length l ∧ j < length l)%nat -> swap l i j = l.
Proof.
  intros H. unfold swap.
  destruct (l !! i) eqn:Hi, (l !! j) eqn:Hj; try done.
  apply lookup_lt_Some in Hi, Hj. by exfalso; apply H.
Qed.

Lemma transpose_involutive i j k : transpose i j (transpose i j k) = k.
Proof. unfold transpose. repeat case_decide; congruence. Qed.

Lemma swap_involutive l i j : swap (swap l i j) i j = l.
Proof.
  destruct (decide (i < length l ∧ j < length l)%nat) as [[??]|].
  - apply list_eq. intros k. rewrite !swap_lookup by (rewrite ?swap_length; done).
    by rewrite transpose_involutive.
  - by rewrite !swap_out by (rewrite ?swap_length; done).
Qed.

Lemma swap_permutation l i j : swap l i j ≡ₚ l.
Proof.
  destruct (decide (i < length l ∧ j < length l)%nat) as [[??]|]; [|by rewrite swap_out].
  apply Permutation_inj. split; [apply swap_length|].
  exists (transpose i j). split.
  - intros a b H'. by rewrite <- (transpose_involutive i j a), H', transpose_involutive.
  - intros k. by apply swap_lookup.
Qed.

(** A chain of swaps whose second index is a function of the first, and the
    same chain run backwards. *)
Definition swap_chain (j : nat -> nat) (l : list A) (ix : list nat) : list A :=
  foldl (fun d i => swap d i (j i)) l ix.

Lemma swap_chain_length j l ix : length (swap_chain j l ix) = length l.
Proof. revert l. induction ix; intros; simpl; [done|]. by rewrite IHix, swap_length. Qed.

Lemma swap_chain_permutation j l ix : swap_chain j l ix ≡ₚ l.
Proof. revert l. induction ix; intros; simpl; [done|]. rewrite IHix. apply swap_permutation. Qed.

Lemma swap_chain_rev j l ix : swap_chain j (swap_chain j l ix) (rev ix) = l.
Proof.
  revert l. induction ix as [|i ix IH]; intros; [done|]. unfold swap_chain in *. simpl.
  rewrite foldl_app. simpl. rewrite IH. apply swap_involutive.
Qed.
End Swap.

(** ** Strings

    A [str] is its list of Unicode scalar values; its bytes are its UTF-8
    encoding.  ASCII literals are written with [lit]. *)

Abbreviation str := (list Z).

Definition lit (s : string) : str := map (fun c => Z.of_N (Ascii.N_of_ascii c)) (String.list_ascii_of_string s).

Definition utf8_char (c : Z) : bytes :=
  if c <? 128 then [c]
  else if c <? 2048 then [192 + c / 64; 128 + c mod 64]
  else if c <? 65536 then [224 + c / 4096; 128 + c / 64 mod 64; 128 + c mod 64]
  else [240 + c / 262144; 128 + c / 4096 mod 64; 128 + c / 64 mod 64; 128 + c mod 64].

Definition utf8 (s : str) : bytes := concat (map utf8_char s).

(** Unicode scalar values. *)
Definition is_char (c : Z) : bool := (0 <=? c) && (c <? 1114112) && negb ((55296 <=? c) && (c <? 57344)).

(** [char::is_whitespace] (Unicode [White_Space]). *)
Definition is_whitespace (c : Z) : bool :=
  ((9 <=? c) && (c <=? 13)) || (c =? 32) || (c =? 133) || (c =? 160) || (c =? 5760) ||
  ((8192 <=? c) && (c <=? 8202)) || (c =? 8232) || (c =? 8233) || (c =? 8239) || (c =? 8287) || (c =? 12288).

Fixpoint trim_start (s : str) : str :=
  match s with
  | c :: s' => if is_whitespace c then trim_start s' else s
  | [] => []
  end.

(** [str::trim]. *)
Definition trim (s : str) : str := rev (trim_start (rev (trim_start s))).

(** [str::to_ascii_lowercase]. *)
Definition ascii_lower (c : Z) : Z := if (65 <=? c) && (c <=? 90) then c + 32 else c.
Definition to_ascii_lowercase (s : str) : str := map ascii_lower s.

Definition str_eqb (a b : str) : bool := bool_decide (a = b).

Lemma utf8_char_wf c : is_char c = true -> wf_bytes (utf8_char c).
Proof.
  unfold is_char. intros Hc. assert (0 <= c < 1114112) as Hr by (apply andb_prop in Hc as [Hc _]; lia).
  unfold utf8_char.
  pose proof (Z.mod_pos_bound c 64 ltac:(lia)). pose proof (Z.mod_pos_bound (c / 64) 64 ltac:(lia)).
  pose proof (Z.mod_pos_bound (c / 4096) 64 ltac:(lia)).
  destruct (Z.ltb_spec c 128); [repeat constructor; lia|].
  destruct (Z.ltb_spec c 2048).
  { assert (0 <= c / 64 < 32) by (split; [apply Z.div_pos|apply Z.div_lt_upper_bound]; lia). repeat constructor; lia. }
  destruct (Z.ltb_spec c 65536).
  { assert (0 <= c / 4096 < 16) by (split; [apply Z.div_pos|apply Z.div_lt_upper_bound]; lia). repeat constructor; lia. }
  assert (0 <= c / 262144 < 5) by (split; [apply Z.div_pos|apply Z.div_lt_upper_bound]; lia). repeat constructor; lia.
Qed.

Lemma utf8_wf s : forallb is_char s = true -> wf_bytes (utf8 s).
Proof.
  unfold utf8. induction s as [|c s IH]; simpl; intros H; [constructor|].
  apply andb_prop in H as [? ?]. auto using wf_bytes_app_2, utf8_char_wf.
Qed.

(** ** Counting in a list updated in place *)

Section Count.
Context {A : Type} (P : A -> Prop) `{!forall x, Decision (P x)}.

(** How many elements satisfy [P]. *)
Definition count (l : list A) : nat := length (filter P l).

Lemma count_app a b : count (a ++ b) = (count a + count b)%nat.
Proof. unfold count. by rewrite filter_app, length_app. Qed.

Lemma count_one x : count [x] = if decide (P x) then 1%nat else 0%nat.
Proof. unfold count. rewrite filter_cons, filter_nil. by case_decide. Qed.

Lemma count_le l : (count l ≤ length l)%nat.
Proof. apply length_filter. Qed.

Lemma count_insert l i x y : l !! i = Some x ->
  (count (<[i := y]> l) + (if decide (P x) then 1 else 0) = count l + (if decide (P y) then 1 else 0))%nat.
Proof.
  intros Hl. rewrite insert_take_drop by (by eapply lookup_lt_Some).
  assert (count l = count (take i l ++ [x] ++ drop (S i) l)) as ->.
  { cbn [app]. by rewrite (take_drop_middle l i _ Hl). }
  change (y :: drop (S i) l) with ([y] ++ drop (S i) l). rewrite !count_app, !count_one. lia.
Qed.

Lemma count_delete l i x : l !! i = Some x ->
  (count (delete i l) + (if decide (P x) then 1 else 0) = count l)%nat.
Proof.
  intros Hl. rewrite <- (take_drop_middle l i _ Hl) at 2. rewrite delete_take_drop, cons_middle, !count_app, count_one. lia.
Qed.

Lemma count_0 l i x : count l = 0%nat -> l !! i = Some x -> ~ P x.
Proof.
  intros Hz Hl Hx. pose proof (count_insert l i x x Hl). unfold count in Hz. apply nil_length_inv in Hz.
  assert (x ∈ filter P l) as Hin by (apply list_elem_of_filter; split; [done|by eapply list_elem_of_lookup_2]).
  rewrite Hz in Hin. by apply not_elem_of_nil in Hin.
Qed.

Lemma count_pos l i x : l !! i = Some x -> P x -> (1 ≤ count l)%nat.
Proof. intros Hl Hx. destruct (count l) as [|n] eqn:Ez; [by destruct (count_0 l i x Ez Hl)|lia]. Qed.

Lemma count_unique l i j x y : (count l ≤ 1)%nat -> l !! i = Some x -> l !! j = Some y -> P x -> P y -> i = j.
Proof.
  revert i j. induction l as [|z l IH]; intros i j Hc Hi Hj Hx Hy; [done|].
  change (z :: l) with ([z] ++ l) in Hc. rewrite count_app, count_one in Hc.
  destruct i as [|i], j as [|j]; cbn in Hi, Hj; [done| | |f_equal; apply IH; try done; lia].
  - injection Hi as ->. rewrite decide_True in Hc by done. pose proof (count_pos l j y Hj Hy). lia.
  - injection Hj as ->. rewrite decide_True in Hc by done. pose proof (count_pos l i x Hi Hx). lia.
Qed.
End Count.

(** ** Liveness

    [Q] is reached along every run of [R] from a state, and no run gets stuck
    before it is. *)

Section Eventually.
Context {S : Type} (R : S -> S -> Prop) (Q : S -> Prop).

Inductive eventually : S -> Prop :=
| eventually_now s : Q s -> eventually s
| eventually_later s : (exists s', R s s') -> (forall s', R s s' -> eventually s') -> eventually s.

(** An invariant, a step that is always there, and a lexicographic measure. *)
Lemma eventually_lex (I : S -> Prop) (r w : S -> nat) :
  (forall s, I s -> Q s \/ ((exists s', R s s') /\
     forall s', R s s' -> I s' /\ (r s' < r s \/ r s' = r s /\ w s' < w s)%nat)) ->
  forall s, I s -> eventually s.
Proof.
  intros Hstep s. remember (r s) as a eqn:Ea. revert s Ea.
  induction a as [a IHa] using (well_founded_induction lt_wf). intros s Ea.
  remember (w s) as b eqn:Eb. revert s Ea Eb.
  induction b as [b IHb] using (well_founded_induction lt_wf). intros s Ea Eb Hi.
  destruct (Hstep s Hi) as [|[Hex Hall]]; [by apply eventually_now|]. apply eventually_later; [done|].
  intros s' Hs'. destruct (Hall s' Hs') as [Hi' [Hlt|[Heq Hlt]]].
  - apply (IHa (r s')); [lia|done|done].
  - apply (IHb (w s')); [lia|congruence|done|done].
Qed.
End Eventually.

(** ** Simulations *)

(** What simulates every step simulates every run. *)
Lemma rtc_simulation {A B} (R : relation A) (T : relation B) (sim : A -> B -> Prop) :
  (forall x x' y, R x x' -> sim x y -> exists y', rtc T y y' /\ sim x' y') ->
  forall x x' y, rtc R x x' -> sim x y -> exists y', rtc T y y' /\ sim x' y'.
Proof.
  intros Hstep x x' y Hr. revert y. induction Hr as [x|x x1 x' Hst _ IH]; intros y Hs; [exists y; split; [apply rtc_refl|done]|].
  destruct (Hstep x x1 y Hst Hs) as (y1 & Hr1 & Hs1). destruct (IH y1 Hs1) as (y' & Hr' & Hs'). exists y'. split; [by etransitivity|done].
Qed.
