(* ===== verification/Errors.v ===== *)
(** * Error values ([crates/core/src/error.rs])

    The crate's [Error] enum, its hand-written [PartialEq] and [is_eof], with
    the part of [std::io::Error] the program inspects (kind and message). *)
From stdpp Require Import pretty.
From S2P Require Import Prelude.

(** The [std::io::ErrorKind]s the program produces or matches on. *)
Inductive ErrorKind :=
| ConnectionReset | ConnectionAborted | ConnectionRefused | BrokenPipe
| UnexpectedEof | TimedOut | WouldBlock | Interrupted | InvalidData
| WriteZero | AddrNotAvailable | NotFound | Other.

#[export] Instance ErrorKind_eq_dec : EqDecision ErrorKind.
Proof. solve_decision. Defined.

Record io_error := IoError { io_kind : ErrorKind; io_msg : string }.

Inductive Error :=
| Io (e : io_error)
| InvalidFrame
| InvalidBase94
| ChecksumMismatch
| InvalidSessionId
| HandshakeFailed (stage : string)
| FlagsMismatch
| RoleRefused
| FrameTooLarge (len : Z)
| ZeroLength
| InvalidConfig (what : string).

Definition is_eof (e : Error) : bool :=
  match e with
  | Io e => bool_decide (io_kind e = UnexpectedEof)
  | _ => false
  end.

(** The [#[error(..)]] texts: [Display for Error]. *)
Definition Error_display (e : Error) : string :=
  match e with
  | Io e => "io error: " +:+ io_msg e
  | InvalidFrame => "invalid frame"
  | InvalidBase94 => "invalid base94 data"
  | ChecksumMismatch => "first-frame checksum mismatch"
  | InvalidSessionId => "invalid session id"
  | HandshakeFailed stage => "handshake failed: " +:+ stage
  | FlagsMismatch => "obfuscation flags mismatch between client and server"
  | RoleRefused => "server refused the requested session role"
  | FrameTooLarge len => "frame too large: " +:+ pretty len
  | ZeroLength => "zero-length payload rejected"
  | InvalidConfig what => "invalid obfuscation config: " +:+ what
  end.

(** [impl PartialEq for Error]: I/O errors are compared by kind only. *)
Definition error_eq (a b : Error) : bool :=
  match a, b with
  | Io a, Io b => bool_decide (io_kind a = io_kind b)
  | InvalidFrame, InvalidFrame
  | InvalidBase94, InvalidBase94
  | ChecksumMismatch, ChecksumMismatch
  | InvalidSessionId, InvalidSessionId
  | FlagsMismatch, FlagsMismatch
  | RoleRefused, RoleRefused
  | ZeroLength, ZeroLength => true
  | HandshakeFailed a, HandshakeFailed b
  | InvalidConfig a, InvalidConfig b => bool_decide (a = b)
  | FrameTooLarge a, FrameTooLarge b => bool_decide (a = b)
  | _, _ => false
  end.

Definition error_equiv (a b : Error) : Prop := error_eq a b = true.

Ltac error_cases :=
  repeat match goal with
  | e : Error |- _ => destruct e
  end; unfold error_equiv, error_eq in *; simpl in *;
  rewrite ?bool_decide_eq_true in *; try congruence.

#[export] Instance error_equiv_refl : Reflexive error_equiv.
Proof. intros a. error_cases. Qed.
#[export] Instance error_equiv_sym : Symmetric error_equiv.
Proof. intros a b H. error_cases. Qed.
#[export] Instance error_equiv_trans : Transitive error_equiv.
Proof. intros a b c H1 H2. error_cases. Qed.

(** [impl Eq for Error] is justified: the relation is an equivalence. *)
#[export] Instance error_equiv_equivalence : Equivalence error_equiv.
Proof. split; apply _. Qed.

(** Equal errors are classified alike by [is_eof]. *)
#[export] Instance is_eof_proper : Proper (error_equiv ==> eq) is_eof.
Proof. intros a b H. error_cases. by rewrite H. Qed.
