(* ===== verification/Env.v ===== *)
(** * The environment of the protocol core

    Randomness ([R: Rng], the [rand] crate) as a type class of operations with
    a class of laws, and the byte transports ([T: Read + Write]) as in-memory
    streams with the failure they end in. *)
From S2P Require Import Prelude Errors.

(** ** Random number generators *)

(** The methods the code calls on its [R: Rng] parameter. *)
Class Rng (R : Type) := {
  random_range : Z -> Z -> R -> Z * R;   (** [rng.random_range(lo..=hi)] *)
  random_u64 : R -> Z * R;               (** [rng.random::<u64>()] *)
  random_u128 : R -> Z * R               (** [rng.random::<u128>()] *)
}.

(** The documented contract of those methods. *)
Class RngLaws (R : Type) `{Rng R} : Prop := {
  random_range_bounds lo hi r : lo <= hi -> lo <= fst (random_range lo hi r) <= hi;
  random_u64_bounds r : is_u64 (fst (random_u64 r));
  random_u128_bounds r : is_u128 (fst (random_u128 r))
}.

(** A generator that replays a tape, reduced into the requested range; used by
    the concrete instances. *)
Definition tape := list Z.

Definition tape_next (t : tape) : Z * tape :=
  match t with [] => (0, []) | x :: t => (x, t) end.

#[export] Instance tape_rng : Rng tape := {
  random_range lo hi t := let (x, t) := tape_next t in (lo + x mod (hi - lo + 1), t);
  random_u64 t := let (x, t) := tape_next t in (u64 x, t);
  random_u128 t := let (x, t) := tape_next t in (u128 x, t)
}.

#[export] Instance tape_rng_laws : RngLaws tape.
Proof.
  split; intros; simpl; destruct (tape_next _) as [x t]; simpl.
  - pose proof (Z.mod_pos_bound x (hi - lo + 1) ltac:(lia)). lia.
  - apply Z.mod_pos_bound. lia.
  - apply Z.mod_pos_bound. lia.
Qed.

(** Draw [n] values of [random_range(lo..=hi)], in order. *)
Fixpoint random_bytes {R} `{Rng R} (n : nat) (lo hi : Z) (rng : R) : bytes * R :=
  match n with
  | O => ([], rng)
  | S n =>
      let (b, rng) := random_range lo hi rng in
      let (l, rng) := random_bytes n lo hi rng in
      (b :: l, rng)
  end.

Lemma random_bytes_bounds {R} `{RngLaws R} n lo hi rng :
  lo <= hi -> Forall (fun b => lo <= b <= hi) (fst (random_bytes n lo hi rng)).
Proof.
  intros Hle. revert rng. induction n as [|n IH]; intros rng; [constructor|]. cbn [random_bytes].
  pose proof (random_range_bounds lo hi rng Hle) as Hb.
  destruct (random_range lo hi rng) as [b rng']. specialize (IH rng').
  destruct (random_bytes n lo hi rng') as [l rng'']. by constructor.
Qed.

Lemma random_bytes_length {R} `{Rng R} n lo hi (rng : R) : length (fst (random_bytes n lo hi rng)) = n.
Proof.
  revert rng. induction n as [|n IH]; intros rng; [done|]. cbn [random_bytes].
  destruct (random_range lo hi rng) as [b rng']. specialize (IH rng').
  destruct (random_bytes n lo hi rng') as [l rng'']. simpl in *. by rewrite IH.
Qed.

Lemma random_bytes_wf {R} `{RngLaws R} n lo hi (rng : R) :
  0 <= lo -> lo <= hi -> hi < 256 -> wf_bytes (fst (random_bytes n lo hi rng)).
Proof.
  intros. eapply Forall_impl; [by apply random_bytes_bounds|]. simpl. lia.
Qed.

(** ** Input streams *)

(** The bytes still to come and how the stream ends: [None] is end of file,
    [Some e] a transport failure. *)
Record reader := Reader { rd_data : bytes; rd_end : option io_error }.

Definition fill_error : io_error := IoError UnexpectedEof "failed to fill whole buffer".

(** [r.read_exact(&mut [0; n])]. *)
Definition read_exact (n : nat) (r : reader) : result Error bytes * reader :=
  if (n <=? length (rd_data r))%nat
  then (Ok (take n (rd_data r)), Reader (drop n (rd_data r)) (rd_end r))
  else (Err (Io (default fill_error (rd_end r))), Reader [] (rd_end r)).

(** [r.by_ref().take(n).read_to_end(&mut buf)]: the bytes read. *)
Definition read_take (n : nat) (r : reader) : result Error bytes * reader :=
  if (n <=? length (rd_data r))%nat
  then (Ok (take n (rd_data r)), Reader (drop n (rd_data r)) (rd_end r))
  else
    match rd_end r with
    | None => (Ok (rd_data r), Reader [] None)
    | Some e => (Err (Io e), Reader [] (Some e))
    end.

Lemma read_exact_app n a b e :
  length a = n -> read_exact n (Reader (a ++ b) e) = (Ok a, Reader b e).
Proof.
  intros <-. unfold read_exact. cbn [rd_data rd_end]. rewrite length_app.
  destruct (Nat.leb_spec (length a) (length a + length b)); [|lia].
  by rewrite take_app_length, drop_app_length.
Qed.

Lemma read_take_app n a b e :
  length a = n -> read_take n (Reader (a ++ b) e) = (Ok a, Reader b e).
Proof.
  intros <-. unfold read_take. cbn [rd_data rd_end]. rewrite length_app.
  destruct (Nat.leb_spec (length a) (length a + length b)); [|lia].
  by rewrite take_app_length, drop_app_length.
Qed.

(** ** Output streams *)

(** The bytes written so far and the failure every further write meets. *)
Record writer := Writer { wr_out : bytes; wr_err : option io_error }.

(** [w.write_all(data)]. *)
Definition write_all (data : bytes) (w : writer) : result Error unit * writer :=
  match wr_err w with
  | None => (Ok tt, Writer (wr_out w ++ data) None)
  | Some e => (Err (Io e), w)
  end.

(** A transport: its two directions. *)
Record duplex := Duplex { io_rd : reader; io_wr : writer }.
