(* ===== verification/Ssea.v ===== *)
(** * SSEA obfuscation primitives ([crates/core/src/crypto/ssea.rs])

    The LCG, Lemire's fast modulo, the key-driven swap chain [shuffle] and its
    inverse, and the evolving XOR mask.  The delta transforms are in [Simd]. *)
From S2P Require Import Prelude.

Module Lcg.

Definition LCG_A : Z := 1103515245.
Definition LCG_C : Z := 12345.
Definition LCG_A2 : Z := u32 (LCG_A * LCG_A).
Definition LCG_C2 : Z := u32 (LCG_C * u32 (LCG_A + 1)).
Definition LCG_A3 : Z := u32 (LCG_A2 * LCG_A).
Definition LCG_C3 : Z := u32 (u32 (u32 (LCG_C * LCG_A2) + u32 (LCG_C * LCG_A)) + LCG_C).

(** [lcg_next(&mut seed)]: the 31-bit output and the new seed. *)
Definition lcg_next (seed : Z) : Z * Z :=
  let next1 := u32 (u32 (seed * LCG_A) + LCG_C) in
  let next2 := u32 (u32 (seed * LCG_A2) + LCG_C2) in
  let next3 := u32 (u32 (seed * LCG_A3) + LCG_C3) in
  (Z.lor (Z.lor (u32 (Z.shiftl (Z.land (Z.shiftr next1 16) 2047) 20))
                (u32 (Z.shiftl (Z.land (Z.shiftr next2 16) 1023) 10)))
         (Z.land (Z.shiftr next3 16) 1023),
   next3).

(** [lcg_range(&mut seed, min, max)]. *)
Definition lcg_range (seed min max : Z) : Z * Z :=
  let (v, seed') := lcg_next seed in
  (u32 (v mod (u32 (max - min + 1)) + min), seed').

(** The original three chained steps (the reference the test
    [lcg_restructure_matches_reference] compares against). *)
Definition lcg_next_reference (seed : Z) : Z * Z :=
  let next := u32 (u32 (seed * 1103515245) + 12345) in
  let result := (next / 65536) mod 2048 in
  let next := u32 (u32 (next * 1103515245) + 12345) in
  let result := Z.lxor (u32 (Z.shiftl result 10)) ((next / 65536) mod 1024) in
  let next := u32 (u32 (next * 1103515245) + 12345) in
  let result := Z.lxor (u32 (Z.shiftl result 10)) ((next / 65536) mod 1024) in
  (result, next).

(** An LCG step and the composition of two of them. *)
Definition affine (a c x : Z) : Z := u32 (u32 (x * a) + c).

Lemma u32_idemp_add_l a b : u32 (u32 a + b) = u32 (a + b).
Proof. unfold u32. by rewrite Z.add_mod_idemp_l. Qed.

Lemma affine_compose a1 c1 a2 c2 x :
  affine a2 c2 (affine a1 c1 x) = affine (u32 (a1 * a2)) (u32 (u32 (c1 * a2) + c2)) x.
Proof.
  unfold affine. rewrite !u32_idemp_add_l. unfold u32.
  rewrite Zplus_mod, Zmult_mod_idemp_l, <- Zplus_mod.
  rewrite (Zplus_mod (x * _)), (Zmult_mod x), !Z.mod_mod, <- Zmult_mod, <- Zplus_mod by lia.
  f_equal. ring.
Qed.

Lemma land_1023 x : Z.land x 1023 = x mod 1024.
Proof. apply (Z.land_ones x 10). lia. Qed.
Lemma land_2047 x : Z.land x 2047 = x mod 2048.
Proof. apply (Z.land_ones x 11). lia. Qed.

Lemma u32_id x : is_u32 x -> u32 x = x.
Proof. apply Z.mod_small. Qed.

(** Both ways of packing the 11/10/10-bit fields are the same sum. *)
Lemma pack_or a b c :
  0 <= a < 2048 -> 0 <= b < 1024 -> 0 <= c < 1024 ->
  Z.lor (Z.lor (u32 (Z.shiftl a 20)) (u32 (Z.shiftl b 10))) c = a * 2 ^ 20 + b * 2 ^ 10 + c.
Proof.
  intros. rewrite !u32_id by (rewrite Z.shiftl_mul_pow2 by lia; lia).
  rewrite (lor_disjoint_add 20) by (try rewrite Z.shiftl_mul_pow2 by lia; lia).
  rewrite Z.shiftl_mul_pow2 by lia.
  replace (a * 2 ^ 20 + b * 2 ^ 10) with (Z.shiftl (a * 2 ^ 10 + b) 10)
    by (rewrite Z.shiftl_mul_pow2 by lia; lia).
  rewrite (lor_disjoint_add 10) by lia. rewrite Z.shiftl_mul_pow2 by lia. lia.
Qed.

Lemma pack_xor a b c :
  0 <= a < 2048 -> 0 <= b < 1024 -> 0 <= c < 1024 ->
  Z.lxor (u32 (Z.shiftl (Z.lxor (u32 (Z.shiftl a 10)) b) 10)) c = a * 2 ^ 20 + b * 2 ^ 10 + c.
Proof.
  intros. rewrite (u32_id (Z.shiftl a 10)) by (rewrite Z.shiftl_mul_pow2 by lia; lia).
  rewrite (lxor_disjoint_add 10) by lia.
  rewrite u32_id by (rewrite Z.shiftl_mul_pow2 by lia; lia).
  rewrite (lxor_disjoint_add 10) by lia. lia.
Qed.

Lemma lcg_next_unfold seed :
  lcg_next seed =
    let next1 := affine LCG_A LCG_C seed in
    let next2 := affine LCG_A LCG_C next1 in
    let next3 := affine LCG_A LCG_C next2 in
    ((next1 / 65536) mod 2048 * 2 ^ 20 + (next2 / 65536) mod 1024 * 2 ^ 10
       + (next3 / 65536) mod 1024, next3).
Proof.
  cbv zeta. rewrite !affine_compose. unfold lcg_next. cbv zeta.
  rewrite !land_1023, land_2047, !Z.shiftr_div_pow2, pack_or by
    (try lia; apply Z.mod_pos_bound; lia).
  reflexivity.
Qed.

Lemma lcg_next_reference_unfold seed : lcg_next_reference seed = lcg_next seed.
Proof.
  rewrite lcg_next_unfold. unfold lcg_next_reference. cbv zeta.
  rewrite pack_xor by (apply Z.mod_pos_bound; lia). reflexivity.
Qed.

Lemma lcg_next_31bit seed : 0 <= fst (lcg_next seed) < 2 ^ 31.
Proof.
  rewrite lcg_next_unfold. cbv zeta. cbn [fst].
  pose proof (Z.mod_pos_bound (affine LCG_A LCG_C seed / 65536) 2048 ltac:(lia)).
  pose proof (Z.mod_pos_bound (affine LCG_A LCG_C (affine LCG_A LCG_C seed) / 65536) 1024 ltac:(lia)).
  pose proof (Z.mod_pos_bound
    (affine LCG_A LCG_C (affine LCG_A LCG_C (affine LCG_A LCG_C seed)) / 65536) 1024 ltac:(lia)).
  lia.
Qed.

Lemma lcg_range_bounds seed lo hi :
  0 <= lo -> lo <= hi -> hi < 2 ^ 32 - 1 ->
  lo <= fst (lcg_range seed lo hi) <= hi.
Proof.
  intros Hl Hh Hb. unfold lcg_range. destruct (lcg_next seed) as [v s]. cbn [fst].
  rewrite (u32_id (hi - lo + 1)) by lia.
  pose proof (Z.mod_pos_bound v (hi - lo + 1) ltac:(lia)).
  rewrite u32_id by lia. lia.
Qed.

End Lcg.

Module FastMod.

(** [fastmod_magic(d)]: [u64::MAX / d + 1]. *)
Definition fastmod_magic (d : Z) : Z := u64 ((2 ^ 64 - 1) / d + 1).

(** [fast_mod(x, magic, d)]. *)
Definition fast_mod (x magic d : Z) : Z :=
  let lowbits := u64 (magic * x) in
  u32 (Z.shiftr (u128 (lowbits * d)) 64).

Lemma magic_spec d : 2 <= d < 2 ^ 32 ->
  exists e, fastmod_magic d * d = 2 ^ 64 + e /\ 0 <= e < d.
Proof.
  intros Hd. pose proof (Z.div_mod (2 ^ 64 - 1) d ltac:(lia)) as Hdm.
  pose proof (Z.mod_pos_bound (2 ^ 64 - 1) d ltac:(lia)) as Hr.
  assert ((2 ^ 64 - 1) / d <= (2 ^ 64 - 1) / 2) by (apply Z.div_le_compat_l; lia).
  assert (0 <= (2 ^ 64 - 1) / d) by (apply Z.div_pos; lia).
  unfold fastmod_magic, u64. rewrite Z.mod_small by lia.
  exists (d - 1 - (2 ^ 64 - 1) mod d). lia.
Qed.

Lemma fast_mod_mod x d : is_u32 x -> 2 <= d < 2 ^ 32 -> fast_mod x (fastmod_magic d) d = x mod d.
Proof.
  intros Hx Hd. destruct (magic_spec d Hd) as (e & He & Hed).
  set (M := fastmod_magic d) in *.
  pose proof (Z.div_mod x d ltac:(lia)) as Hdm. pose proof (Z.mod_pos_bound x d ltac:(lia)) as Hr.
  set (q := x / d) in *. set (r := x mod d) in *.
  assert (0 <= q) by (apply Z.div_pos; lia).
  assert (He64 : 0 <= e * x < 2 ^ 64) by nia.
  assert (HMx : M * x = q * 2 ^ 64 + (q * e + M * r)) by nia.
  assert (Hlow : d * (q * e + M * r) = r * 2 ^ 64 + e * x) by nia.
  assert (HM0 : 0 <= q * e + M * r) by nia.
  assert (Hlt : q * e + M * r < 2 ^ 64) by nia.
  unfold fast_mod. cbv zeta.
  assert (Hlb : u64 (M * x) = q * e + M * r).
  { unfold u64. rewrite HMx, Z.add_comm, Z.mod_add by lia. apply Z.mod_small. lia. }
  rewrite Hlb, (Z.mul_comm _ d), Hlow.
  unfold u128, u32. rewrite (Z.mod_small (r * 2 ^ 64 + e * x)) by nia.
  rewrite Z.shiftr_div_pow2, Z.add_comm, Z.div_add, Z.div_small, Z.add_0_l by lia.
  apply Z.mod_small. lia.
Qed.

End FastMod.

Import Lcg FastMod.

Module Shuffle.

(** The swap partner of index [i]: [fast_mod((i as u32) ^ key, magic, size32)]. *)
Definition partner (size : nat) (key : Z) (i : nat) : nat :=
  let size32 := Z.of_nat size in
  let magic := fastmod_magic size32 in
  Z.to_nat (fast_mod (Z.lxor (u32 (Z.of_nat i)) key) magic size32).

(** [shuffle]: the code panics on slices of 4 GiB and more
    ([u32::try_from(size).expect(..)]); such sizes are outside the model. *)
Definition shuffle (data : bytes) (key : Z) : bytes :=
  let size := length data in
  if (size <? 2)%nat then data
  else swap_chain (partner size key) data (seq 0 size).

Definition unshuffle (data : bytes) (key : Z) : bytes :=
  let size := length data in
  if (size <? 2)%nat then data
  else swap_chain (partner size key) data (rev (seq 0 size)).

(** The specification the code optimises: hardware [%]. *)
Definition shuffle_reference (data : bytes) (key : Z) : bytes :=
  swap_chain (fun i => Z.to_nat (Z.lxor (Z.of_nat i) key mod Z.of_nat (length data)))
    data (seq 0 (length data)).

Lemma partner_mod size key i :
  (2 ≤ size)%nat -> Z.of_nat size < 2 ^ 32 -> (i < size)%nat -> is_u32 key ->
  partner size key i = Z.to_nat (Z.lxor (Z.of_nat i) key mod Z.of_nat size).
Proof.
  intros. unfold partner. rewrite u32_id by lia.
  rewrite fast_mod_mod; [done| |lia]. apply (lxor_bound 32); lia.
Qed.

Lemma partner_in_range size key i :
  (2 ≤ size)%nat -> Z.of_nat size < 2 ^ 32 -> (i < size)%nat -> is_u32 key ->
  (partner size key i < size)%nat.
Proof.
  intros. rewrite partner_mod by done.
  pose proof (Z.mod_pos_bound (Z.lxor (Z.of_nat i) key) (Z.of_nat size) ltac:(lia)). lia.
Qed.

Lemma shuffle_length data key : length (shuffle data key) = length data.
Proof. unfold shuffle. destruct (_ <? _)%nat; [done|]. apply swap_chain_length. Qed.

Lemma unshuffle_length data key : length (unshuffle data key) = length data.
Proof. unfold unshuffle. destruct (_ <? _)%nat; [done|]. apply swap_chain_length. Qed.

Lemma shuffle_permutation data key : shuffle data key ≡ₚ data.
Proof. unfold shuffle. destruct (_ <? _)%nat; [done|]. apply swap_chain_permutation. Qed.

Lemma unshuffle_permutation data key : unshuffle data key ≡ₚ data.
Proof. unfold unshuffle. destruct (_ <? _)%nat; [done|]. apply swap_chain_permutation. Qed.

Lemma shuffle_wf data key : wf_bytes data -> wf_bytes (shuffle data key).
Proof. unfold wf_bytes. by rewrite (shuffle_permutation data key). Qed.

Lemma unshuffle_wf data key : wf_bytes data -> wf_bytes (unshuffle data key).
Proof. unfold wf_bytes. by rewrite (unshuffle_permutation data key). Qed.

Lemma unshuffle_shuffle_id data key : unshuffle (shuffle data key) key = data.
Proof.
  unfold unshuffle. rewrite shuffle_length. unfold shuffle.
  destruct (_ <? _)%nat; [done|]. apply swap_chain_rev.
Qed.

Lemma shuffle_unshuffle_id data key : shuffle (unshuffle data key) key = data.
Proof.
  unfold shuffle. rewrite unshuffle_length. unfold unshuffle.
  destruct (_ <? _)%nat; [done|].
  rewrite <- (rev_involutive (seq 0 (length data))) at 2. apply swap_chain_rev.
Qed.

Lemma swap_chain_ext {A} (f g : nat -> nat) (l : list A) ix :
  (forall i, In i ix -> f i = g i) -> swap_chain f l ix = swap_chain g l ix.
Proof.
  revert l. induction ix as [|i ix IH]; intros l H; [done|]. unfold swap_chain in *. simpl.
  rewrite (H i) by (by left). apply IH. intros. apply H. by right.
Qed.

Lemma shuffle_is_reference data key :
  Z.of_nat (length data) < 2 ^ 32 -> is_u32 key ->
  shuffle data key = shuffle_reference data key.
Proof.
  intros Hl Hk. unfold shuffle, shuffle_reference.
  destruct (Nat.ltb_spec (length data) 2) as [Hs|Hs].
  - destruct data as [|x [|y data]]; simpl in *; try done; try lia.
    unfold swap_chain, swap. simpl. by rewrite Z.mod_1_r.
  - apply swap_chain_ext. intros i Hi. apply in_seq in Hi. apply partner_mod; lia || done.
Qed.

End Shuffle.

Module MaskedXor.

(** The loop over the 4-byte words: [v = u32::from_le_bytes(word) ^ kf]. *)
Fixpoint mask_words (chunks : list bytes) (kf : Z) : list bytes * Z :=
  match chunks with
  | [] => ([], kf)
  | word :: chunks =>
      let v := Z.lxor (le_val word) kf in
      let (out, kf') := mask_words chunks (fst (lcg_next kf)) in
      (le_bytes 4 v :: out, kf')
  end.

(** The 2-byte half-word and the final odd byte of the remainder. *)
Definition mask_rest (rest : bytes) (kf : Z) : bytes :=
  let (rest, kf) :=
    match rest with
    | r0 :: r1 :: tl =>
        let v := Z.lxor (le_val [r0; r1]) (u16 kf) in
        (le_bytes 2 v ++ tl, fst (lcg_next kf))
    | _ => (rest, kf)
    end in
  if (length rest mod 2 =? 1)%nat
  then alter (fun b => Z.lxor b (u8 kf)) (length rest - 1)%nat rest
  else rest.

Definition masked_xor_random_next (data : bytes) (kf : Z) : bytes :=
  let kf := fst (lcg_next kf) in
  let (chunks, rest) := as_chunks 4 data in
  let (out, kf) := mask_words chunks kf in
  concat out ++ mask_rest rest kf.

(** The key stream the mask amounts to. *)
Fixpoint word_stream (n : nat) (kf : Z) : bytes * Z :=
  match n with
  | O => ([], kf)
  | S n => let (s, kf') := word_stream n (fst (lcg_next kf)) in (le_bytes 4 kf ++ s, kf')
  end.

Definition rest_stream (n : nat) (kf : Z) : bytes :=
  match n with
  | O => []
  | 1%nat => [u8 kf]
  | 2%nat => le_bytes 2 kf
  | _ => le_bytes 2 kf ++ [u8 (fst (lcg_next kf))]
  end.

Definition mask_stream (n : nat) (kf : Z) : bytes :=
  let (s, kf') := word_stream (n / 4) (fst (lcg_next kf)) in
  s ++ rest_stream (n mod 4) kf'.

Lemma le_bytes_4_word w kf :
  wf_bytes w -> length w = 4%nat ->
  le_bytes 4 (Z.lxor (le_val w) kf) = xor_bytes w (le_bytes 4 kf).
Proof. intros Hw Hl. by rewrite le_bytes_lxor, <- Hl, le_bytes_val. Qed.

Lemma word_stream_length n kf : length (fst (word_stream n kf)) = (4 * n)%nat.
Proof.
  revert kf. induction n as [|n IH]; intros; [done|]. cbn [word_stream].
  specialize (IH (fst (lcg_next kf))). destruct (word_stream n _). cbn [fst] in *.
  rewrite length_app, le_bytes_length. lia.
Qed.

Lemma word_stream_wf n kf : wf_bytes (fst (word_stream n kf)).
Proof.
  revert kf. induction n as [|n IH]; intros; [constructor|]. cbn [word_stream].
  specialize (IH (fst (lcg_next kf))). destruct (word_stream n _). cbn [fst] in *.
  auto with bytes.
Qed.

Lemma rest_stream_length n kf : (n < 4)%nat -> length (rest_stream n kf) = n.
Proof. intros. by do 4 (destruct n as [|n]; [done|]); lia. Qed.

Lemma rest_stream_wf n kf : wf_bytes (rest_stream n kf).
Proof.
  assert (forall z, wf_bytes [u8 z]) as H by (intros; apply wf_bytes_cons; auto with bytes).
  destruct n as [|[|[|n]]]; cbn [rest_stream]; auto with bytes.
Qed.

Lemma mask_rest_xor rest kf :
  wf_bytes rest -> (length rest < 4)%nat ->
  mask_rest rest kf = xor_bytes rest (rest_stream (length rest) kf).
Proof.
  intros Hw Hl. unfold mask_rest.
  destruct rest as [|r0 [|r1 [|r2 [|r3 rest]]]]; try (simpl in Hl; lia); try done;
    assert (le_bytes 2 (Z.lxor (le_val [r0; r1]) (u16 kf)) = xor_bytes [r0; r1] (le_bytes 2 kf)) as ->
      by (rewrite le_bytes_lxor; f_equal;
          [apply (le_bytes_val [r0; r1]);
             repeat (apply wf_bytes_cons in Hw as [? Hw]); repeat (apply wf_bytes_cons; split); auto with bytes
          |apply (le_bytes_mod 2 2); lia]); done.
Qed.

Lemma mask_words_xor chunks kf :
  Forall (fun c => length c = 4%nat /\ wf_bytes c) chunks ->
  mask_words chunks kf = (fst (mask_words chunks kf), snd (word_stream (length chunks) kf)) /\
  concat (fst (mask_words chunks kf)) =
    xor_bytes (concat chunks) (fst (word_stream (length chunks) kf)).
Proof.
  intros H. revert kf. induction H as [|c cs [Hc Hw] Hcs IH]; intros kf; [done|].
  cbn [mask_words word_stream length]. specialize (IH (fst (lcg_next kf))).
  destruct (mask_words cs _) as [out kf'], (word_stream (length cs) _) as [s kf''].
  cbn [fst snd concat] in *. destruct IH as [[=->] IH]. split; [done|].
  rewrite IH, le_bytes_4_word by done. rewrite xor_bytes_app; [done|]. by rewrite le_bytes_length.
Qed.

Lemma as_chunks_count {A} n (l : list A) :
  (0 < n)%nat ->
  length (fst (as_chunks n l)) = (length l / n)%nat /\
  length (snd (as_chunks n l)) = (length l mod n)%nat.
Proof.
  intros Hn. pose proof (as_chunks_concat n l Hn) as H.
  destruct (as_chunks n l) as [cs t]. destruct H as (-> & Hcs & Ht). cbn [fst snd].
  assert (Hlen : length (concat cs) = (length cs * n)%nat).
  { clear Ht. induction Hcs; simpl; [done|]. rewrite length_app. lia. }
  rewrite length_app, Hlen. split.
  - rewrite Nat.add_comm, Nat.div_add by lia. rewrite Nat.div_small by done. done.
  - rewrite Nat.add_comm, Nat.Div0.mod_add. by rewrite Nat.mod_small.
Qed.

Lemma masked_xor_stream data kf :
  wf_bytes data ->
  masked_xor_random_next data kf = xor_bytes data (mask_stream (length data) kf).
Proof.
  intros Hw. unfold masked_xor_random_next, mask_stream.
  pose proof (as_chunks_concat 4 data ltac:(lia)) as H.
  pose proof (as_chunks_count 4 data ltac:(lia)) as [Hc Hr].
  destruct (as_chunks 4 data) as [cs t]. destruct H as (-> & Hcs & Ht). cbn [fst snd] in *.
  rewrite <- Hc, <- Hr. clear Hc Hr. apply wf_bytes_app in Hw as [Hw Hwt].
  assert (Forall (fun c => length c = 4%nat /\ wf_bytes c) cs) as Hall.
  { clear Ht Hwt. induction Hcs; constructor; simpl in Hw; apply wf_bytes_app in Hw as [??]; auto. }
  pose proof (mask_words_xor cs (fst (lcg_next kf)) Hall) as [E1 E2].
  pose proof (word_stream_length (length cs) (fst (lcg_next kf))) as Hlen.
  destruct (mask_words cs _) as [out kf'], (word_stream (length cs) _) as [s kf'']. cbn [fst snd] in *.
  injection E1 as ->. rewrite E2, mask_rest_xor by done. symmetry. apply xor_bytes_app.
  rewrite Hlen. clear -Hcs. induction Hcs; simpl; [done|]. rewrite length_app. lia.
Qed.

Lemma mask_stream_length n kf : length (mask_stream n kf) = n.
Proof.
  unfold mask_stream. pose proof (word_stream_length (n / 4) (fst (lcg_next kf))) as H.
  destruct (word_stream _ _) as [s kf']. cbn [fst] in H.
  rewrite length_app, H, rest_stream_length by (apply Nat.mod_upper_bound; lia).
  pose proof (Nat.div_mod_eq n 4). lia.
Qed.

Lemma mask_stream_wf n kf : wf_bytes (mask_stream n kf).
Proof.
  unfold mask_stream. pose proof (word_stream_wf (n / 4) (fst (lcg_next kf))) as H.
  destruct (word_stream _ _) as [s kf']. apply wf_bytes_app_2; [done|apply rest_stream_wf].
Qed.

Lemma masked_xor_length data kf :
  wf_bytes data -> length (masked_xor_random_next data kf) = length data.
Proof. intros. rewrite masked_xor_stream, xor_bytes_length by (rewrite ?mask_stream_length; auto). done. Qed.

Lemma masked_xor_wf data kf : wf_bytes data -> wf_bytes (masked_xor_random_next data kf).
Proof. intros. rewrite masked_xor_stream by done. auto using mask_stream_wf with bytes. Qed.

Lemma masked_xor_involutive data kf :
  wf_bytes data -> masked_xor_random_next (masked_xor_random_next data kf) kf = data.
Proof.
  intros H. rewrite masked_xor_stream, masked_xor_length by auto using masked_xor_wf.
  rewrite masked_xor_stream by done. apply xor_bytes_cancel. by rewrite mask_stream_length.
Qed.

End MaskedXor.

(** ** Properties *)

Import Shuffle MaskedXor.

(** The restructured LCG step (three precomputed multiplier/increment
    pairs, no data dependence between the three states) computes the same
    output and the same next seed as the chained reference generator, for every
    seed, and its output is a 31-bit number. *)
Theorem lcg_restructure_correct seed :
  lcg_next seed = lcg_next_reference seed /\ 0 <= fst (lcg_next seed) < 2 ^ 31.
Proof. split; [by rewrite lcg_next_reference_unfold|apply lcg_next_31bit]. Qed.

(** C21: for every slice the code accepts and every key, the shuffle by
    reciprocal multiplication is the specification with hardware [%] (so the
    fast modulo is exact and every raw-pointer swap stays inside the slice), it
    is a permutation of the bytes, and [unshuffle] undoes it on both sides. *)
Theorem shuffle_correct data key :
  Z.of_nat (length data) < 2 ^ 32 -> is_u32 key ->
  shuffle data key = shuffle_reference data key /\
  (forall i, (2 ≤ length data)%nat -> (i < length data)%nat -> (partner (length data) key i < length data)%nat) /\
  shuffle data key ≡ₚ data /\
  unshuffle (shuffle data key) key = data /\ shuffle (unshuffle data key) key = data.
Proof.
  intros Hl Hk. split; [by apply shuffle_is_reference|].
  split; [intros; by apply partner_in_range|]. split; [apply shuffle_permutation|].
  split; [apply unshuffle_shuffle_id|apply shuffle_unshuffle_id].
Qed.

Lemma shuffle_correct_witness :
  shuffle [10; 20; 30; 40; 50; 60; 70] 42 = shuffle_reference [10; 20; 30; 40; 50; 60; 70] 42.
Proof. apply (shuffle_correct [10; 20; 30; 40; 50; 60; 70] 42); [simpl|]; lia. Defined.

(** [masked_xor_random_next] is a stream cipher: on bytes it is the XOR with
    a mask that depends on the key and the length only, so applying it twice
    restores the data, and it maps bytes to as many bytes. *)
Theorem masked_xor_stream_cipher data kf :
  wf_bytes data ->
  masked_xor_random_next data kf = xor_bytes data (mask_stream (length data) kf) /\
  masked_xor_random_next (masked_xor_random_next data kf) kf = data /\
  wf_bytes (masked_xor_random_next data kf) /\
  length (masked_xor_random_next data kf) = length data.
Proof.
  intros. split; [by apply masked_xor_stream|]. split; [by apply masked_xor_involutive|].
  split; [by apply masked_xor_wf|by apply masked_xor_length].
Qed.

Lemma masked_xor_stream_cipher_witness :
  masked_xor_random_next (masked_xor_random_next [1; 2; 3; 4; 255] 305419896) 305419896 = [1; 2; 3; 4; 255].
Proof. apply (masked_xor_stream_cipher [1; 2; 3; 4; 255] 305419896). by apply wf_bytes_eval. Defined.
