(* ===== verification/Simd.v ===== *)
(** * Delta kernels ([crates/core/src/crypto/simd.rs], [ssea::delta_*])

    The scalar reference and the SSE2 and NEON kernels, lane by lane, and the
    proof that the three compute the same bytes. *)
From S2P Require Import Prelude.

(** ** Scalar reference ([mod scalar]) *)
Module Scalar.

(** The loop body of [delta_encode] over [data[1..]], carrying [prev]. *)
Fixpoint encode_from (prev : Z) (data : bytes) : bytes :=
  match data with
  | [] => []
  | cur :: data => u8 (cur - prev) :: encode_from cur data
  end.

Definition delta_encode (data : bytes) (kf8 : Z) : bytes :=
  match data with
  | [] => []
  | d0 :: rest => u8 (d0 - kf8) :: encode_from d0 rest
  end.

Fixpoint decode_from (prev : Z) (data : bytes) : bytes :=
  match data with
  | [] => []
  | b :: data => let prev := u8 (prev + b) in prev :: decode_from prev data
  end.

Definition delta_decode (data : bytes) (kf8 : Z) : bytes :=
  match data with
  | [] => []
  | d0 :: rest => let prev := u8 (d0 + kf8) in prev :: decode_from prev rest
  end.

Lemma encode_from_length prev l : length (encode_from prev l) = length l.
Proof. revert prev. induction l; intros; simpl; auto. Qed.
Lemma decode_from_length prev l : length (decode_from prev l) = length l.
Proof. revert prev. induction l; intros; simpl; auto. Qed.
Lemma scalar_encode_length l k : length (delta_encode l k) = length l.
Proof. destruct l; simpl; [done|]. by rewrite encode_from_length. Qed.
Lemma scalar_decode_length l k : length (delta_decode l k) = length l.
Proof. destruct l; simpl; [done|]. by rewrite decode_from_length. Qed.

Lemma encode_from_wf prev l : wf_bytes (encode_from prev l).
Proof. revert prev. induction l; intros; simpl; [auto with bytes|]. apply wf_bytes_cons. auto with bytes. Qed.
Lemma decode_from_wf prev l : wf_bytes (decode_from prev l).
Proof. revert prev. induction l; intros; simpl; [auto with bytes|]. apply wf_bytes_cons. auto with bytes. Qed.
Lemma scalar_encode_wf l k : wf_bytes (delta_encode l k).
Proof. destruct l; simpl; [auto with bytes|]. apply wf_bytes_cons. auto using encode_from_wf with bytes. Qed.
Lemma scalar_decode_wf l k : wf_bytes (delta_decode l k).
Proof. destruct l; simpl; [auto with bytes|]. apply wf_bytes_cons. auto using decode_from_wf with bytes. Qed.

Lemma u8_sub_add a b : is_byte b -> u8 (a + u8 (b - a)) = b.
Proof.
  intros. unfold u8. rewrite Z.add_mod_idemp_r by lia.
  replace (a + (b - a)) with b by lia. apply Z.mod_small. lia.
Qed.

Lemma u8_add_sub a b : is_byte b -> u8 (u8 (a + b) - a) = b.
Proof.
  intros. unfold u8. rewrite Zminus_mod_idemp_l.
  replace (a + b - a) with b by lia. apply Z.mod_small. lia.
Qed.

Lemma decode_encode_from prev l : wf_bytes l -> decode_from prev (encode_from prev l) = l.
Proof.
  intros H. revert prev. induction H as [|b l Hb _ IH]; intros; [done|]. simpl.
  by rewrite u8_sub_add, IH.
Qed.

Lemma encode_decode_from prev l : wf_bytes l -> encode_from prev (decode_from prev l) = l.
Proof.
  intros H. revert prev. induction H as [|b l Hb _ IH]; intros; [done|]. simpl.
  by rewrite u8_add_sub, IH.
Qed.

Lemma scalar_decode_encode l k : wf_bytes l -> delta_decode (delta_encode l k) k = l.
Proof.
  intros H. destruct H as [|b l Hb Hl]; [done|]. simpl.
  replace (u8 (b - k) + k) with (k + u8 (b - k)) by lia.
  by rewrite u8_sub_add, decode_encode_from.
Qed.

Lemma scalar_encode_decode l k : wf_bytes l -> delta_encode (delta_decode l k) k = l.
Proof.
  intros H. destruct H as [|b l Hb Hl]; [done|]. simpl.
  rewrite (Z.add_comm b). by rewrite u8_add_sub, encode_decode_from.
Qed.

Lemma encode_from_app prev a b :
  encode_from prev (a ++ b) = encode_from prev a ++ encode_from (default prev (last a)) b.
Proof.
  revert prev. induction a as [|x a IH]; intros; [done|]. simpl. f_equal. rewrite IH.
  rewrite last_cons. by destruct (last a).
Qed.

Lemma decode_from_app prev a b :
  decode_from prev (a ++ b) = decode_from prev a ++ decode_from (default prev (last (decode_from prev a))) b.
Proof.
  revert prev. induction a as [|x a IH]; intros; [done|]. cbn [app decode_from]. f_equal. rewrite IH.
  rewrite last_cons. by destruct (last (decode_from _ a)).
Qed.

End Scalar.

(** ** 128-bit vectors of sixteen 8-bit lanes *)
Module Vec.

Abbreviation vec := (list Z).

(** SSE2: [_mm_slli_si128(v, k)] (bytes shifted up, zeroes in). *)
Definition slli_si128 (v : vec) (k : nat) : vec := replicate k 0 ++ take (16 - k) v.
Definition set1_epi8 (x : Z) : vec := replicate 16 x.
Definition add_epi8 (a b : vec) : vec := zip_with (fun x y => u8 (x + y)) a b.
Definition sub_epi8 (a b : vec) : vec := zip_with (fun x y => u8 (x - y)) a b.
Definition and_si128 (a b : vec) : vec := zip_with Z.land a b.
Definition or_si128 (a b : vec) : vec := zip_with Z.lor a b.
(** [_mm_extract_epi16(v, 7) >> 8] as [u8]: the high byte of 16-bit lane 7. *)
Definition extract_epi16_7_hi (v : vec) : Z :=
  u8 (Z.shiftr (default 0 (v !! 14%nat) + 256 * default 0 (v !! 15%nat)) 8).

(** NEON: [vextq_u8(vdupq_n_u8(0), v, 16 - k)], [vsetq_lane_u8], [vgetq_lane_u8]. *)
Definition vextq_u8 (a b : vec) (n : nat) : vec := take 16 (drop n (a ++ b)).
Definition vdupq_n_u8 (x : Z) : vec := replicate 16 x.
Definition vsetq_lane_u8 (x : Z) (v : vec) (lane : nat) : vec := <[lane := x]> v.
Definition vgetq_lane_u8 (v : vec) (lane : nat) : Z := default 0 (v !! lane).

(** [-1] lanes of the [i8] mask tables are [0xff]. *)
Definition KEEP15 : vec := 0 :: replicate 15 255.
Definition LANE0 : vec := 255 :: replicate 15 0.

Lemma vec16 (v : vec) : length v = 16%nat ->
  exists x0 x1 x2 x3 x4 x5 x6 x7 x8 x9 x10 x11 x12 x13 x14 x15,
    v = [x0; x1; x2; x3; x4; x5; x6; x7; x8; x9; x10; x11; x12; x13; x14; x15].
Proof.
  intros H. do 16 (destruct v as [|? v]; [discriminate|]).
  destruct v; [|discriminate]. by do 16 eexists.
Qed.

Lemma land_255 x : is_byte x -> Z.land x 255 = x.
Proof. intros. change 255 with (Z.ones 8). rewrite Z.land_ones by lia. apply Z.mod_small. lia. Qed.

End Vec.

(** ** The chunked kernels ([mod arch], x86_64 and aarch64)

    Both kernels share the block loop; they differ in the 16-lane step.  The
    step gets the carried byte and returns the output lanes and the next
    carried byte. *)
Module Kernel.
Import Vec.

Definition step := Z -> vec -> vec * Z.

(** The loop over [data[1..].as_chunks_mut::<16>()]. *)
Fixpoint block_loop (f : step) (carry : Z) (chunks : list vec) : list vec * Z :=
  match chunks with
  | [] => ([], carry)
  | c :: chunks =>
      let (out, carry) := f carry c in
      let (outs, carry) := block_loop f carry chunks in
      (out :: outs, carry)
  end.

(** SSE2 [delta_encode] step. *)
Definition sse2_encode_step : step := fun prev v =>
  let shifted := or_si128 (and_si128 (slli_si128 v 1) KEEP15)
                          (and_si128 (set1_epi8 prev) LANE0) in
  (sub_epi8 v shifted, extract_epi16_7_hi v).

(** SSE2 [delta_decode] step: four shift-add scan steps. *)
Definition sse2_decode_step : step := fun carry v =>
  let v := add_epi8 v (and_si128 (set1_epi8 carry) LANE0) in
  let v := add_epi8 v (slli_si128 v 1) in
  let v := add_epi8 v (slli_si128 v 2) in
  let v := add_epi8 v (slli_si128 v 4) in
  let v := add_epi8 v (slli_si128 v 8) in
  (v, extract_epi16_7_hi v).

(** NEON [shl_bytes!] and the two NEON steps. *)
Definition neon_shl (k : nat) (v : vec) : vec := vextq_u8 (vdupq_n_u8 0) v (16 - k).

Definition neon_encode_step : step := fun prev v =>
  let shifted := vsetq_lane_u8 prev (neon_shl 1 v) 0 in
  (sub_epi8 v shifted, vgetq_lane_u8 v 15).

Definition neon_decode_step : step := fun carry v =>
  let v := add_epi8 v (and_si128 (vdupq_n_u8 carry) LANE0) in
  let v := add_epi8 v (neon_shl 1 v) in
  let v := add_epi8 v (neon_shl 2 v) in
  let v := add_epi8 v (neon_shl 4 v) in
  let v := add_epi8 v (neon_shl 8 v) in
  (v, vgetq_lane_u8 v 15).

(** [arch::delta_encode]: first byte, blocks, tail. *)
Definition delta_encode_with (f : step) (data : bytes) (kf8 : Z) : bytes :=
  match data with
  | [] => []
  | orig0 :: rest =>
      let d0 := u8 (orig0 - kf8) in
      if (length data <? 2)%nat then [d0]
      else
        let (chunks, tail) := as_chunks 16 rest in
        let (outs, prev) := block_loop f orig0 chunks in
        d0 :: concat outs ++ Scalar.encode_from prev tail
  end.

Definition delta_decode_with (f : step) (data : bytes) (kf8 : Z) : bytes :=
  match data with
  | [] => []
  | orig0 :: rest =>
      let d0 := u8 (orig0 + kf8) in
      if (length data <? 2)%nat then [d0]
      else
        let (chunks, tail) := as_chunks 16 rest in
        let (outs, carry) := block_loop f d0 chunks in
        d0 :: concat outs ++ Scalar.decode_from carry tail
  end.

Definition x86_64_delta_encode := delta_encode_with sse2_encode_step.
Definition x86_64_delta_decode := delta_decode_with sse2_decode_step.
Definition aarch64_delta_encode := delta_encode_with neon_encode_step.
Definition aarch64_delta_decode := delta_decode_with neon_decode_step.

(** What a correct step does: it agrees with the scalar loop on the block. *)
Definition encode_step_ok (f : step) : Prop :=
  forall prev v, is_byte prev -> wf_bytes v -> length v = 16%nat ->
    f prev v = (Scalar.encode_from prev v, default 0 (last v)).
Definition decode_step_ok (f : step) : Prop :=
  forall carry v, is_byte carry -> wf_bytes v -> length v = 16%nat ->
    f carry v = (Scalar.decode_from carry v, default 0 (last (Scalar.decode_from carry v))).

Lemma hi_byte_last a b : is_byte a -> is_byte b -> u8 (Z.shiftr (a + 256 * b) 8) = b.
Proof.
  intros. rewrite Z.shiftr_div_pow2 by lia. change (2 ^ 8) with 256.
  rewrite (Z.mul_comm 256), Z.div_add, Z.div_small, Z.add_0_l by lia. by apply u8_small.
Qed.

Ltac lanes Hw Hl :=
  destruct (vec16 _ Hl) as (? & ? & ? & ? & ? & ? & ? & ? & ? & ? & ? & ? & ? & ? & ? & ? & ->);
  clear Hl; repeat (apply wf_bytes_cons in Hw as [? Hw]).

Lemma sse2_encode_step_ok : encode_step_ok sse2_encode_step.
Proof.
  intros prev v Hp Hw Hl. lanes Hw Hl. unfold sse2_encode_step. f_equal.
  - cbn. by rewrite !Z.land_0_r, !Z.lor_0_r, !land_255 by done.
  - unfold extract_epi16_7_hi. cbn [lookup list_lookup default]. simpl. by apply hi_byte_last.
Qed.

Lemma neon_encode_step_ok : encode_step_ok neon_encode_step.
Proof. intros prev v Hp Hw Hl. lanes Hw Hl. reflexivity. Qed.

(** Congruence modulo 256: wrapping additions nested anywhere can be dropped
    by setoid rewriting. *)
Definition eqm8 (a b : Z) : Prop := u8 a = u8 b.
#[local] Instance eqm8_equiv : Equivalence eqm8.
Proof. unfold eqm8. split; [by intros ?|by intros ??|by intros ??? -> ->]. Qed.
#[local] Instance eqm8_add : Proper (eqm8 ==> eqm8 ==> eqm8) Z.add.
Proof.
  unfold eqm8, u8. intros a b Hab c d Hcd. by rewrite Zplus_mod, Hab, Hcd, <- Zplus_mod.
Qed.
Lemma u8_eqm8 a : eqm8 (u8 a) a.
Proof. unfold eqm8, u8. by rewrite Z.mod_mod. Qed.

Ltac lane_sums :=
  repeat match goal with
  | |- ?a :: ?l = ?b :: ?m => apply (f_equal2 cons)
  | |- [] = [] => reflexivity
  | |- u8 ?a = u8 ?b => change (eqm8 a b); rewrite ?u8_eqm8; unfold eqm8; f_equal; lia
  end.

Lemma sse2_decode_step_ok : decode_step_ok sse2_decode_step.
Proof.
  intros carry v Hc Hw Hl. lanes Hw Hl. unfold sse2_decode_step. cbv zeta.
  match goal with |- (?a, _) = (?b, _) => assert (a = b) as -> end.
  - cbn. rewrite !Z.land_0_r, !land_255 by done. lane_sums.
  - f_equal. unfold extract_epi16_7_hi. cbn. apply hi_byte_last; apply u8_byte.
Qed.

Lemma neon_decode_step_ok : decode_step_ok neon_decode_step.
Proof.
  intros carry v Hc Hw Hl. lanes Hw Hl. unfold neon_decode_step. cbv zeta.
  match goal with |- (?a, _) = (?b, _) => assert (a = b) as -> end; [|done].
  cbn. rewrite !Z.land_0_r, !land_255 by done. lane_sums.
Qed.

(** The block loop agrees with the scalar loop on the concatenated blocks. *)
Lemma block_loop_encode f prev chunks :
  encode_step_ok f -> is_byte prev ->
  Forall (fun c => length c = 16%nat /\ wf_bytes c) chunks ->
  let (outs, p) := block_loop f prev chunks in
  concat outs = Scalar.encode_from prev (concat chunks) /\
  p = default prev (last (concat chunks)) /\ is_byte p.
Proof.
  intros Hf Hp Hc. revert prev Hp. induction Hc as [|c cs [Hl Hw] _ IH]; intros; [done|].
  cbn [block_loop concat]. rewrite Hf by done.
  assert (Hb : is_byte (default 0 (last c))).
  { destruct (last c) eqn:E; simpl; [|lia]. rewrite last_lookup in E. by eapply wf_bytes_lookup. }
  specialize (IH _ Hb). destruct (block_loop f _ cs) as [outs p]. destruct IH as (IH & -> & Hbp).
  assert (Hlast : default prev (last c) = default 0 (last c)).
  { destruct c as [|x c]; [done|]. rewrite last_cons. by destruct (last c). }
  cbn [concat]. rewrite IH, Scalar.encode_from_app, Hlast, last_app.
  repeat split; try (destruct (last (concat cs)); simpl in *; lia).
Qed.

Lemma block_loop_decode f carry chunks :
  decode_step_ok f -> is_byte carry ->
  Forall (fun c => length c = 16%nat /\ wf_bytes c) chunks ->
  let (outs, p) := block_loop f carry chunks in
  concat outs = Scalar.decode_from carry (concat chunks) /\
  p = default carry (last (Scalar.decode_from carry (concat chunks))) /\ is_byte p.
Proof.
  intros Hf Hp Hc. revert carry Hp. induction Hc as [|c cs [Hl Hw] _ IH]; intros; [done|].
  cbn [block_loop concat]. rewrite Hf by done.
  set (d := Scalar.decode_from carry c).
  assert (Hb : is_byte (default 0 (last d))).
  { destruct (last d) eqn:E; simpl; [|lia]. rewrite last_lookup in E.
    eapply wf_bytes_lookup; [apply Scalar.decode_from_wf|done]. }
  specialize (IH _ Hb). destruct (block_loop f _ cs) as [outs p]. destruct IH as (IH & -> & Hbp).
  assert (Hlast : default carry (last d) = default 0 (last d)).
  { destruct c as [|x c]; [done|]. unfold d. cbn [Scalar.decode_from]. rewrite last_cons.
    by destruct (last (Scalar.decode_from _ c)). }
  cbn [concat]. rewrite IH, Scalar.decode_from_app. fold d. rewrite Hlast, last_app.
  repeat split; try (destruct (last (Scalar.decode_from _ (concat cs))); simpl in *; lia).
Qed.

(** The chunks of a byte string satisfy the block loops' precondition. *)
Lemma chunks_16_ok l :
  wf_bytes l ->
  let (cs, t) := as_chunks 16 l in
  l = concat cs ++ t /\ Forall (fun c => length c = 16%nat /\ wf_bytes c) cs.
Proof.
  intros Hw. pose proof (as_chunks_concat 16 l ltac:(lia)) as H.
  destruct (as_chunks 16 l) as [cs t]. destruct H as (-> & Hcs & _). split; [done|].
  apply wf_bytes_app in Hw as [Hw _]. induction Hcs; constructor; simpl in Hw;
    apply wf_bytes_app in Hw as [??]; auto.
Qed.

Lemma delta_encode_with_scalar f data kf8 :
  encode_step_ok f -> wf_bytes data ->
  delta_encode_with f data kf8 = Scalar.delta_encode data kf8.
Proof.
  intros Hf Hw. destruct data as [|d0 rest]; [done|]. apply wf_bytes_cons in Hw as [Hd Hr].
  unfold delta_encode_with. cbv zeta. destruct (Nat.ltb_spec (length (d0 :: rest)) 2) as [Hl|_].
  - destruct rest; [done|]. simpl in Hl. lia.
  - pose proof (chunks_16_ok rest Hr) as H. destruct (as_chunks 16 rest) as [cs t].
    destruct H as [-> Hcs]. pose proof (block_loop_encode f d0 cs Hf Hd Hcs) as H.
    destruct (block_loop f d0 cs) as [outs p]. destruct H as (-> & -> & _). simpl.
    by rewrite Scalar.encode_from_app.
Qed.

Lemma delta_decode_with_scalar f data kf8 :
  decode_step_ok f -> wf_bytes data ->
  delta_decode_with f data kf8 = Scalar.delta_decode data kf8.
Proof.
  intros Hf Hw. destruct data as [|d0 rest]; [done|]. apply wf_bytes_cons in Hw as [Hd Hr].
  unfold delta_decode_with. cbv zeta. destruct (Nat.ltb_spec (length (d0 :: rest)) 2) as [Hl|_].
  - destruct rest; [done|]. simpl in Hl. lia.
  - pose proof (chunks_16_ok rest Hr) as H. destruct (as_chunks 16 rest) as [cs t].
    destruct H as [-> Hcs].
    pose proof (block_loop_decode f (u8 (d0 + kf8)) cs Hf (u8_byte _) Hcs) as H.
    destruct (block_loop f _ cs) as [outs p]. destruct H as (-> & -> & _). simpl.
    by rewrite Scalar.decode_from_app.
Qed.

End Kernel.

(** ** Backend selection and the [ssea] entry points *)

(** [#[cfg(target_arch = ..)] use .. as selected]. *)
Inductive target := X86_64 | Aarch64 | OtherArch.

Definition simd_delta_encode (t : target) (data : bytes) (kf8 : Z) : bytes :=
  match t with
  | X86_64 => Kernel.x86_64_delta_encode data kf8
  | Aarch64 => Kernel.aarch64_delta_encode data kf8
  | OtherArch => Scalar.delta_encode data kf8
  end.

Definition simd_delta_decode (t : target) (data : bytes) (kf8 : Z) : bytes :=
  match t with
  | X86_64 => Kernel.x86_64_delta_decode data kf8
  | Aarch64 => Kernel.aarch64_delta_decode data kf8
  | OtherArch => Scalar.delta_decode data kf8
  end.

Lemma simd_delta_encode_scalar t data kf8 :
  wf_bytes data -> simd_delta_encode t data kf8 = Scalar.delta_encode data kf8.
Proof.
  intros. destruct t; [| |done]; apply Kernel.delta_encode_with_scalar;
    auto using Kernel.sse2_encode_step_ok, Kernel.neon_encode_step_ok.
Qed.

Lemma simd_delta_decode_scalar t data kf8 :
  wf_bytes data -> simd_delta_decode t data kf8 = Scalar.delta_decode data kf8.
Proof.
  intros. destruct t; [| |done]; apply Kernel.delta_decode_with_scalar;
    auto using Kernel.sse2_decode_step_ok, Kernel.neon_decode_step_ok.
Qed.

(** The build the rest of the development runs on; [simd_backends_agree] makes
    the choice immaterial. *)
Definition build_target : target := X86_64.

(** [ssea::delta_encode] / [ssea::delta_decode]: [kf as u8]. *)
Definition delta_encode (data : bytes) (kf : Z) : bytes :=
  simd_delta_encode build_target data (u8 kf).
Definition delta_decode (data : bytes) (kf : Z) : bytes :=
  simd_delta_decode build_target data (u8 kf).

Lemma delta_encode_scalar data kf :
  wf_bytes data -> delta_encode data kf = Scalar.delta_encode data (u8 kf).
Proof. apply simd_delta_encode_scalar. Qed.
Lemma delta_decode_scalar data kf :
  wf_bytes data -> delta_decode data kf = Scalar.delta_decode data (u8 kf).
Proof. apply simd_delta_decode_scalar. Qed.

Lemma delta_encode_wf data kf : wf_bytes data -> wf_bytes (delta_encode data kf).
Proof. intros. rewrite delta_encode_scalar by done. apply Scalar.scalar_encode_wf. Qed.
Lemma delta_decode_wf data kf : wf_bytes data -> wf_bytes (delta_decode data kf).
Proof. intros. rewrite delta_decode_scalar by done. apply Scalar.scalar_decode_wf. Qed.
Lemma delta_encode_length data kf : wf_bytes data -> length (delta_encode data kf) = length data.
Proof. intros. rewrite delta_encode_scalar by done. apply Scalar.scalar_encode_length. Qed.
Lemma delta_decode_length data kf : wf_bytes data -> length (delta_decode data kf) = length data.
Proof. intros. rewrite delta_decode_scalar by done. apply Scalar.scalar_decode_length. Qed.

Lemma delta_decode_encode data kf : wf_bytes data -> delta_decode (delta_encode data kf) kf = data.
Proof.
  intros. rewrite delta_decode_scalar, delta_encode_scalar by auto using delta_encode_wf.
  by apply Scalar.scalar_decode_encode.
Qed.
Lemma delta_encode_decode data kf : wf_bytes data -> delta_encode (delta_decode data kf) kf = data.
Proof.
  intros. rewrite delta_encode_scalar, delta_decode_scalar by auto using delta_decode_wf.
  by apply Scalar.scalar_encode_decode.
Qed.

(** ** Properties *)

(** C20: the three compile-time backends agree: on bytes, the SSE2 and NEON block
    kernels (with their carry between blocks and the scalar tail) compute
    exactly the scalar reference, in both directions, and decoding inverts
    encoding whichever backend runs on either side. *)
Theorem simd_backends_agree t t' data kf8 :
  wf_bytes data ->
  simd_delta_encode t data kf8 = Scalar.delta_encode data kf8 /\
  simd_delta_decode t data kf8 = Scalar.delta_decode data kf8 /\
  simd_delta_decode t' (simd_delta_encode t data kf8) kf8 = data /\
  simd_delta_encode t' (simd_delta_decode t data kf8) kf8 = data.
Proof.
  intros Hw. rewrite !simd_delta_encode_scalar, !simd_delta_decode_scalar
    by auto using Scalar.scalar_encode_wf, Scalar.scalar_decode_wf.
  split_and!; [done|done|by apply Scalar.scalar_decode_encode|].
  rewrite simd_delta_encode_scalar by apply Scalar.scalar_decode_wf. by apply Scalar.scalar_encode_decode.
Qed.

Lemma simd_backends_agree_witness :
  simd_delta_decode Aarch64 (simd_delta_encode X86_64 [1; 2; 3; 4; 5; 6; 7; 8; 9; 10; 11; 12; 13; 14; 15; 16; 17] 99) 99
    = [1; 2; 3; 4; 5; 6; 7; 8; 9; 10; 11; 12; 13; 14; 15; 16; 17].
Proof. eapply (simd_backends_agree X86_64 Aarch64). by apply wf_bytes_eval. Defined.
