(* ===== verification/Checksum.v ===== *)
(** * Internet checksum ([crates/core/src/frame/checksum.rs]) *)
From S2P Require Import Prelude.

(** The two accumulation loops: big-endian 16-bit words, then the odd tail
    byte as the high byte of a padded word ([u32] arithmetic). *)
Definition word_sum (words : list bytes) (sum : Z) : Z :=
  foldl (fun sum w => u32 (sum + be_val w)) sum words.

Definition tail_sum (tail : bytes) (sum : Z) : Z :=
  match tail with
  | [b] => u32 (sum + u32 (Z.shiftl b 8))
  | _ => sum
  end.

(** [while sum >> 16 != 0 { sum = (sum & 0xffff) + (sum >> 16); }] *)
Fixpoint fold_carries (fuel : nat) (sum : Z) : option Z :=
  match fuel with
  | O => None
  | S fuel =>
      if Z.shiftr sum 16 =? 0 then Some sum
      else fold_carries fuel (u32 (Z.land sum 65535 + Z.shiftr sum 16))
  end.

(** Three tests of the loop condition are enough for every [u32]
    ([fold_carries_total]). *)
Definition fold_fuel : nat := 3.

(** [!(sum as u16)] *)
Definition inet_chksum (data : bytes) : Z :=
  let (words, tail) := as_chunks 2 data in
  match fold_carries fold_fuel (tail_sum tail (word_sum words 0)) with
  | Some sum => Z.lxor (u16 sum) 65535
  | None => 0
  end.

(** The weights of the bytes: 256 at even offsets, 1 at odd ones. *)
Fixpoint weighted_sum (hi : bool) (data : bytes) : Z :=
  match data with
  | [] => 0
  | b :: data => (if hi then 256 * b else b) + weighted_sum (negb hi) data
  end.

Lemma land_65535 x : Z.land x 65535 = x mod 65536.
Proof. apply (Z.land_ones x 16). lia. Qed.

Lemma fold_step sum : is_u32 sum ->
  u32 (Z.land sum 65535 + Z.shiftr sum 16) = sum mod 65536 + sum / 65536.
Proof.
  intros. rewrite land_65535, Z.shiftr_div_pow2 by lia. change (2 ^ 16) with 65536.
  unfold u32. apply Z.mod_small.
  pose proof (Z.mod_pos_bound sum 65536 ltac:(lia)).
  assert (0 <= sum / 65536 < 65536) by (split; [apply Z.div_pos|apply Z.div_lt_upper_bound]; lia). lia.
Qed.

(** One carry step keeps the value modulo [2^16 - 1] and its sign. *)
Lemma fold_step_mod sum : 0 <= sum -> exists q, sum mod 65536 + sum / 65536 = sum - q * 65535 /\ 0 <= q.
Proof.
  intros. exists (sum / 65536). split; [|apply Z.div_pos; lia].
  pose proof (Z.div_mod sum 65536 ltac:(lia)). lia.
Qed.

(** The loop ends within three tests and computes the one's-complement
    reduction: congruent modulo 65535, in 16 bits, zero only for zero. *)
Lemma fold_carries_total sum : is_u32 sum ->
  exists s, fold_carries fold_fuel sum = Some s /\
    0 <= s < 65536 /\ (exists q, s = sum - q * 65535) /\ (s = 0 -> sum = 0).
Proof.
  intros Hs. unfold fold_fuel. cbn [fold_carries].
  assert (Hsh : forall x, 0 <= x -> (Z.shiftr x 16 =? 0) = (x <? 65536)).
  { intros x Hx. rewrite Z.shiftr_div_pow2 by lia. change (2 ^ 16) with 65536.
    destruct (Z.ltb_spec x 65536).
    - by rewrite Z.div_small by lia.
    - apply Z.eqb_neq. pose proof (Z.div_le_mono 65536 x 65536 ltac:(lia) ltac:(lia)) as Hd.
      rewrite Z.div_same in Hd by lia. lia. }
  rewrite (Hsh sum) by lia. destruct (Z.ltb_spec sum 65536).
  { exists sum. repeat split; try lia. exists 0. lia. }
  rewrite fold_step by done.
  pose proof (Z.div_mod sum 65536 ltac:(lia)). pose proof (Z.mod_pos_bound sum 65536 ltac:(lia)).
  assert (1 <= sum / 65536 < 65536)
    by (split; [apply Z.div_le_lower_bound|apply Z.div_lt_upper_bound]; lia).
  set (s1 := sum mod 65536 + sum / 65536) in *.
  rewrite (Hsh s1) by lia. destruct (Z.ltb_spec s1 65536).
  { exists s1. repeat split; try lia. exists (sum / 65536). lia. }
  rewrite fold_step by lia.
  pose proof (Z.div_mod s1 65536 ltac:(lia)). pose proof (Z.mod_pos_bound s1 65536 ltac:(lia)).
  assert (1 <= s1 / 65536 < 2)
    by (split; [apply Z.div_le_lower_bound|apply Z.div_lt_upper_bound]; lia).
  set (s2 := s1 mod 65536 + s1 / 65536) in *.
  rewrite (Hsh s2) by lia. destruct (Z.ltb_spec s2 65536); [|lia].
  exists s2. repeat split; try lia. exists (sum / 65536 + s1 / 65536). lia.
Qed.

Lemma weighted_sum_bound hi l : wf_bytes l -> 0 <= weighted_sum hi l <= 255 * 256 * Z.of_nat (length l).
Proof.
  intros H. revert hi. induction H as [|b l Hb _ IH]; intros hi; cbn [weighted_sum length]; [lia|].
  specialize (IH (negb hi)). destruct hi; lia.
Qed.

(** Without overflow the two loops compute the weighted sum. *)
Lemma loops_weighted data :
  wf_bytes data -> Z.of_nat (length data) < 2 ^ 16 ->
  let (words, tail) := as_chunks 2 data in
  tail_sum tail (word_sum words 0) = weighted_sum true data.
Proof.
  intros Hw Hl.
  enough (forall acc, 0 <= acc -> acc + 255 * 256 * Z.of_nat (length data) < 2 ^ 32 ->
    let (words, tail) := as_chunks 2 data in
    tail_sum tail (word_sum words acc) = acc + weighted_sum true data) as H.
  { specialize (H 0). destruct (as_chunks 2 data). apply H; lia. }
  clear Hl. induction data as [l Hs|c r Hc IH] using (chunks_ind 2 ltac:(lia)); intros acc Ha Hb.
  - rewrite as_chunks_short by done. destruct l as [|b [|? ?]]; simpl in Hs; try lia.
    + simpl. lia.
    + apply wf_bytes_cons in Hw as [Hbyte _]. cbn [tail_sum word_sum foldl weighted_sum length] in *.
      unfold u32. rewrite Z.shiftl_mul_pow2, (Z.mod_small (b * _)), Z.mod_small by lia. lia.
  - destruct c as [|b0 [|b1 [|? ?]]]; try discriminate.
    rewrite as_chunks_app by (done || lia).
    apply wf_bytes_app in Hw as [Hwc Hwr]. specialize (IH Hwr).
    apply wf_bytes_cons in Hwc as [H0 Hwc]. apply wf_bytes_cons in Hwc as [H1 _].
    rewrite length_app in Hb. cbn [length Nat.add] in Hb.
    specialize (IH (acc + 256 * b0 + b1) ltac:(lia) ltac:(lia)).
    destruct (as_chunks 2 r) as [words tail].
    change (word_sum ([b0; b1] :: words) acc) with (word_sum words (u32 (acc + be_val [b0; b1]))).
    replace (u32 (acc + be_val [b0; b1])) with (acc + 256 * b0 + b1); [rewrite IH|].
    + cbn [app weighted_sum negb]. lia.
    + unfold be_val, u32. cbn [rev app le_val]. rewrite Z.mod_small by lia. lia.
Qed.

(** The checksum as an arithmetic function of the weighted sum. *)
Lemma inet_chksum_spec data :
  wf_bytes data -> Z.of_nat (length data) < 2 ^ 16 ->
  exists s q, inet_chksum data = 65535 - s /\ 0 <= s < 65536 /\
    s = weighted_sum true data - q * 65535.
Proof.
  intros Hw Hl. unfold inet_chksum. pose proof (loops_weighted data Hw Hl) as H.
  destruct (as_chunks 2 data) as [words tail]. rewrite H.
  pose proof (weighted_sum_bound true data Hw).
  destruct (fold_carries_total (weighted_sum true data) ltac:(lia)) as (s & -> & Hs & [q Hq] & _).
  exists s, q. split; [|done]. unfold u16. rewrite Z.mod_small by lia.
  pose proof (Z.add_lnot_diag s) as Hn.
  assert (Z.lxor s 65535 + s = 65535); [|lia].
  replace (Z.lxor s 65535) with (Z.ldiff 65535 s).
  - rewrite <- Z.sub_nocarry_ldiff; [lia|]. apply Z.bits_inj'. intros i Hi.
    rewrite Z.ldiff_spec, Z.testbit_0_l. change 65535 with (Z.ones 16).
    destruct (Z.ltb_spec i 16).
    + rewrite Z.ones_spec_low by lia. apply andb_false_r.
    + by rewrite (testbit_high 16 s i) by lia.
  - apply Z.bits_inj'. intros i Hi. rewrite Z.ldiff_spec, Z.lxor_spec. change 65535 with (Z.ones 16).
    destruct (Z.ltb_spec i 16).
    + rewrite Z.ones_spec_low by lia. by destruct (Z.testbit s i).
    + rewrite Z.ones_spec_high, (testbit_high 16 s i) by lia. done.
Qed.

Lemma inet_chksum_u16 data :
  wf_bytes data -> Z.of_nat (length data) < 2 ^ 16 -> 0 <= inet_chksum data < 65536.
Proof. intros Hw Hl. destruct (inet_chksum_spec data Hw Hl) as (s & q & -> & ? & _). lia. Qed.

Lemma weighted_sum_app hi a b :
  weighted_sum hi (a ++ b) = weighted_sum hi a + weighted_sum (if Nat.even (length a) then hi else negb hi) b.
Proof.
  revert hi. induction a as [|x a IH]; intros hi; [simpl; lia|].
  cbn [app weighted_sum length]. rewrite IH, Nat.even_succ, <- Nat.negb_even.
  destruct (Nat.even (length a)); simpl; rewrite ?negb_involutive; lia.
Qed.

(** Changing a single byte changes the checksum. *)
Lemma inet_chksum_single_byte l1 b b' l2 :
  wf_bytes (l1 ++ b :: l2) -> is_byte b' -> b <> b' ->
  Z.of_nat (length (l1 ++ b :: l2)) < 2 ^ 16 ->
  inet_chksum (l1 ++ b :: l2) <> inet_chksum (l1 ++ b' :: l2).
Proof.
  intros Hw Hb' Hne Hl E.
  assert (Hw' : wf_bytes (l1 ++ b' :: l2)).
  { apply wf_bytes_app in Hw as [? Hc]. apply wf_bytes_cons in Hc as [? ?].
    apply wf_bytes_app_2; [done|]. by apply wf_bytes_cons. }
  assert (is_byte b) by (apply wf_bytes_app in Hw as [? Hc]; apply wf_bytes_cons in Hc; tauto).
  assert (Hl' : Z.of_nat (length (l1 ++ b' :: l2)) < 2 ^ 16) by (rewrite length_app in *; simpl in *; lia).
  destruct (inet_chksum_spec _ Hw Hl) as (s & q & E1 & Hs & Eq).
  destruct (inet_chksum_spec _ Hw' Hl') as (s' & q' & E1' & Hs' & Eq').
  rewrite weighted_sum_app in Eq, Eq'. cbn [weighted_sum] in Eq, Eq'.
  assert (s = s') as <- by lia.
  destruct (if Nat.even (length l1) then true else negb true); lia.
Qed.

(** ** Properties *)

(** The checksum of any byte string shorter than 64 KiB is the 16-bit
    one's complement of its big-endian word sum reduced modulo 65535 (the odd
    byte being the high half of a padded word); the carry-folding loop
    terminates within its fuel; and any change of a single byte changes it. *)
Theorem inet_chksum_correct data :
  wf_bytes data -> Z.of_nat (length data) < 2 ^ 16 ->
  (exists s q, inet_chksum data = 65535 - s /\ 0 <= s < 65536 /\
    s = weighted_sum true data - q * 65535) /\
  (forall l1 b b' l2, data = l1 ++ b :: l2 -> is_byte b' -> b <> b' ->
    inet_chksum (l1 ++ b' :: l2) <> inet_chksum data).
Proof.
  intros Hw Hl. split; [by apply inet_chksum_spec|].
  intros l1 b b' l2 -> Hb Hne E. by apply (inet_chksum_single_byte l1 b b' l2).
Qed.

Lemma inet_chksum_correct_witness : inet_chksum [1; 2; 7; 4] <> inet_chksum [1; 2; 3; 4].
Proof.
  apply (inet_chksum_correct [1; 2; 3; 4]) with (l1 := [1; 2]) (b := 3) (l2 := [4]);
    try lia; try done. by apply wf_bytes_eval.
Defined.
