(* ===== verification/Base94Codec.v ===== *)
(** * Interface to the [base94-simd] crate

    The printable codec is a registry dependency; its operations are a type
    class, and what the framing relies on (the behaviour documented in
    [crates/core/README.md] sections 4.5 and 4.6) is a class of laws. *)
From S2P Require Import Prelude.

(** Printable base94 characters are 0x20..0x7e, digits 0x20..0x7d. *)
Abbreviation printable c := (32 <= c <= 126).
Abbreviation is_digit c := (32 <= c <= 125).

Class Base94Codec := {
  base94_encoded_len : bytes -> Z -> nat;      (** [encoded_len_kf] *)
  base94_encode : bytes -> Z -> bytes;         (** what [encode_into_with_len_kf] appends *)
  base94_decode : bytes -> Z -> option bytes;  (** what [decode_into_kf] appends; [None] is [DecodeError] *)
  base94_decimal_encode : Z -> bytes;          (** the digits [decimal_encode] writes *)
  base94_decimal_decode : bytes -> option Z    (** [decimal_decode] *)
}.

Class Base94Laws `{Base94Codec} : Prop := {
  (** Every byte takes one or two characters; the length can be computed ahead. *)
  base94_encode_len b kf : length (base94_encode b kf) = base94_encoded_len b kf;
  base94_len_lower b kf : (length b ≤ base94_encoded_len b kf)%nat;
  base94_len_upper b kf : (base94_encoded_len b kf ≤ 2 * length b)%nat;
  base94_encode_printable b kf : wf_bytes b -> Forall (fun c => printable c) (base94_encode b kf);
  base94_decode_encode b kf : wf_bytes b -> base94_decode (base94_encode b kf) kf = Some b;
  (** A decoded payload is bytes, at most one per character. *)
  base94_decode_wf s kf b : base94_decode s kf = Some b -> wf_bytes b;
  base94_decode_len s kf b : base94_decode s kf = Some b -> (length b ≤ length s)%nat;
  (** Integers: fewest digits, no leading zero, most significant first. *)
  base94_decimal_digits v : is_u64 v -> Forall (fun c => is_digit c) (base94_decimal_encode v);
  base94_decimal_nonempty v : is_u64 v -> (1 ≤ length (base94_decimal_encode v))%nat;
  base94_decimal_short v n :
    is_u64 v -> v < 94 ^ Z.of_nat n -> (1 ≤ n)%nat -> (length (base94_decimal_encode v) ≤ n)%nat;
  base94_decimal_no_leading_zero v :
    is_u64 v -> (2 ≤ length (base94_decimal_encode v))%nat ->
    head (base94_decimal_encode v) <> Some 32;
  (** Leading 0x20 characters are zeros. *)
  base94_decimal_decode_pad v n :
    is_u64 v -> (n + length (base94_decimal_encode v) ≤ 10)%nat ->
    base94_decimal_decode (replicate n 32 ++ base94_decimal_encode v) = Some v;
  base94_decimal_decode_nonneg s v : base94_decimal_decode s = Some v -> is_u64 v
}.

(** ** A codec written from the documentation

    Used to instantiate the class: the pseudo-code of sections 4.5 and 4.6. *)
Module Doc.

Definition encode_byte (kf b : Z) : bytes :=
  let v := u8 (b - kf) in
  if 93 <=? v then [32 + (v / 93 - 1 + 93); 32 + v mod 93] else [32 + v].

Definition encode (b : bytes) (kf : Z) : bytes := concat (map (encode_byte kf) b).

Definition encoded_len (b : bytes) (kf : Z) : nat :=
  foldr (fun x n => Nat.add (if 93 <=? u8 (x - kf) then 2%nat else 1%nat) n) 0%nat b.

Fixpoint decode (s : bytes) (kf : Z) : option bytes :=
  match s with
  | [] => Some []
  | c :: s =>
      if c <? 32 then None
      else if c - 32 <? 93 then cons (u8 (c - 32 + kf)) <$> decode s kf
      else if 94 <? c - 32 then None
      else
        match s with
        | [] => None
        | c2 :: s =>
            if c2 <? 32 then None
            else if 93 <? c2 - 32 then None
            else
              let v := (c - 32 - 93 + 1) * 93 + (c2 - 32) in
              if 255 <? v then None else cons (u8 (v + kf)) <$> decode s kf
        end
  end.

(** Least significant digit first; ten digits hold every [u64]. *)
Fixpoint digits (fuel : nat) (v : Z) : bytes :=
  match fuel with
  | O => []
  | S fuel => (v mod 94 + 32) :: (if v / 94 =? 0 then [] else digits fuel (v / 94))
  end.

Definition decimal_encode (v : Z) : bytes := rev (digits 10 v).

Definition decimal_step (acc : option Z) (c : Z) : option Z :=
  n ← acc;
  if (32 <=? c) && (c <? 126) then
    let n := n * 94 + (c - 32) in if n <? 2 ^ 64 then Some n else None
  else None.

Definition decimal_decode (s : bytes) : option Z := foldl decimal_step (Some 0) s.

#[export] Instance codec : Base94Codec := {
  base94_encoded_len := encoded_len;
  base94_encode := encode;
  base94_decode := decode;
  base94_decimal_encode := decimal_encode;
  base94_decimal_decode := decimal_decode
}.

Lemma encode_byte_cases kf b :
  let v := u8 (b - kf) in
  (v < 93 /\ encode_byte kf b = [32 + v]) \/
  (93 <= v /\ v < 186 /\ encode_byte kf b = [125; 32 + (v - 93)]) \/
  (186 <= v < 256 /\ encode_byte kf b = [126; 32 + (v - 186)]).
Proof.
  cbv zeta. unfold encode_byte. cbv zeta. pose proof (u8_byte (b - kf)) as Hv.
  set (v := u8 (b - kf)) in *. destruct (Z.leb_spec 93 v); [right|left; auto].
  destruct (Z.ltb_spec v 186).
  - left. assert (v / 93 = 1) as -> by (symmetry; apply Z.div_unique with (v - 93); lia).
    assert (v mod 93 = v - 93) as -> by (symmetry; apply Z.mod_unique with 1; lia). done.
  - right. assert (v / 93 = 2) as -> by (symmetry; apply Z.div_unique with (v - 186); lia).
    assert (v mod 93 = v - 186) as -> by (symmetry; apply Z.mod_unique with 2; lia). split; [lia|done].
Qed.

Lemma encode_byte_range kf b : Forall (fun c => printable c) (encode_byte kf b).
Proof.
  pose proof (u8_byte (b - kf)). destruct (encode_byte_cases kf b) as [[? ->]|[(? & ? & ->)|[? ->]]];
    repeat constructor; lia.
Qed.

Lemma encode_length b kf : length (encode b kf) = encoded_len b kf.
Proof.
  unfold encode. induction b as [|x b IH]; [done|]. simpl. rewrite length_app, IH.
  unfold encode_byte. by destruct (93 <=? _).
Qed.

Lemma decode_byte b kf s :
  is_byte b -> decode (encode_byte kf b ++ s) kf = cons b <$> decode s kf.
Proof.
  intros Hb. pose proof (u8_byte (b - kf)) as Hv.
  assert (Hback : u8 (u8 (b - kf) + kf) = b).
  { unfold u8. rewrite Z.add_mod_idemp_l by lia. replace (b - kf + kf) with b by lia.
    apply Z.mod_small. lia. }
  destruct (encode_byte_cases kf b) as [[Hlt ->]|[(H1 & H2 & ->)|[H1 ->]]];
    set (v := u8 (b - kf)) in *; cbn [app decode].
  - destruct (Z.ltb_spec (32 + v) 32); [lia|]. destruct (Z.ltb_spec (32 + v - 32) 93); [|lia].
    by replace (32 + v - 32 + kf) with (v + kf) by lia; rewrite Hback.
  - change (125 <? 32) with false. change (125 - 32 <? 93) with false.
    change (94 <? 125 - 32) with false. cbv iota.
    destruct (Z.ltb_spec (32 + (v - 93)) 32); [lia|].
    destruct (Z.ltb_spec 93 (32 + (v - 93) - 32)); [lia|]. cbv zeta.
    replace ((125 - 32 - 93 + 1) * 93 + (32 + (v - 93) - 32)) with v by lia.
    destruct (Z.ltb_spec 255 v); [lia|]. by rewrite Hback.
  - change (126 <? 32) with false. change (126 - 32 <? 93) with false.
    change (94 <? 126 - 32) with false. cbv iota.
    destruct (Z.ltb_spec (32 + (v - 186)) 32); [lia|].
    destruct (Z.ltb_spec 93 (32 + (v - 186) - 32)); [lia|]. cbv zeta.
    replace ((126 - 32 - 93 + 1) * 93 + (32 + (v - 186) - 32)) with v by lia.
    destruct (Z.ltb_spec 255 v); [lia|]. by rewrite Hback.
Qed.

Lemma decode_ok s kf : forall b, decode s kf = Some b -> wf_bytes b /\ (length b ≤ length s)%nat.
Proof.
  remember (length s) as n eqn:Hn. revert s Hn.
  induction n as [n IH] using lt_wf_ind. intros [|c s] Hn b Hd; simpl in Hn, Hd.
  { injection Hd as <-. split; [auto with bytes|simpl; lia]. }
  destruct (c <? 32); [done|]. destruct (c - 32 <? 93).
  - apply fmap_Some in Hd as (b' & Hd & ->).
    destruct (IH (length s) ltac:(lia) s eq_refl b' Hd). split; [apply wf_bytes_cons; auto with bytes|simpl; lia].
  - destruct (94 <? c - 32); [done|]. destruct s as [|c2 s]; [done|].
    destruct (c2 <? 32); [done|]. destruct (93 <? c2 - 32); [done|].
    destruct (255 <? _); [done|]. apply fmap_Some in Hd as (b' & Hd & ->). simpl in Hn.
    destruct (IH (length s) ltac:(lia) s eq_refl b' Hd). split; [apply wf_bytes_cons; auto with bytes|simpl; lia].
Qed.

Lemma digits_range fuel v : 0 <= v -> Forall (fun c => is_digit c) (digits fuel v).
Proof.
  revert v. induction fuel as [|fuel IH]; intros v Hv; cbn [digits]; constructor.
  - pose proof (Z.mod_pos_bound v 94 ltac:(lia)). lia.
  - destruct (v / 94 =? 0); [constructor|]. apply IH, Z.div_pos; lia.
Qed.

Lemma digits_length fuel v n :
  0 <= v < 94 ^ Z.of_nat n -> (1 ≤ n)%nat -> (length (digits fuel v) ≤ n)%nat.
Proof.
  revert v n. induction fuel as [|fuel IH]; intros v n Hv Hn; cbn [digits length]; [lia|].
  destruct (Z.eqb_spec (v / 94) 0); simpl; [lia|].
  destruct n as [|[|n]]; try lia.
  - exfalso. apply n0. apply Z.div_small. lia.
  - rewrite Nat2Z.inj_succ, Z.pow_succ_r in Hv by lia.
    specialize (IH (v / 94) (S n)). enough (length (digits fuel (v / 94)) ≤ S n)%nat by lia.
    apply IH; [|lia]. split; [apply Z.div_pos; lia|]. apply Z.div_lt_upper_bound; lia.
Qed.

(** Horner evaluation, most significant digit first. *)
Definition horner (acc : Z) (s : bytes) : Z := foldl (fun n c => n * 94 + (c - 32)) acc s.

Lemma horner_digits fuel v : 0 <= v < 94 ^ Z.of_nat fuel -> (1 ≤ fuel)%nat -> horner 0 (rev (digits fuel v)) = v.
Proof.
  revert v. induction fuel as [|fuel IH]; intros v Hv Hf; [lia|]. cbn [digits].
  pose proof (Z.div_mod v 94 ltac:(lia)). cbn [rev]. unfold horner in *. rewrite foldl_app. simpl.
  destruct (Z.eqb_spec (v / 94) 0) as [E|E]; [simpl; lia|].
  rewrite Nat2Z.inj_succ, Z.pow_succ_r in Hv by lia.
  rewrite IH; [lia| |].
  - split; [apply Z.div_pos; lia|]. apply Z.div_lt_upper_bound; lia.
  - destruct fuel; [|lia]. exfalso. apply E, Z.div_small. change (Z.of_nat 0) with 0 in Hv. lia.
Qed.

Lemma horner_mono acc s : 0 <= acc -> Forall (fun c => is_digit c) s -> acc <= horner acc s.
Proof.
  intros Ha Hs. revert acc Ha. induction Hs as [|c s Hc Hs IH]; intros acc Ha; unfold horner in *; simpl; [lia|].
  specialize (IH (acc * 94 + (c - 32)) ltac:(lia)). lia.
Qed.

Lemma decode_horner acc s :
  0 <= acc -> Forall (fun c => is_digit c) s -> horner acc s < 2 ^ 64 ->
  foldl decimal_step (Some acc) s = Some (horner acc s).
Proof.
  intros Ha Hs. revert acc Ha. induction Hs as [|c s Hc Hs IH]; intros acc Ha Hb; [done|].
  assert (acc * 94 + (c - 32) <= horner (acc * 94 + (c - 32)) s) by (apply horner_mono; [lia|done]).
  unfold horner in *. cbn [foldl] in *. simpl in *.
  destruct (Z.leb_spec 32 c); [|lia]. destruct (Z.ltb_spec c 126); [|lia]. simpl.
  destruct (Z.ltb_spec (acc * 94 + (c - 32)) (2 ^ 64)); [|lia].
  apply IH; [lia|done].
Qed.

Lemma horner_pad n s : horner 0 (replicate n 32 ++ s) = horner 0 s.
Proof. induction n as [|n IH]; [done|]. unfold horner in *. simpl. apply IH. Qed.

Lemma last_digit_nonzero fuel v :
  0 < v < 94 ^ Z.of_nat fuel -> (1 ≤ fuel)%nat -> last (digits fuel v) <> Some 32.
Proof.
  revert v. induction fuel as [|fuel IH]; intros v Hv Hf; [lia|]. cbn [digits].
  pose proof (Z.div_mod v 94 ltac:(lia)). destruct (Z.eqb_spec (v / 94) 0) as [E|E].
  - simpl. intros [=]. lia.
  - assert (0 < v / 94) by (pose proof (Z.div_pos v 94 ltac:(lia) ltac:(lia)); lia).
    rewrite Nat2Z.inj_succ, Z.pow_succ_r in Hv by lia.
    destruct fuel as [|fuel]; [exfalso; apply E, Z.div_small; change (Z.of_nat 0) with 0 in Hv; lia|].
    rewrite last_cons. specialize (IH (v / 94)).
    assert (0 < v / 94 < 94 ^ Z.of_nat (S fuel)) as Hr by (split; [lia|apply Z.div_lt_upper_bound; lia]).
    specialize (IH Hr ltac:(lia)). cbn [digits] in *.
    destruct (last _) eqn:E'; [congruence|]. by rewrite last_cons in E'; destruct (last _).
Qed.

Lemma pow_94_10 : 2 ^ 64 < 94 ^ Z.of_nat 10.
Proof. reflexivity. Qed.

#[export] Instance laws : Base94Laws.
Proof.
  pose proof pow_94_10 as Hp.
  split; simpl; unfold decimal_encode; intros.
  - apply encode_length.
  - induction b; simpl; [lia|]. destruct (93 <=? _); lia.
  - induction b; simpl; [lia|]. destruct (93 <=? _); lia.
  - unfold encode. induction b as [|x b IH]; simpl; [constructor|]. apply wf_bytes_cons in H as [? H].
    apply Forall_app. auto using encode_byte_range.
  - unfold encode. induction H as [|x b Hx Hb IH]; simpl; [done|]. by rewrite decode_byte, IH.
  - by eapply decode_ok.
  - by eapply decode_ok.
  - apply Forall_rev. apply digits_range. lia.
  - rewrite length_rev. cbn [digits length]. lia.
  - rewrite length_rev. apply digits_length; lia.
  - intros Hh. assert (v <> 0) by (intros ->; simpl in *; lia).
    apply (last_digit_nonzero 10 v); [lia|lia|].
    rewrite <- (rev_involutive (digits 10 v)).
    destruct (rev (digits 10 v)) as [|x l]; [done|]. simpl in *. injection Hh as ->. by rewrite last_snoc.
  - unfold decimal_decode. rewrite decode_horner, horner_pad, horner_digits; try lia; [done| |].
    + apply Forall_app; split; [apply Forall_replicate; lia|]. apply Forall_rev, digits_range. lia.
    + rewrite horner_pad, horner_digits; lia.
  - revert H. unfold decimal_decode.
    enough (forall o, (forall x, o = Some x -> is_u64 x) -> forall x, foldl decimal_step o s = Some x -> is_u64 x) as Hg.
    { apply Hg. intros x [= <-]. lia. }
    clear v. induction s as [|c s IH]; intros o Ho x; simpl; [apply Ho|]. apply IH.
    intros y Hy. destruct o as [z|]; [|done]. specialize (Ho z eq_refl). simpl in Hy.
    destruct ((32 <=? c) && (c <? 126)) eqn:Ec; [|done].
    destruct (Z.ltb_spec (z * 94 + (c - 32)) (2 ^ 64)); [|done]. injection Hy as <-. lia.
Qed.

End Doc.
