(* ===== verification/Base94.v ===== *)
(** * base94 framing ([crates/core/src/frame/base94.rs])

    The printable envelope: randomised headers with parity-encoded filler,
    obfuscated length digits, the first-frame checksum, and the stateful
    encoder and decoders.  Proved against the [Base94Codec] interface. *)
From S2P Require Import Prelude Errors Env Ssea Checksum Base94Codec.
Import Lcg Shuffle.

Definition PPP_BUFFER_SIZE : nat := Z.to_nat 65536.
Definition BASE94_MAX_FRAME : nat := (PPP_BUFFER_SIZE * 2 + 64)%nat.
Definition MOD_MIN : Z := 64 * 64 * 64.
Definition MOD_MAX : Z := 94 * 94 * 94.

Definition HEADER_SIMPLE : nat := 4.
Definition HEADER_EXTENDED : nat := 7.
Definition CHECKSUM_LEN : nat := (HEADER_EXTENDED - HEADER_SIMPLE)%nat.

(** [dst[off..off + src.len()].copy_from_slice(src)]. *)
Definition copy_at (off : nat) (src dst : bytes) : bytes :=
  take off dst ++ src ++ drop (off + length src) dst.

Record Base94Framer := Framer {
  fr_kf : Z;
  fr_mod : Z;
  fr_kf_mod : Z;
  tx_first : bool;
  rx_first : bool
}.

Definition set_tx_first (b : bool) (f : Base94Framer) : Base94Framer :=
  Framer (fr_kf f) (fr_mod f) (fr_kf_mod f) b (rx_first f).
Definition set_rx_first (b : bool) (f : Base94Framer) : Base94Framer :=
  Framer (fr_kf f) (fr_mod f) (fr_kf_mod f) (tx_first f) b.

(** [Base94Framer::new]. [%] on [i32] truncates towards zero. *)
Definition framer_new (kf : Z) : Base94Framer :=
  let mod_ := fst (lcg_range kf MOD_MIN MOD_MAX) in
  let kf_mod := Z.abs (Z.rem (as_i32 kf) (as_i32 mod_)) in
  Framer kf mod_ kf_mod true true.

Section Framer.
Context `{Base94Codec}.

(** The random seed byte [k] and the filler: even [k] marks [h[1]] as
    filler, odd [k] as a length digit. *)
Definition randomize_header {R} `{Rng R} (h : bytes) (rng : R) : bytes * R :=
  let (k, rng) := random_range 32 126 rng in
  if nth 1 h 0 =? 32 then
    let k := if Z.land k 1 =? 0 then k else k + 1 in
    let (filler, rng) := random_range 32 126 rng in
    (<[0%nat := k]> (<[1%nat := filler]> h), rng)
  else
    let k := if Z.land k 1 =? 0 then (if 126 <? k + 1 then 33 else k + 1) else k in
    (<[0%nat := k]> h, rng).

(** [encode_header]: the header bytes ([&header[..hlen]]). *)
Definition encode_header {R} `{Rng R} (f : Base94Framer) (rng : R) (length_ : nat)
    : result Error bytes * (Base94Framer * R) :=
  let n := u32 (u32 (Z.of_nat length_) + fr_kf_mod f) mod fr_mod f in
  let digits := base94_decimal_encode n in
  let dl := length digits in
  if (dl =? 0)%nat || (HEADER_SIMPLE <=? dl)%nat then (Err InvalidFrame, (f, rng))
  else
    let h := copy_at (HEADER_SIMPLE - dl) digits (replicate HEADER_EXTENDED 32) in
    let (h, rng) := randomize_header h rng in
    let h := swap h 2 3 in
    if tx_first f then
      let chk := Z.lxor (inet_chksum (take HEADER_SIMPLE h)) (u32 (Z.of_nat length_)) in
      let cn := u32 (chk + fr_kf_mod f) mod fr_mod f in
      let digits := base94_decimal_encode cn in
      let cl := length digits in
      if (cl =? 0)%nat || (CHECKSUM_LEN <? cl)%nat then (Err InvalidFrame, (f, rng))
      else
        let h := copy_at (HEADER_EXTENDED - cl) digits h in
        let h := take HEADER_SIMPLE h ++ shuffle (drop HEADER_SIMPLE h) (fr_kf f) in
        (Ok h, (set_tx_first false f, rng))
    else (Ok (take HEADER_SIMPLE h), (f, rng)).

(** [encode_frame]: appends header and payload to [out]. *)
Definition encode_frame {R} `{Rng R} (f : Base94Framer) (rng : R) (out binary : bytes)
    : result Error unit * (Base94Framer * R * bytes) :=
  if (length binary =? 0)%nat then (Err ZeroLength, (f, rng, out))
  else
    let encoded_len := base94_encoded_len binary (fr_kf f) in
    if (BASE94_MAX_FRAME <? encoded_len)%nat
    then (Err (FrameTooLarge (Z.of_nat encoded_len)), (f, rng, out))
    else
      match encode_header f rng encoded_len with
      | (Err e, (f, rng)) => (Err e, (f, rng, out))
      | (Ok header, (f, rng)) =>
          (Ok tt, (f, rng, out ++ header ++ base94_encode binary (fr_kf f)))
      end.

(** [restore_header]. *)
Definition restore_header (h : bytes) : bytes :=
  let h := if Z.land (nth 0 h 0) 1 =? 0 then <[1%nat := 32]> h else h in
  swap (<[0%nat := 32]> h) 2 3.

Definition decode_length (f : Base94Framer) (digits : bytes) : result Error Z :=
  let? n := ok_or (base94_decimal_decode digits) InvalidBase94 in
  Ok (u32 (u64 (n + (fr_mod f - fr_kf_mod f)) mod fr_mod f)).

Definition decode_header_extended (f : Base94Framer) (h : bytes) : result Error Z :=
  let chk := inet_chksum (take HEADER_SIMPLE h) in
  let h := restore_header (take HEADER_SIMPLE h) ++ drop HEADER_SIMPLE h in
  let? payload_length := decode_length f (drop 1 (take HEADER_SIMPLE h)) in
  if payload_length <? 1 then Err InvalidFrame
  else
    let h := take HEADER_SIMPLE h ++ unshuffle (drop HEADER_SIMPLE h) (fr_kf f) in
    let? n := decode_length f (drop HEADER_SIMPLE h) in
    if n =? Z.lxor chk payload_length then Ok payload_length else Err ChecksumMismatch.

Definition decode_header_simple (f : Base94Framer) (h : bytes) : result Error Z :=
  let h := restore_header h in
  let? len := decode_length f (drop 1 (take HEADER_SIMPLE h)) in
  if len <? 1 then Err InvalidFrame else Ok len.

Definition check_bound (len : nat) : result Error unit :=
  if (BASE94_MAX_FRAME <? len)%nat then Err (FrameTooLarge (Z.of_nat len)) else Ok tt.

(** The header the receive state expects: its size and its decoder. *)
Definition rx_header_len (f : Base94Framer) : nat :=
  if rx_first f then HEADER_EXTENDED else HEADER_SIMPLE.

(** Decode the header and check the bound: the common part of the three
    decoders ([let len = self.decode_header_*(..)?; Self::check_bound(len)?]). *)
Definition decode_rx_header (f : Base94Framer) (h : bytes) : result Error nat :=
  let? len := (if rx_first f then decode_header_extended f h else decode_header_simple f h) in
  let len := Z.to_nat len in
  let? _ := check_bound len in
  Ok len.

(** [peek_frame_len]. *)
Definition peek_frame_len (f : Base94Framer) (buf : bytes) : result Error (option nat) :=
  if (length buf <? rx_header_len f)%nat then Ok None
  else
    let? len := decode_rx_header f (take (rx_header_len f) buf) in
    Ok (Some (rx_header_len f + len)%nat).

(** [read_frame_into]: reads one frame from the stream. *)
Definition read_frame_into (f : Base94Framer) (r : reader)
    : result Error bytes * (Base94Framer * reader) :=
  match read_exact (rx_header_len f) r with
  | (Err e, r) => (Err e, (f, r))
  | (Ok header, r) =>
      match decode_rx_header f header with
      | Err e => (Err e, (f, r))
      | Ok len =>
          match read_take len r with
          | (Err e, r) => (Err e, (f, r))
          | (Ok scratch, r) =>
              if negb (length scratch =? len)%nat
              then (Err (Io (IoError UnexpectedEof "truncated base94 frame")), (f, r))
              else
                match base94_decode scratch (fr_kf f) with
                | None => (Err InvalidBase94, (f, r))
                | Some out => (Ok out, (set_rx_first false f, r))
                end
          end
      end
  end.

(** [decode_packet_into]: decodes one complete in-memory frame. *)
Definition decode_packet_into (f : Base94Framer) (packet : bytes)
    : result Error bytes * Base94Framer :=
  if (length packet <? rx_header_len f)%nat then (Err InvalidFrame, f)
  else
    match decode_rx_header f (take (rx_header_len f) packet) with
    | Err e => (Err e, f)
    | Ok len =>
        if negb (len + rx_header_len f =? length packet)%nat then (Err InvalidFrame, f)
        else
          match base94_decode (drop (rx_header_len f) packet) (fr_kf f) with
          | None => (Err InvalidBase94, f)
          | Some out => (Ok out, set_rx_first false f)
          end
    end.

(** [read_frame], [read_frame_with] and [decode_packet] are these with a
    fresh output buffer. *)
Definition read_frame := read_frame_into.
Definition decode_packet := decode_packet_into.
End Framer.

(** ** Lemmas *)

(** A framer of key [kf]: every field but the two flags is a function of it. *)
Definition keyed (kf : Z) (f : Base94Framer) : Prop :=
  fr_kf f = kf /\ fr_mod f = fr_mod (framer_new kf) /\ fr_kf_mod f = fr_kf_mod (framer_new kf).

Lemma keyed_new kf : keyed kf (framer_new kf).
Proof. done. Qed.
Lemma keyed_set_tx kf b f : keyed kf f -> keyed kf (set_tx_first b f).
Proof. done. Qed.
Lemma keyed_set_rx kf b f : keyed kf f -> keyed kf (set_rx_first b f).
Proof. done. Qed.

Create HintDb framer.
#[export] Hint Resolve keyed_new keyed_set_tx keyed_set_rx : framer.

Lemma set_tx_first_id f b : tx_first f = b -> set_tx_first b f = f.
Proof. destruct f. simpl. by intros ->. Qed.
Lemma set_rx_first_id f b : rx_first f = b -> set_rx_first b f = f.
Proof. destruct f. simpl. by intros ->. Qed.

Lemma framer_new_bounds kf :
  262144 <= fr_mod (framer_new kf) <= 830584 /\
  0 <= fr_kf_mod (framer_new kf) < fr_mod (framer_new kf).
Proof.
  unfold framer_new. cbn [fr_mod fr_kf_mod].
  pose proof (lcg_range_bounds kf MOD_MIN MOD_MAX ltac:(done) ltac:(done) ltac:(done)) as Hm.
  unfold MOD_MIN, MOD_MAX in *. set (m := fst _) in *.
  assert (as_i32 m = m) as -> by (unfold as_i32; destruct (Z.ltb_spec m (2 ^ 31)); lia).
  pose proof (Z.rem_bound_abs (as_i32 kf) m ltac:(lia)). lia.
Qed.

Lemma keyed_bounds kf f : keyed kf f ->
  262144 <= fr_mod f <= 830584 /\ 0 <= fr_kf_mod f < fr_mod f.
Proof. intros (_ & -> & ->). apply framer_new_bounds. Qed.

Lemma keyed_new_iff kf f : f = framer_new kf -> keyed kf f.
Proof. by intros ->. Qed.

(** Obfuscating a length and back. *)
Definition obfuscate (f : Base94Framer) (x : Z) : Z := (x + fr_kf_mod f) mod fr_mod f.

Lemma obfuscate_u32 kf f x : keyed kf f -> 0 <= x < fr_mod f -> u32 (x + fr_kf_mod f) mod fr_mod f = obfuscate f x.
Proof.
  intros Hk Hx. pose proof (keyed_bounds _ _ Hk). unfold obfuscate. by rewrite u32_id by lia.
Qed.

Lemma obfuscate_bound kf f x : keyed kf f -> 0 <= obfuscate f x < 94 ^ 3.
Proof.
  intros Hk. pose proof (keyed_bounds _ _ Hk). unfold obfuscate.
  pose proof (Z.mod_pos_bound (x + fr_kf_mod f) (fr_mod f) ltac:(lia)). lia.
Qed.

Lemma deobfuscate kf f x : keyed kf f -> 0 <= x < fr_mod f ->
  u32 (u64 (obfuscate f x + (fr_mod f - fr_kf_mod f)) mod fr_mod f) = x.
Proof.
  intros Hk Hx. pose proof (keyed_bounds _ _ Hk). unfold obfuscate.
  pose proof (Z.mod_pos_bound (x + fr_kf_mod f) (fr_mod f) ltac:(lia)).
  unfold u64. rewrite (Z.mod_small _ (2 ^ 64)) by lia.
  rewrite Z.add_mod_idemp_l by lia.
  replace (x + fr_kf_mod f + (fr_mod f - fr_kf_mod f)) with (x + 1 * fr_mod f) by lia.
  rewrite Z.mod_add, Z.mod_small by lia. apply u32_id. lia.
Qed.

Lemma even_land k : (Z.land k 1 =? 0) = Z.even k.
Proof.
  change (Z.land k 1) with (Z.land k (Z.ones 1)). rewrite Z.land_ones by lia. change (2 ^ 1) with 2.
  rewrite (Zmod_even k). by destruct (Z.even k).
Qed.

Section FramerLemmas.
Context `{Base94Laws}.

(** Three right-aligned digits. *)
Definition padded (n : Z) : bytes :=
  let d := base94_decimal_encode n in replicate (3 - length d) 32 ++ d.

Lemma decimal_len n : 0 <= n < 94 ^ 3 -> (1 ≤ length (base94_decimal_encode n) ≤ 3)%nat.
Proof.
  intros Hn. assert (is_u64 n) by lia. split; [by apply base94_decimal_nonempty|].
  apply base94_decimal_short; [done| |lia]. simpl. lia.
Qed.

Lemma padded_length n : 0 <= n < 94 ^ 3 -> length (padded n) = 3%nat.
Proof.
  intros Hn. pose proof (decimal_len n Hn). unfold padded.
  rewrite length_app, length_replicate. lia.
Qed.

Lemma padded_digits n : 0 <= n < 94 ^ 3 -> Forall (fun c => is_digit c) (padded n).
Proof.
  intros Hn. apply Forall_app. split; [apply Forall_replicate; lia|].
  apply base94_decimal_digits. lia.
Qed.

Lemma padded_decode n : 0 <= n < 94 ^ 3 -> base94_decimal_decode (padded n) = Some n.
Proof.
  intros Hn. pose proof (decimal_len n Hn). apply base94_decimal_decode_pad; lia.
Qed.

(** Right-aligning digits against the end of a padded region. *)
Lemma copy_right_aligned pre d post :
  (1 ≤ length d ≤ 3)%nat ->
  copy_at (length pre + 3 - length d) d (pre ++ replicate 3 32 ++ post) =
    pre ++ (replicate (3 - length d) 32 ++ d) ++ post.
Proof.
  intros Hd. unfold copy_at.
  replace (length pre + 3 - length d)%nat with (length pre + (3 - length d))%nat by lia.
  rewrite take_app_add, <- Nat.add_assoc, drop_app_add, <- app_assoc. f_equal.
  rewrite take_app_le by (rewrite length_replicate; lia).
  rewrite take_replicate, Nat.min_l by lia. rewrite <- app_assoc. f_equal. f_equal.
  replace (3 - length d + length d)%nat with (length (replicate 3 32)) by (simpl; lia).
  apply drop_app_length.
Qed.

Lemma decode_length_padded kf f x : keyed kf f -> 0 <= x < fr_mod f ->
  decode_length f (padded (obfuscate f x)) = Ok x.
Proof.
  intros Hk Hx. unfold decode_length. rewrite padded_decode by by eapply obfuscate_bound.
  cbn [ok_or]. by rewrite (deobfuscate kf).
Qed.

(** The randomised four bytes: seed, filler or first digit, swapped digits. *)
Definition header4_ok (p1 p2 p3 : Z) (h : bytes) : Prop :=
  exists k q1, h = [k; q1; p3; p2] /\ printable k /\ printable q1 /\
    ((p1 = 32 /\ Z.even k = true) \/ (p1 <> 32 /\ Z.even k = false /\ q1 = p1)).

Lemma randomize_header_ok {R} `{RngLaws R} (rng : R) p1 p2 p3 post :
  is_digit p1 ->
  exists h rng', randomize_header (32 :: p1 :: p2 :: p3 :: post) rng = (h ++ post, rng') /\
    exists h4, swap (h ++ post) 2 3 = h4 ++ post /\ header4_ok p1 p2 p3 h4.
Proof.
  intros Hp1. unfold randomize_header.
  pose proof (random_range_bounds 32 126 rng ltac:(lia)) as Hk.
  destruct (random_range 32 126 rng) as [k rng']. cbn [fst nth] in *. rewrite even_land.
  destruct (Z.eqb_spec p1 32) as [->|Hne].
  - pose proof (random_range_bounds 32 126 rng' ltac:(lia)) as Hf.
    destruct (random_range 32 126 rng') as [q1 rng'']. cbn [fst] in *.
    set (k' := if Z.even k then k else k + 1).
    assert (printable k' /\ Z.even k' = true) as [? ?].
    { unfold k'. destruct (Z.even k) eqn:Ek; [done|]. split.
      { assert (k <> 126) by (intros ->; done). lia. }
      by rewrite Z.even_add, Ek. }
    exists [k'; q1; p2; p3], rng''. split; [done|].
    exists [k'; q1; p3; p2]. split; [done|]. exists k', q1. repeat split; try lia. auto.
  - set (k' := if Z.even k then if 126 <? k + 1 then 33 else k + 1 else k).
    assert (printable k' /\ Z.even k' = false) as [? ?].
    { unfold k'. destruct (Z.even k) eqn:Ek; [|done]. destruct (Z.ltb_spec 126 (k + 1)); [done|].
      rewrite Z.even_add, Ek. split; [lia|done]. }
    exists [k'; p1; p2; p3], rng'. split; [done|].
    exists [k'; p1; p3; p2]. split; [done|]. exists k', p1. repeat split; try lia. auto.
Qed.

Lemma restore_header_ok p1 p2 p3 h : header4_ok p1 p2 p3 h -> restore_header h = [32; p1; p2; p3].
Proof.
  intros (k & q1 & -> & _ & _ & Hc). unfold restore_header. cbn [nth]. rewrite even_land.
  by destruct Hc as [[-> ->]|(? & -> & ->)].
Qed.

Lemma header4_wf p1 p2 p3 h :
  header4_ok p1 p2 p3 h -> is_digit p2 -> is_digit p3 ->
  length h = 4%nat /\ Forall (fun c => printable c) h /\ wf_bytes h.
Proof.
  intros (k & q1 & -> & ? & ? & _) ? ?. split; [done|].
  split; repeat constructor; lia.
Qed.
Lemma padded_cons n : 0 <= n < 94 ^ 3 -> exists p1 p2 p3, padded n = [p1; p2; p3] /\
  is_digit p1 /\ is_digit p2 /\ is_digit p3.
Proof.
  intros Hn. pose proof (padded_length n Hn) as Hl. pose proof (padded_digits n Hn) as Hd.
  destruct (padded n) as [|p1 [|p2 [|p3 [|]]]]; try done.
  inversion_clear Hd as [|?? H1 Hd']. inversion_clear Hd' as [|?? H2 Hd]. inversion_clear Hd as [|?? H3 _].
  by exists p1, p2, p3.
Qed.

Lemma keyed_obfuscate kf f g x : keyed kf f -> keyed kf g -> obfuscate f x = obfuscate g x.
Proof. intros (_ & Hf & Hf') (_ & Hg & Hg'). unfold obfuscate. congruence. Qed.

(** What a header for length [L] looks like to the decoders. *)
Definition header_ok (kf : Z) (first : bool) (L : nat) (h : bytes) : Prop :=
  length h = (if first then HEADER_EXTENDED else HEADER_SIMPLE) /\
  Forall (fun c => printable c) h /\
  forall g, keyed kf g -> rx_first g = first -> decode_rx_header g h = Ok L.

Lemma frame_len_bound L : (L ≤ BASE94_MAX_FRAME)%nat -> Z.of_nat L < 2 ^ 18.
Proof. unfold BASE94_MAX_FRAME, PPP_BUFFER_SIZE. lia. Qed.

Lemma check_bound_ok L : (L ≤ BASE94_MAX_FRAME)%nat -> check_bound L = Ok tt.
Proof. intros. unfold check_bound. by destruct (Nat.ltb_spec BASE94_MAX_FRAME L); [lia|]. Qed.

(** The simple header. *)
Lemma simple_header_ok kf f L p1 p2 p3 h4 :
  keyed kf f -> (1 ≤ L ≤ BASE94_MAX_FRAME)%nat ->
  padded (obfuscate f (Z.of_nat L)) = [p1; p2; p3] -> header4_ok p1 p2 p3 h4 ->
  forall g post, keyed kf g ->
    decode_length g (drop 1 (take HEADER_SIMPLE (restore_header h4 ++ post))) = Ok (Z.of_nat L).
Proof.
  intros Hf HL Hp Hh g post Hg. rewrite (restore_header_ok _ _ _ _ Hh). cbn [HEADER_SIMPLE app take drop]. rewrite take_0.
  pose proof (frame_len_bound L ltac:(lia)). pose proof (keyed_bounds _ _ Hg).
  rewrite <- Hp, (keyed_obfuscate kf f g) by done. apply (decode_length_padded kf); [done|lia].
Qed.
Lemma checksum_bound h L : wf_bytes h -> length h = 4%nat -> (L ≤ BASE94_MAX_FRAME)%nat ->
  0 <= Z.lxor (inet_chksum h) (Z.of_nat L) < 2 ^ 18.
Proof.
  intros Hh Hl HL. pose proof (frame_len_bound L HL). apply lxor_bound; [lia| |lia].
  pose proof (inet_chksum_u16 h Hh ltac:(rewrite Hl; lia)). lia.
Qed.

(** Both kinds of header, given the randomised four bytes. *)
Lemma encode_header_ok {R} `{RngLaws R} kf f (rng : R) L :
  keyed kf f -> (1 ≤ L ≤ BASE94_MAX_FRAME)%nat ->
  exists h rng', encode_header f rng L = (Ok h, (set_tx_first false f, rng')) /\
    header_ok kf (tx_first f) L h.
Proof.
  intros Hf HL. pose proof (frame_len_bound L ltac:(lia)) as HLb.
  pose proof (keyed_bounds _ _ Hf) as Hb. unfold encode_header.
  rewrite (u32_id (Z.of_nat L)), (obfuscate_u32 kf f (Z.of_nat L) Hf) by lia.
  set (n := obfuscate f (Z.of_nat L)). assert (0 <= n < 94 ^ 3) as Hn by by eapply obfuscate_bound.
  pose proof (decimal_len n Hn) as Hd. destruct (padded_cons n Hn) as (p1 & p2 & p3 & Hp & Hp1 & Hp2 & Hp3).
  rewrite (proj2 (orb_false_iff _ _)) by (split; [apply Nat.eqb_neq|apply Nat.leb_gt]; unfold HEADER_SIMPLE; lia).
  change (HEADER_SIMPLE - ?x)%nat with (length ([32%Z] : bytes) + 3 - x)%nat.
  change (replicate HEADER_EXTENDED 32) with ([32] ++ replicate 3 32 ++ replicate 3 32).
  rewrite copy_right_aligned by done. fold (padded n). rewrite Hp. cbn [app].
  destruct (randomize_header_ok rng p1 p2 p3 (replicate 3 32) Hp1) as (h' & rng' & -> & h4 & -> & Hh4).
  destruct (header4_wf _ _ _ _ Hh4 Hp2 Hp3) as (Hl4 & Hpr & Hwf).
  rewrite !(take_app_length' h4) by done.
  destruct (tx_first f) eqn:Etx.
  2:{ exists h4, rng'. split; [by rewrite set_tx_first_id|]. split; [done|]. split; [done|].
      intros g Hg Hrx. unfold decode_rx_header, decode_header_simple. rewrite Hrx.
      rewrite <- (app_nil_r (restore_header h4)), (simple_header_ok kf f L p1 p2 p3) by done.
      destruct (Z.ltb_spec (Z.of_nat L) 1); [lia|]. by rewrite Nat2Z.id, check_bound_ok by lia. }
  pose proof (checksum_bound h4 L Hwf Hl4 ltac:(lia)) as Hchk. set (chk := Z.lxor _ _) in *.
  rewrite (obfuscate_u32 kf f chk Hf) by lia. set (cn := obfuscate f chk).
  assert (0 <= cn < 94 ^ 3) as Hcn by by eapply obfuscate_bound.
  pose proof (decimal_len cn Hcn) as Hdc.
  rewrite (proj2 (orb_false_iff _ _)) by (split; [apply Nat.eqb_neq|apply Nat.ltb_ge]; unfold CHECKSUM_LEN, HEADER_EXTENDED, HEADER_SIMPLE; lia).
  replace (HEADER_EXTENDED - length (base94_decimal_encode cn))%nat
    with (length h4 + 3 - length (base94_decimal_encode cn))%nat by (by rewrite Hl4).
  rewrite <- (app_nil_r (replicate 3 32)), copy_right_aligned, app_nil_r by done. fold (padded cn).
  rewrite !(take_app_length' h4), !(drop_app_length' h4) by done.
  exists (h4 ++ shuffle (padded cn) (fr_kf f)), rng'. split; [done|].
  split; [by rewrite length_app, shuffle_length, padded_length, Hl4|].
  split.
  { apply Forall_app. split; [done|]. rewrite shuffle_permutation.
    eapply Forall_impl; [by apply padded_digits|]. intros ? ?. simpl in *. lia. }
  intros g Hg Hrx. unfold decode_rx_header, decode_header_extended. rewrite Hrx.
  rewrite !(take_app_length' h4), !(drop_app_length' h4) by done.
  rewrite (simple_header_ok kf f L p1 p2 p3) by done.
  destruct (Z.ltb_spec (Z.of_nat L) 1); [lia|].
  rewrite (restore_header_ok _ _ _ _ Hh4). cbn [HEADER_SIMPLE app take drop].
  replace (fr_kf f) with (fr_kf g) by (destruct Hf, Hg; congruence).
  rewrite !drop_0, take_0, app_nil_l, unshuffle_shuffle_id. unfold cn.
  rewrite (keyed_obfuscate kf f g), (decode_length_padded kf) by (try done; pose proof (keyed_bounds _ _ Hg); lia).
  rewrite Z.eqb_refl. by rewrite Nat2Z.id, check_bound_ok by lia.
Qed.
Lemma encode_frame_ok {R} `{RngLaws R} kf f (rng : R) out b :
  keyed kf f -> wf_bytes b -> b <> [] -> (base94_encoded_len b kf ≤ BASE94_MAX_FRAME)%nat ->
  exists h rng', encode_frame f rng out b =
      (Ok tt, (set_tx_first false f, rng', out ++ h ++ base94_encode b kf)) /\
    header_ok kf (tx_first f) (base94_encoded_len b kf) h.
Proof.
  intros Hf Hb Hne Hmax. unfold encode_frame. pose proof (base94_len_lower b kf).
  replace (fr_kf f) with kf by (by destruct Hf).
  destruct (Nat.eqb_spec (length b) 0) as [E|E]; [by apply nil_length_inv in E|].
  destruct (Nat.ltb_spec BASE94_MAX_FRAME (base94_encoded_len b kf)); [lia|].
  destruct (encode_header_ok kf f rng (base94_encoded_len b kf) Hf ltac:(lia)) as (h & rng' & -> & Hh).
  exists h, rng'. cbn [fr_kf set_tx_first]. by destruct Hf as (-> & _).
Qed.

Lemma rx_header_take kf g L h post : header_ok kf (rx_first g) L h ->
  length h = rx_header_len g /\ take (rx_header_len g) (h ++ post) = h /\ drop (rx_header_len g) (h ++ post) = post.
Proof.
  intros (Hl & _). assert (length h = rx_header_len g) as E by done.
  split; [done|]. split; [by apply take_app_length'|by apply drop_app_length'].
Qed.

Lemma decode_packet_ok kf g h b :
  keyed kf g -> wf_bytes b -> header_ok kf (rx_first g) (base94_encoded_len b kf) h ->
  decode_packet g (h ++ base94_encode b kf) = (Ok b, set_rx_first false g).
Proof.
  intros Hg Hb Hh. unfold decode_packet, decode_packet_into.
  destruct (rx_header_take kf g _ h (base94_encode b kf) Hh) as (Hl & -> & ->).
  rewrite !length_app, base94_encode_len.
  destruct (Nat.ltb_spec (length h + base94_encoded_len b kf) (rx_header_len g)); [lia|].
  destruct Hh as (_ & _ & Hdec). rewrite (Hdec g Hg eq_refl).
  destruct (Nat.eqb_spec (base94_encoded_len b kf + rx_header_len g) (length h + base94_encoded_len b kf)); [|lia].
  replace (fr_kf g) with kf by (by destruct Hg). by rewrite base94_decode_encode.
Qed.

Lemma read_frame_ok kf g h b rest e :
  keyed kf g -> wf_bytes b -> header_ok kf (rx_first g) (base94_encoded_len b kf) h ->
  read_frame g (Reader (h ++ base94_encode b kf ++ rest) e) = (Ok b, (set_rx_first false g, Reader rest e)).
Proof.
  intros Hg Hb Hh. unfold read_frame, read_frame_into.
  destruct (rx_header_take kf g _ h [] Hh) as (Hl & _).
  rewrite read_exact_app by done. destruct Hh as (_ & _ & Hdec). rewrite (Hdec g Hg eq_refl).
  rewrite read_take_app by (by rewrite base94_encode_len). rewrite base94_encode_len, Nat.eqb_refl.
  cbn [negb]. replace (fr_kf g) with kf by (by destruct Hg). by rewrite base94_decode_encode.
Qed.

(** What a decoder leaves behind, whatever the outcome. *)
Lemma decode_rx_header_bound g h L : decode_rx_header g h = Ok L -> (1 ≤ L ≤ BASE94_MAX_FRAME)%nat.
Proof.
  unfold decode_rx_header. intros E.
  assert (exists z, 1 <= z /\ check_bound (Z.to_nat z) = Ok tt /\ L = Z.to_nat z) as (z & Hz & Hc & ->).
  - destruct (if rx_first g then _ else _) as [z|e] eqn:Ez; [|done]. exists z.
    assert (1 <= z).
    { destruct (rx_first g); unfold decode_header_extended, decode_header_simple in Ez;
        repeat (case_match; try done); simplify_eq; lia. }
    destruct (check_bound (Z.to_nat z)) as [[]|] eqn:Ec; [|done]. by simplify_eq.
  - unfold check_bound in Hc. destruct (Nat.ltb_spec BASE94_MAX_FRAME (Z.to_nat z)); [done|lia].
Qed.
End FramerLemmas.

(** Every decoder outcome: success means a frame of exactly the announced,
    bounded length and advances the first-frame state; failure changes nothing. *)
Lemma decode_packet_cases `{Base94Laws} g p :
  (exists b L, decode_packet g p = (Ok b, set_rx_first false g) /\
     peek_frame_len g p = Ok (Some (length p)) /\ length p = (rx_header_len g + L)%nat /\
     (length b ≤ L ≤ BASE94_MAX_FRAME)%nat) \/
  (exists e, decode_packet g p = (Err e, g)).
Proof.
  unfold decode_packet, decode_packet_into, peek_frame_len.
  destruct (Nat.ltb_spec (length p) (rx_header_len g)) as [|Hlen]; [by eauto|].
  destruct (decode_rx_header g (take (rx_header_len g) p)) as [L|e] eqn:Eh; [|by eauto].
  pose proof (decode_rx_header_bound _ _ _ Eh) as HL.
  destruct (Nat.eqb_spec (L + rx_header_len g) (length p)) as [El|]; [|by eauto]. cbn [negb].
  destruct (base94_decode _ _) as [b|] eqn:Ed; [|by eauto]. left. exists b, L.
  pose proof (base94_decode_len _ _ _ Ed) as Hb. rewrite length_drop in Hb.
  repeat split; try lia. do 2 f_equal. lia.
Qed.

Lemma read_frame_cases `{Base94Laws} g r :
  match read_frame g r with
  | (Ok b, (g', _)) => g' = set_rx_first false g
  | (Err _, (g', _)) => g' = g
  end.
Proof.
  unfold read_frame, read_frame_into. destruct (read_exact _ r) as [[h|e] r1]; [|done].
  destruct (decode_rx_header g h) as [L|e]; [|done].
  destruct (read_take L r1) as [[s|e] r2]; [|done].
  destruct (negb _); [done|]. by destruct (base94_decode s (fr_kf g)).
Qed.

(** A stream of frames: one encoder writes them, one decoder reads them. *)
Fixpoint encode_frames `{Base94Codec} {R} `{Rng R} (f : Base94Framer) (rng : R) (out : bytes)
    (msgs : list bytes) : result Error unit * (Base94Framer * R * bytes) :=
  match msgs with
  | [] => (Ok tt, (f, rng, out))
  | b :: msgs =>
      match encode_frame f rng out b with
      | (Ok _, (f, rng, out)) => encode_frames f rng out msgs
      | (Err e, s) => (Err e, s)
      end
  end.

Fixpoint read_frames `{Base94Codec} (n : nat) (g : Base94Framer) (r : reader)
    : result Error (list bytes) * (Base94Framer * reader) :=
  match n with
  | O => (Ok [], (g, r))
  | S n =>
      match read_frame g r with
      | (Ok b, (g, r)) =>
          let (res, s) := read_frames n g r in (result_map (cons b) res, s)
      | (Err e, s) => (Err e, s)
      end
  end.

Section FrameStream.
Context `{Base94Laws} {R} `{RngLaws R}.

Lemma frames_ok kf msgs : forall f g (rng : R) out,
  keyed kf f -> keyed kf g -> rx_first g = tx_first f ->
  Forall (fun b => wf_bytes b /\ b <> [] /\ (base94_encoded_len b kf ≤ BASE94_MAX_FRAME)%nat) msgs ->
  exists f' rng' wire, encode_frames f rng out msgs = (Ok tt, (f', rng', out ++ wire)) /\
    Forall (fun c => printable c) wire /\
    forall rest e, exists g', read_frames (length msgs) g (Reader (wire ++ rest) e) = (Ok msgs, (g', Reader rest e)).
Proof.
  induction msgs as [|b msgs IH]; intros f g rng out Hf Hg Hs Hm.
  - exists f, rng, []. rewrite app_nil_r. split; [done|]. split; [constructor|]. intros. by exists g.
  - apply Forall_cons in Hm as [(Hb & Hne & Hmax) Hm]. cbn [encode_frames length read_frames].
    destruct (encode_frame_ok kf f rng out b Hf Hb Hne Hmax) as (h & rng' & -> & Hh).
    destruct (IH (set_tx_first false f) (set_rx_first false g) rng' (out ++ h ++ base94_encode b kf))
      as (f' & rng'' & wire & -> & Hpr & Hrd); auto with framer.
    exists f', rng'', (h ++ base94_encode b kf ++ wire). split; [by rewrite <- !app_assoc|].
    split.
    { destruct Hh as (_ & Hhp & _). repeat (apply Forall_app; split); auto using base94_encode_printable. }
    intros rest e. rewrite <- !app_assoc, (read_frame_ok kf) by (try done; by rewrite Hs).
    destruct (Hrd rest e) as (g' & Hg'). rewrite Hg'. by exists g'.
Qed.
End FrameStream.

(** ** Properties *)

(** C18: a framer freshly built from a key reads back, in order and leaving the
    following bytes of the stream untouched, every sequence of non-empty
    messages whose encodings fit the frame bound, when another framer of the
    same key wrote them with any random generator; and everything written is
    printable ASCII. *)
Theorem base94_stream_roundtrip `{Base94Laws} {R} `{RngLaws R} kf (rng : R) out msgs :
  Forall (fun b => wf_bytes b /\ b <> [] /\ (base94_encoded_len b kf ≤ BASE94_MAX_FRAME)%nat) msgs ->
  exists f' rng' wire,
    encode_frames (framer_new kf) rng out msgs = (Ok tt, (f', rng', out ++ wire)) /\
    Forall (fun c => printable c) wire /\
    forall rest e, exists g',
      read_frames (length msgs) (framer_new kf) (Reader (wire ++ rest) e) = (Ok msgs, (g', Reader rest e)).
Proof. intros Hm. apply (frames_ok kf); auto with framer. Qed.


(** Decoding an in-memory frame either succeeds, in which case the packet is
    exactly the frame that [peek_frame_len] announced, within the size bound,
    and the decoder leaves the first-frame state; or it fails and the decoder
    is unchanged, so that a bad frame never advances the handshake state. *)
Theorem base94_decode_packet_outcome `{Base94Laws} g p :
  (exists b L, decode_packet g p = (Ok b, set_rx_first false g) /\
     peek_frame_len g p = Ok (Some (length p)) /\ length p = (rx_header_len g + L)%nat /\
     (length b ≤ L ≤ BASE94_MAX_FRAME)%nat) \/
  (exists e, decode_packet g p = (Err e, g)).
Proof. apply decode_packet_cases. Qed.

(** C19: the random bytes of the first header are authenticated: replacing the
    filler (second byte, when the first is even) by any other byte, which does
    not change the decoded length, makes the decoder report
    [ChecksumMismatch]. *)
Theorem base94_filler_authenticated `{Base94Laws} g k q q' h L :
  wf_bytes (k :: q :: h) -> (2 ≤ length h)%nat -> is_byte q' -> q' <> q -> Z.even k = true ->
  decode_header_extended g (k :: q :: h) = Ok L ->
  decode_header_extended g (k :: q' :: h) = Err ChecksumMismatch.
Proof.
  intros Hw Hl Hq Hne Hk Hd. destruct h as [|d1 [|d2 t]]; simpl in Hl; try lia.
  unfold decode_header_extended in *. cbn [HEADER_SIMPLE take drop] in *. unfold restore_header in *.
  cbn [nth] in *. rewrite even_land, Hk, take_0 in *. cbn [insert list_insert] in *.
  set (h0 := swap _ _ _ ++ _) in *.
  destruct (decode_length g (drop 1 (take 4 h0))) as [len|] eqn:El; cbn iota beta in *; [|done].
  destruct (len <? 1); [done|]. destruct (decode_length g (drop 4 _)) as [n|] eqn:En; [|done].
  destruct (Z.eqb_spec n (Z.lxor (inet_chksum [k; q; d1; d2]) len)) as [->|]; [|done].
  destruct (Z.eqb_spec (Z.lxor (inet_chksum [k; q; d1; d2]) len) (Z.lxor (inet_chksum [k; q'; d1; d2]) len)) as [E|]; [|done].
  exfalso. apply (f_equal (fun x => Z.lxor x len)) in E. rewrite !lxor_cancel_r in E.
  apply (inet_chksum_single_byte [k] q q' [d1; d2]); [|done|done|simpl; lia|done].
  rewrite !wf_bytes_cons in Hw. cbn [app]. rewrite !wf_bytes_cons. pose proof wf_bytes_nil. tauto.
Qed.

(** ** Concrete instances *)

#[local] Existing Instance Doc.codec.
#[local] Existing Instance Doc.laws.

Lemma base94_stream_roundtrip_witness :
  exists f' rng' wire,
    encode_frames (framer_new 150025) ([7; 9; 11] : tape) [] [[1; 2; 255]; [0]] = (Ok tt, (f', rng', [] ++ wire)) /\
    Forall (fun c => printable c) wire /\
    forall rest e, exists g',
      read_frames 2 (framer_new 150025) (Reader (wire ++ rest) e) = (Ok [[1; 2; 255]; [0]], (g', Reader rest e)).
Proof.
  apply (base94_stream_roundtrip 150025 ([7; 9; 11] : tape) [] [[1; 2; 255]; [0]]).
  repeat (apply Forall_cons; split); try apply Forall_nil; try exact I;
    (split; [by apply wf_bytes_eval|]; split; [discriminate|]; apply Nat.leb_le; vm_compute; reflexivity).
Defined.

Lemma base94_filler_authenticated_witness :
  decode_header_extended (framer_new 3) [40; 42; 41; 32; 37; 37; 105] = Err ChecksumMismatch.
Proof.
  apply (base94_filler_authenticated (framer_new 3) 40 41 42 [41; 32; 37; 37; 105] 6).
  - by apply wf_bytes_eval.
  - simpl. lia.
  - lia.
  - lia.
  - reflexivity.
  - vm_compute. reflexivity.
Defined.

Lemma base94_decode_packet_outcome_witness :
  (exists b L, decode_packet (framer_new 3) [40; 41; 41; 32; 37; 37; 105; 126; 100; 126; 101; 126; 98]
       = (Ok b, set_rx_first false (framer_new 3)) /\ (length b ≤ L)%nat) \/
  (exists e, decode_packet (framer_new 3) [40; 41; 41; 32; 37; 37; 105; 126; 100; 126; 101; 126; 98] = (Err e, framer_new 3)).
Proof.
  destruct (base94_decode_packet_outcome (framer_new 3) [40; 41; 41; 32; 37; 37; 105; 126; 100; 126; 101; 126; 98])
    as [(b & L & H1 & _ & _ & H2 & _)|H]; [left; exists b, L; by split|by right].
Defined.
