(* ===== verification/Cipher.v ===== *)
(** * Session ciphers ([crates/core/src/crypto/cipher.rs])

    Methods and roles, key derivation, the per-packet nonce, and the
    hand-rolled CFB and CTR modes over a block cipher.  AES, ChaCha20 and HKDF
    are registry crates: their operations are the class [CryptoBackend], their
    documented shapes the class [CryptoLaws]. *)
From S2P Require Import Prelude.

Inductive CipherRole := Protocol | Transport.

Definition CipherRole_name (r : CipherRole) : str :=
  match r with Protocol => lit "protocol" | Transport => lit "transport" end.

Inductive Method := Aes128Cfb | Aes256Cfb | Aes128Ctr | Aes256Ctr | ChaCha20.

#[export] Instance CipherRole_eq_dec : EqDecision CipherRole.
Proof. solve_decision. Defined.
#[export] Instance Method_eq_dec : EqDecision Method.
Proof. solve_decision. Defined.

(** [Method::from_name]. *)
Definition from_name (name : str) : option Method :=
  let n := to_ascii_lowercase (trim name) in
  if str_eqb n (lit "aes-128-cfb") then Some Aes128Cfb
  else if str_eqb n (lit "aes-256-cfb") then Some Aes256Cfb
  else if str_eqb n (lit "aes-128-ctr") then Some Aes128Ctr
  else if str_eqb n (lit "aes-256-ctr") then Some Aes256Ctr
  else if str_eqb n (lit "chacha20") || str_eqb n (lit "chacha20-ietf") then Some ChaCha20
  else None.

Definition Method_name (m : Method) : str :=
  match m with
  | Aes128Cfb => lit "aes-128-cfb"
  | Aes256Cfb => lit "aes-256-cfb"
  | Aes128Ctr => lit "aes-128-ctr"
  | Aes256Ctr => lit "aes-256-ctr"
  | ChaCha20 => lit "chacha20"
  end.

Definition key_len (m : Method) : nat :=
  match m with Aes128Cfb | Aes128Ctr => 16 | Aes256Cfb | Aes256Ctr | ChaCha20 => 32 end.

Definition iv_len (m : Method) : nat :=
  match m with Aes128Cfb | Aes256Cfb | Aes128Ctr | Aes256Ctr => 16 | ChaCha20 => 12 end.

Definition KEY_MAX : nat := 32.
Definition NONCE_MAX : nat := 16.

(** ** The crates the module calls *)

Class CryptoBackend := {
  aes128 : bytes -> bytes -> bytes;             (** key schedule, then [encrypt_block] *)
  aes256 : bytes -> bytes -> bytes;
  chacha20_keystream : bytes -> bytes -> nat -> bytes;  (** what [apply_keystream] XORs in *)
  hkdf_sha256 : bytes -> bytes -> bytes -> nat -> bytes (** salt, ikm, info, output length *)
}.

Class CryptoLaws `{CryptoBackend} : Prop := {
  aes128_block k b : length (aes128 k b) = 16%nat /\ wf_bytes (aes128 k b);
  aes256_block k b : length (aes256 k b) = 16%nat /\ wf_bytes (aes256 k b);
  chacha20_stream k n l : length (chacha20_keystream k n l) = l /\ wf_bytes (chacha20_keystream k n l);
  hkdf_output s i f l : length (hkdf_sha256 s i f l) = l /\ wf_bytes (hkdf_sha256 s i f l)
}.

(** ** Modes of operation *)

Section Modes.
Context (E : bytes -> bytes).

(** [xor16_store]: a 128-bit little-endian XOR. *)
Definition xor16_store (chunk ks : bytes) : bytes :=
  le_bytes 16 (Z.lxor (le_val chunk) (le_val ks)).

Definition xor_tail (feedback rem : bytes) : bytes :=
  match rem with
  | [] => []
  | _ => xor_bytes rem (E feedback)
  end.

(** The serial loop of [cfb_encrypt]: ciphertext blocks and the last feedback. *)
Fixpoint cfb_encrypt_blocks (fb : bytes) (chunks : list bytes) : list bytes * bytes :=
  match chunks with
  | [] => ([], fb)
  | chunk :: chunks =>
      let ct := xor16_store chunk (E fb) in
      let (cts, fb) := cfb_encrypt_blocks ct chunks in (ct :: cts, fb)
  end.

Definition cfb_encrypt (iv data : bytes) : bytes :=
  let (chunks, tail) := as_chunks 16 data in
  let (cts, fb) := cfb_encrypt_blocks iv chunks in
  concat cts ++ xor_tail fb tail.

Definition BATCH : nat := 8.

(** The batched loop of [cfb_decrypt]: up to eight ciphertext blocks per round,
    whose keystream blocks are the encryptions of the previous ciphertexts. *)
Fixpoint cfb_decrypt_batches (fuel : nat) (prev : bytes) (chunks : list bytes) : list bytes * bytes :=
  match fuel, chunks with
  | S fuel, _ :: _ =>
      let batch := take BATCH chunks in
      let n := length batch in
      let last_ct := default prev (batch !! (n - 1)%nat) in
      let ks := map E (prev :: take (n - 1) batch) in
      let out := zip_with xor16_store batch ks in
      let (outs, fb) := cfb_decrypt_batches fuel last_ct (drop BATCH chunks) in
      (out ++ outs, fb)
  | _, _ => ([], prev)
  end.

Definition cfb_decrypt (iv data : bytes) : bytes :=
  let (chunks, tail) := as_chunks 16 data in
  let (pts, prev) := cfb_decrypt_batches (length chunks) iv chunks in
  concat pts ++ xor_tail prev tail.

Definition cfb_apply (iv data : bytes) (encrypting : bool) : bytes :=
  if encrypting then cfb_encrypt iv data else cfb_decrypt iv data.

Definition div_ceil (a b : nat) : nat := ((a + b - 1) / b)%nat.

(** [Block::from((counter + k).to_be_bytes())] for [k < n], encrypted. *)
Definition ctr_keystream (counter : Z) (n : nat) : bytes :=
  concat (map (fun k => E (be_bytes 16 (u128 (counter + Z.of_nat k)))) (seq 0 n)).

(** The batched loop of [ctr_apply]: up to 128 bytes per round.  The counter is
    a [u128] whose additions wrap (the release profile). *)
Fixpoint ctr_loop (fuel : nat) (counter : Z) (data : bytes) : bytes :=
  match fuel, data with
  | S fuel, _ :: _ =>
      let take_ := (length data `min` (BATCH * 16))%nat in
      let n := div_ceil take_ 16 in
      xor_bytes (take take_ data) (ctr_keystream counter n)
        ++ ctr_loop fuel (u128 (counter + Z.of_nat n)) (drop take_ data)
  | _, _ => []
  end.

Definition ctr_apply (iv data : bytes) : bytes := ctr_loop (length data) (be_val iv) data.
End Modes.

(** ** Key derivation *)

Definition ALPHABET : str := lit "0123456789abcdefghijklmnopqrstuv".

(** The loop of [encode_base32]; 26 digits hold a [u128]. *)
Fixpoint base32_digits (fuel : nat) (v : Z) : bytes :=
  match fuel with
  | O => []
  | S fuel =>
      nth (Z.to_nat (Z.land v 31)) ALPHABET 0
        :: (if Z.shiftr v 5 =? 0 then [] else base32_digits fuel (Z.shiftr v 5))
  end.

Definition encode_base32 (v : Z) : bytes := rev (base32_digits 26 v).

(** The key material: password, then ["+"] and the base-32 [ivv]. *)
Definition ikm (password : str) (ivv : option Z) : bytes :=
  utf8 password ++
  match ivv with
  | Some ivv => (if 0 <? ivv then lit "+" else []) ++ encode_base32 ivv
  | None => []
  end.

Definition kdf_salt (role : CipherRole) (method : Method) : bytes :=
  lit "nextppp/" ++ CipherRole_name role ++ lit "/" ++ Method_name method.

Section Session.
Context `{CryptoBackend}.

Definition derive_material (role : CipherRole) (method : Method) (password : str) (ivv : option Z)
    : bytes * bytes :=
  let okm := hkdf_sha256 (kdf_salt role method) (ikm password ivv)
               (lit "nextppp-session-key") (KEY_MAX + NONCE_MAX) in
  (take KEY_MAX okm, drop KEY_MAX okm).

(** ** Session ciphers *)

Inductive Core := CoreAes128 (key : bytes) | CoreAes256 (key : bytes) | CoreChaCha (key : bytes).

Record SessionCipher := Cipher {
  sc_method : Method;
  sc_core : Core;
  sc_base_iv : bytes;
  sc_seq : Z;
  sc_encrypting : bool
}.

Definition derive (method : Method) (role : CipherRole) (password : str) (ivv : option Z) : SessionCipher :=
  let (key, base_iv) := derive_material role method password ivv in
  let core :=
    match method with
    | Aes128Cfb | Aes128Ctr => CoreAes128 (take 16 key)
    | Aes256Cfb | Aes256Ctr => CoreAes256 (take 32 key)
    | ChaCha20 => CoreChaCha key
    end in
  Cipher method core base_iv 0 true.

Definition cipher_new (method : Method) (role : CipherRole) (password : str) : SessionCipher :=
  derive method role password None.

Definition for_decryption (c : SessionCipher) : SessionCipher :=
  Cipher (sc_method c) (sc_core c) (sc_base_iv c) (sc_seq c) false.

Definition sequence (c : SessionCipher) : Z := sc_seq c.

Definition xor_width (m : Method) : nat := if decide (m = ChaCha20) then 4 else 8.

(** The nonce of sequence number [seq]. *)
Definition nonce_at (m : Method) (base_iv : bytes) (seq : Z) : bytes :=
  let w := xor_width m in
  let start := (iv_len m - w)%nat in
  take start base_iv
    ++ xor_bytes (take w (drop start base_iv)) (drop (8 - w) (be_bytes 8 seq))
    ++ drop (start + w) base_iv.

Definition next_nonce (c : SessionCipher) : bytes * SessionCipher :=
  (nonce_at (sc_method c) (sc_base_iv c) (sc_seq c),
   Cipher (sc_method c) (sc_core c) (sc_base_iv c) (u64 (sc_seq c + 1)) (sc_encrypting c)).

(** [SessionCipher::apply].  The last arm is the code's [unreachable!]: no
    derived cipher reaches it ([cipher_ok]). *)
Definition apply (c : SessionCipher) (data : bytes) : bytes * SessionCipher :=
  let (nonce, c') := next_nonce c in
  (match sc_method c, sc_core c with
   | Aes128Cfb, CoreAes128 k => cfb_apply (aes128 k) nonce data (sc_encrypting c)
   | Aes256Cfb, CoreAes256 k => cfb_apply (aes256 k) nonce data (sc_encrypting c)
   | Aes128Ctr, CoreAes128 k => ctr_apply (aes128 k) nonce data
   | Aes256Ctr, CoreAes256 k => ctr_apply (aes256 k) nonce data
   | ChaCha20, CoreChaCha k =>
       xor_bytes data (chacha20_keystream (take 32 k) (take 12 nonce) (length data))
   | _, _ => data
   end, c').
End Session.

(** ** Block cipher modes *)

(** Textbook CFB decryption: one block at a time. *)
Fixpoint cfb_decrypt_serial (E : bytes -> bytes) (prev : bytes) (chunks : list bytes) : list bytes * bytes :=
  match chunks with
  | [] => ([], prev)
  | ct :: chunks =>
      let (pts, fb) := cfb_decrypt_serial E ct chunks in (xor16_store ct (E prev) :: pts, fb)
  end.

(** The blocks of a slice as the modes see them. *)
Definition block (b : bytes) : Prop := length b = 16%nat /\ wf_bytes b.

Lemma chunks_blocks data : wf_bytes data ->
  let (chunks, tail) := as_chunks 16 data in
  data = concat chunks ++ tail /\ Forall block chunks /\ (length tail < 16)%nat /\ wf_bytes tail.
Proof.
  intros Hw. pose proof (as_chunks_concat 16 data ltac:(lia)) as H.
  destruct (as_chunks 16 data) as [chunks tail]. destruct H as (-> & Hc & Ht).
  apply wf_bytes_app in Hw as [Hw ?]. split_and!; try done.
  clear -Hw Hc. induction Hc as [|c cs Hc Hcs IH]; [constructor|]. simpl in Hw.
  apply wf_bytes_app in Hw as [? ?]. constructor; [by split|by apply IH].
Qed.

Lemma blocks_length cs : Forall block cs -> Forall (fun c => length c = 16%nat) cs.
Proof. intros H. eapply Forall_impl; [done|]. by intros ? []. Qed.

Lemma blocks_wf cs : Forall block cs -> wf_bytes (concat cs).
Proof. induction 1 as [|c cs [? ?] ? IH]; simpl; auto with bytes. Qed.

Lemma xor16_store_xor chunk ks : block chunk -> block ks -> xor16_store chunk ks = xor_bytes chunk ks.
Proof.
  intros [Hl Hw] [Hl' Hw']. unfold xor16_store. rewrite le_bytes_lxor.
  rewrite <- Hl at 1. rewrite <- Hl'. by rewrite !le_bytes_val.
Qed.

Lemma xor16_store_block chunk ks : block chunk -> block ks -> block (xor16_store chunk ks).
Proof.
  intros Hc Hk. rewrite xor16_store_xor by done. destruct Hc, Hk.
  split; [rewrite xor_bytes_length; lia|auto with bytes].
Qed.

Lemma xor16_store_cancel chunk ks : block chunk -> block ks -> xor16_store (xor16_store chunk ks) ks = chunk.
Proof.
  intros Hc Hk. rewrite xor16_store_xor, xor16_store_xor by auto using xor16_store_block.
  destruct Hc, Hk. apply xor_bytes_cancel. lia.
Qed.

Lemma map_seq_add {A} (f : nat -> A) n m : map f (seq n m) = map (fun k => f (n + k)%nat) (seq 0 m).
Proof.
  revert f n. induction m as [|m IH]; intros f n; simpl; [done|]. rewrite Nat.add_0_r. f_equal.
  rewrite (IH f (S n)), (IH _ 1%nat). apply map_ext. intros. f_equal. lia.
Qed.

Section ModeLemmas.
Context (E : bytes -> bytes) (HE : forall b, block (E b)).

(** A prefix of the serial decryption is one batch. *)
Lemma cfb_serial_app prev a b :
  cfb_decrypt_serial E prev (a ++ b) =
    let (pts, fb) := cfb_decrypt_serial E (default prev (a !! (length a - 1)%nat)) b in
    (zip_with xor16_store a (map E (prev :: take (length a - 1) a)) ++ pts, fb).
Proof.
  revert prev. induction a as [|x a IH]; intros prev; [simpl; by destruct (cfb_decrypt_serial E prev b)|].
  cbn [app cfb_decrypt_serial]. rewrite IH. cbn [length]. rewrite Nat.sub_succ, Nat.sub_0_r.
  destruct a as [|y a]; simpl; [by destruct (cfb_decrypt_serial E x b)|].
  rewrite Nat.sub_0_r.
  replace (default x ((y :: a) !! length a)) with (default prev ((y :: a) !! length a)).
  - by destruct (cfb_decrypt_serial E _ b).
  - destruct (lookup_lt_is_Some_2 (y :: a) (length a) ltac:(simpl; lia)) as [z ->]. done.
Qed.

Lemma cfb_batches_serial fuel prev chunks :
  (length chunks ≤ fuel)%nat -> cfb_decrypt_batches E fuel prev chunks = cfb_decrypt_serial E prev chunks.
Proof.
  revert prev chunks. induction fuel as [|fuel IH]; intros prev chunks Hf.
  { destruct chunks; [done|simpl in Hf; lia]. }
  destruct chunks as [|x chunks]; [done|].
  rewrite <- (take_drop BATCH (x :: chunks)) at 2. rewrite cfb_serial_app.
  cbn [cfb_decrypt_batches]. rewrite IH; [done|]. rewrite length_drop. unfold BATCH. simpl in *. lia.
Qed.

Lemma cfb_encrypt_blocks_ok fb chunks :
  Forall block chunks ->
  let (cts, fb') := cfb_encrypt_blocks E fb chunks in
  Forall block cts /\ length cts = length chunks /\ cfb_decrypt_serial E fb cts = (chunks, fb').
Proof.
  intros Hc. revert fb. induction Hc as [|c cs Hc Hcs IH]; intros fb; [done|]. cbn [cfb_encrypt_blocks].
  specialize (IH (xor16_store c (E fb))). destruct (cfb_encrypt_blocks E _ cs) as [cts fb'].
  destruct IH as (Hb & Hl & Hd). split_and!.
  - constructor; auto using xor16_store_block.
  - simpl. lia.
  - cbn [cfb_decrypt_serial]. rewrite Hd, xor16_store_cancel by auto. done.
Qed.

Lemma cfb_decrypt_serial_blocks prev chunks :
  Forall block chunks -> Forall block (fst (cfb_decrypt_serial E prev chunks)) /\
    length (fst (cfb_decrypt_serial E prev chunks)) = length chunks.
Proof.
  intros Hc. revert prev. induction Hc as [|c cs Hc Hcs IH]; intros prev; [done|]. cbn [cfb_decrypt_serial].
  specialize (IH c). destruct (cfb_decrypt_serial E c cs) as [pts fb]. simpl in *.
  split; [constructor; [by apply xor16_store_block|apply IH]|lia].
Qed.

Lemma xor_tail_length fb t : (length t < 16)%nat -> length (xor_tail E fb t) = length t.
Proof. intros. destruct t; [done|]. apply xor_bytes_length. destruct (HE fb) as [-> _]. lia. Qed.

Lemma xor_tail_wf fb t : wf_bytes t -> wf_bytes (xor_tail E fb t).
Proof. intros. destruct t; [done|]. apply xor_bytes_wf; [done|apply HE]. Qed.

Lemma xor_tail_cancel fb t : (length t < 16)%nat -> xor_tail E fb (xor_tail E fb t) = t.
Proof.
  intros Ht. destruct t as [|x t]; [done|]. unfold xor_tail at 2.
  pose proof (xor_bytes_length (x :: t) (E fb)) as Hl. pose proof (xor_bytes_cancel (x :: t) (E fb)) as Hc.
  destruct (HE fb) as [Hb _]. rewrite Hb in *. destruct (xor_bytes (x :: t) (E fb)) eqn:Ex.
  - specialize (Hl ltac:(lia)). done.
  - cbn [xor_tail]. apply Hc. lia.
Qed.

Lemma concat_length_blocks cs : Forall block cs -> length (concat cs) = (16 * length cs)%nat.
Proof. induction 1 as [|c cs [Hl _] _ IH]; simpl; [done|]. rewrite length_app, IH, Hl. lia. Qed.

Lemma cfb_encrypt_wf iv data : wf_bytes data ->
  wf_bytes (cfb_encrypt E iv data) /\ length (cfb_encrypt E iv data) = length data.
Proof.
  intros Hw. pose proof (chunks_blocks data Hw) as H. unfold cfb_encrypt.
  destruct (as_chunks 16 data) as [chunks tail]. destruct H as (-> & Hb & Ht & Hwt).
  pose proof (cfb_encrypt_blocks_ok iv chunks Hb) as H. destruct (cfb_encrypt_blocks E iv chunks) as [cts fb].
  destruct H as (Hbc & Hl & _). split; [apply wf_bytes_app_2; auto using blocks_wf, xor_tail_wf|].
  rewrite !length_app, !concat_length_blocks, xor_tail_length by done. lia.
Qed.

Lemma cfb_decrypt_wf iv data : wf_bytes data ->
  wf_bytes (cfb_decrypt E iv data) /\ length (cfb_decrypt E iv data) = length data.
Proof.
  intros Hw. pose proof (chunks_blocks data Hw) as H. unfold cfb_decrypt.
  destruct (as_chunks 16 data) as [chunks tail]. destruct H as (-> & Hb & Ht & Hwt).
  rewrite cfb_batches_serial by lia. pose proof (cfb_decrypt_serial_blocks iv chunks Hb) as [Hbc Hl].
  destruct (cfb_decrypt_serial E iv chunks) as [pts fb]. simpl in *.
  split; [apply wf_bytes_app_2; auto using blocks_wf, xor_tail_wf|].
  rewrite !length_app, !concat_length_blocks, xor_tail_length by done. lia.
Qed.

Lemma cfb_decrypt_encrypt iv data : wf_bytes data -> cfb_decrypt E iv (cfb_encrypt E iv data) = data.
Proof.
  intros Hw. pose proof (chunks_blocks data Hw) as H. unfold cfb_encrypt.
  destruct (as_chunks 16 data) as [chunks tail]. destruct H as (-> & Hb & Ht & Hwt).
  pose proof (cfb_encrypt_blocks_ok iv chunks Hb) as H. destruct (cfb_encrypt_blocks E iv chunks) as [cts fb].
  destruct H as (Hbc & Hl & Hd). unfold cfb_decrypt.
  rewrite as_chunks_of_concat by (rewrite ?xor_tail_length by done; auto using blocks_length).
  rewrite cfb_batches_serial, Hd, xor_tail_cancel by (done || lia). done.
Qed.

(** *** CTR *)

Lemma ctr_keystream_length c n : length (ctr_keystream E c n) = (16 * n)%nat.
Proof.
  unfold ctr_keystream. rewrite concat_length_blocks; [by rewrite length_map, length_seq|].
  apply Forall_map, Forall_forall. intros. apply HE.
Qed.

Lemma ctr_keystream_wf c n : wf_bytes (ctr_keystream E c n).
Proof. apply blocks_wf, Forall_map, Forall_forall. intros. apply HE. Qed.

Lemma ctr_keystream_add c n m :
  ctr_keystream E c (n + m) = ctr_keystream E c n ++ ctr_keystream E (u128 (c + Z.of_nat n)) m.
Proof.
  unfold ctr_keystream. rewrite seq_app, map_app, concat_app. f_equal. f_equal.
  rewrite map_seq_add. apply map_ext. intros k. do 2 f_equal. unfold u128.
  rewrite Z.add_mod_idemp_l by lia. f_equal. lia.
Qed.

(** The batched loop XORs in the keystream of consecutive counters. *)
Lemma ctr_loop_spec fuel c data n :
  (length data ≤ fuel)%nat -> (length data ≤ 16 * n)%nat ->
  ctr_loop E fuel c data = xor_bytes data (ctr_keystream E c n).
Proof.
  revert c data n. induction fuel as [|fuel IH]; intros c data n Hf Hn.
  { destruct data; [done|simpl in Hf; lia]. }
  destruct data as [|x data]; [done|]. cbn [ctr_loop]. set (d := x :: data) in *.
  assert (1 ≤ length d)%nat as Hd by (simpl; lia).
  set (t := (length d `min` (BATCH * 16))%nat). set (m := div_ceil t 16).
  assert (t ≤ length d /\ t ≤ 16 * m /\ 1 ≤ t /\ (t = 128 \/ t = length d) /\ (t = 128 -> m = 8)%nat /\ m ≤ n)%nat as (Ht & Hm & Ht1 & Hc & Hm8 & Hmn).
  { unfold m, div_ceil. pose proof (Nat.div_mod (t + 16 - 1) 16 ltac:(lia)) as Hdm.
    pose proof (Nat.mod_upper_bound (t + 16 - 1) 16 ltac:(lia)).
    assert (t = length d `min` 128)%nat by done. split_and!; try lia. }
  destruct Hc as [E128|Eall].
  - specialize (Hm8 E128). rewrite Hm8 in *. replace n with (8 + (n - 8))%nat by lia.
    rewrite ctr_keystream_add. rewrite (IH _ _ (n - 8)%nat) by (rewrite length_drop; lia).
    rewrite <- xor_bytes_app by (rewrite length_take, ctr_keystream_length; lia).
    by rewrite take_drop.
  - rewrite take_ge, drop_ge by lia. replace (ctr_loop E fuel _ []) with (@nil Z) by (by destruct fuel).
    rewrite app_nil_r. replace n with (m + (n - m))%nat by lia.
    rewrite ctr_keystream_add, xor_bytes_prefix; [done|]. rewrite ctr_keystream_length. lia.
Qed.

Lemma ctr_apply_spec iv data n : (length data ≤ 16 * n)%nat ->
  ctr_apply E iv data = xor_bytes data (ctr_keystream E (be_val iv) n).
Proof. intros. by apply ctr_loop_spec. Qed.

Lemma ctr_apply_wf iv data : wf_bytes data ->
  wf_bytes (ctr_apply E iv data) /\ length (ctr_apply E iv data) = length data.
Proof.
  intros. rewrite (ctr_apply_spec iv data (length data)) by lia.
  split; [auto using xor_bytes_wf, ctr_keystream_wf|]. rewrite xor_bytes_length; rewrite ?ctr_keystream_length; lia.
Qed.

Lemma ctr_apply_involutive iv data : ctr_apply E iv (ctr_apply E iv data) = data.
Proof.
  rewrite (ctr_apply_spec iv data (length data)) by lia. set (ks := ctr_keystream E _ _).
  assert (length data ≤ length ks)%nat by (unfold ks; rewrite ctr_keystream_length; lia).
  rewrite (ctr_apply_spec _ _ (length data)) by (rewrite xor_bytes_length; lia).
  by apply xor_bytes_cancel.
Qed.
End ModeLemmas.

(** ** Nonces *)

Lemma xor_width_iv m : (xor_width m ≤ iv_len m ≤ 16 /\ xor_width m ≤ 8)%nat.
Proof. destruct m; vm_compute; lia. Qed.

Lemma le_bytes_take n w v : (w ≤ n)%nat -> take w (le_bytes n v) = le_bytes w v.
Proof.
  revert w v. induction n as [|n IH]; intros [|w] v Hw; simpl; try done; [lia|]. by rewrite IH by lia.
Qed.

Lemma be_bytes_suffix n w v : (w ≤ n)%nat -> drop (n - w) (be_bytes n v) = be_bytes w v.
Proof.
  intros Hw. unfold be_bytes. rewrite <- (le_bytes_take n w v Hw).
  rewrite <- (take_drop w (le_bytes n v)) at 1. rewrite rev_app_distr.
  apply drop_app_length'. rewrite length_rev, length_drop, le_bytes_length. lia.
Qed.

Lemma be_bytes_inj w a b : be_bytes w a = be_bytes w b -> a mod 256 ^ Z.of_nat w = b mod 256 ^ Z.of_nat w.
Proof. intros E. by rewrite <- !be_val_bytes, E. Qed.

(** The part of the nonce a method uses determines the low bits of the
    sequence number. *)
Lemma nonce_at_inj m iv s s' :
  length iv = NONCE_MAX ->
  take (iv_len m) (nonce_at m iv s) = take (iv_len m) (nonce_at m iv s') ->
  s mod 256 ^ Z.of_nat (xor_width m) = s' mod 256 ^ Z.of_nat (xor_width m).
Proof.
  intros Hiv E. pose proof (xor_width_iv m) as Hw. unfold NONCE_MAX in Hiv.
  apply (f_equal (drop (iv_len m - xor_width m))) in E.
  unfold nonce_at in E. rewrite !be_bytes_suffix in E by lia.
  set (mid := take (xor_width m) (drop (iv_len m - xor_width m) iv)) in E.
  assert (length mid = xor_width m) as Hm by (unfold mid; rewrite length_take, length_drop; lia).
  rewrite !skipn_firstn_comm, !drop_app_length' in E by (rewrite length_take; lia).
  replace (iv_len m - (iv_len m - xor_width m))%nat with (xor_width m) in E by lia.
  rewrite !take_app_length' in E by (rewrite xor_bytes_length; rewrite ?be_bytes_length; lia).
  apply be_bytes_inj. eapply xor_bytes_inj; [..|exact E]; rewrite be_bytes_length; lia.
Qed.

(** ** Base 32 *)

Definition base32_digit (c : Z) : Z := if c <? 97 then c - 48 else c - 87.
Definition base32_val (s : bytes) : Z := foldr (fun c n => base32_digit c + 32 * n) 0 (rev s).

Lemma alphabet_digit i : 0 <= i < 32 -> base32_digit (nth (Z.to_nat i) ALPHABET 0) = i.
Proof.
  intros Hi. assert (forallb (fun n => base32_digit (nth n ALPHABET 0) =? Z.of_nat n) (seq 0 32) = true) as H by reflexivity.
  rewrite forallb_forall in H. specialize (H (Z.to_nat i)). rewrite Z2Nat.id in H by lia.
  apply Z.eqb_eq, H, in_seq. lia.
Qed.

Lemma base32_digits_val fuel v : 0 <= v < 32 ^ Z.of_nat fuel ->
  foldr (fun c n => base32_digit c + 32 * n) 0 (base32_digits fuel v) = v.
Proof.
  revert v. induction fuel as [|fuel IH]; intros v Hv; cbn [base32_digits foldr]; [simpl in Hv; lia|].
  rewrite Nat2Z.inj_succ, Z.pow_succ_r in Hv by lia.
  assert (Z.land v 31 = v mod 32) as -> by (apply (Z.land_ones v 5); lia).
  rewrite Z.shiftr_div_pow2 by lia. change (2 ^ 5) with 32.
  rewrite alphabet_digit by (apply Z.mod_pos_bound; lia).
  pose proof (Z.div_mod v 32 ltac:(lia)).
  destruct (Z.eqb_spec (v / 32) 0) as [E|E]; [simpl; lia|]. rewrite IH; [lia|].
  split; [apply Z.div_pos|apply Z.div_lt_upper_bound]; lia.
Qed.

Lemma base32_val_encode v : is_u128 v -> base32_val (encode_base32 v) = v.
Proof.
  intros Hv. unfold base32_val, encode_base32. rewrite rev_involutive. apply base32_digits_val.
  assert (2 ^ 128 < 32 ^ Z.of_nat 26) by reflexivity. lia.
Qed.

Lemma encode_base32_inj a b : is_u128 a -> is_u128 b -> encode_base32 a = encode_base32 b -> a = b.
Proof. intros Ha Hb E. by rewrite <- (base32_val_encode a Ha), E, base32_val_encode. Qed.

(** ** Session ciphers *)

(** The type invariant: the key schedule is the method's (the [unreachable!]
    arm is not taken), the IV has its width and the counter is a [u64]. *)
Definition core_matches (m : Method) (c : Core) : bool :=
  match m, c with
  | Aes128Cfb, CoreAes128 _ | Aes128Ctr, CoreAes128 _
  | Aes256Cfb, CoreAes256 _ | Aes256Ctr, CoreAes256 _
  | ChaCha20, CoreChaCha _ => true
  | _, _ => false
  end.

Definition cipher_ok (c : SessionCipher) : Prop :=
  core_matches (sc_method c) (sc_core c) = true /\ length (sc_base_iv c) = NONCE_MAX /\ is_u64 (sc_seq c).

Create HintDb cipher.

Section SessionLemmas.
Context `{CryptoLaws}.

Lemma derive_ok m r p ivv : cipher_ok (derive m r p ivv) /\ sc_encrypting (derive m r p ivv) = true.
Proof.
  unfold derive, derive_material.
  destruct (hkdf_output (kdf_salt r m) (ikm p ivv) (lit "nextppp-session-key") (KEY_MAX + NONCE_MAX)) as [Hl _].
  split; [|done]. split; [by destruct m|]. split; [|simpl; lia]. cbn [sc_base_iv]. by rewrite length_drop, Hl.
Qed.

Lemma for_decryption_ok c : cipher_ok c -> cipher_ok (for_decryption c).
Proof. done. Qed.

Lemma apply_ok c data : cipher_ok c -> wf_bytes data ->
  cipher_ok (snd (apply c data)) /\ wf_bytes (fst (apply c data)) /\
  length (fst (apply c data)) = length data /\
  sc_encrypting (snd (apply c data)) = sc_encrypting c.
Proof.
  intros (Hm & Hiv & Hs) Hw. unfold apply, next_nonce. cbn [fst snd sc_encrypting].
  split; [split; [done|split; [done|apply Z.mod_pos_bound; lia]]|].
  rewrite (and_assoc (wf_bytes _)). split; [|done].
  set (n := nonce_at _ _ _); unfold cfb_apply;
    destruct (sc_method c), (sc_core c) as [k|k|k]; try done; destruct (sc_encrypting c);
    try first [apply (cfb_encrypt_wf (aes128 k)); [apply aes128_block|done]|apply (cfb_decrypt_wf (aes128 k)); [apply aes128_block|done]
      |apply (cfb_encrypt_wf (aes256 k)); [apply aes256_block|done]|apply (cfb_decrypt_wf (aes256 k)); [apply aes256_block|done]
      |apply (ctr_apply_wf (aes128 k)); [apply aes128_block|done]|apply (ctr_apply_wf (aes256 k)); [apply aes256_block|done]].
  all: destruct (chacha20_stream (take 32 k) (take 12 n) (length data)); split;
    [by apply xor_bytes_wf|rewrite xor_bytes_length; lia].
Qed.

(** The receiver of a cipher: the same stream in the decrypting direction. *)
Lemma apply_roundtrip c data : cipher_ok c -> sc_encrypting c = true -> wf_bytes data ->
  apply (for_decryption c) (fst (apply c data)) = (data, for_decryption (snd (apply c data))).
Proof.
  intros (Hm & Hiv & Hs) He Hw. unfold apply, next_nonce. cbn.
  rewrite He. f_equal. set (n := nonce_at _ _ _). unfold cfb_apply.
  destruct (sc_method c), (sc_core c) as [k|k|k]; try done.
  - apply (cfb_decrypt_encrypt (aes128 k)); [apply aes128_block|done].
  - apply (cfb_decrypt_encrypt (aes256 k)); [apply aes256_block|done].
  - apply (ctr_apply_involutive (aes128 k)). apply aes128_block.
  - apply (ctr_apply_involutive (aes256 k)). apply aes256_block.
  - destruct (chacha20_stream (take 32 k) (take 12 n) (length data)) as [Hl _].
    rewrite xor_bytes_length by lia. apply xor_bytes_cancel. lia.
Qed.
End SessionLemmas.

#[export] Hint Resolve for_decryption_ok : cipher.

(** A sequence of packets through one cipher. *)
Fixpoint apply_all `{CryptoBackend} (c : SessionCipher) (msgs : list bytes) : list bytes * SessionCipher :=
  match msgs with
  | [] => ([], c)
  | m :: msgs =>
      let (x, c) := apply c m in
      let (xs, c) := apply_all c msgs in (x :: xs, c)
  end.

Lemma apply_all_roundtrip `{CryptoLaws} c msgs :
  cipher_ok c -> sc_encrypting c = true -> Forall wf_bytes msgs ->
  apply_all (for_decryption c) (fst (apply_all c msgs)) = (msgs, for_decryption (snd (apply_all c msgs))) /\
  map length (fst (apply_all c msgs)) = map length msgs.
Proof.
  intros Hc He Hm. revert c Hc He. induction Hm as [|m msgs Hm Hms IH]; intros c Hc He; [done|].
  cbn [apply_all]. destruct (apply_ok c m Hc Hm) as (Hc' & Hw & Hl & He').
  pose proof (apply_roundtrip c m Hc He Hm) as Hr.
  destruct (apply c m) as [x c1]. cbn [fst snd] in *. rewrite He in He'.
  destruct (IH c1 Hc' He') as [IH1 IH2]. destruct (apply_all c1 msgs) as [xs c2]. cbn [fst snd] in *.
  cbn [apply_all map]. by rewrite Hr, IH1, IH2, Hl.
Qed.

(** ** A concrete backend

    Toy primitives of the documented shapes, for the instances below. *)
Module Toy.
Definition toy_mix (n : nat) (l : bytes) : bytes :=
  map (fun i => u8 (Z.of_nat (7 * i) + foldr (fun x s => x + 3 * s) 1 l + nth i l 0)) (seq 0 n).
Definition backend : CryptoBackend := {|
  aes128 := fun k b => toy_mix 16 (k ++ b);
  aes256 := fun k b => toy_mix 16 (b ++ k);
  chacha20_keystream := fun k n l => toy_mix l (k ++ n);
  hkdf_sha256 := fun s i f l => toy_mix l (s ++ i ++ f)
|}.
Lemma toy_mix_ok n l : length (toy_mix n l) = n /\ wf_bytes (toy_mix n l).
Proof.
  unfold toy_mix. split; [by rewrite length_map, length_seq|].
  apply Forall_map, Forall_forall. intros. apply u8_byte.
Qed.
Lemma toy_laws : @CryptoLaws backend.
Proof. split; intros; apply toy_mix_ok. Qed.
End Toy.
#[local] Existing Instance Toy.backend.
#[local] Existing Instance Toy.toy_laws.

(** ** Properties *)

(** C10: whatever the method, the layer, the password and the connection's ivv,
    the decrypting twin of a derived cipher recovers every packet sequence the
    encrypting one produced, packet by packet with lengths preserved, and ends
    at the same sequence number: the per-packet nonces of the two ends never
    drift apart. *)
Theorem cipher_stream_roundtrip `{CryptoLaws} m r p ivv msgs :
  Forall wf_bytes msgs ->
  let (cts, tx) := apply_all (derive m r p ivv) msgs in
  apply_all (for_decryption (derive m r p ivv)) cts = (msgs, for_decryption tx) /\
  map length cts = map length msgs.
Proof.
  intros Hm. destruct (derive_ok m r p ivv) as [Hc He].
  pose proof (apply_all_roundtrip _ msgs Hc He Hm) as Hr. by destruct (apply_all _ msgs).
Qed.

Lemma cipher_stream_roundtrip_witness :
  let (cts, tx) := apply_all (derive Aes256Cfb Transport (lit "pw") (Some 5)) [[1; 2; 3]; [4]] in
  apply_all (for_decryption (derive Aes256Cfb Transport (lit "pw") (Some 5))) cts = ([[1; 2; 3]; [4]], for_decryption tx).
Proof.
  pose proof (cipher_stream_roundtrip Aes256Cfb Transport (lit "pw") (Some 5) [[1; 2; 3]; [4]]) as H.
  destruct (apply_all _ _) as [cts tx]. apply H. repeat constructor; discriminate.
Defined.

(** C11: the batched in-place modes compute the textbook ones over any block
    cipher: CFB decryption in batches of eight blocks is block-by-block CFB
    decryption and inverts the serial encryption, and CTR in batches of eight
    is the XOR with the encryptions of consecutive 128-bit counters. *)
Theorem batched_modes_correct (E : bytes -> bytes) iv data :
  (forall b, block (E b)) -> wf_bytes data ->
  (cfb_decrypt E iv data =
     let (chunks, tail) := as_chunks 16 data in
     let (pts, fb) := cfb_decrypt_serial E iv chunks in concat pts ++ xor_tail E fb tail) /\
  cfb_decrypt E iv (cfb_encrypt E iv data) = data /\
  (forall n, (length data ≤ 16 * n)%nat ->
     ctr_apply E iv data =
       xor_bytes data (concat (map (fun k => E (be_bytes 16 (u128 (be_val iv + Z.of_nat k)))) (seq 0 n)))).
Proof.
  intros HE Hw. split_and!.
  - unfold cfb_decrypt. destruct (as_chunks 16 data) as [chunks tail]. by rewrite cfb_batches_serial.
  - by apply cfb_decrypt_encrypt.
  - intros n Hn. by apply ctr_apply_spec.
Qed.

Lemma batched_modes_correct_witness :
  cfb_decrypt (Toy.toy_mix 16) [1] (cfb_encrypt (Toy.toy_mix 16) [1] (le_bytes 200 12345)) = le_bytes 200 12345.
Proof.
  apply (batched_modes_correct (Toy.toy_mix 16) [1] (le_bytes 200 12345)).
  - intros b. apply Toy.toy_mix_ok.
  - apply le_bytes_wf.
Defined.

(** Each packet moves the sequence number on by one. *)
Lemma apply_all_seq `{CryptoBackend} msgs : forall c, is_u64 (sc_seq c) ->
  let c' := snd (apply_all c msgs) in
  sc_seq c' = u64 (sc_seq c + Z.of_nat (length msgs)) /\ sc_method c' = sc_method c /\ sc_base_iv c' = sc_base_iv c.
Proof.
  induction msgs as [|m msgs IH]; intros c Hs; cbn [apply_all snd length].
  - rewrite Z.add_0_r. unfold u64. by rewrite Z.mod_small.
  - assert (snd (apply c m) = snd (next_nonce c)) as E by done. destruct (apply c m) as [x c1]. cbn [snd] in E. subst c1.
    specialize (IH (snd (next_nonce c)) ltac:(apply Z.mod_pos_bound; lia)). destruct (apply_all _ msgs) as [xs c2].
    cbn [next_nonce snd sc_seq sc_method sc_base_iv] in *. destruct IH as (-> & -> & ->). split_and!; [|done..].
    unfold u64. rewrite Z.add_mod_idemp_l by lia. f_equal. lia.
Qed.

(** C12: a nonce is never reused within one direction of a connection: over any
    sequence of packets, of any contents and from any point of the connection,
    two packets are never processed under the same nonce, up to 2^64 packets for
    the AES methods and 2^32 for ChaCha20. *)
Theorem nonce_never_reused `{CryptoBackend} c msgs i j :
  cipher_ok c -> (i < j < length msgs)%nat ->
  Z.of_nat (length msgs) <= 2 ^ (8 * Z.of_nat (xor_width (sc_method c))) ->
  let nonce k := take (iv_len (sc_method c)) (fst (next_nonce (snd (apply_all c (take k msgs))))) in
  nonce i <> nonce j.
Proof.
  intros (_ & Hiv & Hs) Hij Hlen. cbv zeta. unfold next_nonce. cbn [fst].
  destruct (apply_all_seq (take i msgs) c Hs) as (-> & -> & ->). destruct (apply_all_seq (take j msgs) c Hs) as (-> & -> & ->).
  rewrite !length_take, !Nat.min_l by lia. intros E. apply nonce_at_inj in E; [|done].
  set (w := xor_width (sc_method c)) in *. rewrite Z.pow_mul_r in Hlen by lia. change (2 ^ 8) with 256 in Hlen.
  assert ((256 ^ Z.of_nat w | 2 ^ 64)) as Hdiv.
  { change (2 ^ 64) with (256 ^ 8). subst w. destruct (sc_method c); [exists 1|exists 1|exists 1|exists 1|exists (256 ^ 4)]; done. }
  unfold u64 in E. rewrite !Z.mod_mod_divide in E by done.
  assert (0 < 256 ^ Z.of_nat w) as Hpos by lia. set (B := 256 ^ Z.of_nat w) in *. clearbody B.
  assert ((sc_seq c + Z.of_nat j - (sc_seq c + Z.of_nat i)) mod B = 0) as Hz.
  { rewrite Zminus_mod, E, Z.sub_diag. by rewrite Z.mod_0_l by lia. }
  replace (sc_seq c + Z.of_nat j - (sc_seq c + Z.of_nat i)) with (Z.of_nat j - Z.of_nat i) in Hz by lia.
  rewrite Z.mod_small in Hz by lia. lia.
Qed.

Lemma nonce_never_reused_witness :
  let c := @cipher_new Toy.backend ChaCha20 Transport [112] in
  take 12 (fst (next_nonce c)) <> take 12 (fst (next_nonce (snd (@apply_all Toy.backend c [[1; 2]])))).
Proof.
  apply (@nonce_never_reused Toy.backend (@cipher_new Toy.backend ChaCha20 Transport [112]) [[1; 2]; [3]] 0 1); [|simpl; lia|vm_compute; discriminate].
  split; [reflexivity|]. split; [reflexivity|]. vm_compute. split; [discriminate|reflexivity].
Defined.

(** C16: key domains are separated: the KDF salt determines the layer and the
    method, so the two ciphers of a connection never derive from the same
    salt, and for one password the input keying material determines the
    connection's 128-bit ivv (the base-32 text has no leading zero to lose). *)
Theorem kdf_inputs_separated r r' m m' p ivv ivv' :
  is_u128 ivv -> is_u128 ivv' ->
  (kdf_salt r m = kdf_salt r' m' -> r = r' /\ m = m') /\
  (ikm p (Some ivv) = ikm p (Some ivv') -> ivv = ivv').
Proof.
  intros Hi Hi'. split; [by destruct r, r', m, m'|].
  intros E. unfold ikm in E. apply app_inv_head in E.
  destruct (Z.ltb_spec 0 ivv), (Z.ltb_spec 0 ivv'); try lia.
  - apply app_inv_head in E. by apply encode_base32_inj.
  - assert (ivv' = 0) as -> by lia. cbn in E. by destruct (encode_base32 ivv).
  - assert (ivv = 0) as -> by lia. cbn in E. by destruct (encode_base32 ivv').
Qed.

Lemma kdf_inputs_separated_witness :
  kdf_salt Protocol Aes128Cfb <> kdf_salt Transport Aes128Cfb /\ ikm [112] (Some 1) <> ikm [112] (Some 2).
Proof.
  split; intros E.
  - destruct (kdf_inputs_separated Protocol Transport Aes128Cfb Aes128Cfb [112] 1 2 ltac:(lia) ltac:(lia)) as [K _].
    destruct (K E) as [C _]. discriminate C.
  - destruct (kdf_inputs_separated Protocol Transport Aes128Cfb Aes128Cfb [112] 1 2 ltac:(lia) ltac:(lia)) as [_ K].
    discriminate (K E).
Defined.
