(* ===== verification/Binary.v ===== *)
(** * Binary framing ([crates/core/src/frame/binary.rs])

    The three-byte encrypted header and the payload transform chain
    (mask, shuffle, delta). *)
From S2P Require Import Prelude Errors Env Ssea Simd Base94 Cipher.
Import Lcg Shuffle MaskedXor.

Definition HEADER_SIZE : nat := 3.

Record PayloadFlags := Flags { fl_masked : bool; fl_shuffle : bool; fl_delta : bool }.

Definition NONE_FLAGS : PayloadFlags := Flags false false false.
Definition SAFEST : PayloadFlags := Flags true true true.

Section Binary.
Context `{CryptoBackend}.

(** [if let Some(cipher) = protocol { cipher.apply(data) }]. *)
Definition apply_opt (protocol : option SessionCipher) (data : bytes) : bytes * option SessionCipher :=
  match protocol with
  | Some c => let (data, c) := apply c data in (data, Some c)
  | None => (data, None)
  end.

(** [array[1] ^= header_kf as u8; array[2] ^= header_kf as u8]. *)
Definition mask_len (header_kf : Z) (len2 : bytes) : bytes := map (fun b => Z.lxor b (u8 header_kf)) len2.

(** [header_encrypt]: the header and its [header_kf]. *)
Definition header_encrypt {R} `{Rng R} (rng : R) (kf : Z) (protocol : option SessionCipher)
    (payload_len : nat) : result Error (bytes * Z) * (R * option SessionCipher) :=
  if (payload_len =? 0)%nat || (PPP_BUFFER_SIZE <? payload_len)%nat
  then (Err (FrameTooLarge (Z.of_nat payload_len)), (rng, protocol))
  else
    let adjusted := Z.of_nat payload_len - 1 in
    let (seed, rng) := random_range 1 255 rng in
    let header_kf := Z.lxor kf seed in
    let (len2, protocol) := apply_opt protocol [u8 (Z.shiftr adjusted 8); u8 (Z.land adjusted 255)] in
    let len2 := shuffle (mask_len header_kf len2) header_kf in
    (Ok (delta_encode (seed :: len2) kf, header_kf), (rng, protocol)).

(** [header_decrypt]: the payload length and [header_kf]. *)
Definition header_decrypt (kf : Z) (protocol : option SessionCipher) (header : bytes)
    : result Error (nat * Z) * option SessionCipher :=
  let array := delta_decode header kf in
  let header_kf := Z.lxor kf (nth 0 array 0) in
  let len2 := mask_len header_kf (unshuffle (drop 1 array) header_kf) in
  let (len2, protocol) := apply_opt protocol len2 in
  let len := Z.lor (u16 (Z.shiftl (nth 0 len2 0) 8)) (nth 1 len2 0) + 1 in
  (Ok (Z.to_nat len, header_kf), protocol).

Definition payload_obfuscate (data : bytes) (flags : PayloadFlags) (header_kf kf : Z) : bytes :=
  let data := if fl_masked flags then masked_xor_random_next data header_kf else data in
  let data := if fl_shuffle flags then shuffle data header_kf else data in
  if fl_delta flags then delta_encode data kf else data.

Definition payload_deobfuscate (data : bytes) (flags : PayloadFlags) (header_kf kf : Z) : bytes :=
  let data := if fl_delta flags then delta_decode data kf else data in
  let data := if fl_shuffle flags then unshuffle data header_kf else data in
  if fl_masked flags then masked_xor_random_next data header_kf else data.
End Binary.

(** ** Lemmas *)

#[export] Hint Resolve shuffle_wf unshuffle_wf delta_encode_wf delta_decode_wf masked_xor_wf : bytes.

Lemma payload_obfuscate_ok data fl hkf kf : wf_bytes data ->
  wf_bytes (payload_obfuscate data fl hkf kf) /\ length (payload_obfuscate data fl hkf kf) = length data /\
  payload_deobfuscate (payload_obfuscate data fl hkf kf) fl hkf kf = data.
Proof.
  intros Hw. unfold payload_obfuscate, payload_deobfuscate.
  destruct fl as [m s d]. cbn [fl_masked fl_shuffle fl_delta].
  set (d1 := if m then _ else _).
  assert (wf_bytes d1 /\ length d1 = length data /\ (if m then masked_xor_random_next d1 hkf else d1) = data) as (Hw1 & Hl1 & Hr1).
  { unfold d1. destruct m; [|done]. split_and!; auto using masked_xor_wf, masked_xor_length, masked_xor_involutive. }
  set (d2 := if s then shuffle d1 hkf else d1).
  assert (wf_bytes d2 /\ length d2 = length d1 /\ (if s then unshuffle d2 hkf else d2) = d1) as (Hw2 & Hl2 & Hr2).
  { unfold d2. destruct s; [|done]. split_and!; auto using shuffle_wf, shuffle_length, unshuffle_shuffle_id. }
  destruct d.
  - rewrite delta_decode_encode, Hr2, Hr1, delta_encode_length by done.
    split_and!; auto with bytes; lia.
  - rewrite Hr2, Hr1. split_and!; auto; lia.
Qed.

Lemma payload_deobfuscate_wf data fl hkf kf : wf_bytes data ->
  wf_bytes (payload_deobfuscate data fl hkf kf) /\
  length (payload_deobfuscate data fl hkf kf) = length data.
Proof.
  intros Hw. unfold payload_deobfuscate. destruct fl as [m s d]. cbn [fl_masked fl_shuffle fl_delta].
  destruct d, s, m; rewrite ?masked_xor_length, ?unshuffle_length, ?delta_decode_length;
    auto 10 with bytes.
Qed.

Lemma mask_len_cancel k l : mask_len k (mask_len k l) = l.
Proof. unfold mask_len. rewrite map_map. apply list_fmap_id' || idtac. induction l as [|x l IH]; simpl; [done|]. by rewrite lxor_cancel_r, IH. Qed.

Lemma mask_len_wf k l : wf_bytes l -> wf_bytes (mask_len k l).
Proof. induction 1; simpl; constructor; auto with bytes. Qed.

Lemma mask_len_length k l : length (mask_len k l) = length l.
Proof. apply length_map. Qed.

Lemma len_bytes_join a : 0 <= a < 65536 ->
  Z.lor (u16 (Z.shiftl (u8 (Z.shiftr a 8)) 8)) (u8 (Z.land a 255)) = a.
Proof.
  intros Ha. change (Z.land a 255) with (Z.land a (Z.ones 8)).
  rewrite Z.shiftr_div_pow2, Z.land_ones by lia. change (2 ^ 8) with 256.
  assert (0 <= a / 256 < 256) by (split; [apply Z.div_pos|apply Z.div_lt_upper_bound]; lia).
  pose proof (Z.mod_pos_bound a 256 ltac:(lia)). rewrite !u8_small by lia.
  assert (u16 (Z.shiftl (a / 256) 8) = Z.shiftl (a / 256) 8) as ->.
  { unfold u16. rewrite Z.shiftl_mul_pow2 by lia. apply Z.mod_small. lia. }
  rewrite lor_disjoint_add by lia. pose proof (Z.div_mod a 256 ltac:(lia)). lia.
Qed.

Section HeaderLemmas.
Context `{CryptoLaws} {R} `{RngLaws R}.

Lemma header_encrypt_ok (rng : R) kf c n :
  cipher_ok c -> sc_encrypting c = true -> (1 ≤ n ≤ PPP_BUFFER_SIZE)%nat ->
  exists h hkf rng' c', header_encrypt rng kf (Some c) n = (Ok (h, hkf), (rng', Some c')) /\
    cipher_ok c' /\ sc_encrypting c' = true /\ length h = HEADER_SIZE /\ wf_bytes h /\
    header_decrypt kf (Some (for_decryption c)) h = (Ok (n, hkf), Some (for_decryption c')).
Proof.
  intros Hc He Hn. unfold header_encrypt.
  rewrite (proj2 (orb_false_iff _ _)) by (split; [apply Nat.eqb_neq|apply Nat.ltb_ge]; lia).
  pose proof (random_range_bounds 1 255 rng ltac:(lia)) as Hs.
  destruct (random_range 1 255 rng) as [seed rng']. cbn [fst] in Hs. set (a := Z.of_nat n - 1).
  assert (0 <= a < 65536) as Ha by (unfold a, PPP_BUFFER_SIZE in *; lia).
  set (len2 := [u8 (Z.shiftr a 8); u8 (Z.land a 255)]). cbn [apply_opt].
  assert (wf_bytes len2) as Hw by (repeat constructor; apply u8_byte).
  destruct (apply_ok c len2 Hc Hw) as (Hc' & Hw2 & Hl2 & He').
  pose proof (apply_roundtrip c len2 Hc He Hw) as Hr. destruct (apply c len2) as [e2 c']. cbn [fst snd] in *.
  set (hkf := Z.lxor kf seed). set (body := shuffle (mask_len hkf e2) hkf).
  assert (wf_bytes (seed :: body)) as Hwb.
  { apply wf_bytes_cons. split; [lia|]. unfold body. auto using shuffle_wf, mask_len_wf. }
  exists (delta_encode (seed :: body) kf), hkf, rng', c'. split; [done|]. split; [done|].
  split; [congruence|]. split.
  { rewrite delta_encode_length by done. simpl. unfold body. by rewrite shuffle_length, mask_len_length, Hl2. }
  split; [auto with bytes|].
  unfold header_decrypt. rewrite delta_decode_encode by done. cbn [nth drop]. fold hkf. rewrite drop_0.
  unfold body. rewrite unshuffle_shuffle_id, mask_len_cancel. cbn [apply_opt]. rewrite Hr.
  unfold len2. cbn [nth]. rewrite len_bytes_join by done. do 3 f_equal. unfold a. lia.
Qed.

Lemma header_decrypt_cases kf c h :
  cipher_ok c -> wf_bytes h -> length h = HEADER_SIZE ->
  exists n hkf c', header_decrypt kf (Some c) h = (Ok (n, hkf), Some c') /\
    cipher_ok c' /\ sc_encrypting c' = sc_encrypting c /\ (1 ≤ n ≤ PPP_BUFFER_SIZE)%nat.
Proof.
  intros Hc Hw Hl. unfold header_decrypt. set (arr := delta_decode h kf).
  assert (wf_bytes arr) as Hwa by (unfold arr; auto with bytes).
  set (hkf := Z.lxor kf _). set (l2 := mask_len hkf _).
  assert (wf_bytes l2) as Hw2 by (unfold l2; apply mask_len_wf, unshuffle_wf, wf_bytes_drop; done).
  cbn [apply_opt]. destruct (apply_ok c l2 Hc Hw2) as (Hc' & Hw2' & _ & He').
  destruct (apply c l2) as [d2 c']. cbn [fst snd] in *. eexists _, _, _. split; [done|].
  split; [done|]. split; [done|].
  assert (forall i, is_byte (nth i d2 0)) as Hb.
  { intros i. destruct (d2 !! i) eqn:E.
    - rewrite (nth_lookup_Some _ _ _ _ E). by eapply wf_bytes_lookup.
    - rewrite nth_overflow by (by apply lookup_ge_None_1). lia. }
  pose proof (Hb 0%nat). pose proof (Hb 1%nat). set (x := nth 0 d2 0) in *. set (y := nth 1 d2 0) in *.
  assert (u16 (Z.shiftl x 8) = Z.shiftl x 8) as ->.
  { unfold u16. rewrite Z.shiftl_mul_pow2 by lia. apply Z.mod_small. lia. }
  rewrite lor_disjoint_add by lia. unfold PPP_BUFFER_SIZE. lia.
Qed.
End HeaderLemmas.

#[local] Existing Instance Toy.backend.
#[local] Existing Instance Toy.toy_laws.

(** ** Properties *)

(** One binary frame round trips: for every payload size the code accepts,
    building the header never fails, the peer's header decoder recovers the
    length and the per-frame key under any length cipher in step with the
    sender's (and stays in step), and the payload transform chain selected by
    any flags is undone by its inverse without changing the size. *)
Theorem binary_frame_roundtrip `{CryptoLaws} {R} `{RngLaws R} (rng : R) kf c flags payload :
  cipher_ok c -> sc_encrypting c = true -> wf_bytes payload ->
  (1 ≤ length payload ≤ PPP_BUFFER_SIZE)%nat ->
  exists h hkf rng' c', header_encrypt rng kf (Some c) (length payload) = (Ok (h, hkf), (rng', Some c')) /\
    length h = HEADER_SIZE /\
    header_decrypt kf (Some (for_decryption c)) h = (Ok (length payload, hkf), Some (for_decryption c')) /\
    length (payload_obfuscate payload flags hkf kf) = length payload /\
    payload_deobfuscate (payload_obfuscate payload flags hkf kf) flags hkf kf = payload.
Proof.
  intros Hc He Hw Hl.
  destruct (header_encrypt_ok rng kf c (length payload) Hc He Hl) as (h & hkf & rng' & c' & E1 & _ & _ & E2 & _ & E3).
  destruct (payload_obfuscate_ok payload flags hkf kf Hw) as (_ & ? & ?).
  by exists h, hkf, rng', c'.
Qed.

Lemma binary_frame_roundtrip_witness :
  exists h hkf rng' c',
    header_encrypt ([200] : tape) 154543927 (Some (derive Aes128Cfb Protocol (lit "a") None)) 4 = (Ok (h, hkf), (rng', Some c')) /\
    payload_deobfuscate (payload_obfuscate [9; 8; 7; 6] SAFEST hkf 154543927) SAFEST hkf 154543927 = [9; 8; 7; 6].
Proof.
  destruct (binary_frame_roundtrip ([200] : tape) 154543927 (derive Aes128Cfb Protocol (lit "a") None) SAFEST [9; 8; 7; 6])
    as (h & hkf & rng' & c' & E1 & _ & _ & _ & E2).
  - apply derive_ok.
  - reflexivity.
  - by apply wf_bytes_eval.
  - split; apply Nat.leb_le; vm_compute; reflexivity.
  - exists h, hkf, rng', c'. by split.
Defined.
