(* ===== verification/KeyConfig.v ===== *)
(** * Obfuscation keys ([crates/core/src/config.rs]) *)
From S2P Require Import Prelude Errors Cipher.

Definition MAX_NOP_EXPONENT : Z := 20.

Record ObfuscationKey := Key {
  k_kf : Z;
  k_kl : Z;
  k_kh : Z;
  k_kx : Z;
  k_protocol : Method;
  k_protocol_key : str;
  k_transport : Method;
  k_transport_key : str;
  k_masked : bool;
  k_plaintext : bool;
  k_delta_encode : bool;
  k_shuffle_data : bool
}.

(** [ObfuscationKey::default]. *)
Definition default_key : ObfuscationKey := {|
  k_kf := 154543927; k_kl := 10; k_kh := 12; k_kx := 128;
  k_protocol := Aes128Cfb; k_protocol_key := lit "nextppp";
  k_transport := Aes256Ctr; k_transport_key := lit "nextppp";
  k_masked := true; k_plaintext := false; k_delta_encode := true; k_shuffle_data := true
|}.

(** The field types: [u32], [u8] and [String]. *)
Definition key_typed (k : ObfuscationKey) : bool :=
  (0 <=? k_kf k) && (k_kf k <? 2 ^ 32) && (0 <=? k_kl k) && (k_kl k <? 256) &&
  (0 <=? k_kh k) && (k_kh k <? 256) && (0 <=? k_kx k) && (k_kx k <? 2 ^ 32) &&
  forallb is_char (k_protocol_key k) && forallb is_char (k_transport_key k).

Definition validate (k : ObfuscationKey) : result Error unit :=
  if (MAX_NOP_EXPONENT <? k_kl k) || (MAX_NOP_EXPONENT <? k_kh k)
  then Err (InvalidConfig "kl/kh exceed MAX_NOP_EXPONENT")
  else if (length (k_protocol_key k) =? 0)%nat || (length (k_transport_key k) =? 0)%nat
  then Err (InvalidConfig "cipher password is empty")
  else Ok tt.

(** A key the configuration layer lets through. *)
Definition key_valid (k : ObfuscationKey) : Prop := key_typed k = true /\ validate k = Ok tt.

Lemma key_typed_fields k : key_typed k = true ->
  is_u32 (k_kf k) /\ 0 <= k_kl k < 256 /\ 0 <= k_kh k < 256 /\ is_u32 (k_kx k).
Proof. unfold key_typed. intros H. repeat (apply andb_prop in H as [H ?]). lia. Qed.

Lemma key_valid_nop k : key_valid k -> 0 <= k_kl k <= 20 /\ 0 <= k_kh k <= 20.
Proof.
  intros [Ht Hv]. destruct (key_typed_fields k Ht) as (_ & ? & ? & _). unfold validate, MAX_NOP_EXPONENT in Hv.
  destruct (Z.ltb_spec 20 (k_kl k)), (Z.ltb_spec 20 (k_kh k)); simpl in Hv; try done. lia.
Qed.

Lemma default_key_valid : key_valid default_key.
Proof. done. Qed.
