(* ===== verification/Handshake.v ===== *)
(** * Handshake packets ([crates/core/src/handshake.rs])

    The flag canary, the role tag, the noise bounds and the session-id
    packets. *)
From S2P Require Import Prelude Errors Env Cipher KeyConfig.

Definition CANARY_MAGIC : Z := 0xc0dec0dec0de.
Definition CANARY_MAGIC_MASK : Z := 0xffffffffffff.
Definition ROLE_MAGIC : Z := 0xfeedc0de5eed.
Definition ROLE_MAGIC_MASK : Z := 0xffffffffffff.
Definition ROLE_BOND_LINK : Z := Z.shiftl 1 48.

Inductive SessionRole := MuxTunnel | BondLink.
#[export] Instance SessionRole_eq_dec : EqDecision SessionRole.
Proof. solve_decision. Defined.

Definition role_tag (role : SessionRole) : Z :=
  let flags := match role with MuxTunnel => 0 | BondLink => ROLE_BOND_LINK end in
  Z.lor ROLE_MAGIC flags.

Definition role_from_ivv (ivv : Z) : SessionRole :=
  let high := u64 (Z.shiftr ivv 64) in
  if (Z.land high ROLE_MAGIC_MASK =? ROLE_MAGIC) && negb (Z.land high ROLE_BOND_LINK =? 0)
  then BondLink else MuxTunnel.

Inductive SessionPacket := Dummy | Session (id : Z).

Definition flag_canary (key : ObfuscationKey) : Z :=
  let flags := 0 in
  let flags := Z.lor flags (Z.b2z (k_masked key)) in
  let flags := Z.lor flags (Z.shiftl (Z.b2z (k_plaintext key)) 1) in
  let flags := Z.lor flags (Z.shiftl (Z.b2z (k_delta_encode key)) 2) in
  let flags := Z.lor flags (Z.shiftl (Z.b2z (k_shuffle_data key)) 3) in
  Z.lor (Z.lor CANARY_MAGIC (Z.shiftl flags 48)) (Z.shiftl (Z.land (k_kf key) 0xfff) 52).

(** [rounds.div_ceil(175 << 3)]. *)
Definition nop_rounds {R} `{Rng R} (rng : R) (key : ObfuscationKey) : Z * R :=
  let kl := u32 (Z.shiftl 1 (k_kl key)) in
  let kh := u32 (Z.shiftl 1 (k_kh key)) in
  let (lo, hi) := if kh <? kl then (kh, kl) else (kl, kh) in
  let (rounds, rng) := if lo =? hi then (lo, rng) else random_range lo hi rng in
  ((rounds + Z.shiftl 175 3 - 1) / Z.shiftl 175 3, rng).

Definition max_nop_packets (key : ObfuscationKey) : Z := u32 (Z.shiftl 1 (Z.max (k_kl key) (k_kh key))).

(** The loop of [append_decimal]; 39 digits hold a [u128]. *)
Fixpoint decimal_digits (fuel : nat) (v : Z) : bytes :=
  match fuel with
  | O => []
  | S fuel => (48 + v mod 10) :: (if v / 10 =? 0 then [] else decimal_digits fuel (v / 10))
  end.

Definition append_decimal (out : bytes) (v : Z) : bytes := out ++ rev (decimal_digits 40 v).

(** One round of the XOR layer, and the four of them. *)
Definition xor_round (st : bytes * Z) (kfs_i : Z) : bytes * Z :=
  let kf := Z.lxor (snd st) kfs_i in
  (map (fun b => Z.lxor b (u8 kf)) (fst st), kf).

Definition xor_layer (kf : Z) (kfs body : bytes) : bytes := fst (foldl xor_round (body, kf) kfs).

(** The anti-traffic-analysis padding. *)
Definition pad_body {R} `{Rng R} (rng : R) (max : nat) (body : bytes) : bytes * R :=
  if (0 <? max)%nat then
    let (run, rng) := random_bytes max 32 126 rng in
    let body := body ++ run ++ [47] in
    let min := (length body + 4)%nat in
    let effective_max := (max `max` min)%nat in
    let (loops, rng) := random_range 1 (Z.shiftl (Z.of_nat effective_max) 2) rng in
    let (run, rng) := random_bytes (Z.to_nat loops) 32 126 rng in
    (body ++ run, rng)
  else (body, rng).

Definition pack_session_id {R} `{Rng R} (rng : R) (key : ObfuscationKey) (id : Z) : bytes * R :=
  let real := negb (id =? 0) in
  let (k0, rng) := if real then random_range 0 127 rng else random_range 128 255 rng in
  let (k1, rng) := random_range 1 255 rng in
  let (k2, rng) := random_range 1 255 rng in
  let (k3, rng) := random_range 1 255 rng in
  let kfs := [k0; k1; k2; k3] in
  let (body, rng) :=
    if real then (append_decimal [] id, rng)
    else let (v, rng) := random_u128 rng in (append_decimal [] (if v =? 0 then 1 else v), rng) in
  let (sep, rng) := random_range 32 47 rng in
  let (body, rng) := pad_body rng (Z.to_nat (k_kx key mod 256)) (body ++ [sep]) in
  (kfs ++ xor_layer (k_kf key) kfs body, rng).

(** The decimal prefix: the accumulated value and whether a digit was seen. *)
Fixpoint parse_decimal (body : bytes) (id : Z) (digits : bool) : result Error (Z * bool) :=
  match body with
  | b :: body =>
      if (48 <=? b) && (b <=? 57) then
        let id := id * 10 + (b - 48) in
        if id <? 2 ^ 128 then parse_decimal body id true else Err InvalidSessionId
      else Ok (id, digits)
  | [] => Ok (id, digits)
  end.

Definition unpack_session_id (key : ObfuscationKey) (packet : bytes) : result Error SessionPacket :=
  if (length packet <? 4)%nat then Err InvalidFrame
  else if negb (Z.land (nth 0 packet 0) 128 =? 0) then Ok Dummy
  else
    let kfs := take 4 packet in
    let body := drop 4 packet in
    if (length body =? 0)%nat then Err InvalidFrame
    else
      let? (id, digits) := parse_decimal (xor_layer (k_kf key) kfs body) 0 false in
      if digits then Ok (Session id) else Err InvalidSessionId.

(** ** The XOR layer *)

Lemma lxor_u8 a b : u8 (Z.lxor a b) = Z.lxor (u8 a) (u8 b).
Proof. unfold u8. apply (lxor_mod_pow2 8). lia. Qed.

Lemma xor_layer_net kf k0 k1 k2 k3 body :
  is_byte k0 -> is_byte k1 -> is_byte k2 -> is_byte k3 ->
  xor_layer kf [k0; k1; k2; k3] body = map (fun b => Z.lxor b (Z.lxor k1 k3)) body.
Proof.
  intros H0 H1 H2 H3. unfold xor_layer, xor_round. cbn [foldl fst snd]. rewrite !map_map.
  apply map_ext. intros b. rewrite !lxor_u8, !(u8_small k0), !(u8_small k1), !(u8_small k2), !(u8_small k3) by done.
  zbits. destruct (Z.testbit b n), (Z.testbit (u8 kf) n), (Z.testbit k0 n), (Z.testbit k1 n), (Z.testbit k2 n), (Z.testbit k3 n); done.
Qed.

Lemma xor_layer_length kf kfs body : length (xor_layer kf kfs body) = length body.
Proof.
  unfold xor_layer. revert body kf. induction kfs as [|k kfs IH]; intros; [done|].
  cbn [foldl]. unfold xor_round at 2. cbn [fst snd]. by rewrite IH, length_map.
Qed.

Lemma xor_layer_wf kf kfs body : wf_bytes body -> wf_bytes (xor_layer kf kfs body).
Proof.
  unfold xor_layer. revert body kf. induction kfs as [|k kfs IH]; intros body kf Hb; [done|].
  cbn [foldl]. unfold xor_round at 2. cbn [fst snd]. apply IH.
  apply Forall_map. eapply Forall_impl; [exact Hb|]. intros b Hx. apply lxor_byte; [done|apply u8_byte].
Qed.

(** ** Decimal *)

Lemma decimal_digits_range fuel v : 0 <= v -> Forall (fun b => 48 <= b <= 57) (decimal_digits fuel v).
Proof.
  revert v. induction fuel as [|fuel IH]; intros v Hv; cbn [decimal_digits]; constructor.
  - pose proof (Z.mod_pos_bound v 10 ltac:(lia)). lia.
  - destruct (v / 10 =? 0); [constructor|]. apply IH, Z.div_pos; lia.
Qed.

Lemma decimal_digits_length fuel v : (length (decimal_digits fuel v) ≤ fuel)%nat.
Proof.
  revert v. induction fuel as [|fuel IH]; intros v; cbn [decimal_digits length]; [lia|].
  destruct (v / 10 =? 0); simpl; [lia|]. specialize (IH (v / 10)). lia.
Qed.

(** Parsing the digits of [v] from the most significant one. *)
Lemma parse_digits fuel v rest :
  0 <= v < 10 ^ Z.of_nat fuel -> v < 2 ^ 128 -> (1 ≤ fuel)%nat ->
  parse_decimal (rev (decimal_digits fuel v) ++ rest) 0 false = parse_decimal rest v true.
Proof.
  revert v rest. induction fuel as [|fuel IH]; intros v rest Hv Hb Hf; [lia|]. cbn [decimal_digits rev].
  pose proof (Z.div_mod v 10 ltac:(lia)). pose proof (Z.mod_pos_bound v 10 ltac:(lia)).
  rewrite Nat2Z.inj_succ, Z.pow_succ_r in Hv by lia. rewrite <- app_assoc.
  assert (forall d, parse_decimal ((48 + v mod 10) :: rest) (v / 10) d = parse_decimal rest v true) as Hlast.
  { intros d. cbn [parse_decimal]. rewrite (proj2 (andb_true_iff _ _)) by lia.
    replace (v / 10 * 10 + (48 + v mod 10 - 48)) with v by lia. by destruct (Z.ltb_spec v (2 ^ 128)); [|lia]. }
  destruct (Z.eqb_spec (v / 10) 0) as [E|E]; [cbn [rev app]; rewrite <- (Hlast false); by rewrite E|].
  rewrite IH; [apply Hlast| | |].
  - split; [apply Z.div_pos|apply Z.div_lt_upper_bound]; lia.
  - pose proof (Z.div_le_upper_bound v 10 v). lia.
  - destruct fuel; [|lia]. exfalso. apply E, Z.div_small. change (Z.of_nat 0) with 0 in Hv. lia.
Qed.

(** ** Session-id packets *)

Section Packets.
Context {R} `{RngLaws R}.

Lemma pad_body_ok (rng : R) max body :
  (max ≤ 255)%nat -> (length body ≤ 41)%nat ->
  exists pad, fst (pad_body rng max body) = body ++ pad /\ wf_bytes pad /\ (length pad ≤ 1500)%nat.
Proof.
  intros Hm Hb. unfold pad_body. destruct (Nat.ltb_spec 0 max).
  2:{ exists []. rewrite app_nil_r. split_and!; [done|constructor|simpl; lia]. }
  pose proof (random_bytes_wf max 32 126 rng ltac:(lia) ltac:(lia) ltac:(lia)) as Hw1.
  pose proof (random_bytes_length max 32 126 rng) as Hl1.
  destruct (random_bytes max 32 126 rng) as [run rng1]. cbn [fst] in *.
  set (b1 := body ++ run ++ [47]). set (em := (max `max` (length b1 + 4))%nat).
  assert (length b1 = (length body + max + 1)%nat) as Hl by (unfold b1; rewrite !length_app, Hl1; simpl; lia).
  assert (em ≤ 301)%nat by (unfold em; lia).
  pose proof (random_range_bounds 1 (Z.shiftl (Z.of_nat em) 2) rng1) as Hlo.
  rewrite Z.shiftl_mul_pow2 in * by lia. specialize (Hlo ltac:(lia)).
  destruct (random_range 1 _ rng1) as [loops rng2]. cbn [fst] in Hlo.
  pose proof (random_bytes_wf (Z.to_nat loops) 32 126 rng2 ltac:(lia) ltac:(lia) ltac:(lia)) as Hw2.
  pose proof (random_bytes_length (Z.to_nat loops) 32 126 rng2) as Hl2.
  destruct (random_bytes (Z.to_nat loops) 32 126 rng2) as [run2 rng3]. cbn [fst] in *.
  exists ((run ++ [47]) ++ run2). split_and!.
  - unfold b1. by rewrite <- !app_assoc.
  - apply wf_bytes_app_2; [apply wf_bytes_app_2; [done|repeat constructor; lia]|done].
  - rewrite !length_app, Hl1, Hl2. simpl. lia.
Qed.

(** The shape of a packet: four key bytes, then the masked text
    [digits ++ separator :: padding]. *)
Lemma pack_shape (rng : R) key id :
  is_u128 id -> exists k0 k1 k2 k3 v sep pad,
    fst (pack_session_id rng key id) =
      [k0; k1; k2; k3] ++ xor_layer (k_kf key) [k0; k1; k2; k3] (rev (decimal_digits 40 v) ++ sep :: pad) /\
    is_byte k0 /\ is_byte k1 /\ is_byte k2 /\ is_byte k3 /\ 32 <= sep <= 47 /\
    wf_bytes pad /\ (length pad ≤ 1500)%nat /\
    is_u128 v /\ (if id =? 0 then 128 <= k0 else k0 < 128 /\ v = id).
Proof.
  intros Hid. unfold pack_session_id.
  set (d0 := if negb (id =? 0) then random_range 0 127 rng else random_range 128 255 rng).
  assert (is_byte (fst d0) /\ if id =? 0 then 128 <= fst d0 else fst d0 < 128) as [Hk0 Hk0'].
  { unfold d0. pose proof (random_range_bounds 0 127 rng ltac:(lia)). pose proof (random_range_bounds 128 255 rng ltac:(lia)).
    destruct (id =? 0); simpl; lia. }
  destruct d0 as [k0 r0]. cbn [fst] in *.
  pose proof (random_range_bounds 1 255 r0 ltac:(lia)) as Hk1. destruct (random_range 1 255 r0) as [k1 r1].
  pose proof (random_range_bounds 1 255 r1 ltac:(lia)) as Hk2. destruct (random_range 1 255 r1) as [k2 r2].
  pose proof (random_range_bounds 1 255 r2 ltac:(lia)) as Hk3. destruct (random_range 1 255 r2) as [k3 r3].
  cbn [fst] in *.
  set (d4 := if negb (id =? 0) then _ else _).
  assert (exists v r4, d4 = (rev (decimal_digits 40 v), r4) /\ is_u128 v /\ (id <> 0 -> v = id)) as (v & r4 & -> & Hv & Hvid).
  { unfold d4. destruct (Z.eqb_spec id 0) as [->|Hne]; cbn [negb].
    - pose proof (random_u128_bounds r3) as Hu. destruct (random_u128 r3) as [u r4]. cbn [fst] in Hu.
      eexists _, r4. split; [done|]. split; [destruct (u =? 0); lia|done].
    - by exists id, r3. }
  pose proof (random_range_bounds 32 47 r4 ltac:(lia)) as Hsep. destruct (random_range 32 47 r4) as [sep r5]. cbn [fst] in Hsep.
  pose proof (Z.mod_pos_bound (k_kx key) 256 ltac:(lia)).
  destruct (pad_body_ok r5 (Z.to_nat (k_kx key mod 256)) (rev (decimal_digits 40 v) ++ [sep])) as (pad & Hpad & Hwp & Hlp).
  { lia. }
  { rewrite length_app, length_rev. pose proof (decimal_digits_length 40 v). cbn [length]. lia. }
  destruct (pad_body r5 _ _) as [body r6]. cbn [fst] in Hpad. subst body. cbn [fst].
  exists k0, k1, k2, k3, v, sep, pad. rewrite <- !app_assoc. split_and!; try done; try lia.
  destruct (Z.eqb_spec id 0); [done|]. split; [done|by apply Hvid].
Qed.

Lemma decimal_wf v : 0 <= v -> wf_bytes (rev (decimal_digits 40 v)).
Proof.
  intros. apply wf_bytes_rev. eapply Forall_impl; [by apply decimal_digits_range|]. simpl. lia.
Qed.

Lemma pack_ok (rng : R) key id : is_u128 id ->
  wf_bytes (fst (pack_session_id rng key id)) /\
  (5 ≤ length (fst (pack_session_id rng key id)) ≤ 1600)%nat.
Proof.
  intros Hid. destruct (pack_shape rng key id Hid)
    as (k0 & k1 & k2 & k3 & v & sep & pad & -> & ? & ? & ? & ? & ? & ? & ? & ? & _).
  split.
  - apply wf_bytes_app_2; [repeat constructor; lia|]. apply xor_layer_wf, wf_bytes_app_2; [apply decimal_wf; lia|].
    apply wf_bytes_cons. split; [lia|done].
  - rewrite !length_app, xor_layer_length, length_app, length_rev. cbn [length].
    pose proof (decimal_digits_length 40 v). lia.
Qed.

(** Any receiver, whatever its key, reads the id back. *)
Lemma unpack_pack (rng : R) key key' id : is_u128 id ->
  unpack_session_id key' (fst (pack_session_id rng key id)) = Ok (if id =? 0 then Dummy else Session id).
Proof.
  intros Hid. destruct (pack_shape rng key id Hid)
    as (k0 & k1 & k2 & k3 & v & sep & pad & -> & B0 & B1 & B2 & B3 & Hsep & Hw & _ & Hv & Hk).
  unfold unpack_session_id. cbn [app length nth take drop Nat.ltb Nat.leb].
  assert (forall a, is_byte a -> (Z.land a 128 =? 0) = (a <? 128)) as Hbit.
  { intros a Ha. assert (forallb (fun n => Bool.eqb (Z.land (Z.of_nat n) 128 =? 0) (Z.of_nat n <? 128)) (seq 0 256) = true) as Hall by reflexivity.
    rewrite forallb_forall in Hall. specialize (Hall (Z.to_nat a)). rewrite Z2Nat.id in Hall by lia.
    apply Bool.eqb_prop, Hall, in_seq. lia. }
  rewrite Hbit by done. rewrite take_0, drop_0.
  destruct (Z.eqb_spec id 0) as [->|Hne].
  { by destruct (Z.ltb_spec k0 128); [lia|]. }
  destruct Hk as [Hk ->]. destruct (Z.ltb_spec k0 128); [|lia]. cbn [negb].
  rewrite xor_layer_length, length_app. cbn [length].
  rewrite (proj2 (Nat.eqb_neq _ _)) by lia. rewrite !xor_layer_net, map_map by done.
  rewrite (map_ext _ (fun b => b)) by (intros; apply lxor_cancel_r). rewrite map_id.
  rewrite parse_digits; [|split; [lia|]|lia|lia].
  2:{ assert (2 ^ 128 < 10 ^ Z.of_nat 40) by reflexivity. lia. }
  cbn [parse_decimal]. by destruct (Z.leb_spec 48 sep); [lia|].
Qed.
End Packets.

(** ** Canary, role tag and noise bounds *)

Lemma canary_value key : 0 <= k_kf key ->
  flag_canary key = CANARY_MAGIC + 2 ^ 48 * (Z.b2z (k_masked key) + 2 * Z.b2z (k_plaintext key)
    + 4 * Z.b2z (k_delta_encode key) + 8 * Z.b2z (k_shuffle_data key)) + 2 ^ 52 * (k_kf key mod 4096).
Proof.
  intros Hk. unfold flag_canary. cbv zeta. match goal with |- context [Z.shiftl ?x 48] => set (fl := x) end.
  assert (fl = Z.b2z (k_masked key) + 2 * Z.b2z (k_plaintext key) + 4 * Z.b2z (k_delta_encode key) + 8 * Z.b2z (k_shuffle_data key)
    /\ 0 <= fl < 16) as [<- Hfl].
  { unfold fl. destruct (k_masked key), (k_plaintext key), (k_delta_encode key), (k_shuffle_data key); (split; [reflexivity|]); vm_compute; split; done. }
  change (Z.land (k_kf key) 0xfff) with (Z.land (k_kf key) (Z.ones 12)). rewrite Z.land_ones by lia. change (2 ^ 12) with 4096.
  pose proof (Z.mod_pos_bound (k_kf key) 4096 ltac:(lia)).
  rewrite (Z.lor_comm CANARY_MAGIC), (lor_disjoint_add 48) by (unfold CANARY_MAGIC; lia).
  rewrite Z.lor_comm, (lor_disjoint_add 52) by (unfold CANARY_MAGIC; lia). lia.
Qed.

Lemma canary_bounds key : 0 <= k_kf key -> is_u64 (flag_canary key).
Proof.
  intros Hk. rewrite canary_value by done. pose proof (Z.mod_pos_bound (k_kf key) 4096 ltac:(lia)).
  unfold CANARY_MAGIC. destruct (k_masked key), (k_plaintext key), (k_delta_encode key), (k_shuffle_data key); simpl; lia.
Qed.

Lemma canary_magic key : 0 <= k_kf key -> Z.land (flag_canary key) CANARY_MAGIC_MASK = CANARY_MAGIC.
Proof.
  intros Hk. rewrite canary_value by done. change CANARY_MAGIC_MASK with (Z.ones 48). rewrite Z.land_ones by lia.
  set (fl := _ + 8 * _).
  replace (CANARY_MAGIC + 2 ^ 48 * fl + 2 ^ 52 * (k_kf key mod 4096))
    with (CANARY_MAGIC + (fl + 16 * (k_kf key mod 4096)) * 2 ^ 48) by lia.
  rewrite Z.mod_add by lia. done.
Qed.

Lemma role_roundtrip role nonce : is_u64 nonce ->
  role_from_ivv (Z.lor (Z.shiftl (role_tag role) 64) nonce) = role /\
  0 < Z.lor (Z.shiftl (role_tag role) 64) nonce < 2 ^ 128.
Proof.
  intros Hn. rewrite lor_disjoint_add by lia. unfold role_from_ivv.
  rewrite Z.shiftr_div_pow2, Z.div_add_l, Z.div_small, Z.add_0_r by lia.
  destruct role.
  - split; [done|]. change (role_tag MuxTunnel) with ROLE_MAGIC. unfold ROLE_MAGIC. lia.
  - split; [done|]. change (role_tag BondLink) with (ROLE_MAGIC + 2 ^ 48). unfold ROLE_MAGIC. lia.
Qed.

Lemma nop_rounds_bound {R} `{RngLaws R} (rng : R) key :
  0 <= k_kl key <= 20 -> 0 <= k_kh key <= 20 ->
  1 <= fst (nop_rounds rng key) <= max_nop_packets key.
Proof.
  intros Hl Hh. unfold nop_rounds, max_nop_packets.
  rewrite !Z.shiftl_mul_pow2, !Z.mul_1_l by lia.
  assert (forall e, 0 <= e <= 20 -> 1 <= 2 ^ e <= 2 ^ 20) as Hp.
  { intros e He. split; [pose proof (Z.pow_pos_nonneg 2 e); lia|apply Z.pow_le_mono_r; lia]. }
  pose proof (Hp _ Hl). pose proof (Hp _ Hh). pose proof (Hp (Z.max (k_kl key) (k_kh key)) ltac:(lia)).
  unfold u32. rewrite !(Z.mod_small _ (2 ^ 32)) by lia.
  assert (2 ^ Z.max (k_kl key) (k_kh key) = Z.max (2 ^ k_kl key) (2 ^ k_kh key)) as Hmax.
  { destruct (Z.max_spec (k_kl key) (k_kh key)) as [[? ->]|[? ->]].
    - symmetry. apply Z.max_r, Z.pow_le_mono_r; lia.
    - symmetry. apply Z.max_l, Z.pow_le_mono_r; lia. }
  set (kl := 2 ^ k_kl key) in *. set (kh := 2 ^ k_kh key) in *. rewrite Hmax.
  set (p := if kh <? kl then (kh, kl) else (kl, kh)).
  assert (p = (Z.min kl kh, Z.max kl kh)) as -> by (unfold p; destruct (Z.ltb_spec kh kl); f_equal; lia).
  set (d := if _ =? _ then _ else _).
  assert (Z.min kl kh <= fst d <= Z.max kl kh) as Hd.
  { unfold d. destruct (_ =? _); [simpl; lia|]. apply random_range_bounds. lia. }
  destruct d as [rounds rng']. cbn [fst] in *. change (175 * 2 ^ 3) with 1400.
  split; [apply Z.div_le_lower_bound; lia|].
  pose proof (Z.div_le_upper_bound (rounds + 1400 - 1) 1400 rounds ltac:(lia) ltac:(lia)). lia.
Qed.

(** ** Properties *)

(** Session-id packets round trip: for every 128-bit id and any generator,
    the packet is read back as that id, or as noise when the id is 0, even by a
    receiver with a different key (the four XOR rounds cancel the key; this
    layer is obfuscation only); and a packet is at most 1600 bytes, so it
    always fits one frame. *)
Theorem session_id_roundtrip {R} `{RngLaws R} (rng : R) key key' id :
  is_u128 id ->
  unpack_session_id key' (fst (pack_session_id rng key id)) = Ok (if id =? 0 then Dummy else Session id) /\
  wf_bytes (fst (pack_session_id rng key id)) /\
  (5 ≤ length (fst (pack_session_id rng key id)) ≤ 1600)%nat.
Proof. intros Hid. split; [by apply unpack_pack|by apply pack_ok]. Qed.

Lemma session_id_roundtrip_witness :
  unpack_session_id default_key (fst (pack_session_id ([7; 8; 9; 10] : tape) default_key (2 ^ 127 + 5))) = Ok (Session (2 ^ 127 + 5)).
Proof. apply (session_id_roundtrip ([7; 8; 9; 10] : tape) default_key default_key (2 ^ 127 + 5)). lia. Defined.

(** What the flag canary pins: two keys have the same canary word exactly
    when their four data-plane switches and the low twelve bits of [kf] agree;
    no other field (noise exponents, padding, ciphers, passwords) enters it. *)
Theorem flag_canary_pins key key' :
  0 <= k_kf key -> 0 <= k_kf key' ->
  (flag_canary key = flag_canary key' <->
   k_masked key = k_masked key' /\ k_plaintext key = k_plaintext key' /\
   k_delta_encode key = k_delta_encode key' /\ k_shuffle_data key = k_shuffle_data key' /\
   k_kf key mod 4096 = k_kf key' mod 4096).
Proof.
  intros Hk Hk'. rewrite !canary_value by done.
  pose proof (Z.mod_pos_bound (k_kf key) 4096 ltac:(lia)). pose proof (Z.mod_pos_bound (k_kf key') 4096 ltac:(lia)).
  split.
  - destruct (k_masked key), (k_plaintext key), (k_delta_encode key), (k_shuffle_data key),
      (k_masked key'), (k_plaintext key'), (k_delta_encode key'), (k_shuffle_data key'); simpl; intros ?;
      split_and!; try done; lia.
  - by intros (-> & -> & -> & -> & ->).
Qed.

Lemma flag_canary_pins_witness :
  flag_canary default_key =
  flag_canary (Key (154543927 + 4096) 1 2 3 ChaCha20 (lit "x") ChaCha20 (lit "y") true false true true).
Proof.
  apply (flag_canary_pins default_key (Key (154543927 + 4096) 1 2 3 ChaCha20 (lit "x") ChaCha20 (lit "y") true false true true));
    [done|done|]. split_and!; reflexivity.
Defined.

(** For every key that passes validation, a sender emits at least one and at
    most [max_nop_packets] noise packets, the receiver's skip budget; and the
    role a client tags into its ivv is the role the server reads from it. *)
Theorem noise_and_role_agree {R} `{RngLaws R} (rng : R) key role nonce :
  key_valid key -> is_u64 nonce ->
  1 <= fst (nop_rounds rng key) <= max_nop_packets key /\
  role_from_ivv (Z.lor (Z.shiftl (role_tag role) 64) nonce) = role.
Proof.
  intros Hv Hn. destruct (key_valid_nop key Hv). split; [by apply nop_rounds_bound|by apply role_roundtrip].
Qed.

Lemma noise_and_role_agree_witness :
  role_from_ivv (Z.lor (Z.shiftl (role_tag BondLink) 64) 99) = BondLink.
Proof. apply (noise_and_role_agree ([3] : tape) default_key BondLink 99); [exact default_key_valid|lia]. Defined.
