(* ===== verification/Transmission.v ===== *)
(** * The data plane and the handshake ([crates/core/src/transmission.rs])

    [TxCore] and [RxCore] are the per-direction codec states; the scratch
    buffers of the code only save allocations and are not part of the state.
    A [Transmission] bundles both with a duplex transport. *)
From S2P Require Import Prelude Errors Env Base94Codec Base94 Cipher Binary KeyConfig Handshake.

(** [effective_flags]. *)
Definition effective_flags (key : ObfuscationKey) (handshaked : bool) : PayloadFlags :=
  if handshaked then Flags (k_masked key) (k_shuffle_data key) (k_delta_encode key) else SAFEST.

Record TxCore (R : Type) := Tx {
  tx_rng : R;
  tx_key : ObfuscationKey;
  tx_b94 : Base94Framer;
  tx_protocol : SessionCipher;
  tx_transport : SessionCipher;
  tx_handshaked : bool
}.
Arguments Tx {R}.
Arguments tx_rng {R}.
Arguments tx_key {R}.
Arguments tx_b94 {R}.
Arguments tx_protocol {R}.
Arguments tx_transport {R}.
Arguments tx_handshaked {R}.

Record RxCore := Rx {
  rx_key : ObfuscationKey;
  rx_b94 : Base94Framer;
  rx_protocol : SessionCipher;
  rx_transport : SessionCipher;
  rx_handshaked : bool
}.

(** The framing switch: [!handshaked || key.plaintext] selects base94. *)
Definition base94_mode (key : ObfuscationKey) (handshaked : bool) : bool :=
  negb handshaked || k_plaintext key.

Section Codec.
Context `{CryptoBackend} `{Base94Codec}.

(** [parse_binary_header]. *)
Definition parse_binary_header (kf : Z) (cipher : SessionCipher) (header : bytes) (declared_total : option nat)
    : result Error (nat * Z) * SessionCipher :=
  match header_decrypt kf (Some cipher) header with
  | (Err e, c) => (Err e, default cipher c)
  | (Ok (len, header_kf), c) =>
      let c := default cipher c in
      if negb ((1 <=? len)%nat && (len <=? PPP_BUFFER_SIZE)%nat) then (Err (FrameTooLarge (Z.of_nat len)), c)
      else if (match declared_total with
               | Some total => negb (len + HEADER_SIZE =? total)%nat
               | None => false
               end)
      then (Err InvalidFrame, c)
      else (Ok (len, header_kf), c)
  end.

(** [decrypt_tail]. *)
Definition decrypt_tail (key : ObfuscationKey) (protocol_rx transport_rx : SessionCipher)
    (handshaked : bool) (buf : bytes) : result Error bytes * (SessionCipher * SessionCipher) :=
  if (length buf <=? HEADER_SIZE)%nat then (Err InvalidFrame, (protocol_rx, transport_rx))
  else
    match parse_binary_header (k_kf key) protocol_rx (take HEADER_SIZE buf) (Some (length buf)) with
    | (Err e, p) => (Err e, (p, transport_rx))
    | (Ok (_, header_kf), p) =>
        let flags := effective_flags key handshaked in
        let body := payload_deobfuscate (drop HEADER_SIZE buf) flags header_kf (k_kf key) in
        let (body, t) := apply transport_rx body in
        (Ok body, (p, t))
    end.

(** ** Sending *)

Definition tx_new {R} (key : ObfuscationKey) (rng : R) : TxCore R :=
  Tx rng key (framer_new (k_kf key))
    (cipher_new (k_protocol key) Protocol (k_protocol_key key))
    (cipher_new (k_transport key) Transport (k_transport_key key)) false.

(** [encrypt_impl]: the wire packet of [prefix || payload], appended to [out]. *)
Definition encrypt_impl {R} `{Rng R} (t : TxCore R) (out prefix payload : bytes)
    : result Error unit * (TxCore R * bytes) :=
  let total := (length payload + length prefix)%nat in
  if (total =? 0)%nat then (Err ZeroLength, (t, out))
  else if (PPP_BUFFER_SIZE <? total)%nat then (Err (FrameTooLarge (Z.of_nat total)), (t, out))
  else
    let key := tx_key t in
    let flags := effective_flags key (tx_handshaked t) in
    match header_encrypt (tx_rng t) (k_kf key) (Some (tx_protocol t)) total with
    | (Err e, (rng, p)) =>
        (Err e, (Tx rng key (tx_b94 t) (default (tx_protocol t) p) (tx_transport t) (tx_handshaked t), out))
    | (Ok (header, header_kf), (rng, p)) =>
        let protocol := default (tx_protocol t) p in
        let (body, transport) := apply (tx_transport t) (prefix ++ payload) in
        let body := payload_obfuscate body flags header_kf (k_kf key) in
        if base94_mode key (tx_handshaked t) then
          let '(r, (b94, rng, out)) := encode_frame (tx_b94 t) rng out (header ++ body) in
          (r, (Tx rng key b94 protocol transport (tx_handshaked t), out))
        else
          (Ok tt, (Tx rng key (tx_b94 t) protocol transport (tx_handshaked t), out ++ header ++ body))
    end.

Definition encrypt_into {R} `{Rng R} (t : TxCore R) (out plaintext : bytes) :=
  encrypt_impl t out [] plaintext.
Definition encrypt_into_tagged {R} `{Rng R} (t : TxCore R) (out : bytes) (tag : Z) (payload : bytes) :=
  encrypt_impl t out [tag] payload.
Definition encrypt_into_prefixed {R} `{Rng R} (t : TxCore R) (out prefix payload : bytes) :=
  encrypt_impl t out prefix payload.

(** The common tail of [write] and [write_tagged]: encrypt, then [write_all]. *)
Definition write_packet {R} (enc : result Error unit * (TxCore R * bytes)) (w : writer)
    : result Error unit * (TxCore R * writer) :=
  match enc with
  | (Err e, (t, _)) => (Err e, (t, w))
  | (Ok _, (t, out)) => let (r, w) := write_all out w in (r, (t, w))
  end.

Definition tx_write {R} `{Rng R} (t : TxCore R) (w : writer) (plaintext : bytes) :=
  write_packet (encrypt_into t [] plaintext) w.

Definition tx_rekey {R} (t : TxCore R) (ivv : Z) : TxCore R :=
  let key := tx_key t in
  Tx (tx_rng t) key (tx_b94 t)
    (derive (k_protocol key) Protocol (k_protocol_key key) (Some ivv))
    (derive (k_transport key) Transport (k_transport_key key) (Some ivv)) (tx_handshaked t).

Definition tx_on_handshake_complete {R} (t : TxCore R) : TxCore R :=
  Tx (tx_rng t) (tx_key t) (tx_b94 t) (tx_protocol t) (tx_transport t) true.

(** ** Receiving *)

Definition rx_new (key : ObfuscationKey) : RxCore :=
  Rx key (framer_new (k_kf key))
    (for_decryption (cipher_new (k_protocol key) Protocol (k_protocol_key key)))
    (for_decryption (cipher_new (k_transport key) Transport (k_transport_key key))) false.

(** Store the ciphers back into the core. *)
Definition rx_with (r : RxCore) (b94 : Base94Framer) (ps : SessionCipher * SessionCipher) : RxCore :=
  Rx (rx_key r) b94 (fst ps) (snd ps) (rx_handshaked r).

(** [RxCore::decrypt]. *)
Definition decrypt (r : RxCore) (packet : bytes) : result Error bytes * RxCore :=
  let (decoded, b94) :=
    if base94_mode (rx_key r) (rx_handshaked r)
    then decode_packet_into (rx_b94 r) packet
    else (Ok packet, rx_b94 r) in
  match decoded with
  | Err e => (Err e, rx_with r b94 (rx_protocol r, rx_transport r))
  | Ok scratch_body =>
      let (res, ps) := decrypt_tail (rx_key r) (rx_protocol r) (rx_transport r) (rx_handshaked r) scratch_body in
      (res, rx_with r b94 ps)
  end.

(** [RxCore::decrypt_in_place]: the same message, from the caller's buffer. *)
Definition decrypt_in_place (r : RxCore) (packet : bytes) : result Error bytes * RxCore :=
  if base94_mode (rx_key r) (rx_handshaked r) then
    match decode_packet_into (rx_b94 r) packet with
    | (Err e, b94) => (Err e, rx_with r b94 (rx_protocol r, rx_transport r))
    | (Ok scratch_body, b94) =>
        let (res, ps) := decrypt_tail (rx_key r) (rx_protocol r) (rx_transport r) (rx_handshaked r) scratch_body in
        (res, rx_with r b94 ps)
    end
  else
    let (res, ps) := decrypt_tail (rx_key r) (rx_protocol r) (rx_transport r) (rx_handshaked r) packet in
    (res, rx_with r (rx_b94 r) ps).

(** The first half of [read_buf]: the frame body still obfuscated, its
    [header_kf], the framer and the length cipher. *)
Definition read_body (r : RxCore) (io : reader)
    : result Error (bytes * Z) * (Base94Framer * SessionCipher * reader) :=
  if base94_mode (rx_key r) (rx_handshaked r) then
    match read_frame_into (rx_b94 r) io with
    | (Err e, (b94, io)) => (Err e, (b94, rx_protocol r, io))
    | (Ok scratch_body, (b94, io)) =>
        if (length scratch_body <=? HEADER_SIZE)%nat then (Err InvalidFrame, (b94, rx_protocol r, io))
        else
          match parse_binary_header (k_kf (rx_key r)) (rx_protocol r) (take HEADER_SIZE scratch_body)
                  (Some (length scratch_body)) with
          | (Err e, p) => (Err e, (b94, p, io))
          | (Ok (_, header_kf), p) => (Ok (drop HEADER_SIZE scratch_body, header_kf), (b94, p, io))
          end
    end
  else
    match read_exact HEADER_SIZE io with
    | (Err e, io) => (Err e, (rx_b94 r, rx_protocol r, io))
    | (Ok header, io) =>
        match parse_binary_header (k_kf (rx_key r)) (rx_protocol r) header None with
        | (Err e, p) => (Err e, (rx_b94 r, p, io))
        | (Ok (len, header_kf), p) =>
            match read_take len io with
            | (Err e, io) => (Err e, (rx_b94 r, p, io))
            | (Ok scratch_body, io) =>
                if negb (length scratch_body =? len)%nat
                then (Err (Io (IoError UnexpectedEof "truncated binary frame")), (rx_b94 r, p, io))
                else (Ok (scratch_body, header_kf), (rx_b94 r, p, io))
            end
        end
    end.

(** [RxCore::read_buf]. *)
Definition read_buf (r : RxCore) (io : reader) : result Error bytes * (RxCore * reader) :=
  match read_body r io with
  | (Err e, (b94, p, io)) => (Err e, (rx_with r b94 (p, rx_transport r), io))
  | (Ok (body, header_kf), (b94, p, io)) =>
      let flags := effective_flags (rx_key r) (rx_handshaked r) in
      let body := payload_deobfuscate body flags header_kf (k_kf (rx_key r)) in
      let (body, t) := apply (rx_transport r) body in
      (Ok body, (rx_with r b94 (p, t), io))
  end.

Definition rx_rekey (r : RxCore) (ivv : Z) : RxCore :=
  let key := rx_key r in
  Rx key (rx_b94 r)
    (for_decryption (derive (k_protocol key) Protocol (k_protocol_key key) (Some ivv)))
    (for_decryption (derive (k_transport key) Transport (k_transport_key key) (Some ivv))) (rx_handshaked r).

Definition rx_on_handshake_complete (r : RxCore) : RxCore :=
  Rx (rx_key r) (rx_b94 r) (rx_protocol r) (rx_transport r) true.
End Codec.

(** ** Transmissions *)

Record Transmission (R : Type) := Trans {
  tr_io : duplex;
  tr_tx : TxCore R;
  tr_rx : RxCore;
  tr_session_id : Z;
  tr_pending : option (Z * SessionRole)
}.
Arguments Trans {R}.
Arguments tr_io {R}.
Arguments tr_tx {R}.
Arguments tr_rx {R}.
Arguments tr_session_id {R}.
Arguments tr_pending {R}.

Section Handshaking.
Context `{CryptoBackend} `{Base94Codec} {R} `{Rng R}.
Implicit Types T : Transmission R.

Definition with_rng (io : duplex) (key : ObfuscationKey) (rng : R) : Transmission R :=
  Trans io (tx_new key rng) (rx_new key) 0 None.

Definition is_handshaked T : bool := tx_handshaked (tr_tx T).
Definition session_id T : Z := tr_session_id T.

Definition set_tx T (t : TxCore R) (w : writer) : Transmission R :=
  Trans (Duplex (io_rd (tr_io T)) w) t (tr_rx T) (tr_session_id T) (tr_pending T).
Definition set_rx T (r : RxCore) (rd : reader) : Transmission R :=
  Trans (Duplex rd (io_wr (tr_io T))) (tr_tx T) r (tr_session_id T) (tr_pending T).
Definition set_pending T (p : option (Z * SessionRole)) : Transmission R :=
  Trans (tr_io T) (tr_tx T) (tr_rx T) (tr_session_id T) p.
Definition set_session T (id : Z) : Transmission R :=
  Trans (tr_io T) (tr_tx T) (tr_rx T) id (tr_pending T).

Definition write T (plaintext : bytes) : result Error unit * Transmission R :=
  let '(res, (t, w)) := tx_write (tr_tx T) (io_wr (tr_io T)) plaintext in (res, set_tx T t w).

Definition read T : result Error bytes * Transmission R :=
  let '(res, (r, rd)) := read_buf (tr_rx T) (io_rd (tr_io T)) in (res, set_rx T r rd).

(** [Transmission::rekey]. *)
Definition rekey T (ivv : Z) : Transmission R :=
  Trans (tr_io T) (tx_rekey (tr_tx T) ivv) (rx_rekey (tr_rx T) ivv) (tr_session_id T) (tr_pending T).

Definition set_rng (t : TxCore R) (rng : R) : TxCore R :=
  Tx rng (tx_key t) (tx_b94 t) (tx_protocol t) (tx_transport t) (tx_handshaked t).

(** Borrow the transmission's generator: [f(&mut self.tx.rng, ..)]. *)
Definition with_tx_rng {A} T (f : R -> A * R) : A * Transmission R :=
  let (a, rng) := f (tx_rng (tr_tx T)) in (a, set_tx T (set_rng (tr_tx T) rng) (io_wr (tr_io T))).

Definition send_session_id T (id : Z) : result Error unit * Transmission R :=
  let (packet, T) := with_tx_rng T (fun rng => pack_session_id rng (tx_key (tr_tx T)) id) in
  write T packet.

Fixpoint send_nops (rounds : nat) T : result Error unit * Transmission R :=
  match rounds with
  | O => (Ok tt, T)
  | S rounds =>
      match send_session_id T 0 with
      | (Err e, T) => (Err e, T)
      | (Ok _, T) => send_nops rounds T
      end
  end.

Definition handshake_prelude T : result Error unit * Transmission R :=
  let (rounds, T) := with_tx_rng T (fun rng => nop_rounds rng (tx_key (tr_tx T))) in
  send_nops (Z.to_nat rounds) T.

(** The loop of [read_session_id], bounded by the skip budget itself. *)
Fixpoint read_session_id_loop (budget : nat) T : result Error Z * Transmission R :=
  match read T with
  | (Err e, T) => (Err e, T)
  | (Ok packet, T) =>
      match unpack_session_id (rx_key (tr_rx T)) packet with
      | Err e => (Err e, T)
      | Ok (Session id) => (Ok id, T)
      | Ok Dummy =>
          match budget with
          | O => (Err (HandshakeFailed "too many dummy packets"), T)
          | S budget => read_session_id_loop budget T
          end
      end
  end.

Definition read_session_id T : result Error Z * Transmission R :=
  read_session_id_loop (Z.to_nat (max_nop_packets (tx_key (tr_tx T)))) T.

Definition handshake_client_send T (role : SessionRole) : result Error unit * Transmission R :=
  let? _ & T := handshake_prelude T in
  let (nonce, T) := with_tx_rng T random_u64 in
  let ivv := Z.lor (Z.shiftl (role_tag role) 64) nonce in
  let? _ & T := send_session_id T ivv in
  let T := set_tx T (tx_on_handshake_complete (tx_rekey (tr_tx T) ivv)) (io_wr (tr_io T)) in
  (Ok tt, set_pending T (Some (ivv, role))).

Definition handshake_client_confirm T : result Error Z * Transmission R :=
  match tr_pending T with
  | None => (Err (HandshakeFailed "confirm without send phase"), T)
  | Some (ivv, role) =>
      let T := set_pending T None in
      let? sid & T := read_session_id T in
      if sid =? 0 then (Err (HandshakeFailed "server session id is zero"), T) else
      let? nmux & T := read_session_id T in
      if nmux =? 0 then (Err (HandshakeFailed "nmux is zero"), T) else
      let mux := Z.land nmux 1 =? 1 in
      let nmux_high := u64 (Z.shiftr nmux 64) in
      if (Z.land nmux_high CANARY_MAGIC_MASK =? CANARY_MAGIC)
         && negb (nmux_high =? flag_canary (tx_key (tr_tx T)))
      then (Err FlagsMismatch, T)
      else if negb (Bool.eqb mux (bool_decide (role = MuxTunnel))) then (Err RoleRefused, T)
      else
        let T := set_rx T (rx_on_handshake_complete (rx_rekey (tr_rx T) ivv)) (io_rd (tr_io T)) in
        (Ok sid, set_session T sid)
  end.

Definition handshake_client T (role : SessionRole) : result Error Z * Transmission R :=
  let? _ & T := handshake_client_send T role in
  handshake_client_confirm T.

Definition effective_role (requested : SessionRole) (allow_bond : bool) : SessionRole :=
  match requested with
  | BondLink => if allow_bond then BondLink else MuxTunnel
  | MuxTunnel => MuxTunnel
  end.

(** The nmux of a role: the canary word, random low bits, the parity echo. *)
Definition make_nmux (key : ObfuscationKey) (low : Z) (effective : SessionRole) : Z :=
  let nmux := Z.lor (Z.shiftl (flag_canary key) 64) low in
  if decide (effective = MuxTunnel) then Z.lor nmux 1 else Z.land nmux (2 ^ 128 - 1 - 1).

Definition handshake_server T (sid : Z) (allow_bond : bool) : result Error SessionRole * Transmission R :=
  if sid =? 0 then (Err InvalidSessionId, T) else
  let? _ & T := handshake_prelude T in
  let? _ & T := send_session_id T sid in
  let? ivv & T := read_session_id T in
  if ivv =? 0 then (Err (HandshakeFailed "client ivv is zero"), T) else
  let effective := effective_role (role_from_ivv ivv) allow_bond in
  let (low, T) := with_tx_rng T random_u64 in
  let? _ & T := send_session_id T (make_nmux (tx_key (tr_tx T)) low effective) in
  let T := rekey T ivv in
  let T := set_tx T (tx_on_handshake_complete (tr_tx T)) (io_wr (tr_io T)) in
  let T := set_rx T (rx_on_handshake_complete (tr_rx T)) (io_rd (tr_io T)) in
  (Ok effective, set_session T sid).
End Handshaking.

(** ** Split halves *)

Record TransmissionTx (R : Type) := TransTx { ttx_io : writer; ttx_core : TxCore R }.
Arguments TransTx {R}.
Arguments ttx_io {R}.
Arguments ttx_core {R}.
Record TransmissionRx := TransRx { trx_io : reader; trx_core : RxCore }.

Section Halves.
Context `{CryptoBackend} `{Base94Codec} {R} `{Rng R}.

Definition tx_half_write (h : TransmissionTx R) (plaintext : bytes) : result Error unit * TransmissionTx R :=
  let '(res, (t, w)) := tx_write (ttx_core h) (ttx_io h) plaintext in (res, TransTx w t).

Definition write_tagged (h : TransmissionTx R) (tag : Z) (payload : bytes) : result Error unit * TransmissionTx R :=
  let '(res, (t, w)) := write_packet (encrypt_into_tagged (ttx_core h) [] tag payload) (ttx_io h) in
  (res, TransTx w t).

Definition rx_half_read (h : TransmissionRx) : result Error bytes * TransmissionRx :=
  let '(res, (r, rd)) := read_buf (trx_core h) (trx_io h) in (res, TransRx rd r).

Definition split_with (T : Transmission R) (rx_io : reader) : TransmissionTx R * TransmissionRx :=
  (TransTx (io_wr (tr_io T)) (tr_tx T), TransRx rx_io (tr_rx T)).
End Halves.

(** ** Synchronised directions *)

(** The receiving cipher of a sending one. *)
Definition twin (c d : SessionCipher) : Prop :=
  cipher_ok c /\ sc_encrypting c = true /\ d = for_decryption c.

(** The two ends of a direction agree: same key and phase, same first-frame
    state, ciphers at the same sequence number. *)
Record in_sync {R} (t : TxCore R) (r : RxCore) : Prop := {
  sync_key : rx_key r = tx_key t;
  sync_phase : rx_handshaked r = tx_handshaked t;
  sync_tx_b94 : keyed (k_kf (tx_key t)) (tx_b94 t);
  sync_rx_b94 : keyed (k_kf (tx_key t)) (rx_b94 r);
  sync_first : Base94.rx_first (rx_b94 r) = Base94.tx_first (tx_b94 t);
  sync_protocol : twin (tx_protocol t) (rx_protocol r);
  sync_transport : twin (tx_transport t) (rx_transport r)
}.

Create HintDb sync.

Section SyncLemmas.
Context `{CryptoLaws} `{Base94Laws} {R} `{RngLaws R}.
Implicit Types (t : TxCore R) (r : RxCore).

Lemma twin_derive m role p ivv : twin (derive m role p ivv) (for_decryption (derive m role p ivv)).
Proof. destruct (derive_ok m role p ivv). by split. Qed.

Lemma sync_new key (rng : R) : in_sync (tx_new key rng) (rx_new key).
Proof. split; try done; apply twin_derive. Qed.

Lemma sync_rekey t r ivv : in_sync t r -> in_sync (tx_rekey t ivv) (rx_rekey r ivv).
Proof. intros [Hk]. split; simpl; rewrite ?Hk; try done; apply twin_derive. Qed.

Lemma sync_complete t r : in_sync t r -> in_sync (tx_on_handshake_complete t) (rx_on_handshake_complete r).
Proof. intros []. by split. Qed.

Lemma sync_rng t r rng : in_sync t r -> in_sync (set_rng t rng) r.
Proof. intros []. by split. Qed.

Lemma parse_binary_header_ok kf c h n hkf c' tot :
  header_decrypt kf (Some c) h = (Ok (n, hkf), Some c') -> (1 ≤ n ≤ PPP_BUFFER_SIZE)%nat ->
  tot = None \/ tot = Some (n + HEADER_SIZE)%nat ->
  parse_binary_header kf c h tot = (Ok (n, hkf), c').
Proof.
  intros Hd Hn Ht. unfold parse_binary_header. rewrite Hd.
  rewrite (proj2 (Nat.leb_le 1 n)), (proj2 (Nat.leb_le n PPP_BUFFER_SIZE)) by lia. cbn [andb negb default].
  destruct Ht as [->| ->]; [done|]. by rewrite Nat.eqb_refl.
Qed.

Lemma parse_binary_header_bound kf c h tot n hkf c' :
  parse_binary_header kf c h tot = (Ok (n, hkf), c') -> (1 ≤ n ≤ PPP_BUFFER_SIZE)%nat.
Proof.
  unfold parse_binary_header. destruct (header_decrypt kf (Some c) h) as [[[len k]|] p]; [|done].
  destruct (Nat.leb_spec 1 len), (Nat.leb_spec len PPP_BUFFER_SIZE); cbn [andb negb]; try done.
  destruct tot as [tot|]; [destruct (negb _); [done|]|]; intros [= <- _ _]; lia.
Qed.

Lemma decrypt_tail_ok key p p' tr hs h hkf msg :
  length h = HEADER_SIZE -> wf_bytes msg -> (1 ≤ length msg ≤ PPP_BUFFER_SIZE)%nat ->
  header_decrypt (k_kf key) (Some p) h = (Ok (length msg, hkf), Some p') ->
  cipher_ok tr -> sc_encrypting tr = true ->
  decrypt_tail key p (for_decryption tr) hs
      (h ++ payload_obfuscate (fst (apply tr msg)) (effective_flags key hs) hkf (k_kf key))
    = (Ok msg, (p', for_decryption (snd (apply tr msg)))).
Proof.
  intros Hh Hw Hl Hd Hc He. destruct (apply_ok tr msg Hc Hw) as (_ & Hwc & Hlc & _).
  destruct (payload_obfuscate_ok (fst (apply tr msg)) (effective_flags key hs) hkf (k_kf key) Hwc) as (_ & Hlo & Hdo).
  unfold decrypt_tail. rewrite !length_app, Hlo, Hlc, Hh.
  destruct (Nat.leb_spec (HEADER_SIZE + length msg) HEADER_SIZE); [lia|].
  rewrite take_app_length', drop_app_length' by done.
  rewrite (parse_binary_header_ok _ _ _ _ _ _ _ Hd) by (auto with lia || (right; f_equal; lia)).
  rewrite Hdo. by rewrite apply_roundtrip.
Qed.

(** [wire] is one frame of the message [msg] for a receiver in state [r], whose
    state after it is [r']. *)
Inductive frame_of r (wire msg : bytes) (r' : RxCore) : Prop :=
| base94_frame hd bin ps :
    base94_mode (rx_key r) (rx_handshaked r) = true ->
    keyed (k_kf (rx_key r)) (rx_b94 r) -> wf_bytes bin ->
    header_ok (k_kf (rx_key r)) (Base94.rx_first (rx_b94 r)) (base94_encoded_len bin (k_kf (rx_key r))) hd ->
    wire = hd ++ base94_encode bin (k_kf (rx_key r)) ->
    decrypt_tail (rx_key r) (rx_protocol r) (rx_transport r) (rx_handshaked r) bin = (Ok msg, ps) -> msg <> [] ->
    r' = rx_with r (set_rx_first false (rx_b94 r)) ps -> frame_of r wire msg r'
| binary_frame h body hkf p tr :
    base94_mode (rx_key r) (rx_handshaked r) = false ->
    length h = HEADER_SIZE -> wire = h ++ body -> length body = length msg -> msg <> [] ->
    (forall tot, tot = None \/ tot = Some (length body + HEADER_SIZE)%nat ->
       parse_binary_header (k_kf (rx_key r)) (rx_protocol r) h tot = (Ok (length body, hkf), p)) ->
    apply (rx_transport r) (payload_deobfuscate body (effective_flags (rx_key r) (rx_handshaked r)) hkf (k_kf (rx_key r)))
      = (msg, tr) ->
    r' = rx_with r (rx_b94 r) (p, tr) -> frame_of r wire msg r'.

Lemma frame_nonempty r wire msg r' : frame_of r wire msg r' -> wire <> [].
Proof.
  intros [hd bin ps _ _ _ (Hl & _) -> _ _ _|h body hkf p t _ Hl -> _ _ _ _ _] E; apply app_nil in E as [-> _];
    [destruct (Base94.rx_first (rx_b94 r)); done|done].
Qed.

Lemma read_buf_base94 r io : base94_mode (rx_key r) (rx_handshaked r) = true ->
  read_buf r io =
    match read_frame_into (rx_b94 r) io with
    | (Err e, (b94, io)) => (Err e, (rx_with r b94 (rx_protocol r, rx_transport r), io))
    | (Ok bin, (b94, io)) =>
        let (res, ps) := decrypt_tail (rx_key r) (rx_protocol r) (rx_transport r) (rx_handshaked r) bin in
        (res, (rx_with r b94 ps, io))
    end.
Proof.
  intros Hm. unfold read_buf, read_body, decrypt_tail. rewrite Hm.
  destruct (read_frame_into (rx_b94 r) io) as [[bin|e] [b94 io']]; [|done].
  destruct (length bin <=? HEADER_SIZE)%nat; [done|].
  destruct (parse_binary_header _ _ _ _) as [[[len hkf]|e] p]; [|done].
  by destruct (apply (rx_transport r) _).
Qed.

Lemma read_frame_of r wire msg r' rest e :
  frame_of r wire msg r' -> read_buf r (Reader (wire ++ rest) e) = (Ok msg, (r', Reader rest e)).
Proof.
  intros [hd bin ps Hm Hk Hw Hh -> Hd _ ->|h body hkf p t Hm Hl -> Hlb Hne Hp Ha ->].
  - rewrite read_buf_base94, <- app_assoc by done.
    pose proof (read_frame_ok _ (rx_b94 r) hd bin rest e Hk Hw Hh) as Hrd. unfold read_frame in Hrd.
    by rewrite Hrd, Hd.
  - unfold read_buf, read_body. rewrite Hm, <- app_assoc, read_exact_app, (Hp None), read_take_app by auto.
    rewrite Nat.eqb_refl. cbn [negb]. by rewrite Ha.
Qed.

Lemma decrypt_tail_binary key p0 c0 hs h body hkf p msg tr :
  length h = HEADER_SIZE -> length body = length msg -> msg <> [] ->
  parse_binary_header (k_kf key) p0 h (Some (length body + HEADER_SIZE)%nat) = (Ok (length body, hkf), p) ->
  apply c0 (payload_deobfuscate body (effective_flags key hs) hkf (k_kf key)) = (msg, tr) ->
  decrypt_tail key p0 c0 hs (h ++ body) = (Ok msg, (p, tr)).
Proof.
  intros Hl Hlb Hne Hp Ha. unfold decrypt_tail. rewrite length_app, Hl.
  destruct (Nat.leb_spec (HEADER_SIZE + length body) HEADER_SIZE).
  { destruct msg; [done|cbn [length] in Hlb; lia]. }
  rewrite take_app_length', drop_app_length' by done. rewrite Nat.add_comm, Hp. by rewrite Ha.
Qed.

Lemma decrypt_frame_of r wire msg r' : frame_of r wire msg r' ->
  decrypt r wire = (Ok msg, r') /\ decrypt_in_place r wire = (Ok msg, r').
Proof.
  intros [hd bin ps Hm Hk Hw Hh -> Hd _ ->|h body hkf p t Hm Hl -> Hlb Hne Hp Ha ->]; unfold decrypt, decrypt_in_place; rewrite Hm.
  - pose proof (decode_packet_ok _ (rx_b94 r) hd bin Hk Hw Hh) as Hdp. unfold decode_packet in Hdp.
    by rewrite Hdp, Hd.
  - by rewrite (decrypt_tail_binary _ _ _ _ _ _ _ _ _ _ Hl Hlb Hne (Hp _ (or_intror eq_refl)) Ha).
Qed.

(** The central lemma: what one end encrypts is a frame for the other. *)
Lemma encrypt_frame t r out prefix payload :
  in_sync t r -> wf_bytes (prefix ++ payload) -> (1 ≤ length (prefix ++ payload) ≤ PPP_BUFFER_SIZE)%nat ->
  exists t' r' wire,
    encrypt_impl t out prefix payload = (Ok tt, (t', out ++ wire)) /\ in_sync t' r' /\
    tx_key t' = tx_key t /\ tx_handshaked t' = tx_handshaked t /\ frame_of r wire (prefix ++ payload) r'.
Proof.
  intros [Hk Hhs Hb Hb' Hf (Hpo & Hpe & Hp) (Hto & Hte & Ht)] Hw Hl.
  set (msg := prefix ++ payload) in *.
  assert (length msg = length payload + length prefix)%nat as Hlm by (unfold msg; rewrite length_app; lia).
  unfold encrypt_impl. fold msg. rewrite <- Hlm.
  destruct (Nat.eqb_spec (length msg) 0); [lia|]. destruct (Nat.ltb_spec PPP_BUFFER_SIZE (length msg)); [lia|].
  destruct (header_encrypt_ok (tx_rng t) (k_kf (tx_key t)) (tx_protocol t) (length msg) Hpo Hpe Hl)
    as (h & hkf & rng' & p' & -> & Hpo' & Hpe' & Hhl & Hhw & Hdec). rewrite <- Hp in Hdec. cbn [default]. unfold Datatypes.id.
  pose proof (apply_ok (tx_transport t) msg Hto Hw) as (Hto' & Hwc & Hlc & Hte').
  pose proof (decrypt_tail_ok (tx_key t) (rx_protocol r) _ (tx_transport t) (tx_handshaked t) h hkf msg Hhl Hw Hl Hdec Hto Hte) as Htail.
  pose proof (apply_roundtrip (tx_transport t) msg Hto Hte Hw) as Hrt.
  rewrite <- Ht in Htail, Hrt. destruct (apply (tx_transport t) msg) as [ct tr']. cbn [fst snd] in *.
  destruct (payload_obfuscate_ok ct (effective_flags (tx_key t) (tx_handshaked t)) hkf (k_kf (tx_key t)) Hwc) as (Hwo & Hlo & Hdo).
  set (body := payload_obfuscate _ _ _ _) in *. rewrite Hte in Hte'.
  assert (forall f g (rng0 : R), keyed (k_kf (tx_key t)) f -> keyed (k_kf (tx_key t)) g -> Base94.rx_first g = Base94.tx_first f ->
    in_sync (Tx rng0 (tx_key t) f p' tr' (tx_handshaked t)) (rx_with r g (for_decryption p', for_decryption tr'))) as Hsync.
  { intros. split; try done. }
  destruct (base94_mode (tx_key t) (tx_handshaked t)) eqn:Emode.
  - assert (wf_bytes (h ++ body)) as Hwb by auto with bytes.
    assert (length (h ++ body) = (HEADER_SIZE + length msg)%nat) as Hlb by (rewrite length_app; lia).
    destruct (encode_frame_ok (k_kf (tx_key t)) (tx_b94 t) rng' out (h ++ body) Hb Hwb) as (hd & rng'' & -> & Hhd).
    { intros E. rewrite E in Hlb. simpl in Hlb. lia. }
    { pose proof (base94_len_upper (h ++ body) (k_kf (tx_key t))). unfold BASE94_MAX_FRAME, HEADER_SIZE in *. lia. }
    rewrite <- Hf in Hhd.
    eexists _, (rx_with r (set_rx_first false (rx_b94 r)) (for_decryption p', for_decryption tr')), _.
    split; [done|]. split; [by apply Hsync|]. split; [done|]. split; [done|].
    eapply (base94_frame r _ _ _ hd (h ++ body)); rewrite ?Hk, ?Hhs; try done.
    intros E. rewrite E in Hl. simpl in Hl. lia.
  - eexists _, (rx_with r (rx_b94 r) (for_decryption p', for_decryption tr')), (h ++ body).
    split; [done|]. split; [by apply Hsync|]. split; [done|]. split; [done|].
    assert (length body = length msg) as Hbl by lia.
    eapply (binary_frame r _ _ _ h body hkf (for_decryption p')); rewrite ?Hk, ?Hhs; try done.
    + intros E. rewrite E in Hl. simpl in Hl. lia.
    + intros tot Htot. rewrite Hbl in *. by apply parse_binary_header_ok.
    + by rewrite Hdo.
Qed.

(** In particular the other end reads and decrypts it. *)
Lemma encrypt_read t r out prefix payload :
  in_sync t r -> wf_bytes (prefix ++ payload) -> (1 ≤ length (prefix ++ payload) ≤ PPP_BUFFER_SIZE)%nat ->
  exists t' r' wire,
    encrypt_impl t out prefix payload = (Ok tt, (t', out ++ wire)) /\ in_sync t' r' /\
    tx_key t' = tx_key t /\ tx_handshaked t' = tx_handshaked t /\
    (forall rest e, read_buf r (Reader (wire ++ rest) e) = (Ok (prefix ++ payload), (r', Reader rest e))) /\
    decrypt r wire = (Ok (prefix ++ payload), r') /\
    decrypt_in_place r wire = (Ok (prefix ++ payload), r').
Proof.
  intros Hs Hw Hl. destruct (encrypt_frame t r out prefix payload Hs Hw Hl) as (t' & r' & wire & E & Hs' & Hk & Hh & Hf).
  exists t', r', wire. split_and!; try done; [intros; by apply read_frame_of|by apply decrypt_frame_of|by apply decrypt_frame_of].
Qed.
End SyncLemmas.
#[export] Hint Resolve sync_new sync_rekey sync_complete sync_rng : sync.

(** ** Session-id packets on the wire *)

Section HandshakeLemmas.
Context `{CryptoLaws} `{Base94Laws} {R} `{RngLaws R}.
Implicit Types (T : Transmission R) (t : TxCore R) (r : RxCore).

Definition packet_of (id : Z) : SessionPacket := if id =? 0 then Dummy else Session id.

(** [wire] is a sequence of frames that a receiver in state [r] reads as the
    session-id packets [ids], ending in state [r']. *)
Fixpoint carries (r : RxCore) (wire : bytes) (ids : list Z) (r' : RxCore) : Prop :=
  match ids with
  | [] => wire = [] /\ r' = r
  | id :: ids => exists w1 w2 p r1, wire = w1 ++ w2 /\
      (forall rest e, read_buf r (Reader (w1 ++ rest) e) = (Ok p, (r1, Reader rest e))) /\
      (forall key, unpack_session_id key p = Ok (packet_of id)) /\ carries r1 w2 ids r'
  end.

Lemma carries_app r r1 r2 w1 w2 a b :
  carries r w1 a r1 -> carries r1 w2 b r2 -> carries r (w1 ++ w2) (a ++ b) r2.
Proof.
  revert r w1. induction a as [|x a IH]; intros r w1; simpl; [by intros [-> ->]|].
  intros (u & v & p & r' & -> & Hr & Hu & Hc) Hb. exists u, (v ++ w2), p, r'.
  rewrite <- app_assoc. auto.
Qed.

(** What sending the packets [ids] does to a transmission, for the peer that is
    in state [r] before and [r'] after. *)
Record sent T T' r r' (ids : list Z) (wire : bytes) : Prop := {
  sent_io : tr_io T' = Duplex (io_rd (tr_io T)) (Writer (wr_out (io_wr (tr_io T)) ++ wire) None);
  sent_rx : tr_rx T' = tr_rx T;
  sent_id : tr_session_id T' = tr_session_id T;
  sent_pending : tr_pending T' = tr_pending T;
  sent_sync : in_sync (tr_tx T') r';
  sent_key : tx_key (tr_tx T') = tx_key (tr_tx T);
  sent_phase : tx_handshaked (tr_tx T') = tx_handshaked (tr_tx T);
  sent_carries : carries r wire ids r'
}.

Lemma sent_trans T T1 T2 r r1 r2 a b w1 w2 :
  sent T T1 r r1 a w1 -> sent T1 T2 r1 r2 b w2 -> sent T T2 r r2 (a ++ b) (w1 ++ w2).
Proof.
  intros [Hio1 Hrx1 Hid1 Hp1 Hs1 Hk1 Hh1 Hc1] [Hio2 Hrx2 Hid2 Hp2 Hs2 Hk2 Hh2 Hc2].
  split; try congruence; [|by eapply carries_app].
  rewrite Hio2, Hio1. simpl. by rewrite app_assoc.
Qed.

Lemma sent_rng T r rng :
  in_sync (tr_tx T) r -> wr_err (io_wr (tr_io T)) = None ->
  sent T (set_tx T (set_rng (tr_tx T) rng) (io_wr (tr_io T))) r r [] [].
Proof.
  intros Hs He. split; try done; [|by apply sync_rng]. simpl. rewrite app_nil_r.
  destruct (io_wr (tr_io T)). simpl in *. by rewrite He.
Qed.

Lemma send_session_id_ok T r id :
  in_sync (tr_tx T) r -> wr_err (io_wr (tr_io T)) = None -> is_u128 id ->
  exists T' r' wire, send_session_id T id = (Ok tt, T') /\ sent T T' r r' [id] wire.
Proof.
  intros Hs He Hid. unfold send_session_id, with_tx_rng.
  destruct (pack_ok (tx_rng (tr_tx T)) (tx_key (tr_tx T)) id Hid) as [Hw Hl].
  pose proof (fun key' => unpack_pack (tx_rng (tr_tx T)) (tx_key (tr_tx T)) key' id Hid) as Hu.
  destruct (pack_session_id _ _ _) as [p rng']. cbn [fst] in *.
  unfold write, tx_write, encrypt_into. cbn [tr_tx set_tx tr_io io_wr].
  destruct (encrypt_read (set_rng (tr_tx T) rng') r [] [] p) as (t' & r' & wire & -> & Hs' & Hk & Hh & Hrd & _).
  { by apply sync_rng. }
  { done. }
  { unfold PPP_BUFFER_SIZE. simpl. lia. }
  cbn [write_packet]. unfold write_all. rewrite He. eexists _, r', wire. split; [done|].
  split; try done. exists wire, [], p, r'. rewrite app_nil_r. split_and!; done.
Qed.

Lemma send_nops_ok n T r :
  in_sync (tr_tx T) r -> wr_err (io_wr (tr_io T)) = None ->
  exists T' r' wire, send_nops n T = (Ok tt, T') /\ sent T T' r r' (replicate n 0) wire.
Proof.
  revert T r. induction n as [|n IH]; intros T r Hs He.
  { exists T, r, []. split; [done|]. split; try done. rewrite app_nil_r. destruct T as [[rd [o we]] ? ? ? ?]. simpl in *. by subst. }
  destruct (send_session_id_ok T r 0 Hs He ltac:(lia)) as (T1 & r1 & w1 & E1 & Hs1).
  cbn [send_nops]. rewrite E1.
  destruct (IH T1 r1) as (T2 & r2 & w2 & E2 & Hs2); [apply Hs1|by rewrite (sent_io _ _ _ _ _ _ Hs1)|].
  exists T2, r2, (w1 ++ w2). split; [done|]. by apply (sent_trans T T1 T2 r r1 r2 [0]).
Qed.

Lemma sent_writer T T' r r' ids w : sent T T' r r' ids w -> wr_err (io_wr (tr_io T')) = None.
Proof. intros Hs. by rewrite (sent_io _ _ _ _ _ _ Hs). Qed.

Lemma handshake_prelude_ok T r :
  in_sync (tr_tx T) r -> wr_err (io_wr (tr_io T)) = None -> key_valid (tx_key (tr_tx T)) ->
  exists n T' r' wire, handshake_prelude T = (Ok tt, T') /\ sent T T' r r' (replicate n 0) wire /\
    (n ≤ Z.to_nat (max_nop_packets (tx_key (tr_tx T))))%nat.
Proof.
  intros Hs He Hv. unfold handshake_prelude, with_tx_rng.
  destruct (key_valid_nop _ Hv) as [Hl Hh].
  pose proof (nop_rounds_bound (tx_rng (tr_tx T)) (tx_key (tr_tx T)) Hl Hh) as Hn.
  destruct (nop_rounds _ _) as [rounds rng']. cbn [fst] in Hn.
  pose proof (sent_rng T r rng' Hs He) as Hs0.
  destruct (send_nops_ok (Z.to_nat rounds) _ r (sent_sync _ _ _ _ _ _ Hs0) (sent_writer _ _ _ _ _ _ Hs0))
    as (T' & r' & wire & E & Hs').
  exists (Z.to_nat rounds), T', r', wire. split; [done|]. split; [|lia].
  exact (sent_trans _ _ _ _ _ _ [] _ [] _ Hs0 Hs').
Qed.

Lemma read_session_id_ok n id budget T r' wire rest e :
  carries (tr_rx T) wire (replicate n 0 ++ [id]) r' -> id <> 0 -> (n ≤ budget)%nat ->
  io_rd (tr_io T) = Reader (wire ++ rest) e ->
  read_session_id_loop budget T = (Ok id, set_rx T r' (Reader rest e)).
Proof.
  revert n T wire. induction budget as [|budget IH]; intros n T wire Hc Hid Hn Hio; destruct n as [|n]; try lia;
    cbn [replicate app carries] in Hc; destruct Hc as (w1 & w2 & p & r1 & -> & Hr & Hu & Hc);
    cbn [read_session_id_loop]; unfold read; rewrite Hio, <- app_assoc, Hr; cbn [tr_rx set_rx];
    rewrite Hu; unfold packet_of.
  - destruct (Z.eqb_spec id 0); [done|]. destruct Hc as [-> ->]. done.
  - destruct (Z.eqb_spec id 0); [done|]. destruct Hc as [-> ->]. done.
  - rewrite Z.eqb_refl. rewrite (IH n _ w2); [done|done|done|lia|done].
Qed.
(** The nmux word: canary above, role parity below. *)
Lemma make_nmux_ok key low eff : key_valid key -> is_u64 low ->
  let nmux := make_nmux key low eff in
  Z.shiftr nmux 64 = flag_canary key /\ 0 < nmux < 2 ^ 128 /\
  (Z.land nmux 1 =? 1) = bool_decide (eff = MuxTunnel).
Proof.
  intros [Ht _] Hl. destruct (key_typed_fields key Ht) as (Hkf & _).
  pose proof (canary_bounds key ltac:(lia)) as Hc. pose proof (canary_value key ltac:(lia)) as Hcv.
  assert (0 < flag_canary key) as Hpos.
  { rewrite Hcv. pose proof (Z.mod_pos_bound (k_kf key) 4096 ltac:(lia)). unfold CANARY_MAGIC.
    destruct (k_masked key), (k_plaintext key), (k_delta_encode key), (k_shuffle_data key); simpl; lia. }
  unfold make_nmux. set (n0 := Z.lor (Z.shiftl (flag_canary key) 64) low).
  assert (Z.shiftr n0 64 = flag_canary key) as Hs0.
  { unfold n0. rewrite lor_disjoint_add, Z.shiftr_div_pow2, Z.div_add_l, Z.div_small by lia. lia. }
  set (nmux := if decide (eff = MuxTunnel) then Z.lor n0 1 else Z.land n0 (2 ^ 128 - 1 - 1)). cbv zeta.
  assert (0 <= n0) as Hn0 by (unfold n0; rewrite lor_disjoint_add; lia).
  assert (0 <= nmux) as Hn by (unfold nmux; case_decide; [apply Z.lor_nonneg|apply Z.land_nonneg]; lia).
  assert (Z.shiftr nmux 64 = flag_canary key) as Hs.
  { unfold nmux. case_decide.
    - rewrite Z.shiftr_lor, Hs0. change (Z.shiftr 1 64) with 0. apply Z.lor_0_r.
    - rewrite Z.shiftr_land, Hs0. change (Z.shiftr (2 ^ 128 - 1 - 1) 64) with (Z.ones 64).
      rewrite Z.land_ones by lia. apply Z.mod_small. lia. }
  split_and!; try done.
  - rewrite Z.shiftr_div_pow2 in Hs by lia. pose proof (Z.div_mod nmux (2 ^ 64) ltac:(lia)).
    pose proof (Z.mod_pos_bound nmux (2 ^ 64) ltac:(lia)). lia.
  - rewrite Z.shiftr_div_pow2 in Hs by lia. pose proof (Z.div_mod nmux (2 ^ 64) ltac:(lia)).
    pose proof (Z.mod_pos_bound nmux (2 ^ 64) ltac:(lia)). lia.
  - unfold nmux. case_decide as Hd.
    + rewrite Z.land_lor_distr_l. change (Z.land 1 1) with 1.
      replace (Z.lor (Z.land n0 1) 1) with 1; [by rewrite bool_decide_true|].
      symmetry. change 1 with (Z.ones 1) at 1. rewrite Z.land_ones by lia.
      pose proof (Z.mod_pos_bound n0 (2 ^ 1) ltac:(lia)).
      assert (n0 mod 2 ^ 1 = 0 \/ n0 mod 2 ^ 1 = 1) as [-> | ->] by lia; done.
    + rewrite <- Z.land_assoc. change (Z.land (2 ^ 128 - 1 - 1) 1) with 0. rewrite Z.land_0_r.
      by rewrite bool_decide_false.
Qed.

(** Client, phase 1. *)
Lemma client_send_ok T r role :
  in_sync (tr_tx T) r -> wr_err (io_wr (tr_io T)) = None -> key_valid (tx_key (tr_tx T)) ->
  exists T' r' wire n ivv, handshake_client_send T role = (Ok tt, T') /\
    tr_io T' = Duplex (io_rd (tr_io T)) (Writer (wr_out (io_wr (tr_io T)) ++ wire) None) /\
    tr_rx T' = tr_rx T /\ tr_pending T' = Some (ivv, role) /\ tr_session_id T' = tr_session_id T /\
    tx_key (tr_tx T') = tx_key (tr_tx T) /\ tx_handshaked (tr_tx T') = true /\
    carries r wire (replicate n 0 ++ [ivv]) r' /\
    (n ≤ Z.to_nat (max_nop_packets (tx_key (tr_tx T))))%nat /\
    role_from_ivv ivv = role /\ 0 < ivv < 2 ^ 128 /\
    in_sync (tr_tx T') (rx_on_handshake_complete (rx_rekey r' ivv)).
Proof.
  intros Hs He Hv. unfold handshake_client_send.
  destruct (handshake_prelude_ok T r Hs He Hv) as (n & Ta & ra & wa & -> & Ha & Hn). unfold with_tx_rng.
  pose proof (random_u64_bounds (tx_rng (tr_tx Ta))) as Hu.
  destruct (random_u64 (tx_rng (tr_tx Ta))) as [nonce rng']. cbn [fst] in Hu.
  pose proof (sent_rng Ta ra rng' (sent_sync _ _ _ _ _ _ Ha) (sent_writer _ _ _ _ _ _ Ha)) as Hb.
  destruct (role_roundtrip role nonce Hu) as [Hrole Hivv]. set (ivv := Z.lor _ nonce) in *.
  destruct (send_session_id_ok _ ra ivv (sent_sync _ _ _ _ _ _ Hb) (sent_writer _ _ _ _ _ _ Hb) ltac:(lia))
    as (Tc & rc & wc & -> & Hc).
  pose proof (sent_trans _ _ _ _ _ _ _ _ _ _ Ha (sent_trans _ _ _ _ _ _ _ _ _ _ Hb Hc)) as [Hio Hrx Hid _ Hsy Hk _ Hca].
  eexists _, rc, (wa ++ [] ++ wc), n, ivv. split; [done|]. cbn. rewrite Hio. split_and!; try done; try lia.
  by apply sync_complete, sync_rekey.
Qed.

(** Server, given the client's packets in its input. *)
Lemma server_ok T r wire n ivv r' rest e sid allow_bond :
  in_sync (tr_tx T) r -> wr_err (io_wr (tr_io T)) = None -> key_valid (tx_key (tr_tx T)) ->
  carries (tr_rx T) wire (replicate n 0 ++ [ivv]) r' ->
  (n ≤ Z.to_nat (max_nop_packets (tx_key (tr_tx T))))%nat -> 0 < ivv < 2 ^ 128 ->
  io_rd (tr_io T) = Reader (wire ++ rest) e -> is_u128 sid -> sid <> 0 ->
  let eff := effective_role (role_from_ivv ivv) allow_bond in
  exists T' wo n' nmux r'', handshake_server T sid allow_bond = (Ok eff, T') /\
    tr_io T' = Duplex (Reader rest e) (Writer (wr_out (io_wr (tr_io T)) ++ wo) None) /\
    tr_rx T' = rx_on_handshake_complete (rx_rekey r' ivv) /\ tr_session_id T' = sid /\
    tx_handshaked (tr_tx T') = true /\
    carries r wo ((replicate n' 0 ++ [sid]) ++ [nmux]) r'' /\
    (n' ≤ Z.to_nat (max_nop_packets (tx_key (tr_tx T))))%nat /\
    (exists low, is_u64 low /\ nmux = make_nmux (tx_key (tr_tx T)) low eff) /\
    in_sync (tr_tx T') (rx_on_handshake_complete (rx_rekey r'' ivv)).
Proof.
  intros Hs He Hv Hc Hn Hivv Hin Hsid Hne eff. unfold handshake_server.
  destruct (Z.eqb_spec sid 0); [done|].
  destruct (handshake_prelude_ok T r Hs He Hv) as (n' & Ta & ra & wa & -> & Ha & Hn').
  destruct (send_session_id_ok Ta ra sid (sent_sync _ _ _ _ _ _ Ha) (sent_writer _ _ _ _ _ _ Ha) Hsid)
    as (Tb & rb & wb & -> & Hb).
  pose proof (sent_trans _ _ _ _ _ _ _ _ _ _ Ha Hb) as Hab. pose proof Hab as [Hio Hrx Hid _ Hsy Hk _ Hca].
  unfold read_session_id.
  rewrite (read_session_id_ok n ivv _ Tb r' wire rest e);
    [|by rewrite Hrx|lia|by rewrite Hk|by rewrite Hio]. cbn beta iota.
  destruct (Z.eqb_spec ivv 0); [lia|]. cbv zeta. unfold with_tx_rng. cbn [set_rx tr_tx tr_io io_wr].
  pose proof (random_u64_bounds (tx_rng (tr_tx Tb))) as Hu.
  destruct (random_u64 (tx_rng (tr_tx Tb))) as [low rng']. cbn [fst] in Hu.
  cbn [set_tx tr_tx set_rng tx_key io_rd tr_io tr_rx tr_session_id tr_pending].
  destruct (make_nmux_ok (tx_key (tr_tx Tb)) low eff ltac:(by rewrite Hk) Hu) as (_ & Hnm & _).
  fold eff. set (nmux := make_nmux _ low eff) in *.
  destruct (send_session_id_ok
      (set_tx (set_rx Tb r' (Reader rest e)) (set_rng (tr_tx Tb) rng') (io_wr (tr_io Tb))) rb nmux)
    as (Tc & rc & wc & Ec & Hcc); [by apply sync_rng|by rewrite Hio|lia|].
  unfold set_tx, set_rx in Ec. cbn in Ec. unfold set_tx, set_rx. cbn. rewrite Ec.
  destruct Hcc as [Hio' Hrx' _ _ Hsy' Hk' _ Hca']. cbn in *.
  eexists _, ((wa ++ wb) ++ wc), n', nmux, rc. split; [done|]. cbn. rewrite Hio', Hrx', Hio. cbn.
  split_and!; try done.
  - by rewrite <- app_assoc.
  - eapply carries_app; [exact Hca|exact Hca'].
  - exists low. split; [done|]. unfold nmux. by rewrite Hk.
  - by apply sync_complete, sync_rekey.
Qed.

(** The client's decision on the server's answer. *)
Definition confirm_verdict (key : ObfuscationKey) (role : SessionRole) (sid nmux : Z) : result Error Z :=
  let nmux_high := u64 (Z.shiftr nmux 64) in
  if (Z.land nmux_high CANARY_MAGIC_MASK =? CANARY_MAGIC) && negb (nmux_high =? flag_canary key) then Err FlagsMismatch
  else if decide (Z.odd nmux = bool_decide (role = MuxTunnel)) then Ok sid
  else Err RoleRefused.

Lemma carries_split r wo a b r' : carries r wo (a ++ b) r' ->
  exists r1 w1 w2, wo = w1 ++ w2 /\ carries r w1 a r1 /\ carries r1 w2 b r'.
Proof.
  revert r wo. induction a as [|x a IH]; intros r wo Hc.
  - exists r, [], wo. by split_and!.
  - destruct Hc as (u & v & p & r1 & -> & Hr & Hu & Hc). destruct (IH _ _ Hc) as (r2 & w1 & w2 & -> & Ha & Hb).
    exists r2, (u ++ w1), w2. split; [by rewrite app_assoc|]. split; [|done]. by exists u, w1, p, r1.
Qed.

Lemma odd_land n : (Z.land n 1 =? 1) = Z.odd n.
Proof.
  change (Z.land n 1) with (Z.land n (Z.ones 1)). rewrite Z.land_ones by lia. change (2 ^ 1) with 2.
  rewrite (Zmod_odd n). by destruct (Z.odd n).
Qed.

(** Client, phase 2. *)
Lemma client_confirm_ok T ivv role sid n m nmux r'' wo rest e :
  tr_pending T = Some (ivv, role) ->
  carries (tr_rx T) wo ((replicate n 0 ++ [sid]) ++ replicate m 0 ++ [nmux]) r'' ->
  (n ≤ Z.to_nat (max_nop_packets (tx_key (tr_tx T))))%nat ->
  (m ≤ Z.to_nat (max_nop_packets (tx_key (tr_tx T))))%nat -> sid <> 0 -> nmux <> 0 ->
  io_rd (tr_io T) = Reader (wo ++ rest) e ->
  exists T', handshake_client_confirm T = (confirm_verdict (tx_key (tr_tx T)) role sid nmux, T') /\
    tr_pending T' = None /\ io_rd (tr_io T') = Reader rest e /\ tr_tx T' = tr_tx T /\
    (confirm_verdict (tx_key (tr_tx T)) role sid nmux = Ok sid ->
       tr_rx T' = rx_on_handshake_complete (rx_rekey r'' ivv) /\ tr_session_id T' = sid) /\
    (confirm_verdict (tx_key (tr_tx T)) role sid nmux <> Ok sid ->
       rx_handshaked (tr_rx T') = rx_handshaked r'' /\ tr_session_id T' = tr_session_id T).
Proof.
  intros Hp Hc Hn Hm Hsid Hnm Hin. unfold handshake_client_confirm. rewrite Hp. cbv zeta.
  destruct (carries_split _ _ _ _ _ Hc) as (r1 & w1 & w2 & -> & Hc1 & Hc2).
  unfold read_session_id.
  rewrite (read_session_id_ok n sid _ (set_pending T None) r1 w1 (w2 ++ rest) e);
    [|done|done|done|by rewrite app_assoc]. cbn beta iota.
  destruct (Z.eqb_spec sid 0); [done|].
  rewrite (read_session_id_ok m nmux _ _ r'' w2 rest e); [|done|done|done|done]. cbn beta iota.
  destruct (Z.eqb_spec nmux 0); [done|]. rewrite odd_land. unfold confirm_verdict. cbv zeta. cbn [set_rx set_pending tr_tx].
  destruct (_ && _); [by eexists; split_and!|].
  destruct (decide _) as [Hd|Hd].
  - rewrite Hd, Bool.eqb_reflx. cbn [negb]. by eexists; split_and!.
  - rewrite (proj2 (Bool.eqb_false_iff _ _)) by done. by eexists; split_and!.
Qed.

(** The canary and parity of a server of the same key decide nothing but the role. *)
Lemma verdict_same_key key low eff role sid : key_valid key -> is_u64 low ->
  confirm_verdict key role sid (make_nmux key low eff) = (if decide (eff = role) then Ok sid else Err RoleRefused).
Proof.
  intros Hv Hlow. destruct (make_nmux_ok key low eff Hv Hlow) as (Hhi & Hpos & Hpar).
  destruct Hv as [Ht _]. destruct (key_typed_fields _ Ht) as (Hkf & _).
  pose proof (canary_bounds key ltac:(lia)) as Hcb. rewrite odd_land in Hpar.
  unfold confirm_verdict. rewrite Hhi, Hpar. unfold u64. rewrite Z.mod_small by lia.
  rewrite Z.eqb_refl, andb_false_r. by destruct eff, role.
Qed.

(** A server whose key has another canary is found out. *)
Lemma verdict_mismatch key key' low eff role sid : key_valid key -> key_valid key' -> is_u64 low ->
  flag_canary key <> flag_canary key' -> confirm_verdict key role sid (make_nmux key' low eff) = Err FlagsMismatch.
Proof.
  intros Hv Hv' Hlow Hne. destruct (make_nmux_ok key' low eff Hv' Hlow) as (Hhi & _ & _).
  destruct Hv' as [Ht _]. destruct (key_typed_fields _ Ht) as (Hkf & _).
  pose proof (canary_bounds key' ltac:(lia)) as Hcb. pose proof (canary_magic key' ltac:(lia)) as Hmg.
  unfold confirm_verdict. rewrite Hhi. unfold u64. rewrite Z.mod_small by lia. rewrite Hmg, Z.eqb_refl.
  destruct (Z.eqb_spec (flag_canary key') (flag_canary key)); [congruence|]. done.
Qed.

Lemma read_flood budget T r' wire rest e :
  carries (tr_rx T) wire (replicate (S budget) 0) r' -> io_rd (tr_io T) = Reader (wire ++ rest) e ->
  read_session_id_loop budget T =
    (Err (HandshakeFailed "too many dummy packets"), set_rx T r' (Reader rest e)).
Proof.
  revert T wire. induction budget as [|budget IH]; intros T wire Hc Hio;
    cbn [replicate carries] in Hc; destruct Hc as (w1 & w2 & p & r1 & -> & Hr & Hu & Hc);
    cbn [read_session_id_loop]; unfold read; rewrite Hio, <- app_assoc, Hr; cbn [tr_rx set_rx]; rewrite Hu;
    unfold packet_of; rewrite Z.eqb_refl.
  - by destruct Hc as [-> ->].
  - by rewrite (IH _ w2).
Qed.
End HandshakeLemmas.

(** A sequence of messages, each given as the prefix and payload of
    [encrypt_into_prefixed], and their reader. *)
Fixpoint encrypt_msgs `{CryptoBackend} `{Base94Codec} {R} `{Rng R} (t : TxCore R) (out : bytes)
    (msgs : list (bytes * bytes)) : result Error unit * (TxCore R * bytes) :=
  match msgs with
  | [] => (Ok tt, (t, out))
  | (prefix, payload) :: msgs =>
      match encrypt_impl t out prefix payload with
      | (Ok _, (t, out)) => encrypt_msgs t out msgs
      | (Err e, s) => (Err e, s)
      end
  end.

Fixpoint read_msgs `{CryptoBackend} `{Base94Codec} (n : nat) (r : RxCore) (io : reader)
    : result Error (list bytes) * (RxCore * reader) :=
  match n with
  | O => (Ok [], (r, io))
  | S n =>
      match read_buf r io with
      | (Ok m, (r, io)) => let (res, s) := read_msgs n r io in (result_map (cons m) res, s)
      | (Err e, s) => (Err e, s)
      end
  end.

Definition msg_ok (m : bytes * bytes) : Prop :=
  wf_bytes (fst m ++ snd m) /\ (1 ≤ length (fst m ++ snd m) ≤ PPP_BUFFER_SIZE)%nat.

Lemma msgs_roundtrip `{CryptoLaws} `{Base94Laws} {R} `{RngLaws R} (t : TxCore R) r out msgs :
  in_sync t r -> Forall msg_ok msgs ->
  exists t' r' wire, encrypt_msgs t out msgs = (Ok tt, (t', out ++ wire)) /\ in_sync t' r' /\
    forall rest e, read_msgs (length msgs) r (Reader (wire ++ rest) e)
      = (Ok (map (fun m => fst m ++ snd m) msgs), (r', Reader rest e)).
Proof.
  intros Hs Hm. revert t r out Hs. induction Hm as [|[prefix payload] msgs [Hw Hl] Hm IH]; intros t r out Hs.
  { exists t, r, []. rewrite app_nil_r. by split_and!. }
  cbn [encrypt_msgs length read_msgs map fst snd] in *.
  destruct (encrypt_read t r out prefix payload Hs Hw Hl) as (t1 & r1 & w1 & -> & Hs1 & _ & _ & Hrd & _).
  destruct (IH t1 r1 (out ++ w1) Hs1) as (t2 & r2 & w2 & -> & Hs2 & Hrd2).
  exists t2, r2, (w1 ++ w2). rewrite <- app_assoc. split_and!; [done|done|].
  intros rest e. by rewrite <- app_assoc, Hrd, Hrd2.
Qed.

(** ** Keys that frame alike

    Before the handshake is over the codec reads nothing of a key but [kf], so two
    receivers whose ciphers are the same read the same packets. *)

(** The payload switches. *)
Definition switches (key : ObfuscationKey) : bool * bool * bool * bool :=
  (k_masked key, k_plaintext key, k_delta_encode key, k_shuffle_data key).

(** What two ends must share for their handshake frames to decode. *)
Definition same_frames (key key' : ObfuscationKey) : Prop :=
  k_kf key = k_kf key' /\ k_protocol key = k_protocol key' /\ k_protocol_key key = k_protocol_key key' /\
  k_transport key = k_transport key' /\ k_transport_key key = k_transport_key key' /\ max_nop_packets key = max_nop_packets key'.

Lemma same_frames_kf key key' : same_frames key key' -> k_kf key = k_kf key'.
Proof. by intros [? _]. Qed.
Lemma same_frames_nops key key' : same_frames key key' -> max_nop_packets key = max_nop_packets key'.
Proof. by intros (_ & _ & _ & _ & _ & ?). Qed.

(** The canary tells the switches. *)
Lemma switches_canary key key' : key_valid key -> key_valid key' -> switches key <> switches key' -> flag_canary key <> flag_canary key'.
Proof.
  intros [Ht _] [Ht' _] Hd. destruct (key_typed_fields _ Ht) as (Hk & _). destruct (key_typed_fields _ Ht') as (Hk' & _).
  rewrite !canary_value by lia. pose proof (Z.mod_pos_bound (k_kf key) 4096 ltac:(lia)). pose proof (Z.mod_pos_bound (k_kf key') 4096 ltac:(lia)).
  unfold switches in Hd. destruct (k_masked key), (k_plaintext key), (k_delta_encode key), (k_shuffle_data key),
    (k_masked key'), (k_plaintext key'), (k_delta_encode key'), (k_shuffle_data key'); simpl; try done; lia.
Qed.

(** A receiver with another key in its state. *)
Definition rx_as (key : ObfuscationKey) (r : RxCore) : RxCore :=
  Rx key (rx_b94 r) (rx_protocol r) (rx_transport r) (rx_handshaked r).

Lemma rx_as_as key key' r : rx_as key (rx_as key' r) = rx_as key r.
Proof. done. Qed.
Lemma rx_as_id key r : rx_key r = key -> rx_as key r = r.
Proof. intros <-. by destruct r. Qed.

Section Rekeyed.
Context `{CryptoBackend} `{Base94Codec}.

Lemma rx_new_rekeyed key key' : same_frames key key' -> rx_new key' = rx_as key' (rx_new key).
Proof. intros (E1 & E2 & E3 & E4 & E5 & _). unfold rx_as, rx_new. cbn. by rewrite E1, E2, E3, E4, E5. Qed.

Lemma read_buf_rekeyed key r io : k_kf (rx_key r) = k_kf key -> rx_handshaked r = false ->
  read_buf (rx_as key r) io = (let '(x, (r1, rd)) := read_buf r io in (x, (rx_as key r1, rd))) /\
  rx_key (fst (snd (read_buf r io))) = rx_key r /\ rx_handshaked (fst (snd (read_buf r io))) = false.
Proof.
  intros Ek Hp. unfold read_buf, read_body, base94_mode, effective_flags, rx_with, rx_as.
  cbn [rx_key rx_b94 rx_protocol rx_transport rx_handshaked]. rewrite Hp, <- Ek. cbn [negb orb].
  destruct (read_frame_into (rx_b94 r) io) as [[body|e] [b94 rd]]; [|done]. destruct (_ <=? _)%nat; [done|].
  destruct (parse_binary_header _ _ _ _) as [[[len kf]|e] p]; [|done]. cbn [fst snd].
  by destruct (apply (rx_transport r) _).
Qed.

Lemma carries_rekeyed key wire ids : forall r r', carries r wire ids r' -> k_kf (rx_key r) = k_kf key -> rx_handshaked r = false ->
  carries (rx_as key r) wire ids (rx_as key r') /\ rx_handshaked r' = false.
Proof.
  revert wire. induction ids as [|id ids IH]; intros wire r r'; cbn [carries]; [by intros [-> ->]|].
  intros (w1 & w2 & p & r1 & -> & Hr & Hu & Hc) Ek Hp.
  destruct (read_buf_rekeyed key r (Reader (w1 ++ []) None) Ek Hp) as (_ & Ek1 & Hp1). rewrite Hr in Ek1, Hp1. cbn [fst snd] in Ek1, Hp1.
  destruct (IH w2 r1 r' Hc) as [Hc' Hp']; [congruence|done|]. split; [|done]. exists w1, w2, p, (rx_as key r1). split_and!; try done.
  intros rest e. destruct (read_buf_rekeyed key r (Reader (w1 ++ rest) e) Ek Hp) as [-> _]. by rewrite Hr.
Qed.
End Rekeyed.

(** ** Concrete instances *)

#[local] Existing Instance Doc.codec.
#[local] Existing Instance Doc.laws.
#[local] Existing Instance Toy.backend.
#[local] Existing Instance Toy.toy_laws.

(** A key without noise, so that instances evaluate quickly. *)
Definition quiet_key : ObfuscationKey := Key 154543927 0 0 2 Aes128Cfb (lit "p") ChaCha20 (lit "t") true false true true.
Definition fresh (key : ObfuscationKey) (rng : tape) : Transmission tape :=
  with_rng (Duplex (Reader [] None) (Writer [] None)) key rng.

(** ** Properties *)

(** The handshake works end to end.  A client and a server built from the
    same valid key, with any generators, any requested role and any session id
    the server assigns: the client's send phase succeeds without reading; the
    server, fed those bytes followed by any 0-RTT data [req], succeeds with the
    effective role and leaves exactly [req] unread; the client's confirm phase,
    fed the server's bytes followed by any [rest], returns the server's session
    id when the role was granted, and [RoleRefused] otherwise.  Afterwards both
    directions are in step under the rekeyed ciphers, and both ends are in the
    data phase. *)
Lemma handshake_end_to_end `{CryptoLaws} `{Base94Laws} {R} `{RngLaws R} key (rngC rngS : R) role sid allow_bond :
  key_valid key -> is_u128 sid -> sid <> 0 ->
  let eff := effective_role role allow_bond in
  exists C1 wc, handshake_client_send (with_rng (Duplex (Reader [] None) (Writer [] None)) key rngC) role = (Ok tt, C1) /\
    io_wr (tr_io C1) = Writer wc None /\
    forall req e, exists S1 ws,
      handshake_server (with_rng (Duplex (Reader (wc ++ req) e) (Writer [] None)) key rngS) sid allow_bond = (Ok eff, S1) /\
      tr_io S1 = Duplex (Reader req e) (Writer ws None) /\
      in_sync (tr_tx C1) (tr_rx S1) /\ tx_handshaked (tr_tx S1) = true /\ tr_session_id S1 = sid /\
      forall rest e', exists C2,
        handshake_client_confirm (set_rx C1 (tr_rx C1) (Reader (ws ++ rest) e')) =
          (if decide (eff = role) then Ok sid else Err RoleRefused, C2) /\
        io_rd (tr_io C2) = Reader rest e' /\
        (eff = role -> in_sync (tr_tx S1) (tr_rx C2) /\ tr_tx C2 = tr_tx C1 /\ tr_session_id C2 = sid /\
                       tx_handshaked (tr_tx C2) = true).
Proof.
  intros Hv Hsid Hne eff.
  destruct (client_send_ok (with_rng (Duplex (Reader [] None) (Writer [] None)) key rngC) (rx_new key) role)
    as (C1 & r1 & wc & n & ivv & E1 & Hio & Hrx & Hpend & _ & Hkey & Hhs & Hcar & Hn & Hrole & Hivv & Hsync);
    [apply sync_new|done|done|]. cbn [with_rng tr_tx tx_new tx_key tr_rx tr_io io_wr io_rd wr_out app] in *.
  exists C1, wc. split; [done|]. split; [by rewrite Hio|]. intros req e.
  destruct (server_ok (with_rng (Duplex (Reader (wc ++ req) e) (Writer [] None)) key rngS) (rx_new key) wc n ivv r1 req e sid allow_bond)
    as (S1 & ws & n' & nmux & r2 & E2 & Hio2 & Hrx2 & Hid2 & Hhs2 & Hcar2 & Hn2 & (low & Hlow & ->) & Hsync2);
    [apply sync_new|done|done|done|done|done|done|done|done|].
  cbn [with_rng tr_tx tx_new tx_key tr_rx tr_io io_wr io_rd wr_out app] in *. rewrite Hrole in *. fold eff in E2, Hcar2. exists S1, ws. split; [done|]. split; [by rewrite Hio2|].
  split; [by rewrite Hrx2|]. split; [done|]. split; [done|]. intros rest e'.
  destruct (make_nmux_ok key low eff Hv Hlow) as (_ & Hpos & _).
  destruct (client_confirm_ok (set_rx C1 (tr_rx C1) (Reader (ws ++ rest) e')) ivv role sid n' 0 (make_nmux key low eff) r2 ws rest e' Hpend)
    as (C2 & E3 & _ & Hio3 & Htx3 & Hok & _); cbn [set_rx tr_rx tr_tx tr_io io_rd].
  { rewrite Hrx. exact Hcar2. }
  { by rewrite Hkey. } { lia. } { done. } { lia. } { done. }
  cbn [set_rx tr_tx] in E3, Htx3, Hok. rewrite Hkey in E3, Hok. 
  rewrite verdict_same_key in E3, Hok by done.
  exists C2. split; [exact E3|]. split; [done|]. intros Heff.
  rewrite decide_True in Hok by done. destruct (Hok eq_refl) as [Hrx3 Hid3]. rewrite Htx3, Hrx3. by split_and!.
Qed.

(** C7: on a direction in step, every sequence of messages of 1 to 65536 bytes
    (given as the mux prefix and payload of the encoder) is encoded without
    failure and read back from the stream in order, with nothing of the bytes
    that follow consumed, and the direction is in step again: in base94 and in
    binary framing, before and after the handshake, for every valid cipher
    pair and every random generator. *)
Theorem transmission_stream_roundtrip `{CryptoLaws} `{Base94Laws} {R} `{RngLaws R} (t : TxCore R) r out msgs :
  in_sync t r -> Forall msg_ok msgs ->
  exists t' r' wire, encrypt_msgs t out msgs = (Ok tt, (t', out ++ wire)) /\ in_sync t' r' /\
    forall rest e, read_msgs (length msgs) r (Reader (wire ++ rest) e)
      = (Ok (map (fun m => fst m ++ snd m) msgs), (r', Reader rest e)).
Proof. apply msgs_roundtrip. Qed.

Lemma transmission_stream_roundtrip_witness :
  exists t' wire, encrypt_msgs (tx_new quiet_key ([9; 9] : tape)) [] [([1], [2; 3]); ([], [4])] = (Ok tt, (t', [] ++ wire)) /\
    exists r', read_msgs 2 (rx_new quiet_key) (Reader (wire ++ [7]) None) = (Ok [[1; 2; 3]; [4]], (r', Reader [7] None)).
Proof.
  destruct (transmission_stream_roundtrip (tx_new quiet_key ([9; 9] : tape)) (rx_new quiet_key) [] [([1], [2; 3]); ([], [4])])
    as (t' & r' & wire & E & _ & H).
  - exact (sync_new quiet_key ([9; 9] : tape)).
  - apply Forall_cons; split; [|apply Forall_cons; split; [|by apply Forall_nil]];
      (split; [by apply wf_bytes_eval|split; apply Nat.leb_le; vm_compute; reflexivity]).
  - exists t', wire. split; [exact E|]. exists r'. apply H.
Defined.

(** C14: the in-memory entry points agree with the stream: the packet that
    [encrypt_into] appends for a message is decrypted to that message by
    [decrypt] and by [decrypt_in_place], which leave the receiver in the same
    state as reading it from a stream. *)
Theorem decrypt_agrees_with_stream `{CryptoLaws} `{Base94Laws} {R} `{RngLaws R} (t : TxCore R) r out msg :
  in_sync t r -> wf_bytes msg -> (1 ≤ length msg ≤ PPP_BUFFER_SIZE)%nat ->
  exists t' r' wire, encrypt_into t out msg = (Ok tt, (t', out ++ wire)) /\ in_sync t' r' /\
    decrypt r wire = (Ok msg, r') /\ decrypt_in_place r wire = (Ok msg, r') /\
    forall rest e, read_buf r (Reader (wire ++ rest) e) = (Ok msg, (r', Reader rest e)).
Proof.
  intros Hs Hw Hl. destruct (encrypt_read t r out [] msg Hs Hw Hl) as (t' & r' & wire & E & Hs' & _ & _ & Hr & Hd & Hi).
  by exists t', r', wire.
Qed.

Lemma decrypt_agrees_with_stream_witness :
  exists t' r' wire, encrypt_into (tx_new quiet_key ([9; 9] : tape)) [] [1; 2; 3] = (Ok tt, (t', [] ++ wire)) /\
    decrypt_in_place (rx_new quiet_key) wire = (Ok [1; 2; 3], r').
Proof.
  destruct (decrypt_agrees_with_stream (tx_new quiet_key ([9; 9] : tape)) (rx_new quiet_key) [] [1; 2; 3])
    as (t' & r' & wire & E & _ & _ & Hi & _).
  - exact (sync_new quiet_key ([9; 9] : tape)).
  - by apply wf_bytes_eval.
  - split; apply Nat.leb_le; vm_compute; reflexivity.
  - exists t', r', wire. split; [exact E|exact Hi].
Defined.

(** C9: drift in the payload switches is detected, by the client, within the handshake.
    Take a client and a server with fresh ends whose valid keys frame and encrypt
    alike before the handshake is over (the same [kf], ciphers and passwords, the same
    bound on noise) and differ in at least one of the four switches [masked],
    [plaintext], [delta_encode] and [shuffle_data], with any generators, role and
    session id.  The client's send phase succeeds; the server, fed those bytes, finds
    nothing wrong and completes; and the client, fed the server's answer, fails its
    confirm phase with [FlagsMismatch], whatever follows, stays in the handshake phase
    and assigns no session id.  Keys that differ in what frames (another [kf]) or in a
    password are not covered: their frames do not decode to the peer's packets. *)
Theorem config_mismatch_detected `{CryptoLaws} `{Base94Laws} {R} `{RngLaws R} key key' (rngC rngS : R) role sid allow_bond :
  key_valid key -> key_valid key' -> same_frames key key' -> switches key <> switches key' -> is_u128 sid -> sid <> 0 ->
  exists C1 wc, handshake_client_send (with_rng (Duplex (Reader [] None) (Writer [] None)) key rngC) role = (Ok tt, C1) /\
    io_wr (tr_io C1) = Writer wc None /\
    forall req e, exists S1 ws,
      handshake_server (with_rng (Duplex (Reader (wc ++ req) e) (Writer [] None)) key' rngS) sid allow_bond
        = (Ok (effective_role role allow_bond), S1) /\
      tr_io S1 = Duplex (Reader req e) (Writer ws None) /\
      forall rest e', exists C2,
        handshake_client_confirm (set_rx C1 (tr_rx C1) (Reader (ws ++ rest) e')) = (Err FlagsMismatch, C2) /\
        io_rd (tr_io C2) = Reader rest e' /\ tr_pending C2 = None /\ rx_handshaked (tr_rx C2) = false /\ tr_session_id C2 = 0.
Proof.
  intros Hv Hv' Hf Hd Hsid Hne.
  destruct (client_send_ok (with_rng (Duplex (Reader [] None) (Writer [] None)) key rngC) (rx_new key) role)
    as (C1 & r1 & wc & n & ivv & E1 & Hio & Hrx & Hpend & Hid & Hkey & Hhs & Hcar & Hn & Hrole & Hivv & Hsync);
    [apply sync_new|done|done|]. cbn [with_rng tr_tx tx_new tx_key tr_rx tr_io io_wr io_rd wr_out app tr_session_id] in *.
  exists C1, wc. split; [done|]. split; [by rewrite Hio|]. intros req e.
  destruct (carries_rekeyed key' _ _ _ _ Hcar) as [Hcar' _]; [by apply same_frames_kf|done|]. rewrite <- (rx_new_rekeyed key key' Hf) in Hcar'.
  destruct (server_ok (with_rng (Duplex (Reader (wc ++ req) e) (Writer [] None)) key' rngS) (rx_new key') wc n ivv (rx_as key' r1) req e sid allow_bond)
    as (S1 & ws & n' & nmux & r2 & E2 & Hio2 & _ & _ & _ & Hcar2 & Hn2 & (low & Hlow & ->) & _);
    [apply sync_new|done|done|done|by cbn; rewrite <- (same_frames_nops _ _ Hf)|done|done|done|done|].
  cbn [with_rng tr_tx tx_new tx_key tr_rx tr_io io_wr io_rd wr_out app] in *. rewrite Hrole in *. exists S1, ws.
  split; [done|]. split; [by rewrite Hio2|]. intros rest e'.
  destruct (carries_rekeyed key _ _ _ _ Hcar2) as [Hcar2' Hphase]; [by symmetry; apply same_frames_kf|done|].
  rewrite (rx_new_rekeyed key key' Hf), rx_as_as, rx_as_id in Hcar2' by done.
  destruct (make_nmux_ok key' low (effective_role role allow_bond) Hv' Hlow) as (_ & Hpos & _).
  destruct (client_confirm_ok (set_rx C1 (tr_rx C1) (Reader (ws ++ rest) e')) ivv role sid n' 0 (make_nmux key' low (effective_role role allow_bond))
    (rx_as key r2) ws rest e' Hpend) as (C2 & E3 & Hp2 & Hio3 & _ & _ & Hfail); cbn [set_rx tr_rx tr_tx tr_io io_rd].
  { rewrite Hrx. exact Hcar2'. }
  { by rewrite Hkey, (same_frames_nops _ _ Hf). } { lia. } { done. } { lia. } { done. }
  cbn [set_rx tr_tx tr_session_id] in E3, Hfail. rewrite Hkey, verdict_mismatch in E3, Hfail by (try done; by apply switches_canary).
  destruct (Hfail ltac:(done)) as [Hph Hs2]. exists C2. split_and!; [done|done|done| |by rewrite Hs2].
  rewrite Hph. exact Hphase.
Qed.

Lemma config_mismatch_detected_witness :
  let key' := Key 154543927 0 0 2 Aes128Cfb (lit "p") ChaCha20 (lit "t") false false true true in
  exists C1 wc S1 ws C2,
    handshake_client_send (fresh quiet_key [9; 9]) BondLink = (Ok tt, C1) /\
    handshake_server (with_rng (Duplex (Reader (wc ++ [7]) None) (Writer [] None)) key' ([5] : tape)) 7 true = (Ok BondLink, S1) /\
    handshake_client_confirm (set_rx C1 (tr_rx C1) (Reader (ws ++ [1]) None)) = (Err FlagsMismatch, C2).
Proof.
  intros key'.
  assert (key_valid quiet_key) as Hq by by split.
  assert (key_valid key') as Hk by by split.
  assert (same_frames quiet_key key') as Hf by (vm_compute; by split_and!).
  assert (switches quiet_key <> switches key') as Hd by discriminate.
  destruct (config_mismatch_detected quiet_key key' ([9; 9] : tape) ([5] : tape) BondLink 7 true Hq Hk Hf Hd ltac:(lia) ltac:(lia))
    as (C1 & wc & E1 & _ & Hs).
  destruct (Hs [7] None) as (S1 & ws & E2 & _ & Hc). destruct (Hc [1] None) as (C2 & E3 & _).
  exists C1, wc, S1, ws, C2. exact (conj E1 (conj E2 E3)).
Defined.

(** C13: a peer that keeps sending noise cannot hold the handshake: after the
    announced maximum number of dummy packets and one more, reading the
    session id fails with [HandshakeFailed], whatever follows. *)
Theorem dummy_flood_rejected `{CryptoLaws} `{Base94Laws} {R} `{RngLaws R} (T : Transmission R) r' wire rest e :
  carries (tr_rx T) wire (replicate (S (Z.to_nat (max_nop_packets (tx_key (tr_tx T))))) 0) r' ->
  io_rd (tr_io T) = Reader (wire ++ rest) e ->
  read_session_id T = (Err (HandshakeFailed "too many dummy packets"), set_rx T r' (Reader rest e)).
Proof. intros Hc Hio. unfold read_session_id. by eapply read_flood. Qed.

Lemma dummy_flood_rejected_witness :
  exists wire r', read_session_id
      (Trans (Duplex (Reader (wire ++ [1]) None) (Writer [] None)) (tx_new quiet_key ([] : tape)) (rx_new quiet_key) 0 None)
    = (Err (HandshakeFailed "too many dummy packets"),
       Trans (Duplex (Reader [1] None) (Writer [] None)) (tx_new quiet_key ([] : tape)) r' 0 None).
Proof.
  destruct (send_nops_ok 2 (fresh quiet_key []) (rx_new quiet_key)) as (T1 & r1 & w1 & _ & Hs1); [apply sync_new|done|].
  exists w1, r1.
  apply (dummy_flood_rejected
    (Trans (Duplex (Reader (w1 ++ [1]) None) (Writer [] None)) (tx_new quiet_key ([] : tape)) (rx_new quiet_key) 0 None) r1 w1 [1] None);
    [apply Hs1|done].
Defined.
