(* ===== verification/Session.v ===== *)
(** * The transport-free session codec ([crates/core/src/session.rs])

    [poll_frame] decodes frames incrementally out of a caller-owned buffer.
    The relation [awaits] states, for a receiver in step with its peer, which
    messages the buffered and the future bytes still amount to; every poll
    preserves it, however the bytes were split into reads. *)
From S2P Require Import Prelude Errors Env Base94Codec Base94 Cipher Binary KeyConfig Handshake Transmission.

Record Session (R : Type) := Sess {
  s_tx : TxCore R;
  s_rx : RxCore;
  s_session_id : Z;
  s_pending_binary : option (nat * Z);
  s_consumed : nat
}.
Arguments Sess {R}.
Arguments s_tx {R}.
Arguments s_rx {R}.
Arguments s_session_id {R}.
Arguments s_pending_binary {R}.
Arguments s_consumed {R}.

Record SessionTx (R : Type) := STx { stx_core : TxCore R }.
Arguments STx {R}.
Arguments stx_core {R}.

Record SessionRx := SRx { srx_core : RxCore; srx_pending : option (nat * Z); srx_consumed : nat }.

Section SessionOps.
Context `{CryptoBackend} `{Base94Codec}.

(** [poll_frame_impl]: the result, the new state and the caller's buffer (binary
    framing drains the header off it and decrypts the body in place). *)
Definition poll_frame_impl (rx : RxCore) (pending_binary : option (nat * Z)) (consumed : nat) (buf : bytes)
    : result Error (option bytes) * (SessionRx * bytes) :=
  let key := rx_key rx in
  if base94_mode key (rx_handshaked rx) then
    match peek_frame_len (rx_b94 rx) buf with
    | Err e => (Err e, (SRx rx pending_binary consumed, buf))
    | Ok None => (Ok None, (SRx rx pending_binary consumed, buf))
    | Ok (Some total) =>
        if (length buf <? total)%nat then (Ok None, (SRx rx pending_binary consumed, buf))
        else
          match decode_packet_into (rx_b94 rx) (take total buf) with
          | (Err e, b94) => (Err e, (SRx (rx_with rx b94 (rx_protocol rx, rx_transport rx)) pending_binary consumed, buf))
          | (Ok scratch_body, b94) =>
              match decrypt_tail key (rx_protocol rx) (rx_transport rx) (rx_handshaked rx) scratch_body with
              | (Err e, ps) => (Err e, (SRx (rx_with rx b94 ps) pending_binary consumed, buf))
              | (Ok msg, ps) => (Ok (Some msg), (SRx (rx_with rx b94 ps) pending_binary total, buf))
              end
          end
    end
  else
    let body (rx : RxCore) (len : nat) (header_kf : Z) (buf : bytes) :=
      if (length buf <? len)%nat then (Ok None, (SRx rx (Some (len, header_kf)) consumed, buf))
      else
        let flags := effective_flags key (rx_handshaked rx) in
        let data := payload_deobfuscate (take len buf) flags header_kf (k_kf key) in
        let (data, t) := apply (rx_transport rx) data in
        (Ok (Some data), (SRx (rx_with rx (rx_b94 rx) (rx_protocol rx, t)) None len, data ++ drop len buf)) in
    match pending_binary with
    | Some (len, header_kf) => body rx len header_kf buf
    | None =>
        if (length buf <? HEADER_SIZE)%nat then (Ok None, (SRx rx None consumed, buf))
        else
          match parse_binary_header (k_kf key) (rx_protocol rx) (take HEADER_SIZE buf) None with
          | (Err e, p) => (Err e, (SRx (rx_with rx (rx_b94 rx) (p, rx_transport rx)) None consumed, buf))
          | (Ok (len, header_kf), p) =>
              body (rx_with rx (rx_b94 rx) (p, rx_transport rx)) len header_kf (drop HEADER_SIZE buf)
          end
    end.

(** [SessionRx::poll_frame] and [SessionRx::take_consumed]. *)
Definition poll_frame (s : SessionRx) (buf : bytes) := poll_frame_impl (srx_core s) (srx_pending s) (srx_consumed s) buf.
Definition take_consumed (s : SessionRx) : nat * SessionRx :=
  (srx_consumed s, SRx (srx_core s) (srx_pending s) 0).
Definition is_frame_pending (s : SessionRx) : bool := bool_decide (is_Some (srx_pending s)).

(** ** Sessions *)

Definition from_cores {R} (tx : TxCore R) (rx : RxCore) (sid : Z) : Session R := Sess tx rx sid None 0.

Definition into_session {R} (T : Transmission R) : Session R * duplex :=
  (from_cores (tr_tx T) (tr_rx T) (tr_session_id T), tr_io T).

Definition split {R} (s : Session R) : SessionTx R * SessionRx :=
  (STx (s_tx s), SRx (s_rx s) (s_pending_binary s) (s_consumed s)).

(** [Session::poll_frame] works on the same fields. *)
Definition session_poll_frame {R} (s : Session R) (buf : bytes)
    : result Error (option bytes) * (Session R * bytes) :=
  let '(res, (rx, buf)) := poll_frame_impl (s_rx s) (s_pending_binary s) (s_consumed s) buf in
  (res, (Sess (s_tx s) (srx_core rx) (s_session_id s) (srx_pending rx) (srx_consumed rx), buf)).

Definition session_take_consumed {R} (s : Session R) : nat * Session R :=
  (s_consumed s, Sess (s_tx s) (s_rx s) (s_session_id s) (s_pending_binary s) 0).

Definition session_encrypt_into_prefixed {R} `{Rng R} (s : Session R) (out prefix payload : bytes)
    : result Error unit * (Session R * bytes) :=
  let '(res, (tx, out)) := encrypt_into_prefixed (s_tx s) out prefix payload in
  (res, (Sess tx (s_rx s) (s_session_id s) (s_pending_binary s) (s_consumed s), out)).

Definition stx_encrypt_into_prefixed {R} `{Rng R} (s : SessionTx R) (out prefix payload : bytes)
    : result Error unit * (SessionTx R * bytes) :=
  let '(res, (tx, out)) := encrypt_into_prefixed (stx_core s) out prefix payload in (res, (STx tx, out)).

Definition stx_encrypt_into {R} `{Rng R} (s : SessionTx R) (out plaintext : bytes)
    : result Error unit * (SessionTx R * bytes) :=
  let '(res, (tx, out)) := encrypt_into (stx_core s) out plaintext in (res, (STx tx, out)).
End SessionOps.

(** ** What a buffer still amounts to *)

Section Awaits.
Context `{CryptoLaws} `{Base94Laws}.

(** [w] is the concatenation of the frames of [ms]. *)
Fixpoint stream (r : RxCore) (w : bytes) (ms : list bytes) (r' : RxCore) : Prop :=
  match ms with
  | [] => w = [] /\ r' = r
  | m :: ms => exists f w2 r1, w = f ++ w2 /\ frame_of r f m r1 /\ stream r1 w2 ms r'
  end.

(** The receiver [s], holding [buf] and about to receive [fut], is going to
    deliver exactly [ms] and end in state [r']. *)
Inductive awaits : SessionRx -> bytes -> bytes -> list bytes -> RxCore -> Prop :=
| awaits_frames r buf fut ms r' :
    stream r (buf ++ fut) ms r' -> awaits (SRx r None 0) buf fut ms r'
| awaits_body r body w2 buf fut m ms r' len hkf tr :
    base94_mode (rx_key r) (rx_handshaked r) = false ->
    buf ++ fut = body ++ w2 -> length body = len -> (1 ≤ len ≤ PPP_BUFFER_SIZE)%nat -> length m = len ->
    apply (rx_transport r) (payload_deobfuscate body (effective_flags (rx_key r) (rx_handshaked r)) hkf (k_kf (rx_key r)))
      = (m, tr) ->
    stream (rx_with r (rx_b94 r) (rx_protocol r, tr)) w2 ms r' ->
    awaits (SRx r (Some (len, hkf)) 0) buf fut (m :: ms) r'.

Lemma prefix_cases {A} (a b c d : list A) : a ++ b = c ++ d ->
  ((length c ≤ length a)%nat -> exists x, a = c ++ x /\ x ++ b = d) /\
  ((length a < length c)%nat -> exists x, c = a ++ x /\ x <> [] /\ b = x ++ d).
Proof.
  intros E. split; intros Hl.
  - exists (drop (length c) a). assert (take (length c) a = c) as Ht.
    { apply (f_equal (take (length c))) in E. by rewrite take_app_le, take_app_length in E by done. }
    rewrite <- Ht at 1. rewrite take_drop. split; [done|].
    apply (f_equal (drop (length c))) in E. by rewrite drop_app_le, drop_app_length in E by done.
  - exists (drop (length a) c). assert (take (length a) c = a) as Ht.
    { apply (f_equal (take (length a))) in E. rewrite take_app_length, take_app_le in E by lia. done. }
    split; [by rewrite <- Ht at 1; rewrite take_drop|]. split.
    + intros E'. apply (f_equal length) in E'. rewrite length_drop in E'. simpl in E'. lia.
    + apply (f_equal (drop (length a))) in E. rewrite drop_app_length, drop_app_le in E by lia. done.
Qed.

(** The reassembly bound of the tunnel and link drivers. *)
Definition frame_cap : nat := (BASE94_MAX_FRAME + 64)%nat.

(** A poll either delivers the next message or needs more bytes. *)
Definition poll_outcome (s : SessionRx) (buf fut : bytes) (ms : list bytes) (r' : RxCore) : Prop :=
  (exists s' buf', poll_frame s buf = (Ok None, (s', buf')) /\ awaits s' buf' fut ms r' /\
     (length buf' ≤ frame_cap)%nat /\ (fut = [] -> ms = [] /\ buf' = [] /\ s' = SRx r' None 0)) \/
  (exists m ms' s' buf', ms = m :: ms' /\ m <> [] /\ poll_frame s buf = (Ok (Some m), (s', buf')) /\
     awaits (snd (take_consumed s')) (drop (fst (take_consumed s')) buf') fut ms' r').

Lemma poll_base94 r buf fut m ms hd bin ps w2 r' :
  base94_mode (rx_key r) (rx_handshaked r) = true ->
  keyed (k_kf (rx_key r)) (rx_b94 r) -> wf_bytes bin -> m <> [] ->
  header_ok (k_kf (rx_key r)) (rx_first (rx_b94 r)) (base94_encoded_len bin (k_kf (rx_key r))) hd ->
  decrypt_tail (rx_key r) (rx_protocol r) (rx_transport r) (rx_handshaked r) bin = (Ok m, ps) ->
  buf ++ fut = (hd ++ base94_encode bin (k_kf (rx_key r))) ++ w2 ->
  stream (rx_with r (set_rx_first false (rx_b94 r)) ps) w2 ms r' ->
  poll_outcome (SRx r None 0) buf fut (m :: ms) r'.
Proof.
  intros Hm Hk Hw Hne Hh Hd E Hs. unfold poll_outcome, poll_frame, poll_frame_impl. cbn [srx_core srx_pending srx_consumed].
  rewrite Hm. set (kf := k_kf (rx_key r)) in *. set (f := hd ++ base94_encode bin kf) in *.
  destruct (rx_header_take kf (rx_b94 r) _ hd (base94_encode bin kf) Hh) as (Hl & _ & _).
  assert (length f = rx_header_len (rx_b94 r) + base94_encoded_len bin kf)%nat as Hf.
  { unfold f. by rewrite length_app, base94_encode_len, Hl. }
  destruct Hh as (Hlh & Hprint & Hdec). pose proof (Hdec _ Hk eq_refl) as Hdec'.
  pose proof (decode_rx_header_bound _ _ _ Hdec') as HL.
  assert (rx_header_len (rx_b94 r) ≤ 7)%nat as Hh7 by (unfold rx_header_len, HEADER_EXTENDED, HEADER_SIMPLE; destruct (rx_first _); lia).
  destruct (prefix_cases _ _ _ _ E) as [Hge Hlt].
  assert (fut = [] -> length f ≤ length buf)%nat as Hfull.
  { intros ->. apply (f_equal length) in E. rewrite app_nil_r, length_app in E. lia. }
  assert (peek_frame_len (rx_b94 r) buf =
    if (length buf <? rx_header_len (rx_b94 r))%nat then Ok None else Ok (Some (length f))) as Hpeek.
  { unfold peek_frame_len. destruct (Nat.ltb_spec (length buf) (rx_header_len (rx_b94 r))) as [|Hlb]; [done|].
    assert (take (rx_header_len (rx_b94 r)) buf = hd) as ->.
    { apply (f_equal (take (length hd))) in E. unfold f in E. rewrite <- !app_assoc, take_app_length in E.
      rewrite take_app_le in E by lia. by rewrite <- Hl. }
    rewrite Hdec'. by rewrite Hf. }
  rewrite Hpeek. destruct (Nat.ltb_spec (length buf) (rx_header_len (rx_b94 r))) as [Hs1|Hs1];
    [|destruct (Nat.ltb_spec (length buf) (length f)) as [Hs2|Hs2]].
  1,2: left; exists (SRx r None 0), buf; split; [done|]; split; [|split; [unfold frame_cap; lia|intros Hfut; specialize (Hfull Hfut); lia]].
  1,2: constructor; exists f, w2, (rx_with r (set_rx_first false (rx_b94 r)) ps); split; [done|]; split; [|done].
  1,2: eapply (base94_frame r _ _ _ hd bin ps); done.
  right. destruct (Hge Hs2) as (x & -> & Hx). rewrite take_app_length.
  pose proof (decode_packet_ok _ (rx_b94 r) hd bin Hk Hw (conj Hlh (conj Hprint Hdec))) as Hdp.
  unfold decode_packet in Hdp. fold f kf in Hdp. rewrite Hdp, Hd.
  eexists m, ms, _, _. split; [done|]. split; [done|]. split; [done|]. cbn [take_consumed snd fst srx_consumed srx_core srx_pending].
  rewrite drop_app_length. constructor. by rewrite Hx.
Qed.

(** The body phase of binary framing. *)
Lemma poll_body r body w2 buf fut m ms r' len hkf tr :
  base94_mode (rx_key r) (rx_handshaked r) = false ->
  buf ++ fut = body ++ w2 -> length body = len -> (1 ≤ len ≤ PPP_BUFFER_SIZE)%nat -> length m = len ->
  apply (rx_transport r) (payload_deobfuscate body (effective_flags (rx_key r) (rx_handshaked r)) hkf (k_kf (rx_key r)))
    = (m, tr) ->
  stream (rx_with r (rx_b94 r) (rx_protocol r, tr)) w2 ms r' ->
  poll_outcome (SRx r (Some (len, hkf)) 0) buf fut (m :: ms) r'.
Proof.
  intros Hm E Hl Hb Hlm Ha Hs. unfold poll_outcome, poll_frame, poll_frame_impl. cbn [srx_core srx_pending srx_consumed].
  rewrite Hm. cbv zeta beta. destruct (prefix_cases _ _ _ _ E) as [Hge Hlt].
  destruct (Nat.ltb_spec (length buf) len) as [Hs1|Hs1].
  - left. eexists _, buf. split; [done|]. split; [by eapply (awaits_body r body w2)|]. split.
    { unfold frame_cap, BASE94_MAX_FRAME. lia. }
    intros ->. apply (f_equal length) in E. rewrite app_nil_r, length_app in E. lia.
  - right. rewrite Hl in Hge. destruct (Hge Hs1) as (x & -> & Hx). rewrite take_app_length', drop_app_length' by done. rewrite Ha.
    eexists m, ms, _, _. split; [done|]. split; [intros ->; simpl in *; lia|]. split; [done|].
    cbn [take_consumed snd fst srx_consumed srx_core srx_pending].
    rewrite drop_app_length' by done. constructor. by rewrite Hx.
Qed.

Lemma awaits_poll s buf fut ms r' : awaits s buf fut ms r' -> poll_outcome s buf fut ms r'.
Proof.
  intros [r b fu ms' r'' Hs|r body w2 b fu m ms' r'' len hkf tr Hm E Hl Hb Hlm Ha Hs]; [|by eapply poll_body].
  destruct ms' as [|m ms'].
  { destruct Hs as [E ->]. apply app_nil in E as [-> ->]. left. exists (SRx r None 0), [].
    unfold poll_frame, poll_frame_impl. cbn [srx_core srx_pending srx_consumed].
    assert ((length (@nil Z) <? rx_header_len (rx_b94 r))%nat = true) as Hz by (unfold rx_header_len; by destruct (rx_first _)).
    split; [|split; [by constructor|split; [simpl; lia|done]]].
    destruct (base94_mode _ _); [unfold peek_frame_len; by rewrite Hz|done]. }
  destruct Hs as (f & w2 & r1 & E & Hf & Hs).
  destruct Hf as [hd bin ps Hm Hk Hw Hh -> Hd Hne ->|h body hkf p tr Hm Hl -> Hlb Hne Hp Ha ->].
  { by eapply poll_base94. }
  pose proof (Hp None (or_introl eq_refl)) as Hpn. pose proof (parse_binary_header_bound _ _ _ _ _ _ _ Hpn) as Hbody.
  rewrite <- app_assoc in E. destruct (prefix_cases _ _ _ _ E) as [Hge Hlt].
  unfold poll_outcome, poll_frame. cbn [srx_core srx_pending srx_consumed].
  unfold poll_frame_impl at 1 2. rewrite Hm. cbv zeta.
  destruct (Nat.ltb_spec (length b) HEADER_SIZE) as [Hs1|Hs1].
  - left. exists (SRx r None 0), b. split; [done|]. split; [|split].
    + constructor. exists (h ++ body), w2, (rx_with r (rx_b94 r) (p, tr)). rewrite <- app_assoc. split; [done|].
      split; [|done]. by eapply (binary_frame r _ _ _ h body hkf p tr).
    + unfold frame_cap, HEADER_SIZE in *. lia.
    + intros ->. apply (f_equal length) in E. rewrite app_nil_r, !length_app in E. lia.
  - rewrite Hl in Hge. destruct (Hge Hs1) as (x & -> & Hx). rewrite take_app_length', drop_app_length' by done. rewrite Hpn.
    pose proof (poll_body (rx_with r (rx_b94 r) (p, rx_transport r)) body w2 x fu m ms' r'' (length body) hkf tr Hm Hx eq_refl Hbody (eq_sym Hlb) Ha Hs) as Hpb.
    unfold poll_outcome, poll_frame, poll_frame_impl in Hpb. cbn [srx_core srx_pending srx_consumed rx_with rx_key rx_handshaked] in Hpb.
    rewrite Hm in Hpb. exact Hpb.
Qed.

Lemma stream_app r w1 ms1 r1 w2 ms2 r2 :
  stream r w1 ms1 r1 -> stream r1 w2 ms2 r2 -> stream r (w1 ++ w2) (ms1 ++ ms2) r2.
Proof.
  revert r w1. induction ms1 as [|m ms1 IH]; intros r w1; cbn [stream app].
  - intros [-> ->]. done.
  - intros (f & w & r' & -> & Hf & Hs) Hs2. exists f, (w ++ w2), r'. rewrite app_assoc. eauto.
Qed.

Lemma awaits_extend s buf c fut ms r' : awaits s buf (c ++ fut) ms r' -> awaits s (buf ++ c) fut ms r'.
Proof.
  intros Ha. inversion Ha as [? ? ? ? ? Hs|? body w2 ? ? ? ? ? len hkf tr Hm E Hl Hb Hlm Hap Hs]; subst.
  - constructor. by rewrite <- app_assoc.
  - rewrite app_assoc in E. eapply awaits_body; [exact Hm|exact E|reflexivity|exact Hb|exact Hlm|exact Hap|exact Hs].
Qed.

(** The sender goes on: what it sends next is awaited too. *)
Lemma awaits_write s buf fut ms r' o ms' r'' :
  awaits s buf fut ms r' -> stream r' o ms' r'' -> awaits s buf (fut ++ o) (ms ++ ms') r''.
Proof.
  intros Ha Ho. inversion Ha as [? ? ? ? ? Hs|? body w2 ? ? ? ? ? len hkf tr Hm E Hl Hb Hlm Hap Hs]; subst.
  - constructor. rewrite app_assoc. by eapply stream_app.
  - rewrite <- app_comm_cons. eapply (awaits_body _ body (w2 ++ o)); [exact Hm| |reflexivity|exact Hb|exact Hlm|exact Hap|by eapply stream_app].
    rewrite app_assoc, E. by rewrite <- app_assoc.
Qed.
End Awaits.

(** A sender in step produces a stream the receiver awaits. *)
Lemma encrypt_stream `{CryptoLaws} `{Base94Laws} {R} `{RngLaws R} (t : TxCore R) r out msgs :
  in_sync t r -> Forall msg_ok msgs ->
  exists t' r' wire, encrypt_msgs t out msgs = (Ok tt, (t', out ++ wire)) /\ in_sync t' r' /\
    stream r wire (map (fun m => fst m ++ snd m) msgs) r'.
Proof.
  intros Hs Hm. revert t r out Hs. induction Hm as [|[prefix payload] msgs [Hw Hl] Hm IH]; intros t r out Hs.
  { exists t, r, []. rewrite app_nil_r. by split_and!. }
  cbn [encrypt_msgs map fst snd] in *.
  destruct (encrypt_frame t r out prefix payload Hs Hw Hl) as (t1 & r1 & w1 & -> & Hs1 & _ & _ & Hf).
  destruct (IH t1 r1 (out ++ w1) Hs1) as (t2 & r2 & w2 & -> & Hs2 & Hst).
  exists t2, r2, (w1 ++ w2). rewrite <- app_assoc. split; [done|]. split; [done|]. by exists w1, w2, r1.
Qed.

(** ** Any input at all *)

Section AnyInput.
Context `{CryptoLaws} `{Base94Laws}.

Definition rx_ok (r : RxCore) : Prop := cipher_ok (rx_protocol r) /\ cipher_ok (rx_transport r).

(** What every poll maintains, whatever bytes arrive. *)
Definition srx_ok (s : SessionRx) : Prop :=
  rx_ok (srx_core s) /\
  match srx_pending s with Some (len, _) => (1 ≤ len ≤ PPP_BUFFER_SIZE)%nat | None => True end.

Lemma rx_new_ok key : srx_ok (SRx (rx_new key) None 0).
Proof. split; [|done]. split; apply for_decryption_ok, (proj1 (derive_ok _ _ _ _)). Qed.

Lemma parse_binary_header_keeps kf c h tot res c' :
  cipher_ok c -> wf_bytes h -> length h = HEADER_SIZE -> parse_binary_header kf c h tot = (res, c') -> cipher_ok c'.
Proof.
  intros Hc Hw Hl. unfold parse_binary_header.
  destruct (header_decrypt_cases kf c h Hc Hw Hl) as (n & hkf & c1 & -> & Hc1 & _). cbn [default].
  destruct (negb _); [by intros [= _ <-]|]. destruct tot; [destruct (negb _)|]; by intros [= _ <-].
Qed.

Lemma decrypt_tail_keeps key p t hs buf res p' t' :
  cipher_ok p -> cipher_ok t -> wf_bytes buf -> decrypt_tail key p t hs buf = (res, (p', t')) ->
  cipher_ok p' /\ cipher_ok t' /\
  (forall m, res = Ok m -> wf_bytes m /\ (length m + HEADER_SIZE)%nat = length buf /\ (1 ≤ length m ≤ PPP_BUFFER_SIZE)%nat).
Proof.
  intros Hp Ht Hw. unfold decrypt_tail. destruct (Nat.leb_spec (length buf) HEADER_SIZE); [by intros [= <- <- <-]|].
  assert (length (take HEADER_SIZE buf) = HEADER_SIZE) as Hl by (rewrite length_take; lia).
  destruct (parse_binary_header _ _ _ _) as [[[n hkf]|e] p1] eqn:E;
    pose proof (parse_binary_header_keeps _ _ _ _ _ _ Hp (wf_bytes_take _ _ Hw) Hl E) as Hp1; [|by intros [= <- <- <-]].
  pose proof (parse_binary_header_bound _ _ _ _ _ _ _ E) as Hn.
  assert ((n + HEADER_SIZE)%nat = length buf) as Hlen.
  { unfold parse_binary_header in E. destruct (header_decrypt _ _ _) as [[[n' ?]|] ?]; [|done].
    destruct (negb _); [done|]. destruct (Nat.eqb_spec (n' + HEADER_SIZE) (length buf)); [|done]. by injection E as <- _ _. }
  destruct (payload_deobfuscate_wf (drop HEADER_SIZE buf) (effective_flags key hs) hkf (k_kf key) (wf_bytes_drop _ _ Hw)) as [Hb Hbl].
  destruct (apply_ok t _ Ht Hb) as (Ht' & Hw' & Hl' & _). destruct (apply t _) as [m t1]. cbn [fst snd] in *.
  intros [= <- <- <-]. split_and!; try done. intros m' [= <-]. rewrite length_drop in Hbl. split_and!; (done || lia).
Qed.

(** The outcome of a poll: never an empty message, always a bounded buffer, and a
    message always costs bytes. *)
Definition poll_sane (buf : bytes) (out : result Error (option bytes) * (SessionRx * bytes)) : Prop :=
  let '(res, (s', buf')) := out in
  srx_ok s' /\ wf_bytes buf' /\ (length buf' ≤ length buf)%nat /\
  match res with
  | Ok (Some m) => wf_bytes m /\ (1 ≤ length m ≤ PPP_BUFFER_SIZE)%nat /\
      (length m + length (drop (srx_consumed s') buf') ≤ length buf)%nat
  | Ok None => (length buf' ≤ frame_cap)%nat
  | Err _ => True
  end.

Lemma poll_base94_sane r pend cons buf :
  srx_ok (SRx r pend cons) -> wf_bytes buf -> base94_mode (rx_key r) (rx_handshaked r) = true ->
  poll_sane buf (poll_frame (SRx r pend cons) buf).
Proof.
  intros [[Hp Ht] Hpd] Hw Hm. unfold poll_frame, poll_frame_impl. cbn [srx_core srx_pending srx_consumed]. rewrite Hm.
  assert (rx_header_len (rx_b94 r) ≤ 7)%nat as Hh by (unfold rx_header_len, HEADER_EXTENDED, HEADER_SIMPLE; destruct (rx_first _); lia).
  unfold peek_frame_len. destruct (Nat.ltb_spec (length buf) (rx_header_len (rx_b94 r))) as [|Hge].
  { split_and!; try done. unfold frame_cap. lia. }
  destruct (decode_rx_header _ _) as [L|e] eqn:Eh; [|by split_and!].
  pose proof (decode_rx_header_bound _ _ _ Eh) as HL. set (total := (_ + L)%nat).
  destruct (Nat.ltb_spec (length buf) total) as [|Hge'].
  { split_and!; try done. unfold frame_cap. lia. }
  destruct (decode_packet_into _ _) as [[b|e] b94] eqn:Ed; [|by split_and!].
  assert (length (take total buf) = total) as Hlt by (rewrite length_take; lia).
  assert (wf_bytes b /\ (length b ≤ L)%nat) as [Hwb Hlb].
  { unfold decode_packet_into in Ed. rewrite Hlt in Ed. destruct (Nat.ltb_spec total (rx_header_len (rx_b94 r))); [done|].
    destruct (decode_rx_header _ (take _ (take total buf))) as [L'|]; [|done].
    destruct (Nat.eqb_spec (L' + rx_header_len (rx_b94 r)) total); [|done]. cbn [negb] in Ed.
    destruct (base94_decode _ _) as [b'|] eqn:Eb; [|done]. injection Ed as <- _. split; [by eapply base94_decode_wf|].
    pose proof (base94_decode_len _ _ _ Eb) as Hb. rewrite length_drop, Hlt in Hb. unfold total in Hb. lia. }
  destruct (decrypt_tail _ _ _ _ b) as [res [p1 t1]] eqn:Et.
  destruct (decrypt_tail_keeps _ _ _ _ _ _ _ _ Hp Ht Hwb Et) as (Hp1 & Ht1 & Hres).
  destruct res as [m|e]; [|by split_and!]. destruct (Hres m eq_refl) as (Hwm & Hlm & Hbm).
  cbn [poll_sane srx_consumed]. split_and!; try done; [lia|lia|]. rewrite length_drop. unfold total, HEADER_SIZE in *. lia.
Qed.

Lemma poll_body_sane r cons buf len hkf :
  rx_ok r -> (1 ≤ len ≤ PPP_BUFFER_SIZE)%nat -> wf_bytes buf -> base94_mode (rx_key r) (rx_handshaked r) = false ->
  poll_sane buf (poll_frame (SRx r (Some (len, hkf)) cons) buf).
Proof.
  intros [Hp Ht] Hlen Hw Hm. unfold poll_frame, poll_frame_impl. cbn [srx_core srx_pending srx_consumed]. rewrite Hm. cbv zeta beta.
  destruct (Nat.ltb_spec (length buf) len) as [|Hge].
  { split_and!; try done. unfold frame_cap, BASE94_MAX_FRAME. lia. }
  destruct (payload_deobfuscate_wf (take len buf) (effective_flags (rx_key r) (rx_handshaked r)) hkf (k_kf (rx_key r)) (wf_bytes_take _ _ Hw)) as [Hb Hbl].
  destruct (apply_ok _ _ Ht Hb) as (Ht' & Hw' & Hl' & _). destruct (apply _ _) as [m t1]. cbn [fst snd] in *.
  rewrite Hbl, length_take, Nat.min_l in Hl' by done. cbn [poll_sane srx_consumed].
  split_and!; try done; [by apply wf_bytes_app_2, wf_bytes_drop|rewrite length_app, length_drop; lia|lia|lia|].
  rewrite <- Hl', drop_app_length, length_drop. lia.
Qed.

Lemma poll_frame_sane s buf : srx_ok s -> wf_bytes buf -> poll_sane buf (poll_frame s buf).
Proof.
  destruct s as [r pend cons]. intros [Hr Hpd] Hw. cbn [srx_core srx_pending] in *.
  destruct (base94_mode (rx_key r) (rx_handshaked r)) eqn:Hm; [by apply poll_base94_sane|].
  destruct pend as [[len hkf]|]; [by apply poll_body_sane|].
  unfold poll_frame, poll_frame_impl. cbn [srx_core srx_pending srx_consumed]. rewrite Hm. cbv zeta.
  destruct (Nat.ltb_spec (length buf) HEADER_SIZE).
  { split_and!; try done. unfold frame_cap, HEADER_SIZE in *. lia. }
  assert (length (take HEADER_SIZE buf) = HEADER_SIZE) as Hl by (rewrite length_take; lia). destruct Hr as [Hp Ht].
  destruct (parse_binary_header _ _ _ _) as [[[n hkf]|e] p1] eqn:E;
    pose proof (parse_binary_header_keeps _ _ _ _ _ _ Hp (wf_bytes_take _ _ Hw) Hl E) as Hp1; [|by split_and!].
  pose proof (parse_binary_header_bound _ _ _ _ _ _ _ E) as Hn.
  pose proof (poll_body_sane (rx_with r (rx_b94 r) (p1, rx_transport r)) cons (drop HEADER_SIZE buf) n hkf (conj Hp1 Ht) Hn (wf_bytes_drop _ _ Hw) Hm) as Hb.
  unfold poll_frame, poll_frame_impl in Hb. cbn [srx_core srx_pending srx_consumed rx_with rx_key rx_handshaked] in Hb.
  rewrite Hm in Hb. cbv zeta in Hb.
  match goal with |- poll_sane _ ?x => match type of Hb with poll_sane _ ?y => change x with y; destruct y as [res [s' b']] end end.
  destruct Hb as (K1 & K2 & K3 & K4).
  rewrite length_drop in K3. split_and!; [done|done|lia|]. destruct res as [[m|]|]; try done.
  rewrite !length_drop in K4. rewrite length_drop. destruct K4 as (? & ? & ?). split_and!; (done || lia).
Qed.
End AnyInput.

#[local] Existing Instance Doc.codec.
#[local] Existing Instance Doc.laws.
#[local] Existing Instance Toy.backend.
#[local] Existing Instance Toy.toy_laws.

(** ** Properties *)

(** C8: incremental decoding is exact: for a receiver that holds part of its
    peer's byte stream, however the stream was cut, a poll either asks for more
    bytes, leaving at most one frame buffered (and, when no bytes are to come,
    only because every message was delivered and the buffer is empty), or
    delivers precisely the next message and, once the consumed bytes are
    drained, awaits the others. *)
Theorem poll_frame_exact `{CryptoLaws} `{Base94Laws} s buf fut ms r' :
  awaits s buf fut ms r' ->
  (exists s' buf', poll_frame s buf = (Ok None, (s', buf')) /\ awaits s' buf' fut ms r' /\
     (length buf' ≤ frame_cap)%nat /\ (fut = [] -> ms = [] /\ buf' = [] /\ s' = SRx r' None 0)) \/
  (exists m ms' s' buf', ms = m :: ms' /\ m <> [] /\ poll_frame s buf = (Ok (Some m), (s', buf')) /\
     awaits (snd (take_consumed s')) (drop (fst (take_consumed s')) buf') fut ms' r').
Proof. intros Ha. exact (awaits_poll s buf fut ms r' Ha). Qed.

Lemma poll_frame_exact_witness :
  exists wire s' buf', poll_frame (SRx (rx_new quiet_key) None 0) (wire ++ []) = (Ok (Some [1; 2; 3]), (s', buf')).
Proof.
  destruct (encrypt_stream (tx_new quiet_key ([9; 9] : tape)) (rx_new quiet_key) [] [([1], [2; 3])])
    as (t' & r' & wire & _ & _ & Hst).
  - exact (sync_new quiet_key ([9; 9] : tape)).
  - apply Forall_cons; split; [|by apply Forall_nil].
    split; [by apply wf_bytes_eval|split; apply Nat.leb_le; vm_compute; reflexivity].
  - exists wire.
    destruct (poll_frame_exact (SRx (rx_new quiet_key) None 0) (wire ++ []) [] [[1; 2; 3]] r')
      as [(s' & b' & _ & _ & _ & He)|(m & ms' & s' & b' & E & _ & Hp & _)].
    + constructor. rewrite !app_nil_r. exact Hst.
    + destruct (He eq_refl) as [Hnil _]. discriminate Hnil.
    + injection E as <- _. exists s', b'. exact Hp.
Defined.

(** C39: a receiver withstands any input: whatever bytes arrive, on either
    framing, a poll keeps the receiver well formed, never grows the buffer,
    asks for more only while less than one maximal frame is buffered, and
    delivers only messages of 1 to 65536 bytes, each paid for by at least as
    many bytes drained, so that decoding a buffer terminates. *)
Theorem poll_frame_any_input `{CryptoLaws} `{Base94Laws} s buf res s' buf' :
  srx_ok s -> wf_bytes buf -> poll_frame s buf = (res, (s', buf')) ->
  srx_ok s' /\ wf_bytes buf' /\ (length buf' ≤ length buf)%nat /\
  match res with
  | Ok (Some m) => wf_bytes m /\ (1 ≤ length m ≤ PPP_BUFFER_SIZE)%nat /\
      (length m + length (drop (srx_consumed s') buf') ≤ length buf)%nat
  | Ok None => (length buf' ≤ frame_cap)%nat
  | Err _ => True
  end.
Proof. intros Hs Hw E. pose proof (poll_frame_sane s buf Hs Hw) as Hp. rewrite E in Hp. exact Hp. Qed.

Lemma poll_frame_any_input_witness :
  exists res s' buf', poll_frame (SRx (rx_new quiet_key) None 0) [33; 34; 35; 36; 37; 38; 39; 40; 41; 42] = (res, (s', buf')) /\ srx_ok s'.
Proof.
  destruct (poll_frame (SRx (rx_new quiet_key) None 0) [33; 34; 35; 36; 37; 38; 39; 40; 41; 42]) as [res [s' buf']] eqn:E.
  exists res, s', buf'. split; [reflexivity|].
  destruct (poll_frame_any_input (SRx (rx_new quiet_key) None 0) [33; 34; 35; 36; 37; 38; 39; 40; 41; 42] res s' buf'
    (rx_new_ok quiet_key) ltac:(apply wf_bytes_eval; reflexivity) E) as [K _].
  exact K.
Defined.
