(* ===== verification/Link.v ===== *)
(** * Link adapters ([crates/common/src/link.rs])

    The two halves of a bonded tunnel's link as poll-level state machines: the
    carrier is the explicit list of what its polls return, the caller the
    sequence of its own polls. *)
From S2P Require Import Prelude Errors Env Base94Codec Base94 Cipher Binary KeyConfig Handshake Transmission Session.

Definition WIRE_CAP : nat := (BASE94_MAX_FRAME + 64)%nat.
Definition READ_CHUNK : nat := (16 * 1024)%nat.

(** [std::task::Poll]. *)
Inductive poll (A : Type) := Ready (a : A) | Pending.
Arguments Ready {A}.
Arguments Pending {A}.

(** [core_to_io]. *)
Definition core_to_io (e : Error) : io_error :=
  match e with
  | Io e => e
  | e => IoError InvalidData (Error_display e)
  end.

(** ** The receiving half *)

(** What the carrier has for the reads to come (nothing more: end of file). *)
Inductive carrier_read := CData (d : bytes) | CErr (e : io_error) | CPending.

(** [AsyncRead::poll_read] of the carrier into a buffer of [cap] bytes: [Ok []]
    is the end of file. *)
Definition carrier_poll_read (cap : nat) (evs : list carrier_read) : poll (result io_error bytes) * list carrier_read :=
  match evs with
  | [] => (Ready (Ok []), [])
  | CPending :: evs => (Pending, evs)
  | CErr e :: evs => (Ready (Err e), evs)
  | CData d :: evs =>
      if (length d <=? cap)%nat then (Ready (Ok d), evs) else (Ready (Ok (take cap d)), CData (drop cap d) :: evs)
  end.

Record LinkReadHalf := LRead {
  lr_session : SessionRx;
  lr_sock : list carrier_read;
  lr_wire : bytes;
  lr_plain : bytes;
  lr_plain_off : nat
}.

Definition LinkReadHalf_new (session : SessionRx) (sock : list carrier_read) : LinkReadHalf :=
  LRead session sock [] [] 0.

(** The branch of [poll_read] that serves [plain] into a buffer of [n] bytes. *)
Definition serve_plain (n : nat) (l : LinkReadHalf) : bytes * LinkReadHalf :=
  let end_ := length (lr_plain l) in
  let k := (n `min` (end_ - lr_plain_off l))%nat in
  let off := lr_plain_off l in
  let chunk := take k (drop off (lr_plain l)) in
  let off := (off + k)%nat in
  if (off =? end_)%nat
  then (chunk, LRead (lr_session l) (lr_sock l) (lr_wire l) [] 0)
  else (chunk, LRead (lr_session l) (lr_sock l) (lr_wire l) (lr_plain l) off).

Section ReadHalf.
Context `{CryptoBackend} `{Base94Codec}.

(** The loop of [poll_read] for a caller with [n] bytes of room; [None] means the
    fuel ran out. *)
Fixpoint poll_read_loop (fuel n : nat) (l : LinkReadHalf) : option (poll (result io_error bytes) * LinkReadHalf) :=
  match fuel with
  | O => None
  | S fuel =>
      if (lr_plain_off l <? length (lr_plain l))%nat
      then let (chunk, l) := serve_plain n l in Some (Ready (Ok chunk), l)
      else
        match poll_frame (lr_session l) (lr_wire l) with
        | (Ok (Some msg), (session, wire)) =>
            let (used, session) := take_consumed session in
            poll_read_loop fuel n (LRead session (lr_sock l) (drop used wire) msg 0)
        | (Ok None, (session, wire)) =>
            if (WIRE_CAP <? length wire)%nat
            then Some (Ready (Err (core_to_io InvalidFrame)), LRead session (lr_sock l) wire (lr_plain l) (lr_plain_off l))
            else
              match carrier_poll_read READ_CHUNK (lr_sock l) with
              | (Ready (Ok d), sock) =>
                  if (length d =? 0)%nat then
                    let l := LRead session sock wire (lr_plain l) (lr_plain_off l) in
                    if (length wire =? 0)%nat && negb (is_frame_pending session)
                    then Some (Ready (Ok []), l)
                    else Some (Ready (Err (IoError UnexpectedEof "link eof inside a frame")), l)
                  else poll_read_loop fuel n (LRead session sock (wire ++ d) (lr_plain l) (lr_plain_off l))
              | (Ready (Err e), sock) => Some (Ready (Err e), LRead session sock wire (lr_plain l) (lr_plain_off l))
              | (Pending, sock) => Some (Pending, LRead session sock wire (lr_plain l) (lr_plain_off l))
              end
        | (Err e, (session, wire)) =>
            Some (Ready (Err (core_to_io e)), LRead session (lr_sock l) wire (lr_plain l) (lr_plain_off l))
        end
  end.

(** The bytes the carrier still holds. *)
Fixpoint carrier_bytes (evs : list carrier_read) : bytes :=
  match evs with
  | CData d :: evs => d ++ carrier_bytes evs
  | _ :: evs => carrier_bytes evs
  | [] => []
  end.

(** [LinkReadHalf::poll_read].  Every turn of the loop but the last two takes
    bytes off the carrier ([link_read_total]). *)
Definition poll_read (n : nat) (l : LinkReadHalf) : option (poll (result io_error bytes) * LinkReadHalf) :=
  poll_read_loop (length (carrier_bytes (lr_sock l)) + 3) n l.
End ReadHalf.

(** ** The sending half *)

(** What the carrier's writes to come do: accept at most [n] bytes, fail, or
    wait.  A carrier that has nothing planned waits. *)
Inductive carrier_write := WAccept (n : nat) | WErr (e : io_error) | WPending.

Record carrier := Carrier { ca_plan : list carrier_write; ca_out : bytes }.

(** [AsyncWrite::poll_write] of the carrier. *)
Definition carrier_poll_write (data : bytes) (c : carrier) : poll (result io_error nat) * carrier :=
  match ca_plan c with
  | [] => (Pending, c)
  | WPending :: plan => (Pending, Carrier plan (ca_out c))
  | WErr e :: plan => (Ready (Err e), Carrier plan (ca_out c))
  | WAccept n :: plan =>
      let n := (n `min` length data)%nat in (Ready (Ok n), Carrier plan (ca_out c ++ take n data))
  end.

(** The loop of [flush_out]: one turn per carrier write. *)
Fixpoint flush_loop (fuel : nat) (sock : carrier) (out : bytes) (off : nat)
    : poll (result io_error unit) * (carrier * bytes * nat) :=
  if (off <? length out)%nat then
    match fuel with
    | O => (Pending, (sock, out, off))
    | S fuel =>
        match carrier_poll_write (drop off out) sock with
        | (Pending, sock) => (Pending, (sock, out, off))
        | (Ready (Err e), sock) => (Ready (Err e), (sock, out, off))
        | (Ready (Ok n), sock) =>
            if (n =? 0)%nat then (Ready (Err (IoError WriteZero "link carrier wrote zero bytes")), (sock, out, off))
            else flush_loop fuel sock out (off + n)
        end
    end
  else (Ready (Ok tt), (sock, [], 0%nat)).

(** [flush_out]; each turn consumes one entry of the carrier's plan. *)
Definition flush_out (sock : carrier) (out : bytes) (off : nat) : poll (result io_error unit) * (carrier * bytes * nat) :=
  flush_loop (S (length (ca_plan sock))) sock out off.

Section WriteHalf.
Context `{CryptoBackend} `{Base94Codec} {R} `{Rng R}.

Record LinkWriteHalf := LWrite {
  lw_session : SessionTx R;
  lw_sock : carrier;
  lw_out : bytes;
  lw_out_off : nat
}.

Definition LinkWriteHalf_new (session : SessionTx R) (sock : carrier) : LinkWriteHalf := LWrite session sock [] 0.

(** [poll_write]: how many bytes of [buf] were accepted. *)
Definition poll_write (buf : bytes) (l : LinkWriteHalf) : poll (result io_error nat) * LinkWriteHalf :=
  let accept (sock : carrier) (out : bytes) (off : nat) :=
    let len := (length buf `min` PPP_BUFFER_SIZE)%nat in
    if (len =? 0)%nat then (Ready (Ok 0%nat), LWrite (lw_session l) sock out off)
    else
      match stx_encrypt_into (lw_session l) out (take len buf) with
      | (Err e, (session, out)) => (Ready (Err (core_to_io e)), LWrite session sock out off)
      | (Ok _, (session, out)) =>
          match flush_out sock out 0 with
          | (Ready (Err e), (sock, out, off)) => (Ready (Err e), LWrite session sock out off)
          | (_, (sock, out, off)) => (Ready (Ok len), LWrite session sock out off)
          end
      end in
  if (lw_out_off l <? length (lw_out l))%nat then
    match flush_out (lw_sock l) (lw_out l) (lw_out_off l) with
    | (Pending, (sock, out, off)) => (Pending, LWrite (lw_session l) sock out off)
    | (Ready (Err e), (sock, out, off)) => (Ready (Err e), LWrite (lw_session l) sock out off)
    | (Ready (Ok _), (sock, out, off)) => accept sock out off
    end
  else accept (lw_sock l) (lw_out l) (lw_out_off l).

(** [poll_flush], up to the carrier's own flush. *)
Definition poll_flush (l : LinkWriteHalf) : poll (result io_error unit) * LinkWriteHalf :=
  let '(r, (sock, out, off)) := flush_out (lw_sock l) (lw_out l) (lw_out_off l) in
  (r, LWrite (lw_session l) sock out off).

(** [poll_shutdown]; [shut] is what the carrier's own shutdown gives. *)
Definition poll_shutdown (shut : poll (result io_error unit)) (l : LinkWriteHalf) : poll (result io_error unit) * LinkWriteHalf :=
  match poll_flush l with
  | (Ready (Ok _), l) => (shut, l)
  | r => r
  end.

(** [split_link]: the socket becomes non-blocking and a tokio one, or the link is
    lost; [rd] and [wr] are its halves from then on. *)
Definition split_link (session : Session R) (nonblocking from_std : result io_error unit) (rd : list carrier_read) (wr : carrier)
    : result io_error (LinkReadHalf * LinkWriteHalf) :=
  match nonblocking, from_std with
  | Err e, _ => Err e
  | Ok _, Err e => Err e
  | Ok _, Ok _ => let (stx, srx) := split session in Ok (LinkReadHalf_new srx rd, LinkWriteHalf_new stx wr)
  end.
End WriteHalf.
Arguments LinkWriteHalf R : clear implicits.

(** ** Reading: what a link half still amounts to *)

Lemma wire_cap_eq : WIRE_CAP = frame_cap.
Proof. unfold WIRE_CAP, frame_cap. exact eq_refl. Qed.

#[local] Opaque BASE94_MAX_FRAME PPP_BUFFER_SIZE WIRE_CAP READ_CHUNK frame_cap.

Section ReadLemmas.
Context `{CryptoLaws} `{Base94Laws}.

(** The half [l], whose carrier stream goes on with [fut], is going to deliver
    exactly [bs]. *)
Definition link_awaits (l : LinkReadHalf) (fut bs : bytes) (r' : RxCore) : Prop :=
  (lr_plain_off l ≤ length (lr_plain l))%nat /\
  exists ms, awaits (lr_session l) (lr_wire l) fut ms r' /\ bs = drop (lr_plain_off l) (lr_plain l) ++ concat ms.

(** Reads of a live carrier are never empty. *)
Definition proper (evs : list carrier_read) : Prop := Forall (fun e => e <> CData []) evs.

Fixpoint pendings (evs : list carrier_read) : nat :=
  match evs with
  | CPending :: evs => S (pendings evs)
  | _ :: evs => pendings evs
  | [] => 0%nat
  end.

Lemma carrier_read_cases evs : proper evs ->
  match carrier_poll_read READ_CHUNK evs with
  | (Ready (Ok d), evs') => carrier_bytes evs = d ++ carrier_bytes evs' /\ proper evs' /\
      (d = [] -> evs = [] /\ evs' = []) /\ pendings evs' = pendings evs /\ (forall e, CErr e ∈ evs' -> CErr e ∈ evs)
  | (Ready (Err e), _) => CErr e ∈ evs
  | (Pending, evs') => carrier_bytes evs' = carrier_bytes evs /\ proper evs' /\ pendings evs = S (pendings evs') /\
      (forall e, CErr e ∈ evs' -> CErr e ∈ evs)
  end.
Proof.
  intros Hp. destruct evs as [|[d|e|] evs]; [by split_and!|..]; apply Forall_cons in Hp as [Hd Hp]; simpl.
  - destruct (Nat.leb_spec (length d) READ_CHUNK) as [|Hgt].
    + split_and!; [done|done|intros ->; done|done|by right].
    + assert (length (take READ_CHUNK d) = READ_CHUNK) as Hl by (rewrite length_take; lia). split_and!.
      * simpl. by rewrite app_assoc, take_drop.
      * apply Forall_cons. split; [|done]. intros [= E]. apply (f_equal length) in E. rewrite length_drop in E. simpl in E. lia.
      * intros E. rewrite E in Hl. vm_compute in Hl. done.
      * done.
      * intros e He. apply elem_of_cons in He as [[=]|He]. by right.
  - left.
  - split_and!; [done|done|done|by right].
Qed.

Lemma serve_plain_spec n l fut bs r' : (0 < n)%nat -> (lr_plain_off l < length (lr_plain l))%nat -> link_awaits l fut bs r' ->
  let (chunk, l') := serve_plain n l in
  chunk <> [] /\ (length chunk ≤ n)%nat /\ lr_sock l' = lr_sock l /\
  exists bs', bs = chunk ++ bs' /\ link_awaits l' fut bs' r'.
Proof.
  intros Hn Hoff (_ & ms & Ha & ->). unfold serve_plain. set (p := lr_plain l) in *. set (o := lr_plain_off l) in *.
  set (k := (n `min` (length p - o))%nat). assert (0 < k ≤ length p - o)%nat as Hk by lia.
  assert (length (take k (drop o p)) = k) as Hl by (rewrite length_take, length_drop; lia).
  assert (drop o p ++ concat ms = take k (drop o p) ++ drop (o + k) p ++ concat ms) as E.
  { by rewrite <- drop_drop, app_assoc, take_drop. }
  assert (take k (drop o p) <> []) as Hne by (intros E'; rewrite E' in Hl; simpl in Hl; lia).
  destruct (Nat.eqb_spec (o + k) (length p)) as [Eo|]; (split; [done|]); (split; [rewrite Hl; lia|]); (split; [done|]);
    exists (drop (o + k) p ++ concat ms); (split; [done|]).
  - split; [done|]. exists ms. split; [done|]. by rewrite Eo, drop_all.
  - split; [cbn [lr_plain lr_plain_off]; lia|]. by exists ms.
Qed.

(** One poll of the receiving half. *)
Definition read_outcome (n : nat) (evs : list carrier_read) (fut bs : bytes) (r' : RxCore)
    (out : poll (result io_error bytes)) (l' : LinkReadHalf) : Prop :=
  match out with
  | Ready (Ok []) => lr_sock l' = [] /\ exists r ms, bs = concat ms /\ stream r fut ms r'
  | Ready (Ok chunk) => (length chunk ≤ n)%nat /\ proper (lr_sock l') /\ (pendings (lr_sock l') ≤ pendings evs)%nat /\
      (forall e, CErr e ∈ lr_sock l' -> CErr e ∈ evs) /\
      exists bs', bs = chunk ++ bs' /\ link_awaits l' (carrier_bytes (lr_sock l') ++ fut) bs' r'
  | Ready (Err e) => CErr e ∈ evs \/ (fut <> [] /\ io_kind e = UnexpectedEof)
  | Pending => proper (lr_sock l') /\ (pendings (lr_sock l') < pendings evs)%nat /\ (forall e, CErr e ∈ lr_sock l' -> CErr e ∈ evs) /\
      link_awaits l' (carrier_bytes (lr_sock l') ++ fut) bs r'
  end.

Lemma poll_read_serves fuel n l fut bs r' :
  (0 < n)%nat -> proper (lr_sock l) -> (lr_plain_off l < length (lr_plain l))%nat ->
  link_awaits l (carrier_bytes (lr_sock l) ++ fut) bs r' ->
  exists out l', poll_read_loop (S fuel) n l = Some (out, l') /\ read_outcome n (lr_sock l) fut bs r' out l'.
Proof.
  intros Hn Hp Hoff Ha. cbn [poll_read_loop]. destruct (Nat.ltb_spec (lr_plain_off l) (length (lr_plain l))); [|lia].
  pose proof (serve_plain_spec n l _ bs r' Hn Hoff Ha) as Hs. destruct (serve_plain n l) as [chunk l'].
  destruct Hs as (Hne & Hl & Hsock & bs' & Eb & Ha'). eexists _, _. split; [done|].
  destruct chunk as [|x chunk]; [done|]. cbn [read_outcome]. rewrite Hsock. split_and!; [done..|]. by exists bs'.
Qed.

Lemma poll_read_spec fuel n l fut bs r' :
  (0 < n)%nat -> proper (lr_sock l) -> (length (carrier_bytes (lr_sock l)) + 3 ≤ fuel)%nat ->
  link_awaits l (carrier_bytes (lr_sock l) ++ fut) bs r' ->
  exists out l', poll_read_loop fuel n l = Some (out, l') /\ read_outcome n (lr_sock l) fut bs r' out l'.
Proof.
  intros Hn. revert l bs. induction fuel as [|fuel IH]; intros l bs Hp Hf Ha; [lia|].
  destruct (decide (lr_plain_off l < length (lr_plain l))%nat) as [Hoff|Hoff]; [by apply poll_read_serves|].
  cbn [poll_read_loop]. destruct (Nat.ltb_spec (lr_plain_off l) (length (lr_plain l))); [lia|].
  destruct Ha as (Hle & ms & Ha & Eb). rewrite drop_ge in Eb by lia. cbn [app] in Eb. subst bs.
  destruct (awaits_poll _ _ _ _ _ Ha) as [(s' & b' & -> & Ha' & Hc & He)|(m & ms' & s' & b' & -> & Hne & -> & Ha')].
  2:{ destruct (take_consumed s') as [used s''] eqn:Et. cbn [fst snd] in Ha'.
      set (l1 := LRead s'' (lr_sock l) (drop used b') m 0). destruct fuel as [|fuel]; [lia|].
      apply (poll_read_serves fuel n l1 fut (m ++ concat ms') r' Hn Hp).
      - destruct m; [done|]. simpl. lia.
      - split; [simpl; lia|]. by exists ms'. }
  assert ((WIRE_CAP <? length b')%nat = false) as -> by (apply Nat.ltb_ge; rewrite wire_cap_eq; exact Hc).
  pose proof (carrier_read_cases (lr_sock l) Hp) as Hcr.
  destruct (carrier_poll_read READ_CHUNK (lr_sock l)) as [[[d|e]|] sock'] eqn:Ecr.
  - destruct Hcr as (Ecb & Hp' & Hnil & Hpend & Herr). destruct (Nat.eqb_spec (length d) 0) as [E0|E0].
    + apply nil_length_inv in E0 as ->. destruct (Hnil eq_refl) as [Es ->]. rewrite Es in *. cbn [carrier_bytes app] in *.
      destruct (Nat.eqb_spec (length b') 0) as [Eb|Eb]; cbn [andb].
      * destruct (is_frame_pending s') eqn:Ep; cbn [negb]; eexists _, _; (split; [done|]); cbn [read_outcome].
        -- right. split; [|done]. intros ->. destruct (He eq_refl) as (_ & _ & ->). done.
        -- split; [done|]. apply nil_length_inv in Eb as ->.
           inversion Ha' as [r b fu ms0 r0 Hst|]; subst; [|done]. by exists r, ms.
      * eexists _, _. split; [done|]. right. split; [|done]. intros ->. destruct (He eq_refl) as (_ & -> & _). done.
    + rewrite Ecb in Hf, Ha'. rewrite length_app in Hf.
      destruct (IH (LRead s' sock' (b' ++ d) (lr_plain l) (lr_plain_off l)) (concat ms)) as (out & l' & Er & Ho).
      * done.
      * cbn [lr_sock]. lia.
      * split; [done|]. exists ms. cbn [lr_session lr_wire lr_plain lr_plain_off lr_sock]. rewrite drop_ge by lia. split; [|done].
        rewrite <- app_assoc in Ha'. by apply awaits_extend.
      * exists out, l'. split; [done|]. destruct out as [[[|x c]|e]|]; cbn [read_outcome lr_sock] in *; [done|..].
        -- destruct Ho as (? & ? & ? & He' & ?). rewrite Hpend in *. split_and!; eauto.
        -- destruct Ho as [Hin|]; [left; auto|by right].
        -- destruct Ho as (? & ? & He' & ?). rewrite Hpend in *. split_and!; eauto.
  - eexists _, _. split; [done|]. by left.
  - destruct Hcr as (Ecb & Hp' & Hpend & Herr). eexists _, _. split; [done|]. cbn [read_outcome lr_sock]. split_and!; [done|lia|done|].
    split; [done|]. exists ms. cbn [lr_session lr_wire lr_plain lr_plain_off]. rewrite Ecb, drop_ge by lia. done.
Qed.

(** What a sequence of polls of a caller with [ns] bytes of room delivers. *)
Inductive read_status := RMore | REof | RErr (e : io_error) | RFuel.

Fixpoint run_reads (ns : list nat) (l : LinkReadHalf) : bytes * read_status :=
  match ns with
  | [] => ([], RMore)
  | n :: ns =>
      match poll_read n l with
      | None => ([], RFuel)
      | Some (Pending, l) => run_reads ns l
      | Some (Ready (Ok []), _) => ([], REof)
      | Some (Ready (Ok chunk), l) => let (got, st) := run_reads ns l in (chunk ++ got, st)
      | Some (Ready (Err e), _) => ([], RErr e)
      end
  end.

Lemma run_reads_spec ns l fut bs r' :
  Forall (fun n => 0 < n)%nat ns -> proper (lr_sock l) -> (forall e, ~ CErr e ∈ lr_sock l) ->
  link_awaits l (carrier_bytes (lr_sock l) ++ fut) bs r' ->
  let (got, st) := run_reads ns l in
  exists bs', bs = got ++ bs' /\
  match st with
  | RMore => (length ns ≤ length got + pendings (lr_sock l))%nat
  | REof => exists r ms, bs' = concat ms /\ stream r fut ms r'
  | RErr e => fut <> [] /\ io_kind e = UnexpectedEof
  | RFuel => False
  end.
Proof.
  intros Hns. revert l bs. induction Hns as [|n ns Hn Hns IH]; intros l bs Hp He Ha; cbn [run_reads].
  { exists bs. split; [done|]. simpl. lia. }
  unfold poll_read. destruct (poll_read_spec _ n l fut bs r' Hn Hp (Nat.le_refl _) Ha) as (out & l' & -> & Ho).
  destruct out as [[[|x c]|e]|]; cbn [read_outcome] in Ho.
  - destruct Ho as (_ & r & ms & -> & Hst). exists (concat ms). split; [done|]. by exists r, ms.
  - destruct Ho as (Hl & Hp' & Hpe & He' & bs' & -> & Ha').
    specialize (IH l' bs' Hp' (fun e Hin => He e (He' e Hin)) Ha'). destruct (run_reads ns l') as [got st].
    destruct IH as (bs'' & -> & Hst). exists bs''. rewrite app_assoc. split; [done|].
    destruct st; try done. rewrite length_app. simpl length. lia.
  - exists bs. split; [done|]. destruct Ho as [Hin|]; [by destruct (He e)|done].
  - destruct Ho as (Hp' & Hpe & He' & Ha'). specialize (IH l' bs Hp' (fun e Hin => He e (He' e Hin)) Ha').
    destruct (run_reads ns l') as [got st]. destruct IH as (bs'' & -> & Hst). exists bs''. split; [done|].
    destruct st; try done. simpl length. lia.
Qed.

Lemma stream_nil_inv r ms r' : stream r [] ms r' -> ms = [].
Proof.
  destruct ms as [|m ms]; [done|]. intros (f & w2 & r1 & E & Hf & _). symmetry in E. apply app_nil in E as [-> _].
  by apply frame_nonempty in Hf.
Qed.
End ReadLemmas.

(** ** Writing *)

Lemma flush_loop_spec fuel sock out off res sock' out' off' :
  (off < length out)%nat \/ (out = [] /\ off = 0%nat) -> flush_loop fuel sock out off = (res, (sock', out', off')) ->
  ca_out sock' ++ drop off' out' = ca_out sock ++ drop off out /\
  ((off' < length out')%nat \/ (out' = [] /\ off' = 0%nat)) /\
  (res = Ready (Ok tt) -> out' = [] /\ off' = 0%nat).
Proof.
  revert sock off. induction fuel as [|fuel IH]; intros sock off Ho; cbn [flush_loop];
    destruct (Nat.ltb_spec off (length out)) as [Hlt|Hge].
  - intros [= <- <- <- <-]. split_and!; [done|by left|done].
  - intros [= <- <- <- <-]. destruct Ho as [|[-> ->]]; [lia|]. split_and!; [done|by right|done].
  - destruct sock as [plan o]. unfold carrier_poll_write. cbn [ca_plan ca_out].
    destruct plan as [|[n|e|] plan].
    + intros [= <- <- <- <-]. split_and!; [done|by left|done].
    + rewrite length_drop. set (k := (n `min` (length out - off))%nat). destruct (Nat.eqb_spec k 0) as [Ek|Ek].
      { intros [= <- <- <- <-]. rewrite Ek. cbn [ca_out take]. rewrite app_nil_r. split_and!; [done|by left|done]. }
      intros E. destruct (decide (off + k < length out)%nat) as [Hlt2|Hge2].
      * apply IH in E; [|by left]. destruct E as (E & ? & ?). split_and!; [|done..]. rewrite E. cbn [ca_out].
        rewrite <- (drop_drop out k off), <- app_assoc. f_equal. apply take_drop.
      * assert (off + k = length out)%nat as Eo by lia. rewrite Eo in E.
        assert (flush_loop fuel (Carrier plan (o ++ take k (drop off out))) out (length out) =
          (Ready (Ok tt), (Carrier plan (o ++ take k (drop off out)), [], 0%nat))) as Ed.
        { destruct fuel; cbn [flush_loop]; by rewrite Nat.ltb_irrefl. }
        rewrite Ed in E. injection E as <- <- <- <-. cbn [ca_out]. rewrite drop_0, app_nil_r.
        split_and!; [|by right|done]. f_equal. apply take_ge. rewrite length_drop. lia.
    + intros [= <- <- <- <-]. split_and!; [done|by left|done].
    + intros [= <- <- <- <-]. split_and!; [done|by left|done].
  - intros [= <- <- <- <-]. destruct Ho as [|[-> ->]]; [lia|]. split_and!; [done|by right|done].
Qed.

Section WriteLemmas.
Context `{CryptoLaws} `{Base94Laws} {R} `{RngLaws R}.
Implicit Types l : LinkWriteHalf R.

(** What the half [l] has put or will put on the carrier is, for a peer that
    started in [r0], exactly the frames of [acc]. *)
Definition link_sent (r0 : RxCore) l (acc : bytes) : Prop :=
  ((lw_out_off l < length (lw_out l))%nat \/ (lw_out l = [] /\ lw_out_off l = 0%nat)) /\
  exists ms r', in_sync (stx_core (lw_session l)) r' /\
    stream r0 (ca_out (lw_sock l) ++ drop (lw_out_off l) (lw_out l)) ms r' /\ concat ms = acc.

Lemma link_sent_new t r sock : in_sync t r -> ca_out sock = [] -> link_sent r (LinkWriteHalf_new (STx t) sock) [].
Proof. intros Hs Ho. split; [by right|]. exists [], r. cbn [lw_sock lw_out LinkWriteHalf_new lw_out_off]. by rewrite Ho. Qed.

Lemma flush_sent r0 l acc res sock out off : link_sent r0 l acc ->
  flush_out (lw_sock l) (lw_out l) (lw_out_off l) = (res, (sock, out, off)) ->
  link_sent r0 (LWrite (lw_session l) sock out off) acc /\ (res = Ready (Ok tt) -> out = [] /\ off = 0%nat).
Proof.
  intros (Ho & ms & r' & Hs & Hst & Hc) E. destruct (flush_loop_spec _ _ _ _ _ _ _ _ Ho E) as (Eq & Ho' & Hd).
  split; [|done]. split; [done|]. exists ms, r'. cbn [lw_session lw_sock lw_out lw_out_off]. by rewrite Eq.
Qed.

(** The carrier is shut down only behind the last byte of what was accepted. *)
Lemma shutdown_drains r0 l acc shut l' : link_sent r0 l acc -> poll_shutdown shut l = (Ready (Ok tt), l') ->
  lw_out l' = [] /\ exists ms r', stream r0 (ca_out (lw_sock l')) ms r' /\ concat ms = acc.
Proof.
  intros Hl. unfold poll_shutdown, poll_flush.
  destruct (flush_out (lw_sock l) (lw_out l) (lw_out_off l)) as [fr [[sock out] off]] eqn:E.
  destruct (flush_sent _ _ _ _ _ _ _ Hl E) as [(_ & ms & r' & _ & Hst & Hc) Hd].
  destruct fr as [[[]|e]|]; [|done..]. destruct (Hd eq_refl) as [-> ->]. intros [= _ <-].
  cbn [lw_sock lw_out lw_out_off] in *. rewrite drop_0, app_nil_r in Hst. split; [done|]. by exists ms, r'.
Qed.

Lemma poll_write_spec r0 l acc buf res l' : link_sent r0 l acc -> wf_bytes buf -> poll_write buf l = (res, l') ->
  match res with
  | Ready (Ok k) => k = (length buf `min` PPP_BUFFER_SIZE)%nat /\ link_sent r0 l' (acc ++ take k buf)
  | Pending => link_sent r0 l' acc
  | Ready (Err _) => True
  end.
Proof.
  intros Hl Hw. unfold poll_write. cbv zeta.
  assert (forall l res l', link_sent r0 l acc -> lw_out l = [] -> lw_out_off l = 0%nat ->
    (if (length buf `min` PPP_BUFFER_SIZE =? 0)%nat then (Ready (Ok 0%nat), LWrite (lw_session l) (lw_sock l) (lw_out l) (lw_out_off l))
     else match stx_encrypt_into (lw_session l) (lw_out l) (take (length buf `min` PPP_BUFFER_SIZE) buf) with
      | (Err e, (session, out)) => (Ready (Err (core_to_io e)), LWrite session (lw_sock l) out (lw_out_off l))
      | (Ok _, (session, out)) =>
          match flush_out (lw_sock l) out 0 with
          | (Ready (Err e), (sock, out, off)) => (Ready (Err e), LWrite session sock out off)
          | (_, (sock, out, off)) => (Ready (Ok (length buf `min` PPP_BUFFER_SIZE)%nat), LWrite session sock out off)
          end
      end) = (res, l') ->
    match res with
    | Ready (Ok k) => k = (length buf `min` PPP_BUFFER_SIZE)%nat /\ link_sent r0 l' (acc ++ take k buf)
    | Pending => link_sent r0 l' acc
    | Ready (Err _) => True
    end) as Haccept.
  { clear l res l' Hl. intros [[t] sock out off] res l' Hl. cbn [lw_out lw_out_off lw_session lw_sock]. intros -> ->.
    set (k := (length buf `min` PPP_BUFFER_SIZE)%nat). destruct (Nat.eqb_spec k 0) as [Ek|Ek].
    { intros [= <- <-]. rewrite Ek. split; [done|]. cbn [take]. by rewrite app_nil_r. }
    destruct Hl as (_ & ms & r' & Hs & Hst & Hc). cbn [lw_session lw_sock lw_out lw_out_off stx_core] in *.
    rewrite drop_0, app_nil_r in Hst. unfold stx_encrypt_into, encrypt_into. cbn [stx_core].
    assert (length (take k buf) = k) as Hlk by (rewrite length_take; lia).
    destruct (encrypt_frame t r' [] [] (take k buf) Hs) as (t1 & r1 & w1 & -> & Hs1 & _ & _ & Hf).
    { by apply wf_bytes_take. }
    { cbn [app]. rewrite Hlk. lia. }
    cbn [app] in *. destruct (flush_out sock w1 0) as [fr [[sock' out'] off']] eqn:Ef.
    assert (link_sent r0 (LWrite (STx t1) sock' out' off') (acc ++ take k buf)) as Hl'.
    { assert (0 < length w1)%nat as Hw1 by (apply frame_nonempty in Hf; destruct w1; [done|simpl; lia]).
      destruct (flush_loop_spec _ _ _ _ _ _ _ _ (or_introl Hw1) Ef) as (Eq & Ho' & _). split; [done|].
      exists (ms ++ [take k buf]), r1. cbn [lw_session lw_sock lw_out lw_out_off stx_core]. split; [done|]. split.
      - rewrite Eq, drop_0. eapply stream_app; [exact Hst|]. exists w1, [], r1. by rewrite app_nil_r.
      - rewrite concat_app. simpl. by rewrite app_nil_r, Hc. }
    destruct fr as [[[]|e]|]; intros [= <- <-]; done. }
  destruct (Nat.ltb_spec (lw_out_off l) (length (lw_out l))) as [Hlt|Hge].
  - destruct (flush_out (lw_sock l) (lw_out l) (lw_out_off l)) as [fr [[sock out] off]] eqn:Ef.
    destruct (flush_sent _ _ _ _ _ _ _ Hl Ef) as [Hl' Hd].
    destruct fr as [[[]|e]|]; [|by intros [= <- <-]|by intros [= <- <-]]. destruct (Hd eq_refl) as [-> ->].
    apply (Haccept (LWrite (lw_session l) sock [] 0) res l' Hl' eq_refl eq_refl).
  - destruct Hl as [[|[Eo Ef]] Hl2]; [lia|]. apply (Haccept l res l'); [|done|done]. split; [by right|done].
Qed.

(** Write polls, then a flush: what was accepted before the first error. *)
Fixpoint run_writes (bufs : list bytes) l (acc : bytes) : option (bytes * LinkWriteHalf R) :=
  match bufs with
  | [] => Some (acc, l)
  | buf :: bufs =>
      match poll_write buf l with
      | (Ready (Ok k), l) => run_writes bufs l (acc ++ take k buf)
      | (Pending, l) => run_writes bufs l acc
      | (Ready (Err _), _) => None
      end
  end.

Lemma run_writes_spec r0 bufs l acc acc' l' : link_sent r0 l acc -> Forall wf_bytes bufs ->
  run_writes bufs l acc = Some (acc', l') -> link_sent r0 l' acc'.
Proof.
  intros Hl Hw. revert l acc Hl. induction Hw as [|buf bufs Hb Hw IH]; intros l acc Hl; cbn [run_writes]; [by intros [= <- <-]|].
  destruct (poll_write buf l) as [res l1] eqn:E. pose proof (poll_write_spec _ _ _ _ _ _ Hl Hb E) as Hp.
  destruct res as [[k|e]|]; [|done|].
  - destruct Hp as [_ Hl1]. by apply IH.
  - by apply IH.
Qed.
End WriteLemmas.

(** ** Reading any input *)

Section ReadTotal.
Context `{CryptoLaws} `{Base94Laws}.

Definition link_ok (l : LinkReadHalf) : Prop :=
  srx_ok (lr_session l) /\ wf_bytes (lr_wire l) /\ wf_bytes (carrier_bytes (lr_sock l)) /\
  (length (lr_wire l) ≤ WIRE_CAP + READ_CHUNK)%nat.

(** The buffers after a poll are bounded and the half is still well formed. *)
Definition link_bounded (l : LinkReadHalf) : Prop :=
  link_ok l /\ (lr_plain_off l ≤ length (lr_plain l) ≤ PPP_BUFFER_SIZE)%nat.

Lemma carrier_read_wf evs : wf_bytes (carrier_bytes evs) ->
  match carrier_poll_read READ_CHUNK evs with
  | (Ready (Ok d), evs') => wf_bytes d /\ (length d ≤ READ_CHUNK)%nat /\ wf_bytes (carrier_bytes evs') /\
      (length (carrier_bytes evs) = length d + length (carrier_bytes evs'))%nat
  | (_, evs') => wf_bytes (carrier_bytes evs')
  end.
Proof.
  intros Hw. destruct evs as [|[d|e|] evs]; simpl in *; [split_and!; (done || simpl; lia)| |done|done].
  apply wf_bytes_app in Hw as [Hd Hw]. destruct (Nat.leb_spec (length d) READ_CHUNK).
  - rewrite length_app. split_and!; (done || lia).
  - simpl. rewrite !length_app, length_take, length_drop.
    split_and!; [by apply wf_bytes_take|lia|apply wf_bytes_app_2; [by apply wf_bytes_drop|done]|lia].
Qed.

Lemma serve_plain_ok n l : link_bounded l -> link_bounded (snd (serve_plain n l)).
Proof.
  intros [Hl Hp]. unfold serve_plain. cbv zeta. destruct (Nat.eqb_spec (lr_plain_off l + n `min` (length (lr_plain l) - lr_plain_off l)) (length (lr_plain l)));
    split; try done; cbn [snd lr_plain lr_plain_off]; [simpl; lia|lia].
Qed.

Lemma poll_read_total fuel n l : link_bounded l ->
  (length (carrier_bytes (lr_sock l)) + 3 ≤ fuel \/ (lr_plain_off l < length (lr_plain l) /\ 1 ≤ fuel))%nat ->
  exists out l', poll_read_loop fuel n l = Some (out, l') /\ link_bounded l'.
Proof.
  revert l. induction fuel as [|fuel IH]; intros l Hb Hf; [lia|]. cbn [poll_read_loop].
  destruct (Nat.ltb_spec (lr_plain_off l) (length (lr_plain l))) as [Hlt|Hge].
  { pose proof (serve_plain_ok n l Hb) as Hs. destruct (serve_plain n l) as [c l']. eauto. }
  destruct Hf as [Hf|[? _]]; [|lia]. destruct Hb as [(Hs & Hw & Hc & Hlen) Hp].
  pose proof (poll_frame_sane _ _ Hs Hw) as Hps.
  destruct (poll_frame (lr_session l) (lr_wire l)) as [[[m|]|e] [s' w']]; cbn [poll_sane] in Hps; destruct Hps as (Hs' & Hw' & Hlw & Hr).
  - unfold take_consumed. destruct Hr as (Hwm & Hm & Hd).
    apply IH; [|right; cbn [lr_plain lr_plain_off]; lia]. split; [|cbn [lr_plain lr_plain_off]; lia].
    destruct s' as [r p c]. split; [done|]. cbn [lr_wire lr_sock srx_consumed] in *. split_and!; [by apply wf_bytes_drop|done|lia].
  - assert ((WIRE_CAP <? length w')%nat = false) as -> by (apply Nat.ltb_ge; rewrite wire_cap_eq; exact Hr).
    rewrite <- wire_cap_eq in Hr. assert (length w' ≤ WIRE_CAP + READ_CHUNK)%nat as Hlw' by lia.
    pose proof (carrier_read_wf _ Hc) as Hcr. destruct (carrier_poll_read READ_CHUNK (lr_sock l)) as [[[d|e]|] sock'].
    + destruct Hcr as (Hwd & Hld & Hc' & El). destruct (Nat.eqb_spec (length d) 0).
      * destruct (_ && _); eexists _, _; (split; [reflexivity|]); exact (conj (conj Hs' (conj Hw' (conj Hc' Hlw'))) Hp).
      * apply IH; [|left; cbn [lr_sock]; lia].
        assert (length (w' ++ d) ≤ WIRE_CAP + READ_CHUNK)%nat as Hld' by (rewrite length_app; lia).
        exact (conj (conj Hs' (conj (wf_bytes_app_2 _ _ Hw' Hwd) (conj Hc' Hld'))) Hp).
    + eexists _, _. split; [reflexivity|]. exact (conj (conj Hs' (conj Hw' (conj Hcr Hlw'))) Hp).
    + eexists _, _. split; [reflexivity|]. exact (conj (conj Hs' (conj Hw' (conj Hcr Hlw'))) Hp).
  - assert (length w' ≤ WIRE_CAP + READ_CHUNK)%nat as Hlw' by lia.
    eexists _, _. split; [reflexivity|]. exact (conj (conj Hs' (conj Hw' (conj Hc Hlw'))) Hp).
Qed.
End ReadTotal.

#[local] Existing Instance Doc.codec.
#[local] Existing Instance Doc.laws.
#[local] Existing Instance Toy.backend.
#[local] Existing Instance Toy.toy_laws.

(** ** Properties *)

(** C40: a link is a byte pipe: whatever the caller writes in polls of any size
    over a carrier that accepts any amounts and stalls at any points, once the
    half is flushed the peer reads, in polls of any size and for any cut of the
    carrier's bytes, exactly the accepted bytes in order; it reports the end of
    the stream only where whole frames remain (so after all of them, when
    nothing is missing), never an error when nothing is missing, and it gets
    there after at most one poll per byte and per stall. *)
Theorem link_pipe `{CryptoLaws} `{Base94Laws} {R} `{RngLaws R} (t : TxCore R) r plan bufs acc l l' evs fut ns :
  in_sync t r -> Forall wf_bytes bufs ->
  run_writes bufs (LinkWriteHalf_new (STx t) (Carrier plan [])) [] = Some (acc, l) ->
  poll_flush l = (Ready (Ok tt), l') ->
  carrier_bytes evs ++ fut = ca_out (lw_sock l') -> proper evs -> (forall e, ~ CErr e ∈ evs) ->
  Forall (fun n => 0 < n)%nat ns ->
  let (got, st) := run_reads ns (LinkReadHalf_new (SRx r None 0) evs) in
  exists rest, acc = got ++ rest /\
  match st with
  | RMore => (length ns ≤ length acc + pendings evs)%nat
  | REof => exists r1 ms r', rest = concat ms /\ stream r1 fut ms r' /\ (fut = [] -> rest = [])
  | RErr e => fut <> [] /\ io_kind e = UnexpectedEof
  | RFuel => False
  end.
Proof.
  intros Hs Hw Ew Ef Eb Hp He Hns.
  pose proof (run_writes_spec r _ _ _ _ _ (link_sent_new t r (Carrier plan []) Hs eq_refl) Hw Ew) as Hl.
  unfold poll_flush in Ef. destruct (flush_out (lw_sock l) (lw_out l) (lw_out_off l)) as [fr [[sock out] off]] eqn:Efl.
  destruct (flush_sent _ _ _ _ _ _ _ Hl Efl) as [(_ & ms & r' & _ & Hst & <-) Hd]. injection Ef as -> <-.
  destruct (Hd eq_refl) as [-> ->]. cbn [lw_sock lw_out lw_out_off] in *. rewrite drop_0, app_nil_r, <- Eb in Hst.
  pose proof (run_reads_spec ns (LinkReadHalf_new (SRx r None 0) evs) fut (concat ms) r' Hns Hp He) as Hr.
  destruct (run_reads ns _) as [got st]. destruct Hr as (rest & E & Hr).
  { split; [done|]. exists ms. split; [by constructor|done]. }
  exists rest. split; [done|]. destruct st; try done.
  - rewrite E, length_app. cbn [lr_sock LinkReadHalf_new] in Hr. lia.
  - destruct Hr as (r1 & ms' & -> & Hst'). exists r1, ms', r'. split; [done|]. split; [done|]. intros ->.
    apply stream_nil_inv in Hst' as ->. done.
Qed.

Lemma link_pipe_witness :
  run_reads [3; 3; 3; 3; 3]%nat (LinkReadHalf_new (SRx (rx_new quiet_key) None 0)
    [CPending; CData (ca_out (lw_sock (snd (poll_flush (snd (poll_write [7; 8; 9; 10]
       (LinkWriteHalf_new (STx (tx_new quiet_key ([9; 9] : tape))) (Carrier [WAccept 5; WPending; WAccept 100] []))))))))])
  = ([7; 8; 9; 10], REof).
Proof.
  pose proof (link_pipe (tx_new quiet_key ([9; 9] : tape)) (rx_new quiet_key) [WAccept 5; WPending; WAccept 100] [[7; 8; 9; 10]]
    [7; 8; 9; 10]) as K.
  set (l1 := snd (poll_write [7; 8; 9; 10]
       (LinkWriteHalf_new (STx (tx_new quiet_key ([9; 9] : tape))) (Carrier [WAccept 5; WPending; WAccept 100] [])))) in *.
  specialize (K l1 (snd (poll_flush l1)) [CPending; CData (ca_out (lw_sock (snd (poll_flush l1))))] [] [3; 3; 3; 3; 3]%nat).
  assert (run_reads [3; 3; 3; 3; 3]%nat (LinkReadHalf_new (SRx (rx_new quiet_key) None 0)
    [CPending; CData (ca_out (lw_sock (snd (poll_flush l1))))]) = ([7; 8; 9; 10], REof)) as E by (vm_compute; reflexivity).
  rewrite E in K. rewrite E. destruct K as [rest [_ _]].
  - exact (sync_new quiet_key ([9; 9] : tape)).
  - apply Forall_cons; split; [|by apply Forall_nil]. apply wf_bytes_eval. reflexivity.
  - vm_compute. reflexivity.
  - vm_compute. reflexivity.
  - vm_compute. reflexivity.
  - apply Forall_cons; split; [discriminate|]. apply Forall_cons; split; [|by apply Forall_nil]. vm_compute. discriminate.
  - intros e He. apply elem_of_cons in He as [He|He]; [discriminate He|]. apply list_elem_of_singleton in He. discriminate He.
  - repeat (apply Forall_cons; split; [lia|]). by apply Forall_nil.
  - reflexivity.
Defined.

(** A link read always returns and its memory is bounded, whatever the
    carrier delivers: the fuel of [poll_read] is never exhausted, at most
    [WIRE_CAP] bytes and one read chunk are buffered undecoded and at most one
    message decoded. *)
Theorem link_read_bounded `{CryptoLaws} `{Base94Laws} n l :
  link_bounded l -> exists out l', poll_read n l = Some (out, l') /\ link_bounded l'.
Proof. intros Hl. apply poll_read_total; [done|]. left. lia. Qed.

Lemma link_read_bounded_witness :
  exists out l', poll_read 10 (LinkReadHalf_new (SRx (rx_new quiet_key) None 0) [CData (replicate 20 33); CPending]) = Some (out, l').
Proof.
  destruct (link_read_bounded 10 (LinkReadHalf_new (SRx (rx_new quiet_key) None 0) [CData (replicate 20 33); CPending]))
    as (out & l' & E & _).
  - split; [|split; apply Nat.leb_le; vm_compute; reflexivity]. split; [exact (rx_new_ok quiet_key)|].
    split; [apply wf_bytes_eval; reflexivity|]. split; [apply wf_bytes_eval; reflexivity|].
    apply Nat.leb_le. vm_compute. reflexivity.
  - exists out, l'. exact E.
Defined.
