(* ===== verification/Mux.v ===== *)
(** * The mux wire protocol ([crates/common/src/mux.rs])

    Frame kinds, LEB128 stream ids, frame headers and their parser. *)
From S2P Require Import Prelude.

(** ** LEB128 varints *)

(** The loop of [encode_varint]: at most five bytes for a [u32]. *)
Fixpoint encode_varint_fuel (fuel : nat) (v : Z) : bytes :=
  match fuel with
  | O => []
  | S fuel =>
      let b := u8 (Z.land v 0x7f) in
      let v := Z.shiftr v 7 in
      if negb (v =? 0) then Z.lor b 0x80 :: encode_varint_fuel fuel v else [b]
  end.

Definition encode_varint (v : Z) : bytes := encode_varint_fuel 5 v.

(** The loop of [decode_varint] from index [i] with accumulator [v]. *)
Fixpoint decode_varint_from (i : nat) (v : Z) (buf : bytes) : option (Z * nat) :=
  match buf with
  | [] => None
  | b :: buf =>
      if (5 <=? i)%nat then None
      else
        let bits := Z.land b 0x7f in
        if (i =? 4)%nat && (0x0f <? bits) then None
        else
          let v := Z.lor v (u32 (Z.shiftl bits (7 * Z.of_nat i))) in
          if Z.land b 0x80 =? 0 then Some (v, (i + 1)%nat) else decode_varint_from (i + 1) v buf
  end.

Definition decode_varint (buf : bytes) : option (Z * nat) := decode_varint_from 0 0 buf.

(** ** Frame kinds and headers *)

Definition HEADER_MAX : nat := 6.

Inductive FrameKind := Open | Reply | Data | Eof | Close.
#[export] Instance FrameKind_eq_dec : EqDecision FrameKind.
Proof. solve_decision. Defined.

Definition from_u8 (v : Z) : option FrameKind :=
  match v with
  | 0 => Some Open
  | 1 => Some Reply
  | 2 => Some Data
  | 3 => Some Eof
  | 4 => Some Close
  | _ => None
  end.

Definition as_u8 (k : FrameKind) : Z :=
  match k with Open => 0 | Reply => 1 | Data => 2 | Eof => 3 | Close => 4 end.

Inductive MuxError := Empty | TruncatedStreamId | UnknownKind (v : Z).

(** [FrameHeader::new(kind, stream).as_slice()]. *)
Definition FrameHeader_new (kind : FrameKind) (stream : Z) : bytes := as_u8 kind :: encode_varint stream.

(** [parse_frame]. *)
Definition parse_frame (msg : bytes) : result MuxError (FrameKind * Z * bytes) :=
  match msg with
  | [] => Err Empty
  | kind :: rest =>
      let? kind := ok_or (from_u8 kind) (UnknownKind kind) in
      let? (stream, n) := ok_or (decode_varint rest) TruncatedStreamId in
      Ok (kind, stream, drop n rest)
  end.

(** [REPLY] payload statuses ([crates/common/src/proto.rs]). *)
Definition REPLY_OK : Z := 0.
Definition REPLY_REFUSED : Z := 1.

(** ** Varint lemmas *)

Lemma land_127 b : Z.land b 0x7f = b mod 128.
Proof. apply (Z.land_ones b 7). lia. Qed.

Lemma land_128 b : is_byte b -> (Z.land b 0x80 =? 0) = (b <? 128).
Proof.
  intros Hb. assert (forallb (fun n => Bool.eqb (Z.land (Z.of_nat n) 0x80 =? 0) (Z.of_nat n <? 128)) (seq 0 256) = true) as Hall by reflexivity.
  rewrite forallb_forall in Hall. specialize (Hall (Z.to_nat b)). rewrite Z2Nat.id in Hall by lia.
  apply Bool.eqb_prop, Hall, in_seq. lia.
Qed.

(** The code's bit operations as arithmetic. *)
Lemma encode_varint_step fuel v : 0 <= v ->
  encode_varint_fuel (S fuel) v =
    if v <? 128 then [v] else (v mod 128 + 128) :: encode_varint_fuel fuel (v / 128).
Proof.
  intros Hv. cbn [encode_varint_fuel]. rewrite land_127, Z.shiftr_div_pow2 by lia. change (2 ^ 7) with 128.
  pose proof (Z.mod_pos_bound v 128 ltac:(lia)). rewrite (u8_small (v mod 128)) by lia.
  destruct (Z.ltb_spec v 128).
  - rewrite Z.div_small, Z.mod_small by lia. done.
  - assert (0 < v / 128) by (apply Z.div_str_pos; lia). destruct (Z.eqb_spec (v / 128) 0); [lia|]. cbn [negb]. f_equal.
    pose proof (lor_disjoint_add 7 1 (v mod 128) ltac:(lia) ltac:(lia)) as E. change (Z.shiftl 1 7) with 128 in E.
    rewrite Z.lor_comm. lia.
Qed.

Lemma decode_varint_step i v b buf :
  (i < 5)%nat -> is_byte b -> 0 <= v < 2 ^ (7 * Z.of_nat i) -> (i = 4%nat -> b mod 128 < 16) ->
  decode_varint_from i v (b :: buf) =
    let v := v + b mod 128 * 2 ^ (7 * Z.of_nat i) in
    if b <? 128 then Some (v, S i) else decode_varint_from (S i) v buf.
Proof.
  intros Hi Hb Hv H4. cbn [decode_varint_from]. rewrite land_127, land_128 by done.
  destruct (Nat.leb_spec 5 i); [lia|]. pose proof (Z.mod_pos_bound b 128 ltac:(lia)).
  assert ((i =? 4)%nat && (0x0f <? b mod 128) = false) as ->.
  { destruct (Nat.eqb_spec i 4); [|done]. specialize (H4 e). destruct (Z.ltb_spec 15 (b mod 128)); [lia|done]. }
  assert (b mod 128 * 2 ^ (7 * Z.of_nat i) < 2 ^ 32) as Hov.
  { assert (i = 0 \/ i = 1 \/ i = 2 \/ i = 3 \/ i = 4)%nat as Hi5 by lia.
    destruct Hi5 as [->|[->|[->|[->| ->]]]]; [..|specialize (H4 eq_refl)]; simpl; lia. }
  assert (u32 (Z.shiftl (b mod 128) (7 * Z.of_nat i)) = Z.shiftl (b mod 128) (7 * Z.of_nat i)) as ->.
  { unfold u32. rewrite Z.shiftl_mul_pow2 by lia. apply Z.mod_small.
    split; [apply Z.mul_nonneg_nonneg; lia|done]. }
  rewrite Z.lor_comm, lor_disjoint_add by lia. cbv zeta. rewrite Nat.add_1_r, (Z.add_comm v). done.
Qed.

Lemma encode_varint_fuel_ok fuel i v w rest :
  (fuel = 5 - i)%nat -> (i < 5)%nat -> 0 <= v < 2 ^ (32 - 7 * Z.of_nat i) -> 0 <= w < 2 ^ (7 * Z.of_nat i) ->
  decode_varint_from i w (encode_varint_fuel fuel v ++ rest) =
    Some (w + v * 2 ^ (7 * Z.of_nat i), (i + length (encode_varint_fuel fuel v))%nat) /\
  (1 ≤ length (encode_varint_fuel fuel v) ≤ fuel)%nat /\ wf_bytes (encode_varint_fuel fuel v) /\
  forall p, p `prefix_of` encode_varint_fuel fuel v -> p <> encode_varint_fuel fuel v -> decode_varint_from i w p = None.
Proof.
  revert i v w rest. induction fuel as [|fuel IH]; intros i v w rest Hf Hi Hv Hw; [lia|].
  rewrite encode_varint_step by lia. pose proof (Z.mod_pos_bound v 128 ltac:(lia)).
  assert (i = 4%nat -> v < 16) as H4 by (intros ->; simpl in Hv; lia).
  destruct (Z.ltb_spec v 128) as [Hlt|Hge].
  - assert (v mod 128 = v) as Hm by (apply Z.mod_small; lia). split_and!.
    + cbn [app]. rewrite decode_varint_step by (try lia; intros; rewrite Hm; auto).
      rewrite Hm. cbv zeta. destruct (Z.ltb_spec v 128); [|lia]. cbn [length]. by rewrite Nat.add_1_r.
    + simpl. lia.
    + simpl. lia.
    + repeat constructor; lia.
    + intros p Hp Hne. destruct p as [|x p]; [done|]. exfalso. apply Hne.
      apply prefix_cons_inv_1 in Hp as Hx. apply prefix_cons_inv_2 in Hp. apply prefix_nil_inv in Hp. congruence.
  - assert (i < 4)%nat as Hi4 by (destruct (decide (i = 4%nat)) as [E|]; [specialize (H4 E); lia|lia]).
    assert ((v mod 128 + 128) mod 128 = v mod 128) as Hm.
    { replace (v mod 128 + 128) with (v mod 128 + 1 * 128) by lia. by rewrite Z.mod_add, Z.mod_mod by lia. }
    assert (0 <= v / 128 < 2 ^ (32 - 7 * Z.of_nat (S i))) as Hv'.
    { split; [apply Z.div_pos; lia|]. apply Z.div_lt_upper_bound; [lia|].
      change 128 with (2 ^ 7). rewrite <- Z.pow_add_r by lia.
      replace (7 + (32 - 7 * Z.of_nat (S i))) with (32 - 7 * Z.of_nat i) by lia. lia. }
    assert (2 ^ (7 * Z.of_nat (S i)) = 128 * 2 ^ (7 * Z.of_nat i)) as Hpow.
    { replace (7 * Z.of_nat (S i)) with (7 + 7 * Z.of_nat i) by lia. rewrite Z.pow_add_r by lia. done. }
    set (w' := w + v mod 128 * 2 ^ (7 * Z.of_nat i)).
    assert (0 <= w' < 2 ^ (7 * Z.of_nat (S i))) as Hw' by (unfold w'; rewrite Hpow; nia).
    destruct (IH (S i) (v / 128) w' rest ltac:(lia) ltac:(lia) Hv' Hw') as (Hd & Hl & Hwf & Hp).
    assert (forall l, decode_varint_from i w ((v mod 128 + 128) :: l) = decode_varint_from (S i) w' l) as Hstep.
    { intros l. rewrite decode_varint_step by (try lia). rewrite Hm. cbv zeta.
      by destruct (Z.ltb_spec (v mod 128 + 128) 128); [lia|]. }
    split_and!.
    + cbn [app]. rewrite Hstep, Hd. cbn [length]. f_equal. f_equal; [|lia]. unfold w'. rewrite Hpow.
      pose proof (Z.div_mod v 128 ltac:(lia)). nia.
    + simpl. lia.
    + simpl. lia.
    + apply wf_bytes_cons. split; [lia|done].
    + intros p Hpre Hne. destruct p as [|x p]; [done|].
      apply prefix_cons_inv_1 in Hpre as Hx. apply prefix_cons_inv_2 in Hpre. subst x. rewrite Hstep. apply Hp; congruence.
Qed.

Lemma encode_varint_ok v rest : is_u32 v ->
  decode_varint (encode_varint v ++ rest) = Some (v, length (encode_varint v)) /\
  (1 ≤ length (encode_varint v) ≤ 5)%nat /\ wf_bytes (encode_varint v).
Proof.
  intros Hv. destruct (encode_varint_fuel_ok 5 0 v 0 rest eq_refl ltac:(lia) ltac:(simpl; lia) ltac:(simpl; lia)) as (Hd & Hl & Hw & _).
  unfold decode_varint, encode_varint. rewrite Hd. split; [|done]. f_equal. f_equal. change (2 ^ (7 * Z.of_nat 0)) with 1. lia.
Qed.

Lemma decode_varint_prefix v p : is_u32 v -> p `prefix_of` encode_varint v -> p <> encode_varint v -> decode_varint p = None.
Proof.
  intros Hv. destruct (encode_varint_fuel_ok 5 0 v 0 [] eq_refl ltac:(lia) ltac:(simpl; lia) ltac:(simpl; lia)) as (_ & _ & _ & Hp). apply Hp.
Qed.

Lemma from_as_u8 k : from_u8 (as_u8 k) = Some k.
Proof. by destruct k. Qed.

Lemma parse_frame_header k stream payload : is_u32 stream ->
  parse_frame (FrameHeader_new k stream ++ payload) = Ok (k, stream, payload).
Proof.
  intros Hs. unfold parse_frame, FrameHeader_new. cbn [app]. rewrite from_as_u8. cbn [ok_or].
  destruct (encode_varint_ok stream payload Hs) as (-> & _). cbn [ok_or]. by rewrite drop_app_length.
Qed.

Lemma header_length k stream : is_u32 stream -> (2 ≤ length (FrameHeader_new k stream) ≤ HEADER_MAX)%nat.
Proof. intros Hs. destruct (encode_varint_ok stream [] Hs) as (_ & Hl & _). unfold HEADER_MAX. simpl. lia. Qed.

Lemma header_wf k stream : is_u32 stream -> wf_bytes (FrameHeader_new k stream).
Proof.
  intros Hs. destruct (encode_varint_ok stream [] Hs) as (_ & _ & Hw). apply wf_bytes_cons. split; [destruct k; simpl; lia|done].
Qed.

(** What the decoder accepts is in range. *)
Lemma decode_varint_from_bounds i w buf v n :
  (i ≤ 5)%nat -> wf_bytes buf -> 0 <= w < 2 ^ (Z.min 32 (7 * Z.of_nat i)) -> decode_varint_from i w buf = Some (v, n) ->
  is_u32 v /\ (i < n ≤ 5)%nat /\ (n ≤ i + length buf)%nat.
Proof.
  revert i w. induction buf as [|b buf IH]; intros i w Hi Hb Hw Hd; [done|].
  apply wf_bytes_cons in Hb as [Hb Hbuf]. cbn [decode_varint_from] in Hd.
  destruct (Nat.leb_spec 5 i) as [|Hi5]; [done|]. rewrite Z.min_r in Hw by lia.
  destruct ((i =? 4)%nat && (0x0f <? Z.land b 0x7f)) eqn:E4; [done|].
  assert (decode_varint_from i w (b :: buf) = Some (v, n)) as Hd'.
  { cbn [decode_varint_from]. destruct (Nat.leb_spec 5 i); [lia|]. by rewrite E4. }
  rewrite land_127 in E4. pose proof (Z.mod_pos_bound b 128 ltac:(lia)).
  assert (i = 4%nat -> b mod 128 < 16) as H4.
  { intros ->. cbn [Nat.eqb andb] in E4. destruct (Z.ltb_spec 15 (b mod 128)); [done|lia]. }
  rewrite decode_varint_step in Hd' by done. cbv zeta in Hd'.
  assert (0 <= w + b mod 128 * 2 ^ (7 * Z.of_nat i) < 2 ^ Z.min 32 (7 * Z.of_nat (S i))) as Hw'.
  { assert (i = 0 \/ i = 1 \/ i = 2 \/ i = 3 \/ i = 4)%nat as Hi' by lia.
    set (c := b mod 128) in *. clearbody c. clear IH Hd Hd' E4.
    destruct Hi' as [->|[->|[->|[->| ->]]]]; [..|specialize (H4 eq_refl)];
      [change (2 ^ (7 * Z.of_nat 0)) with 1 in *; change (2 ^ Z.min 32 (7 * Z.of_nat 1)) with 128
      |change (2 ^ (7 * Z.of_nat 1)) with 128 in *; change (2 ^ Z.min 32 (7 * Z.of_nat 2)) with 16384
      |change (2 ^ (7 * Z.of_nat 2)) with 16384 in *; change (2 ^ Z.min 32 (7 * Z.of_nat 3)) with 2097152
      |change (2 ^ (7 * Z.of_nat 3)) with 2097152 in *; change (2 ^ Z.min 32 (7 * Z.of_nat 4)) with 268435456
      |change (2 ^ (7 * Z.of_nat 4)) with 268435456 in *; change (2 ^ Z.min 32 (7 * Z.of_nat 5)) with 4294967296]; lia. }
  destruct (b <? 128).
  - injection Hd' as <- <-. simpl. split; [|lia].
    assert (2 ^ Z.min 32 (7 * Z.of_nat (S i)) <= 2 ^ 32) by (apply Z.pow_le_mono_r; lia). lia.
  - apply IH in Hd'; [|lia|done|done]. simpl. lia.
Qed.
