(* ===== verification/Pump.v ===== *)
(** * Error classifiers of the data plane ([crates/common/src/pump.rs]) *)
From S2P Require Import Prelude Errors.

(** [routine_cause]. *)
Definition routine_cause (kind : ErrorKind) : option string :=
  match kind with
  | ConnectionReset => Some "connection reset"
  | ConnectionAborted => Some "connection aborted"
  | BrokenPipe => Some "broken pipe"
  | UnexpectedEof => Some "eof"
  | TimedOut | WouldBlock => Some "timeout"
  | Interrupted => Some "interrupted"
  | _ => None
  end%string.

Definition is_routine_io (err : io_error) : bool := bool_decide (is_Some (routine_cause (io_kind err))).

Definition is_routine_core (err : Error) : bool :=
  if is_eof err then true
  else
    match err with
    | Io e => is_routine_io e
    | HandshakeFailed _ => true
    | _ => false
    end.

(** One link of an [anyhow] error chain, as far as the code inspects it. *)
Inductive Cause := IoCause (e : io_error) | CoreCause (e : Error) | OtherCause.

Definition recognized (c : Cause) : bool := match c with OtherCause => false | _ => true end.
Definition cause_routine (c : Cause) : bool :=
  match c with IoCause e => is_routine_io e | CoreCause e => is_routine_core e | OtherCause => true end.

(** The short-circuiting [all] of [is_clean_close], which records whether it met
    a recognised cause before stopping. *)
Fixpoint clean_chain (chain : list Cause) (rec : bool) : bool * bool :=
  match chain with
  | [] => (rec, true)
  | c :: chain =>
      let rec := rec || recognized c in
      if cause_routine c then clean_chain chain rec else (rec, false)
  end.

Definition is_clean_close (chain : list Cause) : bool :=
  let (rec, clean) := clean_chain chain false in rec && clean.

(** [accept_exhausted] of a unix build, on [raw_os_error()]. *)
Definition accept_exhausted (errno : option Z) : bool :=
  match errno with
  | Some e => (e =? 23) || (e =? 24) || (e =? 12)
  | None => false
  end.

Definition accept_routine (err : io_error) : bool :=
  match io_kind err with ConnectionAborted | ConnectionReset | Interrupted => true | _ => false end.

(** ** Properties *)

(** Closes are classified consistently: an error chain is a clean close
    exactly when it contains an I/O or tunnel error and every one it contains
    is routine; a tunnel error is routine exactly when it is a handshake
    failure or an I/O error of a routine kind; and equal errors (compared by
    kind) are classified alike. *)
Theorem clean_close_spec chain :
  (is_clean_close chain = true <->
     Exists (fun c => recognized c = true) chain /\ Forall (fun c => cause_routine c = true) chain) /\
  (forall e, is_routine_core e = true <->
     (exists m, e = HandshakeFailed m) \/ (exists i, e = Io i /\ is_Some (routine_cause (io_kind i)))) /\
  (forall a b, error_equiv a b -> is_routine_core a = is_routine_core b).
Proof.
  split_and!.
  - unfold is_clean_close.
    assert (forall r, let (rc, cl) := clean_chain chain r in rc && cl = true <->
      (r = true \/ Exists (fun c => recognized c = true) chain) /\ Forall (fun c => cause_routine c = true) chain) as Hg.
    { induction chain as [|c chain IH]; intros r; cbn [clean_chain].
      - rewrite andb_true_r, Exists_nil, Forall_nil. tauto.
      - destruct (cause_routine c) eqn:Ec.
        + specialize (IH (r || recognized c)). destruct (clean_chain chain _) as [rc cl].
          rewrite IH, orb_true_iff, Exists_cons, Forall_cons. tauto.
        + rewrite andb_false_r, Forall_cons. split; [done|]. intros [_ [? _]]. congruence. }
    specialize (Hg false). destruct (clean_chain chain false). rewrite Hg. split; [intros [[?|?] ?]; done|tauto].
  - intros e. unfold is_routine_core, is_eof, is_routine_io.
    destruct e as [i| | | | | | | | | |]; try (split; [done|]; by intros [[? ?]|(? & ? & ?)]); [|split; [intros _; left; by eexists|done]].
    split.
    + intros Hr. right. exists i. split; [done|]. destruct (bool_decide (io_kind i = UnexpectedEof)) eqn:E.
      * apply bool_decide_eq_true in E as ->. by eexists.
      * by apply bool_decide_eq_true in Hr.
    + intros [[? ?]|(? & [= <-] & Hs)]; [done|]. destruct (bool_decide (io_kind i = UnexpectedEof)); [done|]. by apply bool_decide_eq_true.
  - intros a b Hab. unfold is_routine_core, is_eof, is_routine_io.
    destruct a, b; unfold error_equiv in Hab; simpl in Hab; try done. apply bool_decide_eq_true in Hab. by rewrite Hab.
Qed.
