(* ===== verification/Listen.v ===== *)
(** * Listening sockets ([crates/common/src/listen.rs])

    The system calls of [bind_listen] as a sequence that stops at the first one that
    fails; the calls themselves are the operating system's. *)
From S2P Require Import Prelude Errors.

Definition LISTEN_BACKLOG : Z := 4096.

(** Seconds of [set_defer_accept]. *)
Definition DEFER_ACCEPT_SECS : Z := 30.

Inductive SockCall := CSocket | CReuseAddress | CDeferAccept (secs : Z) | CBind | CListen (backlog : Z).

#[export] Instance SockCall_eq_dec : EqDecision SockCall.
Proof. solve_decision. Defined.

Inductive Platform := Linux | Windows | OtherUnix.

Section Bind.
(** What each call of the socket gives. *)
Context (sys : SockCall -> result io_error unit).

(** [call(..)?] and then the rest; the calls made are collected in order. *)
Definition try_call (c : SockCall) (rest : list SockCall * result io_error unit) : list SockCall * result io_error unit :=
  match sys c with
  | Ok _ => let (calls, r) := rest in (c :: calls, r)
  | Err e => ([c], Err e)
  end.

Definition bind_listen (p : Platform) : list SockCall * result io_error unit :=
  let rest := try_call CBind (try_call (CListen LISTEN_BACKLOG) ([], Ok tt)) in
  let rest := match p with Linux => try_call (CDeferAccept DEFER_ACCEPT_SECS) rest | _ => rest end in
  let rest := match p with Windows => rest | _ => try_call CReuseAddress rest end in
  try_call CSocket rest.
End Bind.

(** The calls of a platform when none fails. *)
Definition all_calls (p : Platform) : list SockCall :=
  match p with
  | Linux => [CSocket; CReuseAddress; CDeferAccept DEFER_ACCEPT_SECS; CBind; CListen LISTEN_BACKLOG]
  | Windows => [CSocket; CBind; CListen LISTEN_BACKLOG]
  | OtherUnix => [CSocket; CReuseAddress; CBind; CListen LISTEN_BACKLOG]
  end.

(** ** Properties *)

(** The listener is made by the platform's calls in order, every option before the
    bind, or by those up to the first that fails, whose error is returned. *)
Theorem bind_listen_exact sys p :
  match bind_listen sys p with
  | (calls, Ok _) => calls = all_calls p /\ Forall (fun c => sys c = Ok tt) calls
  | (calls, Err e) => exists before c after, calls = before ++ [c] /\ all_calls p = before ++ c :: after /\
      Forall (fun c => sys c = Ok tt) before /\ sys c = Err e
  end.
Proof.
  assert (forall cs calls r, fold_right (try_call sys) ([], Ok tt) cs = (calls, r) ->
    match r with
    | Ok _ => calls = cs /\ Forall (fun c => sys c = Ok tt) calls
    | Err e => exists before c after, calls = before ++ [c] /\ cs = before ++ c :: after /\
        Forall (fun c => sys c = Ok tt) before /\ sys c = Err e
    end) as Hfold.
  { induction cs as [|c cs IH]; intros calls r; cbn [fold_right]; [by intros [= <- <-]|].
    unfold try_call at 1. destruct (sys c) as [[]|e] eqn:Ec.
    - destruct (fold_right _ _ cs) as [calls' r'] eqn:E. specialize (IH _ _ eq_refl). intros [= <- <-]. destruct r' as [|e].
      + destruct IH as [-> Hf]. split; [done|by constructor].
      + destruct IH as (b & x & a & -> & -> & Hf & He). exists (c :: b), x, a. split; [done|]. split; [done|]. split; [by constructor|done].
    - intros [= <- <-]. exists [], c, cs. by split_and!. }
  assert (bind_listen sys p = fold_right (try_call sys) ([], Ok tt) (all_calls p)) as -> by (by destruct p).
  destruct (fold_right _ _ _) as [calls [[]|e]] eqn:E; exact (Hfold _ _ _ E).
Qed.

(** The address is reused everywhere but on Windows, before the bind. *)
Lemma reuse_before_bind p : p <> Windows <-> exists a b, all_calls p = a ++ CReuseAddress :: b /\ CBind ∈ b.
Proof.
  split.
  - intros Hp. destruct p; [|done|]; (eexists [_], _; split; [reflexivity|]); apply (bool_decide_unpack _); reflexivity.
  - intros (a & b & E & _) ->. assert (CReuseAddress ∈ all_calls Windows) as Hi by (rewrite E; apply elem_of_app; right; by left).
    assert (CReuseAddress ∉ all_calls Windows) as Hn by (apply (bool_decide_unpack _); reflexivity). done.
Qed.
