(* ===== verification/Tunnel.v ===== *)
(** * Tunnel drivers ([crates/common/src/tunnel.rs])

    The writer task, the incremental frame reader and the per-stream pumps.
    Asynchronous sources are explicit: a socket is the list of its read
    results (exhausted: end of file), a channel the list of its events, and the
    scheduling the code leaves open is a parameter the theorems quantify over. *)
From S2P Require Import Prelude Errors Env Base94Codec Base94 Cipher Binary KeyConfig Handshake Transmission Session Mux Pump.

Definition BUF_CAP : nat := (BASE94_MAX_FRAME + 64)%nat.
Definition PREFIX_MAX_FRAME : nat := BASE94_MAX_FRAME.
Definition WRITE_BATCH : nat := 32.

(** The buffer [pump_up] reads into. *)
Definition STREAM_CHUNK : Z := 16 * 1024.

Record OutFrame := OutF { of_header : bytes; of_payload : bytes }.

Definition OutFrame_new (kind : FrameKind) (stream : Z) (payload : bytes) : OutFrame :=
  OutF (FrameHeader_new kind stream) payload.
Definition OutFrame_bare (kind : FrameKind) (stream : Z) : OutFrame := OutFrame_new kind stream [].

(** The mux message a frame is sent as. *)
Definition message (f : OutFrame) : bytes := of_header f ++ of_payload f.

Inductive StreamEvent := SData (d : bytes) | SEof | SClose.

Inductive TxWire (R : Type) := TxSession (s : SessionTx R) | TxPrefix.
Arguments TxSession {R}.
Arguments TxPrefix {R}.

Section Writer.
Context `{CryptoBackend} `{Base94Codec} {R} `{Rng R}.

(** [TxWire::encode]: appends one wire message to [out]. *)
Definition encode (w : TxWire R) (out header payload : bytes) : result Error unit * (TxWire R * bytes) :=
  match w with
  | TxSession tx =>
      let '(res, (tx, out)) := stx_encrypt_into_prefixed tx out header payload in (res, (TxSession tx, out))
  | TxPrefix =>
      let total := (length header + length payload)%nat in
      if (total =? 0)%nat then (Err ZeroLength, (w, out))
      else if (PREFIX_MAX_FRAME <? total)%nat then (Err (FrameTooLarge (Z.of_nat total)), (w, out))
      else (Ok tt, (w, out ++ encode_varint (Z.of_nat total) ++ header ++ payload))
  end.

Fixpoint encode_all (w : TxWire R) (out : bytes) (frames : list OutFrame) : result Error unit * (TxWire R * bytes) :=
  match frames with
  | [] => (Ok tt, (w, out))
  | f :: frames =>
      match encode w out (of_header f) (of_payload f) with
      | (Ok _, (w, out)) => encode_all w out frames
      | (Err e, s) => (Err e, s)
      end
  end.

(** [run_writer]: [ready] tells how many further frames the channel holds each
    time a first one arrives; at most [WRITE_BATCH - 1] of them are coalesced
    into the same write.  The channel closes after [frames].  The result is the
    carrier after the final shutdown. *)
Fixpoint run_writer (fuel : nat) (wire : TxWire R) (sock : writer) (frames : list OutFrame) (ready : list nat) : writer :=
  match fuel, frames with
  | S fuel, first :: rest =>
      let n := (default 0%nat (head ready) `min` (WRITE_BATCH - 1))%nat in
      match encode_all wire [] (first :: take n rest) with
      | (Err _, _) => sock
      | (Ok _, (wire, out)) =>
          match write_all out sock with
          | (Err _, sock) => sock
          | (Ok _, sock) => run_writer fuel wire sock (drop n rest) (tail ready)
          end
      end
  | _, _ => sock
  end.
End Writer.

(** ** The frame reader *)

Inductive RxWire := RxSession (s : SessionRx) | RxPrefix.

(** [peek_prefix]. *)
Definition peek_prefix (buf : bytes) : result Error (option (nat * nat)) :=
  match decode_varint buf with
  | Some (len, vlen) =>
      if len =? 0 then Err ZeroLength
      else if (PREFIX_MAX_FRAME <? Z.to_nat len)%nat then Err (FrameTooLarge len)
      else Ok (Some (Z.to_nat len, vlen))
  | None => if (5 <=? length buf)%nat then Err InvalidFrame else Ok None
  end.

(** The results of the socket's reads, in order. *)
Inductive sock_event := SockData (d : bytes) | SockErr (e : io_error).

Record FrameReader := FReader { frd_wire : RxWire; frd_sock : list sock_event; frd_buf : bytes }.

Section Reader.
Context `{CryptoBackend} `{Base94Codec}.

(** The decoding half of one turn of the loop of [next]: a complete frame, which
    is drained off the buffer, or none yet. *)
Definition decode_step (wire : RxWire) (buf : bytes) : result Error (option bytes) * (RxWire * bytes) :=
  match wire with
  | RxSession session =>
      match poll_frame session buf with
      | (Ok (Some msg), (session, buf)) =>
          let (used, session) := take_consumed session in
          (Ok (Some msg), (RxSession session, drop used buf))
      | (Ok None, (session, buf)) => (Ok None, (RxSession session, buf))
      | (Err e, (session, buf)) => (Err e, (RxSession session, buf))
      end
  | RxPrefix =>
      match peek_prefix buf with
      | Err e => (Err e, (wire, buf))
      | Ok (Some (total, vlen)) =>
          if (vlen + total <=? length buf)%nat
          then (Ok (Some (take total (drop vlen buf))), (wire, drop (vlen + total) buf))
          else (Ok None, (wire, buf))
      | Ok None => (Ok None, (wire, buf))
      end
  end.

(** The loop of [FrameReader::next]: one turn per read of the socket. *)
Fixpoint next_loop (sock : list sock_event) (wire : RxWire) (buf : bytes) : result Error (option bytes) * FrameReader :=
  match decode_step wire buf with
  | (Err e, (wire, buf)) => (Err e, FReader wire sock buf)
  | (Ok (Some frame), (wire, buf)) => (Ok (Some frame), FReader wire sock buf)
  | (Ok None, (wire, buf)) =>
      if (BUF_CAP <? length buf)%nat then (Err InvalidFrame, FReader wire sock buf)
      else
        match sock with
        | [] => (Ok None, FReader wire [] buf)
        | SockErr e :: sock => (Err (Io e), FReader wire sock buf)
        | SockData d :: sock =>
            if (length d =? 0)%nat then (Ok None, FReader wire sock buf)
            else next_loop sock wire (buf ++ d)
        end
  end.

Definition next (r : FrameReader) : result Error (option bytes) * FrameReader :=
  next_loop (frd_sock r) (frd_wire r) (frd_buf r).

(** Read until the tunnel ends: at most [n] messages, and how it ended. *)
Fixpoint next_all (n : nat) (r : FrameReader) : list bytes * result Error (option bytes) * FrameReader :=
  match n with
  | O => ([], Ok None, r)
  | S n =>
      match next r with
      | (Ok (Some m), r) => let '(ms, e, r) := next_all n r in (m :: ms, e, r)
      | (e, r) => ([], e, r)
      end
  end.
End Reader.

(** ** Stream pumps *)

Inductive StreamEnd := Graceful | Closed (why : string) | Fault (e : string).

Definition StreamEnd_cause (e : StreamEnd) : string :=
  match e with Graceful => "eof" | Closed why => why | Fault e => e end.
Definition is_fault (e : StreamEnd) : bool := match e with Fault _ => true | _ => false end.
Definition is_graceful (e : StreamEnd) : bool := match e with Graceful => true | _ => false end.

(** How pumping a stream ended; [up] is the way from the local socket. *)
Record PumpOutcome := POut { po_up : Z; po_down : Z; po_end : StreamEnd }.

Inductive DirEnd := DEof | DClosed (why : string) | DFault (e : string).

Definition dir_graceful (d : DirEnd) : bool := match d with DEof => true | _ => false end.

Definition classify_io_end (err : io_error) : DirEnd :=
  match routine_cause (io_kind err) with
  | Some cause => DClosed cause
  | None => DFault (io_msg err)
  end.

(** The sending end of the tunnel's channel: what was queued, and how many more
    frames it takes before the tunnel is gone ([None]: never). *)
Record Chan := Ch { ch_sent : list OutFrame; ch_left : option nat }.

Definition send (c : Chan) (f : OutFrame) : bool * Chan :=
  match ch_left c with
  | Some O => (false, c)
  | Some (S n) => (true, Ch (ch_sent c ++ [f]) (Some n))
  | None => (true, Ch (ch_sent c ++ [f]) None)
  end.

(** [try_send]: never waits, so it also fails when the bounded channel is full. *)
Definition try_send (room : bool) (c : Chan) (f : OutFrame) : Chan := if room then snd (send c f) else c.

(** [pump_up]: the local reads (exhausted: [Ok(0)]), the end, the channel and the
    byte count. *)
Fixpoint pump_up (room : bool) (reads : list sock_event) (stream : Z) (out : Chan) (count : Z) : DirEnd * (Chan * Z) :=
  match reads with
  | [] =>
      let (ok, out) := send out (OutFrame_bare Eof stream) in
      ((if ok then DEof else DClosed "tunnel closed"), (out, count))
  | SockData d :: reads =>
      if (length d =? 0)%nat then
        let (ok, out) := send out (OutFrame_bare Eof stream) in
        ((if ok then DEof else DClosed "tunnel closed"), (out, count))
      else
        let (ok, out) := send out (OutFrame_new Data stream d) in
        if ok then pump_up room reads stream out (count + Z.of_nat (length d))
        else (DClosed "tunnel closed", (out, count))
  | SockErr e :: _ => (classify_io_end e, (try_send room out (OutFrame_bare Close stream), count))
  end.

(** [pump_down]: the stream's events (exhausted: the channel is closed), the local
    socket and whether its write side was shut down.  [room]: whether the
    channel has room when a [CLOSE] is tried. *)
Fixpoint pump_down (room : bool) (events : list StreamEvent) (wr : writer) (stream : Z) (out : Chan) (count : Z)
    : DirEnd * (writer * bool * Chan * Z) :=
  match events with
  | [] => (DClosed "tunnel closed", (wr, false, out, count))
  | SData d :: events =>
      match write_all d wr with
      | (Err (Io e), wr) => (classify_io_end e, (wr, false, try_send room out (OutFrame_bare Close stream), count))
      | (Err _, wr) => (DClosed "tunnel closed", (wr, false, out, count))
      | (Ok _, wr) => pump_down room events wr stream out (count + Z.of_nat (length d))
      end
  | SEof :: _ => (DEof, (wr, true, out, count))
  | SClose :: _ => (DClosed "peer reset", (wr, false, out, count))
  end.

(** A frame the pumps of a stream queue: DATA with what one read of the local socket
    gave, EOF or CLOSE. *)
Definition pump_frame (stream : Z) (f : OutFrame) : bool :=
  (bool_decide (of_header f = FrameHeader_new Data stream) &&
     ((1 <=? Z.of_nat (length (of_payload f))) && (Z.of_nat (length (of_payload f)) <=? STREAM_CHUNK) && wf_bytesb (of_payload f))) ||
  (existsb (fun k => bool_decide (of_header f = FrameHeader_new k stream)) [Eof; Close] && bool_decide (of_payload f = [])).

(** The result of joining a direction's task. *)
Inductive Join := Finished (d : DirEnd) | Cancelled | Panicked.

Definition join_dir (r : Join) : DirEnd :=
  match r with
  | Finished d => d
  | Cancelled => DClosed "aborted"
  | Panicked => DFault "stream pump panicked"
  end.

(** The [select!] of [pump_stream]: the direction that finished first, and what
    joining the sibling gives when it is left running and when it is aborted. *)
Definition select_ends (first : Join) (sibling_running sibling_aborted : Join) : DirEnd * DirEnd :=
  let e := join_dir first in
  if dir_graceful e then (e, join_dir sibling_running) else (e, join_dir sibling_aborted).

Definition stream_end (up_end down_end : DirEnd) : StreamEnd :=
  match up_end, down_end with
  | DEof, DEof => Graceful
  | DFault e, _ => Fault e
  | _, DFault e => Fault e
  | DClosed c, _ => Closed c
  | _, DClosed c => Closed c
  end.

Definition pump_stream_end (up_first : bool) (first running aborted : Join) : StreamEnd :=
  let (a, b) := select_ends first running aborted in
  if up_first then stream_end a b else stream_end b a.

Lemma pump_frame_cases stream f : pump_frame stream f = true ->
  (exists d, f = OutFrame_new Data stream d /\ 1 <= Z.of_nat (length d) <= STREAM_CHUNK /\ wf_bytes d) \/
  (exists k, (k = Eof \/ k = Close) /\ f = OutFrame_bare k stream).
Proof.
  unfold pump_frame. destruct f as [h p]. cbn [of_header of_payload].
  intros [[Eh%bool_decide_eq_true [[H1%Z.leb_le H2%Z.leb_le]%andb_prop Hw]%andb_prop]%andb_prop|
    [(k & Hk & E)%existsb_exists Ep%bool_decide_eq_true]%andb_prop]%orb_prop.
  - left. exists p. split; [by rewrite Eh|]. split; [lia|by apply wf_bytes_eval].
  - right. apply bool_decide_eq_true in E. exists k. split; [destruct Hk as [<-|[<-|[]]]; auto|]. by rewrite E, Ep.
Qed.

Lemma pump_frame_close stream : pump_frame stream (OutFrame_bare Close stream) = true.
Proof.
  unfold pump_frame. apply orb_true_intro. right. apply andb_true_intro. split; [|done]. apply existsb_exists.
  exists Close. split; [by right; left|by apply bool_decide_eq_true].
Qed.

Lemma pump_frame_new stream f : pump_frame stream f = true ->
  exists k, (k = Data \/ k = Eof \/ k = Close) /\ f = OutFrame_new k stream (of_payload f).
Proof.
  intros [(d & -> & _)|(k & Hk & ->)]%pump_frame_cases; [exists Data|exists k]; (split; [tauto|done]).
Qed.

(** ** The writer is schedule-independent *)

Section WriterLemmas.
Context `{CryptoBackend} `{Base94Codec} {R} `{Rng R}.
Implicit Types w : TxWire R.

Lemma encode_frame_appends (f : Base94Framer) (rng : R) out b :
  encode_frame f rng out b = let '(r, (f, rng, o)) := encode_frame f rng [] b in (r, (f, rng, out ++ o)).
Proof.
  unfold encode_frame. destruct (length b =? 0)%nat; [by rewrite app_nil_r|].
  destruct (BASE94_MAX_FRAME <? _)%nat; [by rewrite app_nil_r|].
  destruct (encode_header f rng _) as [[h|e] [f' rng']]; [done|by rewrite app_nil_r].
Qed.

Lemma encrypt_impl_appends (t : TxCore R) out prefix payload :
  encrypt_impl t out prefix payload =
    let '(r, (t, o)) := encrypt_impl t [] prefix payload in (r, (t, out ++ o)).
Proof.
  unfold encrypt_impl. cbv zeta. destruct (_ =? 0)%nat; [by rewrite app_nil_r|].
  destruct (PPP_BUFFER_SIZE <? _)%nat; [by rewrite app_nil_r|].
  destruct (header_encrypt _ _ _ _) as [[[h hkf]|e] [rng p]]; [|by rewrite app_nil_r].
  destruct (apply _ _) as [body tr]. destruct (base94_mode _ _); [|done].
  rewrite encode_frame_appends. by destruct (encode_frame _ rng [] _) as [r [[f' rng'] o]].
Qed.

Lemma encode_appends w out h p :
  encode w out h p = let '(r, (w, o)) := encode w [] h p in (r, (w, out ++ o)).
Proof.
  destruct w as [[t]|]; cbn [encode].
  - unfold stx_encrypt_into_prefixed, encrypt_into_prefixed. cbn [stx_core]. rewrite encrypt_impl_appends.
    by destruct (encrypt_impl t [] h p) as [r [t' o]].
  - destruct (_ =? 0)%nat; [by rewrite app_nil_r|]. destruct (PREFIX_MAX_FRAME <? _)%nat; [by rewrite app_nil_r|done].
Qed.

Lemma encode_all_appends w out fs :
  encode_all w out fs = let '(r, (w, o)) := encode_all w [] fs in (r, (w, out ++ o)).
Proof.
  revert w out. induction fs as [|f fs IH]; intros w out; [simpl; by rewrite app_nil_r|]. cbn [encode_all].
  rewrite encode_appends. destruct (encode w [] (of_header f) (of_payload f)) as [[[]|e] [w' o]]; [|done].
  rewrite IH, (IH w' o). destruct (encode_all w' [] fs) as [r [w'' o']]. by rewrite app_assoc.
Qed.

Lemma encode_all_app w fs1 fs2 w1 o1 :
  encode_all w [] fs1 = (Ok tt, (w1, o1)) ->
  encode_all w [] (fs1 ++ fs2) = let '(r, (w2, o2)) := encode_all w1 [] fs2 in (r, (w2, o1 ++ o2)).
Proof.
  revert w w1 o1. induction fs1 as [|f fs1 IH]; intros w w1 o1 E; cbn [encode_all app] in *.
  { injection E as -> <-. by destruct (encode_all w1 [] fs2) as [r [w2 o2]]. }
  destruct (encode w [] (of_header f) (of_payload f)) as [[[]|e] [w' o]]; [|done].
  rewrite encode_all_appends in E. destruct (encode_all w' [] fs1) as [r [w1' o1']] eqn:E1. injection E as -> -> <-.
  rewrite encode_all_appends, (IH w' w1 o1' E1). destruct (encode_all w1 [] fs2) as [r2 [w2 o2]]. by rewrite app_assoc.
Qed.

Lemma encode_all_split w fs1 fs2 w2 o :
  encode_all w [] (fs1 ++ fs2) = (Ok tt, (w2, o)) ->
  exists w1 o1 o2, encode_all w [] fs1 = (Ok tt, (w1, o1)) /\ encode_all w1 [] fs2 = (Ok tt, (w2, o2)) /\ o = o1 ++ o2.
Proof.
  intros E. assert (exists w1 o1, encode_all w [] fs1 = (Ok tt, (w1, o1))) as (w1 & o1 & E1).
  { revert w o E. induction fs1 as [|f fs1 IH]; intros w o E; cbn [encode_all app] in *; [by eexists _, _|].
    destruct (encode w [] (of_header f) (of_payload f)) as [[[]|e] [w' o']]; [|done].
    rewrite encode_all_appends in E. destruct (encode_all w' [] (fs1 ++ fs2)) as [r [w1' o1']] eqn:E1. injection E as -> -> <-.
    destruct (IH _ _ E1) as (w1 & o1 & E2). rewrite encode_all_appends, E2. by eexists _, _. }
  rewrite (encode_all_app _ _ _ _ _ E1) in E. destruct (encode_all w1 [] fs2) as [r [w2' o2]] eqn:E2.
  injection E as -> -> <-. by exists w1, o1, o2.
Qed.

Lemma run_writer_ok fuel w sock fs ready w' o :
  encode_all w [] fs = (Ok tt, (w', o)) -> wr_err sock = None -> (length fs ≤ fuel)%nat ->
  run_writer fuel w sock fs ready = Writer (wr_out sock ++ o) None.
Proof.
  revert w sock fs ready o. induction fuel as [|fuel IH]; intros w sock fs ready o E Hs Hf;
    (destruct fs as [|f fs]; [injection E as <- <-; destruct sock; simpl in *; subst; by rewrite app_nil_r|]); [simpl in Hf; lia|].
  cbn [run_writer]. set (n := (_ `min` _)%nat).
  rewrite <- (take_drop n fs), app_comm_cons in E.
  destruct (encode_all_split _ _ _ _ _ E) as (w1 & o1 & o2 & -> & E2 & ->).
  unfold write_all. rewrite Hs. rewrite (IH _ _ _ _ _ E2); [|done|rewrite length_drop; simpl in Hf; lia].
  cbn [wr_out]. by rewrite app_assoc.
Qed.

(** A session wire encodes as the transmission does. *)
Lemma encode_all_session (t : TxCore R) out fs :
  encode_all (TxSession (STx t)) out fs =
    let '(r, (t, o)) := encrypt_msgs t out (map (fun f => (of_header f, of_payload f)) fs) in (r, (TxSession (STx t), o)).
Proof.
  revert t out. induction fs as [|f fs IH]; intros t out; [done|]. cbn [encode_all map encrypt_msgs encode].
  unfold stx_encrypt_into_prefixed, encrypt_into_prefixed. cbn [stx_core].
  destruct (encrypt_impl t out (of_header f) (of_payload f)) as [[[]|e] [t' o]]; [|done]. apply IH.
Qed.
End WriterLemmas.

(** ** The reader is chunking-independent *)

#[local] Opaque BASE94_MAX_FRAME PPP_BUFFER_SIZE.

Section ReaderLemmas.
Context `{CryptoLaws} `{Base94Laws}.

(** What the loop of [next] needs from a wire codec: [P w buf fut ms], "holding
    [buf] and about to receive [fut], [w] will deliver [ms]". *)
Record wire_law (P : RxWire -> bytes -> bytes -> list bytes -> Prop) : Prop := {
  wire_step w buf fut ms : P w buf fut ms ->
    (exists w' buf', decode_step w buf = (Ok None, (w', buf')) /\ P w' buf' fut ms /\
       (length buf' ≤ BUF_CAP)%nat /\ (fut = [] -> ms = [])) \/
    (exists m ms' w' buf', ms = m :: ms' /\ decode_step w buf = (Ok (Some m), (w', buf')) /\ P w' buf' fut ms');
  wire_extend w buf c fut ms : P w buf (c ++ fut) ms -> P w (buf ++ c) fut ms
}.

Lemma next_delivers P w buf chunks m ms :
  wire_law P -> Forall (fun c => c <> []) chunks -> P w buf (concat chunks) (m :: ms) ->
  exists w' buf' chunks', next (FReader w (map SockData chunks) buf) = (Ok (Some m), FReader w' (map SockData chunks') buf') /\
    P w' buf' (concat chunks') ms /\ Forall (fun c => c <> []) chunks'.
Proof.
  intros HP Hne. unfold next. cbn [frd_sock frd_wire frd_buf]. revert w buf.
  induction Hne as [|c chunks Hc Hne IH]; intros w buf Hp; cbn [map next_loop];
    destruct (wire_step P HP _ _ _ _ Hp) as [(w' & b' & -> & Hp' & Hcap & Hend)|(m' & ms' & w' & b' & [= <- <-] & -> & Hp')].
  - specialize (Hend eq_refl). done.
  - by exists w', b', [].
  - destruct (Nat.ltb_spec BUF_CAP (length b')); [lia|].
    destruct (Nat.eqb_spec (length c) 0) as [E|]; [by apply nil_length_inv in E|].
    apply IH. by apply (wire_extend P HP).
  - exists w', b', (c :: chunks). split; [done|]. split; [done|]. by constructor.
Qed.

Lemma next_ends P w buf chunks :
  wire_law P -> Forall (fun c => c <> []) chunks -> P w buf (concat chunks) [] ->
  exists w' buf', next (FReader w (map SockData chunks) buf) = (Ok None, FReader w' [] buf') /\ P w' buf' [] [].
Proof.
  intros HP Hne. unfold next. cbn [frd_sock frd_wire frd_buf]. revert w buf.
  induction Hne as [|c chunks Hc Hne IH]; intros w buf Hp; cbn [map next_loop];
    destruct (wire_step P HP _ _ _ _ Hp) as [(w' & b' & -> & Hp' & Hcap & Hend)|(m' & ms' & w' & b' & E & _)]; try done;
    (destruct (Nat.ltb_spec BUF_CAP (length b')); [lia|]).
  - by exists w', b'.
  - destruct (Nat.eqb_spec (length c) 0) as [E|]; [by apply nil_length_inv in E|].
    apply IH. by apply (wire_extend P HP).
Qed.

Lemma next_all_ok P w buf chunks ms :
  wire_law P -> Forall (fun c => c <> []) chunks -> P w buf (concat chunks) ms ->
  exists r, next_all (S (length ms)) (FReader w (map SockData chunks) buf) = (ms, Ok None, r) /\
    frd_sock r = [] /\ P (frd_wire r) (frd_buf r) [] [].
Proof.
  intros HP Hne. revert w buf chunks Hne. induction ms as [|m ms IH]; intros w buf chunks Hne Hp.
  - cbn [next_all length]. destruct (next_ends P w buf chunks HP Hne Hp) as (w' & b' & -> & Hp').
    by exists (FReader w' [] b').
  - cbn [length]. remember (S (length ms)) as k eqn:Ek. cbn [next_all].
    destruct (next_delivers P w buf chunks m ms HP Hne Hp) as (w' & b' & chunks' & -> & Hp' & Hne'). subst k.
    destruct (IH w' b' chunks' Hne' Hp') as (r & -> & ?). by exists r.
Qed.

(** Session framing. *)
Definition session_awaits (r' : RxCore) (w : RxWire) (buf fut : bytes) (ms : list bytes) : Prop :=
  exists s, w = RxSession s /\ awaits s buf fut ms r'.

Lemma frame_cap_buf : frame_cap = BUF_CAP.
Proof. unfold frame_cap, BUF_CAP. exact eq_refl. Qed.

Lemma session_wire_law r' : wire_law (session_awaits r').
Proof.
  split.
  - intros w buf fut ms (s & -> & Ha). cbn [decode_step].
    destruct (awaits_poll s buf fut ms r' Ha) as [(s' & b' & -> & Ha' & Hc & He)|(m & ms' & s' & b' & -> & Hm & -> & Ha')].
    + left. exists (RxSession s'), b'. split; [reflexivity|]. split; [by exists s'|].
      rewrite frame_cap_buf in Hc. split; [exact Hc|intros E; by apply He].
    + right. exists m, ms'. destruct (take_consumed s') as [used s''] eqn:Et.
      exists (RxSession s''), (drop used b'). split; [reflexivity|]. split; [reflexivity|]. by exists s''.
  - intros w buf c fut ms (s & -> & Ha). exists s. split; [done|by apply awaits_extend].
Qed.

(** Prefix framing. *)
Definition prefix_frame (m : bytes) : bytes := encode_varint (Z.of_nat (length m)) ++ m.

Definition prefix_awaits (w : RxWire) (buf fut : bytes) (ms : list bytes) : Prop :=
  w = RxPrefix /\ Forall (fun m => 1 ≤ length m ≤ PREFIX_MAX_FRAME)%nat ms /\ buf ++ fut = concat (map prefix_frame ms).

Lemma prefix_wire_law : wire_law prefix_awaits.
Proof.
  split; [|intros w buf c fut ms (-> & Hm & E); split_and!; [done|done|by rewrite <- app_assoc]].
  intros w buf fut ms (-> & Hm & E). cbn [decode_step]. destruct ms as [|m ms].
  { apply app_nil in E as [-> ->]. left. exists RxPrefix, []. split; [done|]. split; [by split_and!|]. split; [apply Nat.le_0_l|done]. }
  apply Forall_cons in Hm as [Hm Hms]. cbn [map concat] in E. unfold prefix_frame at 1 in E.
  set (L := Z.of_nat (length m)) in *.
  assert (is_u32 L) as HL by (pose proof (frame_len_bound (length m) (proj2 Hm)); unfold L; lia).
  destruct (encode_varint_ok L [] HL) as (_ & Hvl & _).
  destruct (prefix_cases _ _ _ _ E) as [Hge Hlt].
  assert (forall x, decode_varint (encode_varint L ++ x) = Some (L, length (encode_varint L))) as Hdec
    by (intros x; by apply encode_varint_ok).
  assert (length (encode_varint L ++ m) = (length (encode_varint L) + length m)%nat) as Hfl by apply length_app.
  assert (forall x, peek_prefix (encode_varint L ++ x) = Ok (Some (length m, length (encode_varint L)))) as Hpeek.
  { intros x. unfold peek_prefix. rewrite Hdec. destruct (Z.eqb_spec L 0); [unfold L in *; lia|].
    assert (Z.to_nat L = length m) as -> by (unfold L; lia).
    destruct (Nat.ltb_spec PREFIX_MAX_FRAME (length m)); [lia|done]. }
  destruct (decide (length (encode_varint L ++ m) ≤ length buf)%nat) as [Hc|Hc].
  - right. destruct (Hge Hc) as (x & -> & Hx). rewrite <- app_assoc, Hpeek, app_assoc.
    rewrite (proj2 (Nat.leb_le _ _)) by (rewrite length_app; lia).
    exists m, ms, RxPrefix, x. split; [done|]. split; [|by split_and!].
    rewrite <- Hfl, drop_app_length. do 2 f_equal. by rewrite <- app_assoc, drop_app_length, take_app_length.
  - left. exists RxPrefix, buf. split; [|split; [split; [done|split; [by apply Forall_cons|exact E]]|split]].
    + destruct (Hlt ltac:(lia)) as (x & Hx & Hxne & Hfut).
      destruct (decide (length (encode_varint L) ≤ length buf)%nat) as [Hv|Hv].
      * destruct (prefix_cases _ _ _ _ Hx) as [_ Hlt2]. symmetry in Hx.
        destruct (prefix_cases _ _ _ _ Hx) as [Hge2 _]. destruct (Hge2 Hv) as (y & -> & _).
        rewrite Hpeek. by rewrite (proj2 (Nat.leb_gt _ _)) by lia.
      * assert (decode_varint buf = None) as Hnone.
        { apply (decode_varint_prefix L); [done| |intros ->; lia]. symmetry in Hx.
          destruct (prefix_cases _ _ _ _ Hx) as [_ Hl2]. destruct (Hl2 ltac:(lia)) as (y & Hy & _). by exists y. }
        unfold peek_prefix. rewrite Hnone. by rewrite (proj2 (Nat.leb_gt _ _)) by lia.
    + unfold BUF_CAP, PREFIX_MAX_FRAME in *. lia.
    + intros ->. apply (f_equal length) in E. rewrite app_nil_r, length_app in E. lia.
Qed.
End ReaderLemmas.

(** ** Whole tunnels *)

(** A mux frame as the pumps queue it. *)
Definition MuxFrame : Type := FrameKind * Z * bytes.
Definition out_frame (f : MuxFrame) : OutFrame := let '(k, s, p) := f in OutFrame_new k s p.
Definition mux_message (f : MuxFrame) : bytes := of_header (out_frame f) ++ of_payload (out_frame f).

(** Frames the tunnel can carry: a [u32] stream id and a payload that fits one
    frame together with its header. *)
Definition mux_ok (limit : nat) (f : MuxFrame) : Prop :=
  let '(k, s, p) := f in is_u32 s /\ wf_bytes p /\ (length (FrameHeader_new k s) + length p ≤ limit)%nat.

Lemma mux_message_parse limit f : mux_ok limit f -> parse_frame (mux_message f) = Ok f.
Proof. destruct f as [[k s] p]. intros (Hs & _). by apply parse_frame_header. Qed.

Lemma mux_messages_parse limit fs : Forall (mux_ok limit) fs -> map parse_frame (map mux_message fs) = map Ok fs.
Proof.
  induction 1 as [|f fs Hf Hfs IH]; [done|]. cbn [map]. by rewrite IH, (mux_message_parse limit).
Qed.

Lemma mux_message_length f : (mux_ok PPP_BUFFER_SIZE f -> msg_ok (of_header (out_frame f), of_payload (out_frame f))) /\
  (forall limit, mux_ok limit f -> 1 ≤ length (mux_message f) ≤ limit)%nat.
Proof.
  destruct f as [[k s] p]. split.
  - intros (Hs & Hp & Hl). pose proof (header_length k s Hs). cbn [out_frame OutFrame_new of_header of_payload]. split; cbn [fst snd].
    + auto using wf_bytes_app_2, header_wf.
    + rewrite length_app. lia.
  - intros limit (Hs & Hp & Hl). pose proof (header_length k s Hs). unfold mux_message. cbn [out_frame OutFrame_new of_header of_payload]. rewrite length_app. lia.
Qed.

Section Tunnels.
Context `{CryptoLaws} `{Base94Laws} {R} `{RngLaws R}.

Lemma prefix_encode_all out fs : Forall (mux_ok PREFIX_MAX_FRAME) fs ->
  encode_all (@TxPrefix R) out (map out_frame fs) = (Ok tt, (TxPrefix, out ++ concat (map prefix_frame (map mux_message fs)))).
Proof.
  intros Hf. revert out. induction Hf as [|f fs Hf Hfs IH]; intros out; cbn [map encode_all concat]; [by rewrite app_nil_r|].
  pose proof (proj2 (mux_message_length f) _ Hf) as Hl. unfold mux_message in Hl. rewrite length_app in Hl.
  cbn [encode]. destruct (Nat.eqb_spec (length (of_header (out_frame f)) + length (of_payload (out_frame f))) 0); [lia|].
  destruct (Nat.ltb_spec PREFIX_MAX_FRAME (length (of_header (out_frame f)) + length (of_payload (out_frame f)))); [lia|].
  rewrite IH. unfold prefix_frame, mux_message. cbn [map concat]. by rewrite length_app, <- !app_assoc.
Qed.

Lemma session_tunnel t r fs :
  in_sync t r -> Forall (mux_ok PPP_BUFFER_SIZE) fs ->
  exists wire, (forall ready, run_writer (length fs) (TxSession (STx t)) (Writer [] None) (map out_frame fs) ready = Writer wire None) /\
    forall chunks, Forall (fun c => c <> []) chunks -> concat chunks = wire ->
      exists rd, next_all (S (length fs)) (FReader (RxSession (SRx r None 0)) (map SockData chunks) []) =
        (map mux_message fs, Ok None, rd).
Proof.
  intros Hs Hf.
  assert (Forall msg_ok (map (fun f => (of_header f, of_payload f)) (map out_frame fs))) as Hm.
  { rewrite map_map. apply Forall_map. eapply Forall_impl; [exact Hf|]. intros f. apply mux_message_length. }
  destruct (encrypt_stream t r [] _ Hs Hm) as (t' & r' & wire & E & _ & Hst). rewrite app_nil_l in E.
  exists wire. split.
  - intros ready. rewrite (run_writer_ok _ _ _ _ _ (TxSession (STx t')) wire); [done| |done|by rewrite length_map].
    by rewrite encode_all_session, E.
  - intros chunks Hne Hc.
    assert (map (fun m : bytes * bytes => fst m ++ snd m) (map (fun f => (of_header f, of_payload f)) (map out_frame fs)) = map mux_message fs) as Hmm
      by (by rewrite !map_map).
    rewrite Hmm in Hst. rewrite <- (length_map mux_message fs).
    destruct (next_all_ok (session_awaits r') (RxSession (SRx r None 0)) [] chunks (map mux_message fs) (session_wire_law r') Hne)
      as (rd & Hrd & _).
    { exists (SRx r None 0). split; [done|]. constructor. by rewrite Hc. }
    by exists rd.
Qed.

Lemma prefix_tunnel fs :
  Forall (mux_ok PREFIX_MAX_FRAME) fs ->
  exists wire, (forall ready, run_writer (length fs) (@TxPrefix R) (Writer [] None) (map out_frame fs) ready = Writer wire None) /\
    forall chunks, Forall (fun c => c <> []) chunks -> concat chunks = wire ->
      exists rd, next_all (S (length fs)) (FReader RxPrefix (map SockData chunks) []) = (map mux_message fs, Ok None, rd).
Proof.
  intros Hf. exists (concat (map prefix_frame (map mux_message fs))). split.
  - intros ready. rewrite (run_writer_ok _ _ _ _ _ TxPrefix (concat (map prefix_frame (map mux_message fs))));
      [done|by apply prefix_encode_all|done|by rewrite length_map].
  - intros chunks Hne Hc. rewrite <- (length_map mux_message fs).
    destruct (next_all_ok prefix_awaits RxPrefix [] chunks (map mux_message fs) prefix_wire_law Hne) as (rd & Hrd & _); [|by exists rd].
    split; [done|]. split; [|by rewrite Hc].
    apply Forall_map. eapply Forall_impl; [exact Hf|]. intros f Hff. by apply (mux_message_length f).
Qed.
End Tunnels.

Lemma pump_up_relay room ds stream sent count :
  Forall (fun d => d <> []) ds ->
  pump_up room (map SockData ds) stream (Ch sent None) count =
    (DEof, (Ch (sent ++ map (OutFrame_new Data stream) ds ++ [OutFrame_bare Eof stream]) None,
            count + Z.of_nat (length (concat ds)))).
Proof.
  intros Hd. revert sent count. induction Hd as [|d ds Hd Hds IH]; intros sent count; cbn [map pump_up].
  { simpl. by rewrite Z.add_0_r. }
  destruct (Nat.eqb_spec (length d) 0) as [E|]; [by apply nil_length_inv in E|]. cbn [send ch_left ch_sent].
  rewrite IH. cbn [concat]. by rewrite length_app, <- app_assoc, Nat2Z.inj_add, Z.add_assoc.
Qed.

Lemma pump_down_relay room ds wr stream out count :
  wr_err wr = None ->
  pump_down room (map SData ds ++ [SEof]) wr stream out count =
    (DEof, (Writer (wr_out wr ++ concat ds) None, true, out, count + Z.of_nat (length (concat ds)))).
Proof.
  revert wr count. induction ds as [|d ds IH]; intros wr count Hw; cbn [map app pump_down].
  { destruct wr. simpl in *. subst. by rewrite app_nil_r, Z.add_0_r. }
  unfold write_all. rewrite Hw, IH by done. cbn [wr_out concat]. by rewrite length_app, app_assoc, Nat2Z.inj_add, Z.add_assoc.
Qed.

#[local] Existing Instance Doc.codec.
#[local] Existing Instance Doc.laws.
#[local] Existing Instance Toy.backend.
#[local] Existing Instance Toy.toy_laws.

(** ** Properties *)

(** A session tunnel delivers: when the writer task and the reader of a
    direction are in step, every sequence of mux frames that fit a session
    frame is written as one byte string that does not depend on how the writer
    task happened to batch its channel, and the peer's [FrameReader], fed that
    string in any non-empty pieces, yields exactly those messages in order and
    then the clean end of the tunnel; each message parses back to its kind,
    stream id and payload. *)
Theorem session_tunnel_delivers `{CryptoLaws} `{Base94Laws} {R} `{RngLaws R} (t : TxCore R) r fs :
  in_sync t r -> Forall (mux_ok PPP_BUFFER_SIZE) fs ->
  exists wire, (forall ready, run_writer (length fs) (TxSession (STx t)) (Writer [] None) (map out_frame fs) ready = Writer wire None) /\
    (forall chunks, Forall (fun c => c <> []) chunks -> concat chunks = wire ->
      exists rd, next_all (S (length fs)) (FReader (RxSession (SRx r None 0)) (map SockData chunks) []) =
        (map mux_message fs, Ok None, rd)) /\
    map parse_frame (map mux_message fs) = map Ok fs.
Proof.
  intros Hs Hf. destruct (session_tunnel t r fs Hs Hf) as (wire & Hwr & Hrd).
  exists wire. split; [exact Hwr|]. split; [exact Hrd|]. by eapply mux_messages_parse.
Qed.

Lemma session_tunnel_delivers_witness :
  exists wire, run_writer 2 (TxSession (STx (tx_new quiet_key ([9; 9] : tape)))) (Writer [] None)
      (map out_frame [(Open, 300, [1; 2; 3]); (Eof, 300, [])]) [1%nat] = Writer wire None /\
    exists rd, next_all 3 (FReader (RxSession (SRx (rx_new quiet_key) None 0)) (map SockData (map (fun b => [b]) wire)) []) =
      (map mux_message [(Open, 300, [1; 2; 3]); (Eof, 300, [])], Ok None, rd).
Proof.
  destruct (session_tunnel_delivers (tx_new quiet_key ([9; 9] : tape)) (rx_new quiet_key) [(Open, 300, [1; 2; 3]); (Eof, 300, [])])
    as (wire & H1 & H2 & _).
  - exact (sync_new quiet_key ([9; 9] : tape)).
  - apply Forall_cons; split; [|apply Forall_cons; split; [|by apply Forall_nil]];
      (split; [lia|split; [by apply wf_bytes_eval|apply Nat.leb_le; vm_compute; reflexivity]]).
  - exists wire. split; [exact (H1 [1%nat])|]. apply H2.
    + apply Forall_map, Forall_forall. intros x _. discriminate.
    + clear. induction wire as [|x wire IH]; [reflexivity|]. simpl. by rewrite IH.
Defined.

(** The same for a bonded carrier's length-prefix framing, up to its larger
    frame limit. *)
Theorem prefix_tunnel_delivers `{CryptoLaws} `{Base94Laws} {R} `{RngLaws R} fs :
  Forall (mux_ok PREFIX_MAX_FRAME) fs ->
  exists wire, (forall ready, run_writer (length fs) (@TxPrefix R) (Writer [] None) (map out_frame fs) ready = Writer wire None) /\
    (forall chunks, Forall (fun c => c <> []) chunks -> concat chunks = wire ->
      exists rd, next_all (S (length fs)) (FReader RxPrefix (map SockData chunks) []) = (map mux_message fs, Ok None, rd)) /\
    map parse_frame (map mux_message fs) = map Ok fs.
Proof.
  intros Hf. destruct (prefix_tunnel (R := R) fs Hf) as (wire & Hwr & Hrd).
  exists wire. split; [exact Hwr|]. split; [exact Hrd|]. by eapply mux_messages_parse.
Qed.

Lemma prefix_tunnel_delivers_witness :
  exists rd, next_all 2 (FReader RxPrefix (map SockData [[5; 2]; [7; 9; 9]; [9]]) []) = ([[2; 7; 9; 9; 9]], Ok None, rd).
Proof.
  destruct (prefix_tunnel_delivers (R := tape) [(Data, 7, [9; 9; 9])]) as (wire & H1 & H2 & _).
  - apply Forall_cons; split; [|by apply Forall_nil].
    split; [lia|split; [by apply wf_bytes_eval|apply Nat.leb_le; vm_compute; reflexivity]].
  - apply (H2 [[5; 2]; [7; 9; 9]; [9]]).
    + repeat (apply Forall_cons; split; [discriminate|]). by apply Forall_nil.
    + specialize (H1 []). vm_compute in H1. injection H1 as <-. reflexivity.
Defined.

(** The end of file inside a frame is not told from a clean end: whenever
    the decoder needs more bytes and the socket is exhausted, [next] returns
    [Ok(None)], even though the rest of a message (a non-empty [fut]) was never
    received. *)
Theorem next_eof_inside_frame `{CryptoLaws} `{Base94Laws} s buf fut m ms r' :
  awaits s buf fut (m :: ms) r' ->
  (forall s' buf' m', poll_frame s buf <> (Ok (Some m'), (s', buf'))) ->
  fut <> [] /\ exists rd, next (FReader (RxSession s) [] buf) = (Ok None, rd).
Proof.
  intros Ha Hnone.
  destruct (awaits_poll s buf fut (m :: ms) r' Ha) as [(s' & b' & Hp & Ha' & Hc & He)|(m' & ms' & s' & b' & _ & _ & Hp & _)].
  - split; [intros E; by destruct (He E)|]. unfold next. cbn [frd_sock frd_wire frd_buf next_loop decode_step]. rewrite Hp.
    rewrite frame_cap_buf in Hc. rewrite (proj2 (Nat.ltb_ge _ _)) by done. by eexists.
  - by destruct (Hnone _ _ _ Hp).
Qed.

Lemma next_eof_inside_frame_witness :
  exists x rd, next (FReader (RxSession (SRx (rx_new quiet_key) None 0)) [] [x]) = (Ok None, rd).
Proof.
  destruct (encrypt_stream (tx_new quiet_key ([9; 9] : tape)) (rx_new quiet_key) [] [([1], [2; 3])])
    as (t' & r' & wire & _ & _ & Hst).
  - exact (sync_new quiet_key ([9; 9] : tape)).
  - apply Forall_cons; split; [|by apply Forall_nil].
    split; [by apply wf_bytes_eval|split; apply Nat.leb_le; vm_compute; reflexivity].
  - destruct wire as [|x wire].
    { exfalso. destruct Hst as (f & w2 & r1 & Ew & Hf & _). symmetry in Ew. apply app_nil in Ew as [-> _].
      exact (frame_nonempty _ _ _ _ Hf eq_refl). }
    destruct (next_eof_inside_frame (SRx (rx_new quiet_key) None 0) [x] wire [1; 2; 3] [] r') as [_ [rd Hrd]].
    + constructor. exact Hst.
    + intros s' b' m' Hp. vm_compute in Hp. discriminate Hp.
    + exists x, rd. exact Hrd.
Defined.

(** The per-stream pumps relay faithfully: with the tunnel up, the local side
    sends every chunk it read as one DATA frame in order, then one EOF, and
    counts the bytes; the remote side writes exactly the bytes of the DATA
    events, then half-closes. *)
Theorem pumps_relay room ds stream sent wr out count :
  Forall (fun d => d <> []) ds -> wr_err wr = None ->
  pump_up room (map SockData ds) stream (Ch sent None) count =
    (DEof, (Ch (sent ++ map (OutFrame_new Data stream) ds ++ [OutFrame_bare Eof stream]) None,
            count + Z.of_nat (length (concat ds)))) /\
  pump_down room (map SData ds ++ [SEof]) wr stream out count =
    (DEof, (Writer (wr_out wr ++ concat ds) None, true, out, count + Z.of_nat (length (concat ds)))).
Proof. intros Hd Hw. split; [by apply pump_up_relay|by apply pump_down_relay]. Qed.

Lemma pumps_relay_witness :
  fst (pump_up true (map SockData [[1; 2]; [3]]) 7 (Ch [] None) 0) = DEof.
Proof.
  rewrite (proj1 (pumps_relay true [[1; 2]; [3]] 7 [] (Writer [] None) (Ch [] None) 0
    ltac:(repeat (apply Forall_cons; split; [discriminate|]); by apply Forall_nil) eq_refl)). reflexivity.
Defined.

(** A proxied stream ends gracefully (so that no CLOSE is sent) exactly when
    both directions ended by EOF, whichever finished first; a sibling is
    aborted only after an end that was not EOF; and a fault is reported exactly
    when one of the two ends is a fault. *)
Theorem stream_end_spec up_first first running aborted :
  let (a, b) := select_ends first running aborted in
  (pump_stream_end up_first first running aborted = Graceful <-> first = Finished DEof /\ running = Finished DEof) /\
  (is_fault (pump_stream_end up_first first running aborted) = true <-> (exists e, a = DFault e) \/ (exists e, b = DFault e)) /\
  (first = Finished DEof -> b = join_dir running).
Proof.
  unfold pump_stream_end. destruct (select_ends first running aborted) as [a b] eqn:E. unfold select_ends in E.
  assert (join_dir first = DEof <-> first = Finished DEof) as Hf by (destruct first; simpl; split; congruence).
  assert (join_dir running = DEof <-> running = Finished DEof) as Hr by (destruct running; simpl; split; congruence).
  split_and!.
  - rewrite <- Hf, <- Hr. destruct (join_dir first); simpl in E; injection E as <- <-;
      [|destruct up_first, (join_dir aborted); simpl; split; (done || by intros [])..].
    destruct up_first, (join_dir running); simpl; split; (done || by intros []).
  - destruct up_first, a, b; simpl; split; try done; try (by intros [[? ?]|[? ?]]); eauto.
  - intros ->. simpl in E. by injection E as <- <-.
Qed.
