(* ===== verification/Framing.v ===== *)
(** * One direction of a tunnel as bytes ([crates/common/src/tunnel.rs])

    A writer's wire, the bytes it has put on the socket that were not read yet, and
    the reader's wire with its buffer.  [Framing] is what the two codecs of a
    tunnel, session frames and length prefixes, promise to the mux protocol above
    them; [ByteTunnel] is proved against it. *)
From S2P Require Import Prelude Errors Env Base94Codec Base94 Cipher Binary KeyConfig Handshake Transmission Session Mux Pump Tunnel.

(** ** The state and its operations *)

Record Dir (R : Type) := Dr {
  d_tx : TxWire R;
  d_net : bytes;      (** written and not read *)
  d_rx : RxWire;
  d_buf : bytes       (** [FrameReader::buf] *)
}.
Arguments Dr {R}.
Arguments d_tx {R}.
Arguments d_net {R}.
Arguments d_rx {R}.
Arguments d_buf {R}.

Definition dir_new {R} (tx : TxWire R) (rx : RxWire) : Dir R := Dr tx [] rx [].

Section Ops.
Context `{CryptoBackend} `{Base94Codec} {R} `{Rng R}.

(** One turn of the loop of [run_writer]: the batch is encoded and written; when the
    socket fails, [kept] bytes of it were still sent. *)
Definition dir_write (fs : list OutFrame) (kept : option nat) (d : Dir R) : option (Dir R) :=
  match encode_all (d_tx d) [] fs with
  | (Ok _, (tx, out)) => Some (Dr tx (d_net d ++ match kept with Some n => take n out | None => out end) (d_rx d) (d_buf d))
  | (Err _, _) => None
  end.

(** One turn of the loop of [FrameReader::next]: a frame from the buffer, or the
    next [n] bytes of the socket are read into it. *)
Definition dir_turn (n : nat) (d : Dir R) : result Error (option bytes) * Dir R :=
  match decode_step (d_rx d) (d_buf d) with
  | (Err e, (rx, buf)) => (Err e, Dr (d_tx d) (d_net d) rx buf)
  | (Ok (Some m), (rx, buf)) => (Ok (Some m), Dr (d_tx d) (d_net d) rx buf)
  | (Ok None, (rx, buf)) =>
      if (BUF_CAP <? length buf)%nat then (Err InvalidFrame, Dr (d_tx d) (d_net d) rx buf)
      else (Ok None, Dr (d_tx d) (drop n (d_net d)) rx (buf ++ take n (d_net d)))
  end.
End Ops.

(** ** What the codecs promise *)

(** [P tx w buf fut ms]: with the writer's wire at [tx], a reader at [w] that holds
    [buf] and is about to receive [fut] will deliver [ms] and then be in step. *)
Class Framing `{CryptoBackend} `{Base94Codec} {R} `{Rng R} (P : TxWire R -> RxWire -> bytes -> bytes -> list bytes -> Prop) : Prop := {
  framing_wire tx : wire_law (P tx);
  framing_write tx w buf fut ms f tx' o :
    P tx w buf fut ms -> wf_bytes (message f) -> encode tx [] (of_header f) (of_payload f) = (Ok tt, (tx', o)) ->
    P tx' w buf (fut ++ o) (ms ++ [message f]);
  framing_accepts tx w buf fut ms f :
    P tx w buf fut ms -> wf_bytes (message f) -> (1 ≤ length (message f) ≤ PPP_BUFFER_SIZE)%nat ->
    exists tx' o, encode tx [] (of_header f) (of_payload f) = (Ok tt, (tx', o))
}.

(** The two ends of a direction when a tunnel starts: sessions in step after their
    handshake, or the prefix codec on both sides. *)
Inductive in_step {R} `{CryptoBackend} : TxWire R -> RxWire -> Prop :=
| in_step_session t r : in_sync t r -> in_step (TxSession (STx t)) (RxSession (SRx r None 0))
| in_step_prefix : in_step TxPrefix RxPrefix.

#[local] Opaque BASE94_MAX_FRAME PPP_BUFFER_SIZE PREFIX_MAX_FRAME.

Lemma prefix_holds_session : (PPP_BUFFER_SIZE ≤ PREFIX_MAX_FRAME)%nat.
Proof.
  change PREFIX_MAX_FRAME with (PPP_BUFFER_SIZE * 2 + 64)%nat. generalize PPP_BUFFER_SIZE as n. lia.
Qed.

Section Instances.
Context `{CryptoLaws} `{Base94Laws} {R} `{RngLaws R}.

Definition session_carries (tx : TxWire R) (w : RxWire) (buf fut : bytes) (ms : list bytes) : Prop :=
  exists t r', tx = TxSession (STx t) /\ in_sync t r' /\ session_awaits r' w buf fut ms.

Definition prefix_carries (tx : TxWire R) (w : RxWire) (buf fut : bytes) (ms : list bytes) : Prop :=
  tx = TxPrefix /\ prefix_awaits w buf fut ms.

Lemma encrypt_ok_bound (t : TxCore R) out prefix payload s : encrypt_impl t out prefix payload = (Ok tt, s) ->
  (1 ≤ length (prefix ++ payload) ≤ PPP_BUFFER_SIZE)%nat.
Proof.
  unfold encrypt_impl. rewrite length_app, (Nat.add_comm (length prefix)).
  destruct (Nat.eqb_spec (length payload + length prefix) 0); [done|].
  destruct (Nat.ltb_spec PPP_BUFFER_SIZE (length payload + length prefix)) as [|Hl]; [done|]. intros _. split; [lia|exact Hl].
Qed.

#[export] Instance session_framing : Framing session_carries.
Proof.
  split.
  - intros tx. split.
    + intros w buf fut ms (t & r' & -> & Hs & Ha).
      destruct (wire_step _ (session_wire_law r') _ _ _ _ Ha) as [(w' & b' & E & Ha' & Hr)|(m & ms' & w' & b' & -> & E & Ha')].
      * left. exists w', b'. split; [exact E|]. split; [by exists t, r'|exact Hr].
      * right. exists m, ms', w', b'. split; [done|]. split; [exact E|by exists t, r'].
    + intros w buf c fut ms (t & r' & -> & Hs & Ha). exists t, r'. split_and!; [done..|].
      by apply (wire_extend _ (session_wire_law r')).
  - intros tx w buf fut ms f tx' o (t & r' & -> & Hs & s & -> & Ha) Hw E.
    unfold encode, stx_encrypt_into_prefixed, encrypt_into_prefixed in E. cbn [stx_core] in E.
    destruct (encrypt_impl t [] _ _) as [[[]|e] [t' o']] eqn:Ee; [|done]. injection E as <- <-.
    pose proof (encrypt_ok_bound _ _ _ _ _ Ee) as Hl.
    destruct (encrypt_frame t r' [] _ _ Hs Hw Hl) as (t1 & r1 & w1 & Ee' & Hs1 & _ & _ & Hf). rewrite Ee in Ee'. injection Ee' as -> ->.
    exists t1, r1. split_and!; [done..|]. exists s. split; [done|].
    eapply awaits_write; [exact Ha|]. exists w1, [], r1. by rewrite app_nil_r.
  - intros tx w buf fut ms f (t & r' & -> & Hs & _) Hw Hl.
    destruct (encrypt_frame t r' [] _ _ Hs Hw Hl) as (t1 & r1 & w1 & Ee & _).
    unfold encode, stx_encrypt_into_prefixed, encrypt_into_prefixed. cbn [stx_core]. rewrite Ee. by eexists _, _.
Qed.

#[export] Instance prefix_framing : Framing prefix_carries.
Proof.
  split.
  - intros tx. split.
    + intros w buf fut ms (-> & Ha).
      destruct (wire_step _ prefix_wire_law _ _ _ _ Ha) as [(w' & b' & E & Ha' & Hr)|(m & ms' & w' & b' & -> & E & Ha')].
      * left. exists w', b'. split; [exact E|]. by split.
      * right. exists m, ms', w', b'. split; [done|]. by split.
    + intros w buf c fut ms (-> & Ha). split; [done|]. by apply (wire_extend _ prefix_wire_law).
  - intros tx w buf fut ms f tx' o (-> & -> & Hm & Eb) Hw E. cbn [encode] in E.
    destruct (Nat.eqb_spec (length (of_header f) + length (of_payload f)) 0); [done|].
    destruct (Nat.ltb_spec PREFIX_MAX_FRAME (length (of_header f) + length (of_payload f))) as [|Hl]; [done|]. injection E as <- <-.
    assert (length (message f) = (length (of_header f) + length (of_payload f))%nat) as Hlm by apply length_app.
    split; [done|]. split; [done|]. split.
    + apply Forall_app. split; [exact Hm|]. apply Forall_cons. split; [|by apply Forall_nil]. rewrite Hlm. split; [lia|exact Hl].
    + rewrite app_assoc, Eb, map_app, concat_app. f_equal. cbn [map concat]. rewrite app_nil_r. unfold prefix_frame. by rewrite Hlm.
  - intros tx w buf fut ms f (-> & _) Hw Hl. cbn [encode].
    assert (length (message f) = (length (of_header f) + length (of_payload f))%nat) as Hlm by apply length_app. rewrite <- Hlm.
    destruct (Nat.eqb_spec (length (message f)) 0); [lia|].
    destruct (Nat.ltb_spec PREFIX_MAX_FRAME (length (message f))); [|by eexists _, _].
    pose proof prefix_holds_session. lia.
Qed.

Lemma in_step_framing (tx : TxWire R) rx : in_step tx rx -> exists P, Framing P /\ P tx rx [] [] [].
Proof.
  intros [t r Hs|].
  - exists session_carries. split; [apply session_framing|]. exists t, r. split_and!; [done..|].
    exists (SRx r None 0). split; [done|]. by constructor.
  - exists prefix_carries. split; [apply prefix_framing|]. split; [done|]. split; [done|]. split; [by apply Forall_nil|done].
Qed.
End Instances.

(** ** A direction and what is pending on it *)

Section Pending.
Context `{CryptoBackend} `{Base94Codec} {R} `{Rng R} P (HP : Framing P).
Implicit Types d : Dir R.

(** The reader is going to deliver [ms], or as much of it as was sent: once the
    writer is gone, the rest of its last batch may be missing. *)
Definition pending (gone : bool) d (ms : list bytes) : Prop :=
  exists rest, P (d_tx d) (d_rx d) (d_buf d) (d_net d ++ rest) ms /\ (rest = [] \/ gone = true).

Lemma pending_gone gone d ms : pending gone d ms -> pending true d ms.
Proof. intros (rest & Hp & _). exists rest. split; [done|by right]. Qed.

Lemma encode_all_carries fs tx w buf fut ms tx' o : P tx w buf fut ms -> Forall (fun f => wf_bytes (message f)) fs ->
  encode_all tx [] fs = (Ok tt, (tx', o)) -> P tx' w buf (fut ++ o) (ms ++ map message fs).
Proof.
  intros Hp Hw. revert tx tx' fut ms o Hp. induction Hw as [|f fs Hf Hw IH]; intros tx tx' fut ms o Hp; cbn [encode_all map].
  - intros [= -> <-]. by rewrite !app_nil_r.
  - destruct (encode tx [] _ _) as [[[]|e] [tx1 o1]] eqn:E1; [|done]. rewrite encode_all_appends.
    destruct (encode_all tx1 [] fs) as [res [tx2 o2]] eqn:E2. intros [= -> -> <-].
    rewrite app_assoc, cons_middle, app_assoc. apply (IH tx1); [|done]. by apply (framing_write (Framing := HP) tx).
Qed.

Lemma encode_all_accepts fs tx w buf fut ms : P tx w buf fut ms ->
  Forall (fun f => wf_bytes (message f) /\ (1 ≤ length (message f) ≤ PPP_BUFFER_SIZE)%nat) fs ->
  exists tx' o, encode_all tx [] fs = (Ok tt, (tx', o)).
Proof.
  intros Hp Hw. revert tx fut ms Hp. induction Hw as [|f fs [Hf Hl] Hw IH]; intros tx fut ms Hp; cbn [encode_all]; [by eexists _, _|].
  destruct (framing_accepts (Framing := HP) _ _ _ _ _ _ Hp Hf Hl) as (tx1 & o1 & E). rewrite E, encode_all_appends.
  destruct (IH _ _ _ (framing_write (Framing := HP) _ _ _ _ _ _ _ _ Hp Hf E)) as (tx2 & o2 & ->). by eexists _, _.
Qed.

(** A batch that was written is pending behind the others. *)
Lemma dir_write_pending fs kept d d' ms : pending false d ms -> Forall (fun f => wf_bytes (message f)) fs ->
  dir_write fs kept d = Some d' -> pending (bool_decide (is_Some kept)) d' (ms ++ map message fs).
Proof.
  intros (rest & Hp & [->|]) Hw; [|done]. unfold dir_write. rewrite app_nil_r in Hp.
  destruct (encode_all (d_tx d) [] fs) as [[[]|e] [tx o]] eqn:E; [|done]. intros [= <-].
  pose proof (encode_all_carries _ _ _ _ _ _ _ _ Hp Hw E) as Hp'. destruct kept as [n|].
  - exists (drop n o). cbn [d_tx d_rx d_buf d_net]. rewrite <- app_assoc, take_drop. split; [exact Hp'|by right].
  - exists []. cbn [d_tx d_rx d_buf d_net]. rewrite app_nil_r. split; [exact Hp'|by left].
Qed.

Lemma dir_write_accepts fs d ms : pending false d ms ->
  Forall (fun f => wf_bytes (message f) /\ (1 ≤ length (message f) ≤ PPP_BUFFER_SIZE)%nat) fs -> is_Some (dir_write fs None d).
Proof.
  intros (rest & Hp & _) Hw. unfold dir_write. destruct (encode_all_accepts _ _ _ _ _ _ Hp Hw) as (tx & o & ->). by eexists.
Qed.

(** A turn of the reader never fails: it delivers the next pending message or reads
    on; with nothing left to read, a reader that waits has delivered everything,
    unless the writer is gone. *)
Lemma dir_turn_pending gone n d ms : pending gone d ms ->
  (exists d', dir_turn n d = (Ok None, d') /\ pending gone d' ms /\ (d_net d = [] -> gone = false -> ms = [])) \/
  (exists m ms' d', ms = m :: ms' /\ dir_turn n d = (Ok (Some m), d') /\ pending gone d' ms').
Proof.
  intros (rest & Hp & Hr). unfold dir_turn.
  destruct (wire_step _ (framing_wire (Framing := HP) _) _ _ _ _ Hp) as [(w' & b' & -> & Hp' & Hcap & He)|(m & ms' & w' & b' & -> & -> & Hp')].
  - left. rewrite (proj2 (Nat.ltb_ge _ _) Hcap). eexists. split; [done|]. split.
    + exists rest. cbn [d_tx d_rx d_buf d_net]. split; [|done]. apply (wire_extend _ (framing_wire (Framing := HP) _)).
      by rewrite app_assoc, take_drop.
    + intros En ->. destruct Hr as [->|]; [|done]. apply He. by rewrite En.
  - right. eexists m, ms', _. split; [done|]. split; [done|]. by exists rest.
Qed.
End Pending.

(** ** The turns are those of the writer and reader tasks *)

Section Turns.
Context `{CryptoBackend} `{Base94Codec} {R} `{Rng R}.

Lemma run_writer_turn fuel (wire : TxWire R) out f fs ready rx buf :
  let n := (default 0%nat (head ready) `min` (WRITE_BATCH - 1))%nat in
  run_writer (S fuel) wire (Writer out None) (f :: fs) ready =
    match dir_write (f :: take n fs) None (Dr wire out rx buf) with
    | Some d => run_writer fuel (d_tx d) (Writer (d_net d) None) (drop n fs) (tail ready)
    | None => Writer out None
    end /\ (1 ≤ length (f :: take n fs) ≤ WRITE_BATCH)%nat.
Proof.
  cbn zeta. split.
  - cbn [run_writer]. unfold dir_write. cbn [d_tx d_net]. destruct (encode_all _ _ _) as [[[]|e] [w o]]; [|done]. done.
  - cbn [length]. rewrite length_take. unfold WRITE_BATCH. lia.
Qed.

Lemma next_loop_turn c rest sock (tx : TxWire R) w buf : c <> [] ->
  next_loop (SockData c :: sock) w buf =
    match dir_turn (length c) (Dr tx (c ++ rest) w buf) with
    | (Ok None, d) => next_loop sock (d_rx d) (d_buf d)
    | (r, d) => (r, FReader (d_rx d) (SockData c :: sock) (d_buf d))
    end.
Proof.
  intros Hc. unfold dir_turn. cbn [next_loop d_rx d_buf d_net d_tx].
  destruct (decode_step w buf) as [[[m|]|e] [w' b']]; [done| |done]. destruct (BUF_CAP <? length b')%nat; [done|].
  destruct (Nat.eqb_spec (length c) 0) as [E|_]; [by apply nil_length_inv in E|]. cbn [d_rx d_buf]. by rewrite take_app_length.
Qed.
End Turns.
