(* ===== verification/Addr.v ===== *)
(** * Proxy addresses ([crates/common/src/addr.rs])

    Target addresses in SOCKS5 wire format, with the UTF-8 validation the
    decoder relies on. *)
From S2P Require Import Prelude.

Definition ATYP_IPV4 : Z := 1.
Definition ATYP_DOMAIN : Z := 3.
Definition ATYP_IPV6 : Z := 4.

(** [std::net::IpAddr]: the octets of an address. *)
Inductive IpAddr := V4 (octets : bytes) | V6 (octets : bytes).

Inductive Host := Domain (d : str) | Ip (ip : IpAddr).

Record ProxyAddr := PAddr { pa_host : Host; pa_port : Z }.

Inductive AddrError := Malformed.

#[export] Instance IpAddr_eq_dec : EqDecision IpAddr.
Proof. solve_decision. Defined.
#[export] Instance Host_eq_dec : EqDecision Host.
Proof. solve_decision. Defined.
#[export] Instance ProxyAddr_eq_dec : EqDecision ProxyAddr.
Proof. solve_decision. Defined.

(** ** UTF-8 validation: [std::str::from_utf8] *)

Definition cont (b : Z) : bool := (128 <=? b) && (b <=? 191).

(** The well-formed byte sequences of the Unicode standard: no overlong forms,
    no surrogates, nothing above U+10FFFF. *)
Fixpoint from_utf8 (l : bytes) : option str :=
  match l with
  | [] => Some []
  | b0 :: l =>
      if b0 <? 128 then (b0 ::.) <$> from_utf8 l
      else if (194 <=? b0) && (b0 <=? 223) then
        match l with
        | b1 :: l => if cont b1 then ((b0 - 192) * 64 + (b1 - 128) ::.) <$> from_utf8 l else None
        | _ => None
        end
      else if (224 <=? b0) && (b0 <=? 239) then
        match l with
        | b1 :: b2 :: l =>
            if cont b1 && cont b2 && negb ((b0 =? 224) && (b1 <? 160)) && negb ((b0 =? 237) && (160 <=? b1))
            then ((b0 - 224) * 4096 + (b1 - 128) * 64 + (b2 - 128) ::.) <$> from_utf8 l else None
        | _ => None
        end
      else if (240 <=? b0) && (b0 <=? 244) then
        match l with
        | b1 :: b2 :: b3 :: l =>
            if cont b1 && cont b2 && cont b3 && negb ((b0 =? 240) && (b1 <? 144)) && negb ((b0 =? 244) && (144 <=? b1))
            then ((b0 - 240) * 262144 + (b1 - 128) * 4096 + (b2 - 128) * 64 + (b3 - 128) ::.) <$> from_utf8 l else None
        | _ => None
        end
      else None
  end.

(** ** Encoding *)

(** The address type and the host: the [match] of [encode_into]. *)
Definition host_bytes (h : Host) : bytes :=
  match h with
  | Domain d =>
      let len := (length (utf8 d) `min` 255)%nat in
      [ATYP_DOMAIN; Z.of_nat len] ++ take len (utf8 d)
  | Ip (V4 octets) => ATYP_IPV4 :: octets
  | Ip (V6 octets) => ATYP_IPV6 :: octets
  end.

(** [ProxyAddr::encode_into]: appends to [out]. *)
Definition encode_into (a : ProxyAddr) (out : bytes) : bytes :=
  out ++ host_bytes (pa_host a) ++ be_bytes 2 (pa_port a).

(** [ProxyAddr::encode]. *)
Definition addr_encode (a : ProxyAddr) : bytes := encode_into a [].

(** ** Decoding *)

(** [slice::first_chunk::<N>]. *)
Definition first_chunk (n : nat) (l : bytes) : option bytes := if (n <=? length l)%nat then Some (take n l) else None.

(** [(0x21..=0x7e).contains(&b)]. *)
Definition graphic (b : Z) : bool := (33 <=? b) && (b <=? 126).

(** The domain arm of [decode]: the name and what follows it. *)
Definition decode_domain (rest : bytes) : result AddrError (Host * bytes) :=
  match rest with
  | [] => Err Malformed
  | len :: rest =>
      let len := Z.to_nat len in
      if (length rest <? len)%nat || (len =? 0)%nat then Err Malformed
      else
        let? name := ok_or (from_utf8 (take len rest)) Malformed in
        if existsb (fun b => negb (graphic b)) (utf8 name) then Err Malformed
        else Ok (Domain name, drop len rest)
  end.

(** [ProxyAddr::decode]. *)
Definition addr_decode (buf : bytes) : result AddrError ProxyAddr :=
  match buf with
  | [] => Err Malformed
  | atyp :: rest =>
      let? (host, after) :=
        (if atyp =? ATYP_IPV4 then
           let? octets := ok_or (first_chunk 4 rest) Malformed in Ok (Ip (V4 octets), drop 4 rest)
         else if atyp =? ATYP_IPV6 then
           let? octets := ok_or (first_chunk 16 rest) Malformed in Ok (Ip (V6 octets), drop 16 rest)
         else if atyp =? ATYP_DOMAIN then decode_domain rest
         else Err Malformed) in
      let? port := ok_or (first_chunk 2 after) Malformed in
      if negb (length (drop 2 after) =? 0)%nat then Err Malformed
      else Ok (PAddr host (be_val port))
  end.

(** ** Lemmas *)

(** Printable ASCII is its own UTF-8 encoding. *)
Lemma utf8_ascii s : Forall (fun c => c < 128) s -> utf8 s = s.
Proof.
  intros Hs. unfold utf8. induction Hs as [|c s Hc Hs IH]; [done|]. simpl. rewrite IH. unfold utf8_char.
  by destruct (Z.ltb_spec c 128); [|lia].
Qed.

Lemma from_utf8_ascii l : Forall (fun b => b < 128) l -> from_utf8 l = Some l.
Proof.
  induction 1 as [|b l Hb Hl IH]; [done|]. cbn [from_utf8]. destruct (Z.ltb_spec b 128); [|lia]. by rewrite IH.
Qed.

Lemma graphic_range l : existsb (fun b => negb (graphic b)) l = false <-> Forall (fun b => 33 <= b <= 126) l.
Proof.
  induction l as [|b l IH]; simpl; [by split; constructor|].
  rewrite orb_false_iff, Forall_cons, IH, negb_false_iff. unfold graphic. rewrite andb_true_iff, !Z.leb_le. tauto.
Qed.

(** The decoder is a right inverse of the encoder: what it reads are exactly the
    encodings. *)
Lemma utf8_from_utf8 l s : wf_bytes l -> from_utf8 l = Some s -> utf8 s = l.
Proof.
  remember (length l) as n eqn:Hn. revert l s Hn. induction n as [n IH] using lt_wf_ind. intros l s Hn Hw E.
  assert (forall c k l', (0 < k)%nat -> l' = drop k l -> (k <= length l)%nat -> (c ::.) <$> from_utf8 l' = Some s ->
    utf8_char c = take k l -> utf8 s = l) as Hstep.
  { intros c k l' Hk -> Hkl Es Hc. destruct (from_utf8 (drop k l)) as [s'|] eqn:E'; [|done]. injection Es as <-.
    unfold utf8. simpl. fold (utf8 s'). rewrite (IH (length (drop k l)) ltac:(rewrite length_drop; lia) (drop k l) s' eq_refl);
      [|by apply wf_bytes_drop|done]. by rewrite Hc, take_drop. }
  destruct l as [|b0 l]; [by injection E as <-|]. apply wf_bytes_cons in Hw as [H0 Hw]. cbn [from_utf8] in E.
  destruct (Z.ltb_spec b0 128).
  { apply (Hstep b0 1%nat l); [lia|done|simpl; lia|done|]. unfold utf8_char. by destruct (Z.ltb_spec b0 128); [|lia]. }
  destruct ((194 <=? b0) && (b0 <=? 223)) eqn:E1.
  { destruct l as [|b1 l]; [done|]. unfold cont in E. destruct ((128 <=? b1) && (b1 <=? 191)) eqn:E2; [|done].
    eapply (Hstep _ 2%nat l); [lia|done|simpl; lia|exact E|]. unfold utf8_char.
    destruct (Z.ltb_spec ((b0 - 192) * 64 + (b1 - 128)) 128); [lia|].
    destruct (Z.ltb_spec ((b0 - 192) * 64 + (b1 - 128)) 2048); [|lia].
    cbn [take]. f_equal; [|f_equal]; Z.to_euclidean_division_equations; lia. }
  destruct ((224 <=? b0) && (b0 <=? 239)) eqn:E3.
  { destruct l as [|b1 [|b2 l]]; [done..|]. unfold cont in E.
    destruct (((128 <=? b1) && (b1 <=? 191)) && ((128 <=? b2) && (b2 <=? 191)) && negb ((b0 =? 224) && (b1 <? 160))
      && negb ((b0 =? 237) && (160 <=? b1))) eqn:E4; [|done].
    eapply (Hstep _ 3%nat l); [lia|done|simpl; lia|exact E|]. unfold utf8_char.
    set (c := (b0 - 224) * 4096 + (b1 - 128) * 64 + (b2 - 128)).
    destruct (Z.ltb_spec c 128); [lia|]. destruct (Z.ltb_spec c 2048); [lia|]. destruct (Z.ltb_spec c 65536); [|lia].
    cbn [take]. unfold c. f_equal; [|f_equal; [|f_equal]]; Z.to_euclidean_division_equations; lia. }
  destruct ((240 <=? b0) && (b0 <=? 244)) eqn:E5; [|done].
  destruct l as [|b1 [|b2 [|b3 l]]]; [done..|]. unfold cont in E.
  destruct (((128 <=? b1) && (b1 <=? 191)) && ((128 <=? b2) && (b2 <=? 191)) && ((128 <=? b3) && (b3 <=? 191))
    && negb ((b0 =? 240) && (b1 <? 144)) && negb ((b0 =? 244) && (144 <=? b1))) eqn:E4; [|done].
  eapply (Hstep _ 4%nat l); [lia|done|simpl; lia|exact E|]. unfold utf8_char.
  set (c := (b0 - 240) * 262144 + (b1 - 128) * 4096 + (b2 - 128) * 64 + (b3 - 128)).
  destruct (Z.ltb_spec c 128); [lia|]. destruct (Z.ltb_spec c 2048); [lia|]. destruct (Z.ltb_spec c 65536); [lia|].
  cbn [take]. unfold c. f_equal; [|f_equal; [|f_equal; [|f_equal]]]; Z.to_euclidean_division_equations; lia.
Qed.

(** The addresses the wire format carries: a printable-ASCII domain of 1 to 255
    bytes or an IP literal, and a 16-bit port. *)
Definition host_ok (h : Host) : Prop :=
  match h with
  | Domain d => Forall (fun c => 33 <= c <= 126) d /\ (1 ≤ length d ≤ 255)%nat
  | Ip (V4 o) => wf_bytes o /\ length o = 4%nat
  | Ip (V6 o) => wf_bytes o /\ length o = 16%nat
  end.

Definition addr_ok (a : ProxyAddr) : Prop := 0 <= pa_port a < 65536 /\ host_ok (pa_host a).

Lemma graphic_ascii l : Forall (fun b => 33 <= b <= 126) l -> Forall (fun b => b < 128) l.
Proof. intros Hl. eapply Forall_impl; [exact Hl|]. simpl. lia. Qed.

Lemma graphic_wf l : Forall (fun b => 33 <= b <= 126) l -> wf_bytes l.
Proof. intros Hl. eapply Forall_impl; [exact Hl|]. simpl. lia. Qed.

(** The port field closes the frame. *)
Definition decode_port (host : Host) (after : bytes) : result AddrError ProxyAddr :=
  let? port := ok_or (first_chunk 2 after) Malformed in
  if negb (length (drop 2 after) =? 0)%nat then Err Malformed else Ok (PAddr host (be_val port)).

Lemma first_chunk_app n a b : length a = n -> first_chunk n (a ++ b) = Some a.
Proof.
  intros <-. unfold first_chunk. rewrite length_app, take_app_length.
  by destruct (Nat.leb_spec (length a) (length a + length b)); [|lia].
Qed.

Lemma decode_port_encode host port : 0 <= port < 65536 -> decode_port host (be_bytes 2 port) = Ok (PAddr host port).
Proof.
  intros Hp. unfold decode_port. rewrite <- (app_nil_r (be_bytes 2 port)), first_chunk_app by (by rewrite be_bytes_length).
  cbn [ok_or]. rewrite drop_app_length' by (by rewrite be_bytes_length). cbn [length Nat.eqb negb].
  rewrite be_val_bytes. change (256 ^ Z.of_nat 2) with 65536. by rewrite Z.mod_small.
Qed.

Lemma decode_port_ok host after a : wf_bytes after ->
  decode_port host after = Ok a -> 0 <= pa_port a < 65536 /\ pa_host a = host /\ after = be_bytes 2 (pa_port a).
Proof.
  intros Hw. unfold decode_port, first_chunk. destruct (Nat.leb_spec 2 (length after)); [|done]. cbn [ok_or].
  destruct (Nat.eqb_spec (length (drop 2 after)) 0) as [E|]; [|done]. cbn [negb]. intros [= <-]. cbn [pa_port pa_host].
  rewrite length_drop in E. assert (take 2 after = after) as -> by (apply take_ge; lia).
  pose proof (be_bytes_val after Hw) as Hb. replace (length after) with 2%nat in Hb by lia. rewrite Hb.
  split; [|done]. unfold be_val. pose proof (le_val_bound (rev after) ltac:(auto with bytes)) as Hv.
  rewrite length_rev in Hv. replace (length after) with 2%nat in Hv by lia. done.
Qed.

Lemma decode_domain_encode d after : Forall (fun c => 33 <= c <= 126) d -> (1 ≤ length d ≤ 255)%nat ->
  decode_domain (Z.of_nat (length d) :: d ++ after) = Ok (Domain d, after).
Proof.
  intros Hd Hl. unfold decode_domain. rewrite Nat2Z.id, length_app, take_app_length, drop_app_length.
  destruct (Nat.ltb_spec (length d + length after) (length d)), (Nat.eqb_spec (length d) 0); try lia. cbn [orb].
  rewrite from_utf8_ascii by (by apply graphic_ascii). cbn [ok_or].
  rewrite utf8_ascii by (by apply graphic_ascii). by rewrite (proj2 (graphic_range d)).
Qed.

Lemma decode_domain_ok rest h after : wf_bytes rest -> decode_domain rest = Ok (h, after) ->
  exists d, h = Domain d /\ Forall (fun c => 33 <= c <= 126) d /\ (1 ≤ length d ≤ 255)%nat /\
    rest = Z.of_nat (length d) :: d ++ after.
Proof.
  intros Hw. unfold decode_domain. destruct rest as [|len rest]; [done|]. apply wf_bytes_cons in Hw as [Hlen Hw].
  destruct ((_ <? _)%nat || _) eqn:E; [done|]. apply orb_false_iff in E as [E1 E2].
  apply Nat.ltb_ge in E1. apply Nat.eqb_neq in E2.
  destruct (from_utf8 (take (Z.to_nat len) rest)) as [name|] eqn:Eu; [|done]. cbn [ok_or].
  pose proof (utf8_from_utf8 _ _ (wf_bytes_take _ _ Hw) Eu) as Hname. rewrite Hname.
  destruct (existsb _ _) eqn:Eg; [done|]. apply graphic_range in Eg. intros [= <- <-].
  rewrite from_utf8_ascii in Eu by (by apply graphic_ascii). injection Eu as <-.
  exists (take (Z.to_nat len) rest). rewrite length_take, take_drop, Nat.min_l, Z2Nat.id by lia.
  split_and!; try done; lia.
Qed.

(** [addr_decode] with its two tails named. *)
Lemma addr_decode_cases atyp rest :
  addr_decode (atyp :: rest) =
    if atyp =? ATYP_IPV4 then
      let? o := ok_or (first_chunk 4 rest) Malformed in decode_port (Ip (V4 o)) (drop 4 rest)
    else if atyp =? ATYP_IPV6 then
      let? o := ok_or (first_chunk 16 rest) Malformed in decode_port (Ip (V6 o)) (drop 16 rest)
    else if atyp =? ATYP_DOMAIN then
      let? (h, after) := decode_domain rest in decode_port h after
    else Err Malformed.
Proof.
  unfold addr_decode. destruct (atyp =? ATYP_IPV4); [by destruct (first_chunk 4 rest)|].
  destruct (atyp =? ATYP_IPV6); [by destruct (first_chunk 16 rest)|]. by destruct (atyp =? ATYP_DOMAIN).
Qed.

Lemma addr_decode_encode a : addr_ok a -> addr_decode (addr_encode a) = Ok a.
Proof.
  intros [Hp Hh]. destruct a as [h port]. unfold addr_encode, encode_into. cbn [pa_host pa_port app] in *.
  destruct h as [d|[o|o]].
  - destruct Hh as [Hd Hl]. cbn [host_bytes]. rewrite utf8_ascii by (by apply graphic_ascii). rewrite Nat.min_l, firstn_all by lia.
    cbn [app]. rewrite addr_decode_cases. cbn [ATYP_IPV4 ATYP_IPV6 ATYP_DOMAIN].
    change (ATYP_DOMAIN =? ATYP_IPV4) with false. change (ATYP_DOMAIN =? ATYP_IPV6) with false. rewrite Z.eqb_refl.
    rewrite decode_domain_encode by done. by apply decode_port_encode.
  - destruct Hh as [Hw Hl]. cbn [host_bytes app]. rewrite addr_decode_cases, Z.eqb_refl, first_chunk_app by done. cbn [ok_or].
    rewrite drop_app_length' by done. by apply decode_port_encode.
  - destruct Hh as [Hw Hl]. cbn [host_bytes app]. rewrite addr_decode_cases. change (ATYP_IPV6 =? ATYP_IPV4) with false.
    rewrite Z.eqb_refl, first_chunk_app by done. cbn [ok_or]. rewrite drop_app_length' by done. by apply decode_port_encode.
Qed.

Lemma addr_encode_decode buf a : wf_bytes buf -> addr_decode buf = Ok a -> addr_ok a /\ buf = addr_encode a.
Proof.
  intros Hw. destruct buf as [|atyp rest]; [done|]. apply wf_bytes_cons in Hw as [_ Hw]. rewrite addr_decode_cases.
  assert (forall n mk, (forall o, addr_encode (PAddr (Ip (mk o)) 0) = atyp :: o ++ be_bytes 2 0) ->
    (mk = V4 /\ n = 4%nat) \/ (mk = V6 /\ n = 16%nat) ->
    (let? o := ok_or (first_chunk n rest) Malformed in decode_port (Ip (mk o)) (drop n rest)) = Ok a ->
    addr_ok a /\ atyp :: rest = addr_encode a) as Hip.
  { intros n mk He Hmk. unfold first_chunk. destruct (Nat.leb_spec n (length rest)); [|done]. cbn [ok_or]. intros E.
    apply decode_port_ok in E as (Hp & Hh & Hr); [|by apply wf_bytes_drop]. destruct a as [h port]. cbn [pa_host pa_port] in *. subst h.
    assert (length (take n rest) = n) as Hl by (rewrite length_take; lia).
    rewrite <- (take_drop n rest) at 2. rewrite Hr. specialize (He (take n rest)).
    destruct Hmk as [[-> ->]|[-> ->]]; unfold addr_ok, addr_encode, encode_into in *; cbn [pa_host pa_port host_bytes app] in *;
      injection He as He; split; try (subst atyp; done); (split; [done|split; [by apply wf_bytes_take|done]]). }
  destruct (Z.eqb_spec atyp ATYP_IPV4) as [->|]; [by apply (Hip 4%nat V4); [|left]|].
  destruct (Z.eqb_spec atyp ATYP_IPV6) as [->|]; [by apply (Hip 16%nat V6); [|right]|].
  destruct (Z.eqb_spec atyp ATYP_DOMAIN) as [->|]; [|done].
  destruct (decode_domain rest) as [[h after]|] eqn:Ed; [|done]. intros E.
  apply decode_domain_ok in Ed as (d & -> & Hd & Hl & ->); [|done].
  apply wf_bytes_cons in Hw as [_ Hw]. apply wf_bytes_app in Hw as [_ Hw].
  apply decode_port_ok in E as (Hp & Hh & Hr); [|done]. destruct a as [h port]. cbn [pa_host pa_port] in *. subst h.
  unfold addr_ok, addr_encode, encode_into. cbn [pa_host pa_port host_bytes app]. split; [done|].
  rewrite utf8_ascii by (by apply graphic_ascii). rewrite Nat.min_l, firstn_all by lia. cbn [app]. by rewrite Hr.
Qed.

(** ** Properties *)

(** C22: the address frame is exact: a frame decodes to an address exactly when
    it is that address's encoding and the address is one the format carries (a
    graphic ASCII domain of 1 to 255 bytes or an IP literal, a 16-bit port), so
    decoding never depends on trailing or malformed bytes; and encoding a
    longer domain delivers its first 255 bytes. *)
Theorem addr_frame_exact buf a d port :
  wf_bytes buf -> Forall (fun c => 33 <= c <= 126) d -> d <> [] -> 0 <= port < 65536 ->
  (addr_decode buf = Ok a <-> addr_ok a /\ buf = addr_encode a) /\
  addr_decode (addr_encode (PAddr (Domain d) port)) = Ok (PAddr (Domain (take 255 d)) port).
Proof.
  intros Hw Hd Hne Hp. split.
  - split; [by apply addr_encode_decode|]. intros [Ha ->]. by apply addr_decode_encode.
  - assert (Forall (fun c => 33 <= c <= 126) (take 255 d)) as Ht by by apply Forall_take.
    assert (addr_encode (PAddr (Domain d) port) = addr_encode (PAddr (Domain (take 255 d)) port)) as ->.
    { unfold addr_encode, encode_into. cbn [pa_host pa_port host_bytes]. rewrite !utf8_ascii by (by apply graphic_ascii).
      rewrite length_take, take_take, (Nat.min_comm 255), <- Nat.min_assoc, Nat.min_id.
      destruct (Nat.min_spec (length d) 255) as [[? ->]|[? ->]]; [|done]. rewrite !take_ge by lia. done. }
    apply addr_decode_encode. split; [done|]. cbn [pa_host]. split; [done|]. rewrite length_take.
    destruct d; [done|]. simpl length. lia.
Qed.

Lemma addr_frame_exact_witness :
  addr_decode [3; 4; 97; 46; 105; 111; 1; 187] = Ok (PAddr (Domain (lit "a.io")) 443) /\
  addr_decode (addr_encode (PAddr (Domain (replicate 300 97)) 80)) = Ok (PAddr (Domain (replicate 255 97)) 80).
Proof.
  destruct (addr_frame_exact [3; 4; 97; 46; 105; 111; 1; 187] (PAddr (Domain (lit "a.io")) 443) (replicate 300 97) 80
    ltac:(by apply wf_bytes_eval) ltac:(apply Forall_replicate; lia) ltac:(discriminate) ltac:(lia)) as [K1 K2].
  split; [|exact K2]. apply K1. split; [|reflexivity]. split; [simpl; lia|]. split; [|simpl; lia].
  change (lit "a.io") with [97; 46; 105; 111]. repeat (apply Forall_cons; split; [lia|]). by apply Forall_nil.
Defined.
