(* ===== verification/NetText.v ===== *)
(** * Text of numbers and network addresses

    The parts of the standard library's [core::net] that the client's address
    parsing relies on: the printers of [Ipv4Addr] and [Ipv6Addr], and the
    parser behind [str::parse] for [IpAddr] and [SocketAddr] ([core/net/parser.rs]):
    a reader either consumes a prefix of the text or fails and leaves it as it
    was, so a reader is a function to [option (value * rest)]. *)
From S2P Require Import Prelude Addr.

(** ** Printing *)

Definition digit_char (d : Z) : Z := if d <? 10 then 48 + d else 87 + d.

(** The digits of [v], least significant first: [fuel] of them at most. *)
Fixpoint digits_rev (fuel : nat) (radix v : Z) : list Z :=
  match fuel with
  | O => []
  | S fuel => v mod radix :: (if v / radix =? 0 then [] else digits_rev fuel radix (v / radix))
  end.

Definition digits (radix v : Z) : list Z := rev (digits_rev 40 radix v).

(** [format!("{v}")] and [format!("{v:x}")]. *)
Definition decimal (v : Z) : str := map digit_char (digits 10 v).
Definition hex (v : Z) : str := map digit_char (digits 16 v).

(** A chunk of groups, each after the first preceded by a colon; [i] is the index
    of the first. *)
Fixpoint groups_text (i : nat) (gs : list Z) : str :=
  match gs with
  | [] => []
  | g :: gs => (if (i =? 0)%nat then [] else [58]) ++ hex g ++ groups_text (S i) gs
  end.

(** [Display] of [Ipv4Addr]. *)
Fixpoint octets_text (i : nat) (os : bytes) : str :=
  match os with
  | [] => []
  | o :: os => (if (i =? 0)%nat then [] else [46]) ++ decimal o ++ octets_text (S i) os
  end.
Definition display_v4 (octets : bytes) : str := octets_text 0 octets.

(** [Ipv6Addr::segments]. *)
Fixpoint segments (octets : bytes) : list Z :=
  match octets with
  | a :: b :: octets => a * 256 + b :: segments octets
  | _ => []
  end.
Definition of_segments (gs : list Z) : bytes := concat (map (fun g => [g / 256; g mod 256]) gs).

(** The longest run of zero segments, the first of the longest: [(start, len)]. *)
Fixpoint zeroes_from (i : nat) (longest current : nat * nat) (gs : list Z) : nat * nat :=
  match gs with
  | [] => longest
  | g :: gs =>
      if g =? 0 then
        let start := if (snd current =? 0)%nat then i else fst current in
        let current := (start, S (snd current)) in
        zeroes_from (S i) (if (snd longest <? snd current)%nat then current else longest) current gs
      else zeroes_from (S i) longest (0%nat, 0%nat) gs
  end.
Definition zeroes (gs : list Z) : nat * nat := zeroes_from 0 (0%nat, 0%nat) (0%nat, 0%nat) gs.

(** [Ipv6Addr::to_ipv4_mapped]. *)
Definition to_ipv4_mapped (gs : list Z) : option bytes :=
  match gs with
  | [0; 0; 0; 0; 0; 65535; ab; cd] => Some [ab / 256; ab mod 256; cd / 256; cd mod 256]
  | _ => None
  end.

(** [Display] of [Ipv6Addr]. *)
Definition display_v6 (octets : bytes) : str :=
  let gs := segments octets in
  match to_ipv4_mapped gs with
  | Some v4 => lit "::ffff:" ++ display_v4 v4
  | None =>
      let (start, len) := zeroes gs in
      if (1 <? len)%nat
      then groups_text 0 (take start gs) ++ lit "::" ++ groups_text 0 (drop (start + len) gs)
      else groups_text 0 gs
  end.

(** ** Reading *)

(** [char::to_digit]. *)
Definition to_digit (radix c : Z) : option Z :=
  let d :=
    if (48 <=? c) && (c <=? 57) then c - 48
    else if (97 <=? c) && (c <=? 122) then c - 87
    else if (65 <=? c) && (c <=? 90) then c - 55
    else radix in
  if d <? radix then Some d else None.

Definition read_given_char (target : Z) (s : str) : option str :=
  match s with c :: s => if c =? target then Some s else None | [] => None end.

Definition read_separator {A} (sep : Z) (index : nat) (inner : str -> option (A * str)) (s : str) : option (A * str) :=
  if (index =? 0)%nat then inner s else s ← read_given_char sep s; inner s.

Fixpoint read_digits (radix : Z) (s : str) : list Z * str :=
  match s with
  | c :: s' =>
      match to_digit radix c with
      | Some d => let (ds, rest) := read_digits radix s' in (d :: ds, rest)
      | None => ([], s)
      end
  | [] => ([], [])
  end.

Definition digits_val (radix : Z) (ds : list Z) : Z := foldl (fun v d => v * radix + d) 0 ds.

(** [read_number]: into a type of values below [bound]. *)
Definition read_number (radix : Z) (max_digits : option nat) (bound : Z) (allow_zero_prefix : bool) (s : str)
    : option (Z * str) :=
  let (ds, rest) := read_digits radix s in
  match ds with
  | [] => None
  | d :: tl =>
      if negb allow_zero_prefix && (d =? 0) && negb (bool_decide (tl = [])) then None
      else if match max_digits with Some m => (length ds <=? m)%nat | None => true end && (digits_val radix ds <? bound)
      then Some (digits_val radix ds, rest) else None
  end.

Fixpoint read_octets (n i : nat) (s : str) : option (bytes * str) :=
  match n with
  | O => Some ([], s)
  | S n =>
      '(o, s) ← read_separator 46 i (read_number 10 (Some 3%nat) 256 false) s;
      '(os, s) ← read_octets n (S i) s;
      Some (o :: os, s)
  end.
Definition read_ipv4_addr (s : str) : option (bytes * str) := read_octets 4 0 s.

(** [read_groups] for the [n] slots left at index [i]: the groups, whether an IPv4
    address ended them, the rest. *)
Fixpoint read_groups (n i : nat) (s : str) : list Z * bool * str :=
  match n with
  | O => ([], false, s)
  | S n =>
      match (if (1 <=? n)%nat then read_separator 58 i read_ipv4_addr s else None) with
      | Some (octets, s) => (segments octets, true, s)
      | None =>
          match read_separator 58 i (read_number 16 (Some 4%nat) 65536 true) s with
          | Some (g, s) => let '(gs, v4, s) := read_groups n (S i) s in (g :: gs, v4, s)
          | None => ([], false, s)
          end
      end
  end.

(** [read_ipv6_addr]: the segments. *)
Definition read_ipv6_addr (s : str) : option (list Z * str) :=
  let '(head, head_ipv4, s) := read_groups 8 0 s in
  if (length head =? 8)%nat then Some (head, s)
  else if head_ipv4 then None
  else
    s ← read_given_char 58 s;
    s ← read_given_char 58 s;
    let '(tail, _, s) := read_groups (8 - (length head + 1)) 0 s in
    Some (head ++ replicate (8 - length head - length tail) 0 ++ tail, s).

Definition read_ip_addr (s : str) : option (IpAddr * str) :=
  match read_ipv4_addr s with
  | Some (octets, s) => Some (V4 octets, s)
  | None => '(gs, s) ← read_ipv6_addr s; Some (V6 (of_segments gs), s)
  end.

Definition read_port (s : str) : option (Z * str) :=
  s ← read_given_char 58 s; read_number 10 None (2 ^ 16) true s.
Definition read_scope_id (s : str) : option (Z * str) :=
  s ← read_given_char 37 s; read_number 10 None (2 ^ 32) true s.

(** [SocketAddr]: its address, port and scope. *)
Record SocketAddr := SockAddr { sa_ip : IpAddr; sa_port : Z; sa_scope : Z }.

Definition read_socket_addr_v4 (s : str) : option (SocketAddr * str) :=
  '(octets, s) ← read_ipv4_addr s;
  '(port, s) ← read_port s;
  Some (SockAddr (V4 octets) port 0, s).

Definition read_socket_addr_v6 (s : str) : option (SocketAddr * str) :=
  s ← read_given_char 91 s;
  '(gs, s) ← read_ipv6_addr s;
  let (scope, s) := default (0, s) (read_scope_id s) in
  s ← read_given_char 93 s;
  '(port, s) ← read_port s;
  Some (SockAddr (V6 (of_segments gs)) port scope, s).

Definition read_socket_addr (s : str) : option (SocketAddr * str) :=
  match read_socket_addr_v4 s with Some r => Some r | None => read_socket_addr_v6 s end.

(** [parse_with]: the reader must take all of the text. *)
Definition parse_with {A} (inner : str -> option (A * str)) (s : str) : option A :=
  match inner s with Some (a, []) => Some a | _ => None end.

Definition parse_ip_addr (s : str) : option IpAddr := parse_with read_ip_addr s.
Definition parse_socket_addr (s : str) : option SocketAddr := parse_with read_socket_addr s.

(** [str::parse::<u16>]: a leading plus sign is allowed. *)
Definition parse_u16 (s : str) : option Z :=
  let s := match s with 43 :: s => s | _ => s end in
  match read_digits 10 s with
  | ([], _) => None
  | (ds, []) => if digits_val 10 ds <? 2 ^ 16 then Some (digits_val 10 ds) else None
  | _ => None
  end.

(** [str::rsplit_once]. *)
Fixpoint rsplit_once (c : Z) (s : str) : option (str * str) :=
  match s with
  | [] => None
  | x :: s =>
      match rsplit_once c s with
      | Some (a, b) => Some (x :: a, b)
      | None => if x =? c then Some ([], s) else None
      end
  end.

(** ** Digits *)

Lemma digits_rev_range fuel radix v : 0 < radix -> Forall (fun d => 0 <= d < radix) (digits_rev fuel radix v).
Proof.
  intros Hr. revert v. induction fuel as [|fuel IH]; intros v; cbn [digits_rev]; constructor; [by apply Z.mod_pos_bound|].
  destruct (_ =? _); [constructor|apply IH].
Qed.

Lemma text_digits_range radix v : 0 < radix -> Forall (fun d => 0 <= d < radix) (digits radix v).
Proof. intros Hr. apply Forall_rev. by apply digits_rev_range. Qed.

Lemma digits_val_snoc radix ds d : digits_val radix (ds ++ [d]) = digits_val radix ds * radix + d.
Proof. unfold digits_val. by rewrite foldl_app. Qed.

Lemma digits_rev_val radix fuel : 1 < radix -> forall v, 0 <= v < radix ^ Z.of_nat fuel ->
  digits_val radix (rev (digits_rev fuel radix v)) = v.
Proof.
  intros Hr. induction fuel as [|fuel IH]; intros v Hv; [change (radix ^ Z.of_nat 0) with 1 in Hv; cbn; lia|].
  cbn [digits_rev rev]. rewrite digits_val_snoc. rewrite Nat2Z.inj_succ, Z.pow_succ_r in Hv by lia.
  pose proof (Z.div_mod v radix ltac:(lia)) as Hdm. pose proof (Z.mod_pos_bound v radix ltac:(lia)).
  assert (0 <= v / radix < radix ^ Z.of_nat fuel) as Hq.
  { split; [apply Z.div_pos; lia|]. apply Z.div_lt_upper_bound; lia. }
  destruct (Z.eqb_spec (v / radix) 0) as [E|E].
  - cbn. rewrite E in Hdm. lia.
  - rewrite (IH _ Hq). lia.
Qed.

(** A nonzero number has no leading zero, and [n] digits are enough below [radix ^ n]. *)
Lemma digits_rev_last radix fuel : 1 < radix -> forall v, 0 < v < radix ^ Z.of_nat fuel ->
  exists d ds, rev (digits_rev fuel radix v) = d :: ds /\ d <> 0.
Proof.
  intros Hr. induction fuel as [|fuel IH]; intros v Hv; [change (radix ^ Z.of_nat 0) with 1 in Hv; lia|].
  cbn [digits_rev rev]. rewrite Nat2Z.inj_succ, Z.pow_succ_r in Hv by lia.
  pose proof (Z.div_mod v radix ltac:(lia)) as Hdm. pose proof (Z.mod_pos_bound v radix ltac:(lia)).
  destruct (Z.eqb_spec (v / radix) 0) as [E|E].
  - exists (v mod radix), []. split; [done|]. rewrite E in Hdm. lia.
  - assert (0 < v / radix < radix ^ Z.of_nat fuel) as Hq.
    { split; [pose proof (Z.div_pos v radix); lia|]. apply Z.div_lt_upper_bound; lia. }
    destruct (IH _ Hq) as (d & ds & -> & Hd). by exists d, (ds ++ [v mod radix]).
Qed.

Lemma digits_rev_length radix : 1 < radix -> forall n fuel v, 0 <= v < radix ^ Z.of_nat (S n) ->
  (length (digits_rev fuel radix v) ≤ S n)%nat.
Proof.
  intros Hr. induction n as [|n IH]; intros fuel v Hv; destruct fuel as [|fuel]; cbn [digits_rev length]; try lia.
  - change (Z.of_nat 1) with 1 in Hv. rewrite Z.pow_1_r in Hv.
    rewrite Z.div_small by lia. cbn. lia.
  - destruct (_ =? _); [cbn; lia|]. apply le_n_S, IH. rewrite Nat2Z.inj_succ, Z.pow_succ_r in Hv by lia.
    split; [apply Z.div_pos; lia|apply Z.div_lt_upper_bound; lia].
Qed.

Lemma digits_spec radix n v : 1 < radix -> 0 <= v < radix ^ Z.of_nat (S n) -> (n < 40)%nat ->
  exists d ds, digits radix v = d :: ds /\ (length (d :: ds) ≤ S n)%nat /\ digits_val radix (d :: ds) = v /\
    (d = 0 -> ds = []) /\ Forall (fun d => 0 <= d < radix) (d :: ds).
Proof.
  intros Hr Hv Hn. assert (0 <= v < radix ^ Z.of_nat 40) as Hv40.
  { split; [lia|]. eapply Z.lt_le_trans; [apply Hv|]. apply Z.pow_le_mono_r; lia. }
  assert (digits_val radix (digits radix v) = v) as Hval by (by apply digits_rev_val).
  assert (length (digits radix v) ≤ S n)%nat as Hlen by (unfold digits; rewrite length_rev; by apply digits_rev_length).
  pose proof (text_digits_range radix v ltac:(lia)) as Hrange.
  destruct (decide (v = 0)) as [->|Hnz].
  - assert (digits radix 0 = [0]) as E.
    { unfold digits. cbn [digits_rev]. rewrite Z.mod_0_l, Z.div_0_l by lia. done. }
    exists 0, []. rewrite E in *. done.
  - destruct (digits_rev_last radix 40 Hr v ltac:(lia)) as (d & ds & E & Hd). fold (digits radix v) in E.
    exists d, ds. rewrite E in *. by split_and!.
Qed.

(** ** Reading digits back *)

(** The text does not go on with a digit. *)
Definition stops (radix : Z) (s : str) : Prop := match s with c :: _ => to_digit radix c = None | [] => True end.

Lemma to_digit_char radix d : 0 <= d < radix -> radix <= 36 -> to_digit radix (digit_char d) = Some d.
Proof.
  intros Hd Hr. unfold to_digit, digit_char. destruct (Z.ltb_spec d 10) as [Hlt|Hge].
  - rewrite (proj2 (andb_true_iff _ _)) by lia. rewrite (proj2 (Z.ltb_lt _ _)) by lia. f_equal. lia.
  - rewrite (proj2 (andb_false_iff (48 <=? 87 + d) _)) by lia. rewrite (proj2 (andb_true_iff _ _)) by lia.
    rewrite (proj2 (Z.ltb_lt _ _)) by lia. f_equal. lia.
Qed.

Lemma read_digits_app radix ds rest : radix <= 36 -> Forall (fun d => 0 <= d < radix) ds -> stops radix rest ->
  read_digits radix (map digit_char ds ++ rest) = (ds, rest).
Proof.
  intros Hr Hds Hs. induction Hds as [|d ds Hd Hds IH]; cbn [map app].
  - destruct rest as [|c rest]; [done|]. cbn [read_digits stops] in *. by rewrite Hs.
  - cbn [read_digits]. by rewrite to_digit_char, IH by done.
Qed.

Lemma read_number_print radix n max bound allow v rest :
  1 < radix <= 36 -> 0 <= v < radix ^ Z.of_nat (S n) -> (n < 40)%nat -> v < bound ->
  (forall m, max = Some m -> (S n ≤ m)%nat) -> stops radix rest ->
  read_number radix max bound allow (map digit_char (digits radix v) ++ rest) = Some (v, rest).
Proof.
  intros Hr Hv Hn Hb Hmax Hs. destruct (digits_spec radix n v ltac:(lia) Hv Hn) as (d & ds & E & Hl & Hval & Hz & Hrange).
  unfold read_number. rewrite E, read_digits_app by (done || lia).
  destruct (negb allow && (d =? 0) && negb (bool_decide (ds = []))) eqn:Ez.
  { apply andb_prop in Ez as [[_ Ez]%andb_prop Ed]. apply Z.eqb_eq in Ez. rewrite bool_decide_true in Ed by auto. done. }
  rewrite Hval, (proj2 (Z.ltb_lt v bound)) by lia. rewrite andb_true_r.
  destruct max as [m|]; [|done]. rewrite (proj2 (Nat.leb_le _ _)); [done|]. specialize (Hmax m eq_refl). lia.
Qed.

Lemma read_decimal v max bound allow rest n : 0 <= v < 10 ^ Z.of_nat (S n) -> (n < 40)%nat -> v < bound ->
  (forall m, max = Some m -> (S n ≤ m)%nat) -> stops 10 rest ->
  read_number 10 max bound allow (decimal v ++ rest) = Some (v, rest).
Proof. intros. by apply (read_number_print 10 n). Qed.

Lemma read_hex g rest : 0 <= g < 65536 -> stops 16 rest ->
  read_number 16 (Some 4%nat) 65536 true (hex g ++ rest) = Some (g, rest).
Proof. intros Hg Hs. apply (read_number_print 16 3); try done; [lia..|]. intros m [= <-]. lia. Qed.

(** ** IPv4 *)

Lemma octets_text_read n i os rest : length os = n -> wf_bytes os -> stops 10 rest ->
  read_octets n i (octets_text i os ++ rest) = Some (os, rest).
Proof.
  revert i os. induction n as [|n IH]; intros i os Hl Hw Hs; destruct os as [|o os]; try discriminate; [done|].
  apply wf_bytes_cons in Hw as [Ho Hw]. injection Hl as Hl. cbn [octets_text read_octets].
  assert (stops 10 (octets_text (S i) os ++ rest)) as Hs' by (by destruct os).
  assert (read_separator 46 i (read_number 10 (Some 3%nat) 256 false)
    (((if (i =? 0)%nat then [] else [46]) ++ decimal o ++ octets_text (S i) os) ++ rest) = Some (o, octets_text (S i) os ++ rest)) as ->.
  { unfold read_separator. destruct (i =? 0)%nat; cbn [app read_given_char]; rewrite <- ?(assoc (++)).
    - apply (read_decimal _ _ _ _ _ 2); [cbn; lia|lia|lia| |done]. intros m [= <-]. lia.
    - rewrite Z.eqb_refl. cbn [mbind option_bind].
      apply (read_decimal _ _ _ _ _ 2); [cbn; lia|lia|lia| |done]. intros m [= <-]. lia. }
  cbn [mbind option_bind]. by rewrite (IH (S i) os).
Qed.

Lemma read_ipv4_display os rest : length os = 4%nat -> wf_bytes os -> stops 10 rest ->
  read_ipv4_addr (display_v4 os ++ rest) = Some (os, rest).
Proof. intros. by apply octets_text_read. Qed.

(** An IPv4 address begins with digits and a dot. *)
Lemma read_number_rest radix max bound allow s v rest :
  read_number radix max bound allow s = Some (v, rest) -> rest = snd (read_digits radix s).
Proof.
  unfold read_number. destruct (read_digits radix s) as [[|d ds] r]; [done|]. cbn [snd].
  destruct (_ && _ && _); [done|]. destruct (_ && _); [|done]. by intros [= _ ->].
Qed.

Lemma read_ipv4_dot s r : read_ipv4_addr s = Some r -> head (snd (read_digits 10 s)) = Some 46.
Proof.
  unfold read_ipv4_addr. cbn [read_octets]. unfold read_separator at 1. cbn [Nat.eqb].
  intros Hr. apply bind_Some in Hr as ([o s1] & E1 & Hr). apply read_number_rest in E1 as ->.
  apply bind_Some in Hr as ([os s2] & E2 & _). apply bind_Some in E2 as ([o2 s3] & E3 & _).
  unfold read_separator in E3. cbn [Nat.eqb] in E3. apply bind_Some in E3 as (s4 & E4 & _).
  destruct (snd (read_digits 10 s)) as [|c tl]; [done|]. cbn [read_given_char] in E4.
  destruct (Z.eqb_spec c 46) as [->|]; [done|discriminate].
Qed.

Lemma read_digits_no_dot cs rest : Forall (fun c => c <> 46) cs -> head rest <> Some 46 -> stops 10 rest ->
  head (snd (read_digits 10 (cs ++ rest))) <> Some 46.
Proof.
  intros Hcs Hh Hs. induction Hcs as [|c cs Hc Hcs IH]; cbn [app].
  - destruct rest as [|c rest]; [done|]. cbn [read_digits stops] in *. by rewrite Hs.
  - cbn [read_digits]. destruct (to_digit 10 c); [|cbn; congruence].
    by destruct (read_digits 10 (cs ++ rest)).
Qed.

(** ** IPv6 *)

Lemma hex_no_dot g : Forall (fun c => c <> 46) (hex g).
Proof.
  unfold hex. apply Forall_map. eapply Forall_impl; [apply (text_digits_range 16); lia|].
  intros d Hd. cbn in *. unfold digit_char. destruct (Z.ltb_spec d 10); lia.
Qed.

(** Text at which a chunk of groups ends: nothing that continues a group, a dotted
    quad or a separated group. *)
Definition stop_text (s : str) : Prop :=
  match s with
  | [] => True
  | c :: s => to_digit 16 c = None /\ c <> 46 /\ (c = 58 -> head s = Some 58)
  end.

Lemma to_digit_16_10 c : to_digit 16 c = None -> to_digit 10 c = None.
Proof.
  unfold to_digit. destruct ((48 <=? c) && (c <=? 57)) eqn:E1.
  { apply andb_prop in E1 as [?%Z.leb_le ?%Z.leb_le]. by rewrite (proj2 (Z.ltb_lt (c - 48) 16)) by lia. }
  destruct ((97 <=? c) && (c <=? 122)) eqn:E2; [|destruct ((65 <=? c) && (c <=? 90)) eqn:E3; [|done]].
  - apply andb_prop in E2 as [?%Z.leb_le ?%Z.leb_le]. by rewrite (proj2 (Z.ltb_ge (c - 87) 10)) by lia.
  - apply andb_prop in E3 as [?%Z.leb_le ?%Z.leb_le]. by rewrite (proj2 (Z.ltb_ge (c - 55) 10)) by lia.
Qed.

Lemma stop_text_stops s : stop_text s -> stops 16 s /\ stops 10 s /\ head s <> Some 46.
Proof.
  destruct s as [|c s]; [done|]. intros (Hd & Hdot & _). split_and!; [done|by apply to_digit_16_10|]. cbn. congruence.
Qed.

(** After a group: the next group, or the end. *)
Lemma groups_text_stops i gs rest : stop_text rest ->
  stops 16 (groups_text (S i) gs ++ rest) /\ stops 10 (groups_text (S i) gs ++ rest) /\
  head (groups_text (S i) gs ++ rest) <> Some 46.
Proof. intros Hs. destruct gs; [by apply stop_text_stops|done]. Qed.

Lemma read_ipv4_not_hex g rest : stops 10 rest -> head rest <> Some 46 -> read_ipv4_addr (hex g ++ rest) = None.
Proof.
  intros Hs Hh. destruct (read_ipv4_addr _) as [r|] eqn:E; [|done]. apply read_ipv4_dot in E.
  exfalso. revert E. apply read_digits_no_dot; [apply hex_no_dot|done..].
Qed.

Lemma read_groups_stop n i rest : stop_text rest -> read_groups n i rest = ([], false, rest).
Proof.
  intros Hs. destruct n as [|n]; [done|]. cbn [read_groups]. destruct (stop_text_stops _ Hs) as (H16 & H10 & Hdot).
  assert (read_ipv4_addr rest = None) as E4.
  { destruct (read_ipv4_addr rest) as [r|] eqn:E; [|done]. apply read_ipv4_dot in E.
    by apply (read_digits_no_dot [] rest) in E. }
  assert (forall b, read_number 16 (Some 4%nat) b true rest = None) as E16.
  { intros b. unfold read_number. destruct rest as [|c rest]; [done|]. cbn [stops] in H16. cbn [read_digits]. by rewrite H16. }
  assert (forall A (f : str -> option (A * str)), f rest = None ->
    (forall tl, rest = 58 :: 58 :: tl -> f (58 :: tl) = None) -> read_separator 58 i f rest = None) as Hsep.
  { intros A f Hf Hf'. unfold read_separator. destruct (i =? 0)%nat; [done|].
    destruct rest as [|c rest]; [done|]. cbn [read_given_char]. destruct (Z.eqb_spec c 58) as [->|]; [|done].
    destruct Hs as (_ & _ & Hc). specialize (Hc eq_refl). destruct rest as [|c tl]; [done|]. injection Hc as ->.
    by apply Hf'. }
  rewrite (Hsep _ read_ipv4_addr), (Hsep _ (read_number _ _ _ _)); [by destruct (1 <=? n)%nat|done..].
Qed.

Lemma read_groups_text rest : stop_text rest -> forall gs n i, (length gs ≤ n)%nat -> Forall (fun g => 0 <= g < 65536) gs ->
  read_groups n i (groups_text i gs ++ rest) = (gs, false, rest).
Proof.
  intros Hs. induction gs as [|g gs IH]; intros n i Hl Hg; [by apply read_groups_stop|].
  apply Forall_cons in Hg as [Hg Hgs]. destruct n as [|n]; [simpl in Hl; lia|]. cbn [groups_text read_groups].
  destruct (groups_text_stops i gs rest Hs) as (H16 & H10 & Hdot).
  assert (forall A (f : str -> option (A * str)) r, f (hex g ++ groups_text (S i) gs ++ rest) = r ->
    read_separator 58 i f (((if (i =? 0)%nat then [] else [58]) ++ hex g ++ groups_text (S i) gs) ++ rest) = r) as Hsep.
  { intros A f r <-. unfold read_separator. by destruct (i =? 0)%nat; cbn [app read_given_char]; rewrite <- (assoc (++)). }
  rewrite (Hsep _ read_ipv4_addr None) by (by apply read_ipv4_not_hex).
  rewrite (Hsep _ _ (Some (g, groups_text (S i) gs ++ rest))) by (by apply read_hex).
  rewrite (IH n (S i)); [by destruct (1 <=? n)%nat|simpl in Hl; lia|done].
Qed.

(** The run [zeroes] finds is made of zeros and lies inside the address. *)
Definition zero_run (gs : list Z) (r : nat * nat) : Prop :=
  forall j, (fst r ≤ j < fst r + snd r)%nat -> gs !! j = Some 0.

Lemma zeroes_from_ok gs : forall i longest current done_,
  length done_ = i -> zero_run (done_ ++ gs) longest -> zero_run (done_ ++ gs) current ->
  (snd current = 0%nat \/ (fst current + snd current = i)%nat) ->
  zero_run (done_ ++ gs) (zeroes_from i longest current gs).
Proof.
  induction gs as [|g gs IH]; intros i longest current done_ Hi Hl Hc He; [done|]. cbn [zeroes_from].
  rewrite cons_middle, (assoc (++)) in *.
  assert (length (done_ ++ [g]) = S i) as Hi' by (rewrite length_app; simpl; lia).
  destruct (Z.eqb_spec g 0) as [->|Hg].
  - set (start := if (snd current =? 0)%nat then i else fst current).
    assert (start + snd current = i)%nat as Hst.
    { unfold start. destruct (Nat.eqb_spec (snd current) 0) as [E|E]; [lia|]. by destruct He. }
    assert (zero_run ((done_ ++ [0]) ++ gs) (start, S (snd current))) as Hrun.
    { intros j Hj. cbn [fst snd] in Hj. destruct (decide (j = i)) as [->|Hne].
      - rewrite lookup_app_l by lia. rewrite lookup_app_r by lia. by rewrite Hi, Nat.sub_diag.
      - apply Hc. unfold start in *. destruct (Nat.eqb_spec (snd current) 0); [lia|]. lia. }
    apply IH; [done| |done|right; cbn; lia]. by destruct (_ <? _)%nat.
  - apply IH; [done..| |by left]. intros j Hj. cbn in Hj. lia.
Qed.

Lemma zeroes_ok gs : zero_run gs (zeroes gs).
Proof. apply (zeroes_from_ok gs 0 _ _ []); try done; [intros j Hj; cbn in Hj; lia..|by left]. Qed.

Lemma zero_run_split gs start len : zero_run gs (start, S len) ->
  gs = take start gs ++ replicate (S len) 0 ++ drop (start + S len) gs.
Proof.
  intros Hz. assert ((start + S len ≤ length gs)%nat) as Hlen.
  { assert (gs !! (start + len)%nat = Some 0) as Hl by (apply Hz; cbn; lia). apply lookup_lt_Some in Hl. lia. }
  rewrite <- (take_drop start gs) at 1. f_equal. rewrite <- (take_drop (S len) (drop start gs)) at 1. rewrite drop_drop. f_equal.
  apply list_eq_same_length with (n := S len); [by rewrite length_replicate| |].
  - rewrite length_take, length_drop. lia.
  - intros j x y Hj Hx Hy. apply lookup_replicate in Hy as [-> _].
    rewrite lookup_take_lt, lookup_drop in Hx by done. rewrite (Hz (start + j)%nat) in Hx by (cbn; lia). congruence.
Qed.

(** ** Segments *)

Lemma segments_ok n : forall os, length os = (2 * n)%nat -> wf_bytes os ->
  length (segments os) = n /\ Forall (fun g => 0 <= g < 65536) (segments os) /\ of_segments (segments os) = os.
Proof.
  induction n as [|n IH]; intros [|a [|b os]] Hl Hw; try (simpl in Hl; lia); [done|].
  apply wf_bytes_cons in Hw as [Ha [Hb Hw]%wf_bytes_cons]. destruct (IH os ltac:(simpl in Hl; lia) Hw) as (Hsl & Hsr & Hso).
  cbn [segments length]. split_and!; [by rewrite Hsl|constructor; [lia|done]|].
  unfold of_segments in *. cbn [map concat app]. rewrite Hso. repeat f_equal.
  - rewrite Z.div_add_l, Z.div_small by lia. lia.
  - rewrite Z.add_comm, Z.mod_add, Z.mod_small by lia. done.
Qed.

Lemma to_ipv4_mapped_Some gs v4 : to_ipv4_mapped gs = Some v4 -> Forall (fun g => 0 <= g < 65536) gs ->
  gs = [0; 0; 0; 0; 0; 65535] ++ segments v4 /\ length v4 = 4%nat /\ wf_bytes v4.
Proof.
  unfold to_ipv4_mapped. intros E Hg. repeat case_match; try discriminate. subst. injection E as <-.
  repeat (apply Forall_cons in Hg as [? Hg]). split_and!; [|done|].
  - cbn [segments app]. rewrite !(Z.mul_comm _ 256), <- !Z.div_mod by lia. done.
  - repeat (constructor; [first [apply Z.mod_pos_bound; lia|split; [apply Z.div_pos; lia|apply Z.div_lt_upper_bound; lia]]|]). constructor.
Qed.

(** ** Addresses *)

(** What [Display] writes, the parser reads, whatever follows that is not part of an
    address. *)
Lemma read_ipv6_display os rest : length os = 16%nat -> wf_bytes os -> stop_text rest ->
  read_ipv6_addr (display_v6 os ++ rest) = Some (segments os, rest).
Proof.
  intros Hl Hw Hs. destruct (segments_ok 8 os Hl Hw) as (Hsl & Hsr & _). unfold display_v6.
  destruct (stop_text_stops _ Hs) as (H16 & H10 & Hdot).
  destruct (to_ipv4_mapped (segments os)) as [v4|] eqn:Em.
  - destruct (to_ipv4_mapped_Some _ _ Em Hsr) as (-> & Hl4 & Hw4). unfold read_ipv6_addr.
    assert ((lit "::ffff:" ++ display_v4 v4) ++ rest = 58 :: 58 :: hex 65535 ++ [58] ++ display_v4 v4 ++ rest) as ->.
    { rewrite <- (assoc (++)). done. }
    rewrite (read_groups_stop 8 0 (58 :: _)) by done. cbn [length Nat.eqb read_given_char mbind option_bind Z.eqb Pos.eqb Nat.add Nat.sub].
    cbn [read_groups Nat.leb]. unfold read_separator at 1 2. cbn [Nat.eqb].
    assert (stops 16 ([58] ++ display_v4 v4 ++ rest) /\ stops 10 ([58] ++ display_v4 v4 ++ rest)) as [Hs16 Hs10] by done.
    rewrite (read_ipv4_not_hex 65535) by done.
    rewrite (read_hex 65535) by done.
    unfold read_separator at 1. cbn [Nat.eqb app read_given_char Z.eqb Pos.eqb mbind option_bind].
    rewrite read_ipv4_display by done. cbn [app length Nat.sub]. 
    do 5 (destruct v4 as [|? v4]; try discriminate). done.
  - destruct (zeroes (segments os)) as [start len] eqn:Ez. pose proof (zeroes_ok (segments os)) as Hz. rewrite Ez in Hz.
    destruct (1 <? len)%nat eqn:E1.
    + apply Nat.ltb_lt in E1. destruct len as [|len]; [lia|]. pose proof (zero_run_split _ _ _ Hz) as Hsplit.
      set (a := take start (segments os)) in *. set (b := drop (start + S len) (segments os)) in *.
      rewrite Hsplit in Hsl, Hsr. rewrite !length_app, length_replicate in Hsl.
      apply Forall_app in Hsr as [Ha [_ Hb]%Forall_app]. change (lit "::") with [58; 58]. unfold read_ipv6_addr.
      rewrite <- !(assoc (++)). rewrite (read_groups_text ([58; 58] ++ groups_text 0 b ++ rest)) by (done || lia).
      rewrite (proj2 (Nat.eqb_neq (length a) 8)) by lia. cbn [app read_given_char Z.eqb Pos.eqb mbind option_bind].
      rewrite (read_groups_text rest) by (done || lia). replace (8 - length a - length b)%nat with (S len) by lia. by rewrite <- Hsplit.
    + unfold read_ipv6_addr. rewrite (read_groups_text rest) by (done || lia). by rewrite Hsl.
Qed.

Lemma read_port_print p : 0 <= p < 2 ^ 16 -> read_port (58 :: decimal p) = Some (p, []).
Proof.
  intros Hp. unfold read_port. cbn [read_given_char Z.eqb Pos.eqb mbind option_bind].
  rewrite <- (app_nil_r (decimal p)). apply (read_decimal _ _ _ _ _ 5); try done; lia.
Qed.

Lemma parse_u16_print p : 0 <= p < 2 ^ 16 -> parse_u16 (decimal p) = Some p.
Proof.
  intros Hp. destruct (digits_spec 10 5 p ltac:(lia) ltac:(lia) ltac:(lia)) as (d & ds & E & _ & Hval & _ & Hr).
  unfold parse_u16, decimal. rewrite E.
  assert (match map digit_char (d :: ds) with 43 :: s => s | _ => map digit_char (d :: ds) end = map digit_char (d :: ds)) as ->.
  { apply Forall_cons in Hr as [Hd _]. cbn [map]. unfold digit_char at 1. rewrite (proj2 (Z.ltb_lt d 10)) by lia.
    destruct (48 + d) as [|q|q] eqn:Eq; try done. repeat (destruct q as [q|q|]; try done). lia. }
  rewrite <- (app_nil_r (map _ _)), read_digits_app by (done || lia). rewrite Hval. by rewrite (proj2 (Z.ltb_lt _ _)) by lia.
Qed.

(** An address and a port in [host:port] form. *)
Lemma parse_socket_v4 os p : length os = 4%nat -> wf_bytes os -> 0 <= p < 2 ^ 16 ->
  parse_socket_addr (display_v4 os ++ 58 :: decimal p) = Some (SockAddr (V4 os) p 0).
Proof.
  intros Hl Hw Hp. unfold parse_socket_addr, parse_with, read_socket_addr, read_socket_addr_v4.
  rewrite read_ipv4_display by done. cbn [mbind option_bind]. by rewrite read_port_print.
Qed.

Lemma parse_socket_v6 os p : length os = 16%nat -> wf_bytes os -> 0 <= p < 2 ^ 16 ->
  parse_socket_addr (91 :: display_v6 os ++ 93 :: 58 :: decimal p) = Some (SockAddr (V6 os) p 0).
Proof.
  intros Hl Hw Hp. unfold parse_socket_addr, parse_with, read_socket_addr, read_socket_addr_v4.
  destruct (read_ipv4_addr _) as [r|] eqn:E; [by apply read_ipv4_dot in E|]. cbn [mbind option_bind].
  unfold read_socket_addr_v6. cbn [read_given_char Z.eqb Pos.eqb mbind option_bind].
  rewrite read_ipv6_display; [|done|done|by split; [|split]].
  destruct (segments_ok 8 os Hl Hw) as (_ & _ & Ho).
  cbn [read_scope_id read_given_char Z.eqb Pos.eqb mbind option_bind default read_port].
  pose proof (read_port_print p Hp) as Hport. cbn [read_port read_given_char Z.eqb Pos.eqb mbind option_bind] in Hport.
  unfold read_port. cbn [read_given_char Z.eqb Pos.eqb mbind option_bind]. 
  unfold read_port in Hport. cbn [read_given_char Z.eqb Pos.eqb mbind option_bind] in Hport. rewrite Hport. cbn. by rewrite Ho.
Qed.

(** ** Text before a colon

    A reader of dotted quads does not look past a colon. *)

Lemma read_digits_colon a r : read_digits 10 (a ++ 58 :: r) = let (ds, rest) := read_digits 10 a in (ds, rest ++ 58 :: r).
Proof.
  induction a as [|c a IH]; [done|]. cbn [app read_digits]. destruct (to_digit 10 c); [|done].
  rewrite IH. by destruct (read_digits 10 a).
Qed.

Definition extend (r : str) {A} (o : option (A * str)) : option (A * str) := '(a, rest) ← o; Some (a, rest ++ 58 :: r).

Lemma read_number_colon max bound allow a r :
  read_number 10 max bound allow (a ++ 58 :: r) = extend r (read_number 10 max bound allow a).
Proof.
  unfold read_number. rewrite read_digits_colon. destruct (read_digits 10 a) as [[|d ds] rest]; [done|].
  destruct (_ && _ && _); [done|]. by destruct (_ && _).
Qed.

Lemma read_separator_colon {A} i (f : str -> option (A * str)) a r : (forall a, f (a ++ 58 :: r) = extend r (f a)) ->
  read_separator 46 i f (a ++ 58 :: r) = extend r (read_separator 46 i f a).
Proof.
  intros Hf. unfold read_separator. destruct (i =? 0)%nat; [done|]. destruct a as [|c a]; [done|]. cbn [app read_given_char].
  destruct (c =? 46); [|done]. cbn [mbind option_bind]. apply Hf.
Qed.

Lemma read_octets_colon n : forall i a r, read_octets n i (a ++ 58 :: r) = extend r (read_octets n i a).
Proof.
  induction n as [|n IH]; intros i a r; [done|]. cbn [read_octets].
  rewrite read_separator_colon by (intros; apply read_number_colon).
  destruct (read_separator _ _ _ a) as [[o s]|]; [|done]. cbn [extend mbind option_bind]. rewrite IH.
  by destruct (read_octets n (S i) s) as [[os s']|].
Qed.

(** What is left was there. *)
Lemma read_digits_suffix P s : Forall P s -> Forall P (snd (read_digits 10 s)).
Proof.
  intros Hs. induction Hs as [|c s Hc Hs IH]; [done|]. cbn [read_digits]. destruct (to_digit 10 c); [|by constructor].
  by destruct (read_digits 10 s).
Qed.

Lemma read_octets_suffix P n : forall i s os rest, Forall P s -> read_octets n i s = Some (os, rest) -> Forall P rest.
Proof.
  induction n as [|n IH]; intros i s os rest Hs E; [by injection E as _ <-|]. cbn [read_octets] in E.
  apply bind_Some in E as ([o s1] & E1 & E). apply bind_Some in E as ([os' s2] & E2 & E). injection E as _ <-.
  apply (IH _ _ _ _) with (2 := E2). unfold read_separator in E1. destruct (i =? 0)%nat.
  - rewrite (read_number_rest _ _ _ _ _ _ _ E1). by apply read_digits_suffix.
  - apply bind_Some in E1 as (s0 & E0 & E1). rewrite (read_number_rest _ _ _ _ _ _ _ E1). apply read_digits_suffix.
    destruct s as [|c s]; [done|]. cbn [read_given_char] in E0. apply Forall_cons in Hs as [_ Hs].
    destruct (c =? 46); [|done]. by injection E0 as <-.
Qed.

(** A name without a colon that is no address is no socket address either. *)
Lemma parse_socket_name d r : Forall (fun c => c <> 58) d -> head d <> Some 91 -> parse_ip_addr d = None -> d <> [] ->
  parse_socket_addr (d ++ 58 :: r) = None.
Proof.
  intros Hc Hb Hip Hne. unfold parse_socket_addr, parse_with, read_socket_addr.
  assert (read_socket_addr_v4 (d ++ 58 :: r) = None) as ->.
  { unfold read_socket_addr_v4, read_ipv4_addr. rewrite read_octets_colon.
    destruct (read_octets 4 0 d) as [[os rest]|] eqn:E; [|done]. cbn [extend mbind option_bind].
    pose proof (read_octets_suffix _ _ _ _ _ _ Hc E) as Hrest.
    destruct rest as [|c rest].
    - unfold parse_ip_addr, parse_with, read_ip_addr, read_ipv4_addr in Hip. by rewrite E in Hip.
    - cbn [app read_port]. unfold read_port. cbn [read_given_char]. apply Forall_cons in Hrest as [Hcc _].
      by rewrite (proj2 (Z.eqb_neq c 58)). }
  unfold read_socket_addr_v6. destruct d as [|c d]; [done|]. cbn [app read_given_char].
  destruct (Z.eqb_spec c 91) as [->|]; done.
Qed.

Lemma rsplit_once_last c a b : Forall (fun x => x <> c) b -> rsplit_once c (a ++ c :: b) = Some (a, b).
Proof.
  intros Hb. assert (rsplit_once c b = None) as Hn.
  { induction Hb as [|x b Hx Hb IH]; [done|]. cbn [rsplit_once]. by rewrite IH, (proj2 (Z.eqb_neq x c)). }
  induction a as [|x a IH]; cbn [app rsplit_once]; [by rewrite Hn, Z.eqb_refl|by rewrite IH].
Qed.

Lemma decimal_no_colon v : Forall (fun c => c <> 58) (decimal v).
Proof.
  unfold decimal. apply Forall_map. eapply Forall_impl; [apply (text_digits_range 10); lia|].
  intros d Hd. cbn in *. unfold digit_char. rewrite (proj2 (Z.ltb_lt d 10)) by lia. lia.
Qed.

(** ** What is read is well formed *)

Lemma to_digit_range radix c d : to_digit radix c = Some d -> 0 < radix -> 0 <= d < radix.
Proof.
  unfold to_digit. intros E Hr.
  destruct ((48 <=? c) && (c <=? 57)) eqn:E1; [|destruct ((97 <=? c) && (c <=? 122)) eqn:E2; [|destruct ((65 <=? c) && (c <=? 90)) eqn:E3]].
  all: destruct (_ <? radix) eqn:El in E; [|discriminate].
  all: injection E as <-; apply Z.ltb_lt in El.
  all: try (apply andb_prop in E1 as [?%Z.leb_le ?%Z.leb_le]; lia).
  all: try (apply andb_prop in E2 as [?%Z.leb_le ?%Z.leb_le]; lia).
  all: try (apply andb_prop in E3 as [?%Z.leb_le ?%Z.leb_le]; lia).
  lia.
Qed.

Lemma read_digits_range radix s : 0 < radix -> Forall (fun d => 0 <= d < radix) (fst (read_digits radix s)).
Proof.
  intros Hr. induction s as [|c s IH]; [constructor|]. cbn [read_digits].
  destruct (to_digit radix c) as [d|] eqn:E; [|constructor].
  destruct (read_digits radix s). constructor; [by apply to_digit_range in E|done].
Qed.

Lemma digits_val_nonneg radix ds : 0 < radix -> Forall (fun d => 0 <= d < radix) ds -> 0 <= digits_val radix ds.
Proof.
  intros Hr. induction ds as [|d ds IH] using rev_ind; intros Hd; [done|]. rewrite digits_val_snoc.
  apply Forall_app in Hd as [Hds [Hd _]%Forall_cons]. specialize (IH Hds). nia.
Qed.

Lemma read_number_bound radix max bound allow s v rest : 0 < radix ->
  read_number radix max bound allow s = Some (v, rest) -> 0 <= v < bound.
Proof.
  intros Hr. unfold read_number. pose proof (read_digits_range radix s Hr) as Hd.
  destruct (read_digits radix s) as [[|d ds] r]; [done|]. cbn [fst] in Hd.
  destruct (_ && _ && _); [done|]. destruct (_ && _) eqn:E; [|done]. intros [= <- _].
  apply andb_prop in E as [_ E%Z.ltb_lt]. split; [by apply digits_val_nonneg|done].
Qed.

Lemma read_separator_inv {A} sep i (f : str -> option (A * str)) s r : read_separator sep i f s = Some r -> exists s', f s' = Some r.
Proof.
  unfold read_separator. destruct (i =? 0)%nat; [by exists s|]. intros (s' & _ & E)%bind_Some. by exists s'.
Qed.

Lemma read_octets_wf n : forall i s os rest, read_octets n i s = Some (os, rest) -> length os = n /\ wf_bytes os.
Proof.
  induction n as [|n IH]; intros i s os rest E; [injection E as <- _; split; [done|constructor]|]. cbn [read_octets] in E.
  apply bind_Some in E as ([o s1] & (s' & E1)%read_separator_inv & E).
  apply bind_Some in E as ([os' s2] & E2 & E). injection E as <- _.
  destruct (IH _ _ _ _ E2) as [Hl Hw]. apply read_number_bound in E1; [|lia]. split; [simpl; by rewrite Hl|].
  apply wf_bytes_cons. split; [lia|done].
Qed.

Lemma read_groups_range n : forall i s gs v4 rest, read_groups n i s = (gs, v4, rest) ->
  (length gs ≤ n)%nat /\ Forall (fun g => 0 <= g < 65536) gs.
Proof.
  induction n as [|n IH]; intros i s gs v4 rest; cbn [read_groups]; [intros [= <- _ _]; split; [simpl; lia|constructor]|].
  destruct (if (1 <=? n)%nat then _ else _) as [[os s1]|] eqn:E4.
  - destruct (1 <=? n)%nat eqn:En; [|discriminate]. apply Nat.leb_le in En. intros [= <- _ _].
    apply read_separator_inv in E4 as (s' & E4). apply read_octets_wf in E4 as [Hl Hw].
    destruct (segments_ok 2 os Hl Hw) as (Hsl & Hsr & _). split; [lia|done].
  - destruct (read_separator 58 i (read_number _ _ _ _) s) as [[g s1]|] eqn:E1; [|intros [= <- _ _]; split; [simpl; lia|constructor]].
    destruct (read_groups n (S i) s1) as [[gs' v4'] s2] eqn:E2. intros [= <- _ _].
    destruct (IH _ _ _ _ _ E2) as [Hl Hr]. apply read_separator_inv in E1 as (s' & E1). apply read_number_bound in E1; [|lia].
    split; [simpl; lia|by constructor].
Qed.

Lemma of_segments_ok gs : Forall (fun g => 0 <= g < 65536) gs -> length (of_segments gs) = (2 * length gs)%nat /\ wf_bytes (of_segments gs).
Proof.
  intros Hg. induction Hg as [|g gs Hr Hg [Hl Hw]]; [split; [done|constructor]|]. unfold of_segments in *. cbn [map concat app length]. split; [lia|].
  apply wf_bytes_cons. split; [split; [apply Z.div_pos; lia|apply Z.div_lt_upper_bound; lia]|].
  apply wf_bytes_cons. split; [apply Z.mod_pos_bound; lia|done].
Qed.

(** An address: 4 or 16 octets. *)
Definition ip_ok (ip : IpAddr) : Prop :=
  match ip with V4 os => length os = 4%nat /\ wf_bytes os | V6 os => length os = 16%nat /\ wf_bytes os end.

Lemma read_ipv6_ok s gs rest : read_ipv6_addr s = Some (gs, rest) -> ip_ok (V6 (of_segments gs)).
Proof.
  unfold read_ipv6_addr. destruct (read_groups 8 0 s) as [[h v4] s1] eqn:E1. destruct (read_groups_range _ _ _ _ _ _ E1) as [Hl Hr].
  destruct (length h =? 8)%nat eqn:E8.
  - intros [= <- <-]. apply Nat.eqb_eq in E8. destruct (of_segments_ok h Hr) as [Hol How]. split; [lia|done].
  - apply Nat.eqb_neq in E8. destruct v4; [done|]. intros (s2 & _ & E)%bind_Some. apply bind_Some in E as (s3 & _ & E).
    destruct (read_groups _ 0 s3) as [[t v4] s4] eqn:E2. destruct (read_groups_range _ _ _ _ _ _ E2) as [Hl2 Hr2].
    injection E as <- <-. destruct (of_segments_ok (h ++ replicate (8 - length h - length t) 0 ++ t)) as [Hol How].
    { apply Forall_app_2; [done|]. apply Forall_app_2; [|done]. apply Forall_replicate. lia. }
    rewrite !length_app, length_replicate in Hol. split; [lia|done].
Qed.

Lemma parse_ip_ok s ip : parse_ip_addr s = Some ip -> ip_ok ip.
Proof.
  unfold parse_ip_addr, parse_with, read_ip_addr. destruct (read_ipv4_addr s) as [[os rest]|] eqn:E4.
  - destruct rest; [|done]. intros [= <-]. exact (read_octets_wf 4 0 s os [] E4).
  - destruct (read_ipv6_addr s) as [[gs rest]|] eqn:E6; [|done]. cbn [mbind option_bind]. destruct rest; [|done].
    intros [= <-]. by eapply read_ipv6_ok.
Qed.

Lemma parse_socket_ok s sa : parse_socket_addr s = Some sa -> ip_ok (sa_ip sa) /\ 0 <= sa_port sa < 2 ^ 16.
Proof.
  unfold parse_socket_addr, parse_with. destruct (read_socket_addr s) as [[a rest]|] eqn:E; [|done]. destruct rest; [|done].
  intros [= <-]. unfold read_socket_addr in E. destruct (read_socket_addr_v4 s) as [r|] eqn:E4.
  - injection E as ->. apply bind_Some in E4 as ([os s1] & E1 & E4). apply bind_Some in E4 as ([p s2] & E2 & E4).
    injection E4 as <- _. apply bind_Some in E2 as (s3 & _ & E2). split; [exact (read_octets_wf 4 0 s os s1 E1)|]. by eapply read_number_bound in E2.
  - apply bind_Some in E as (s1 & _ & E). apply bind_Some in E as ([gs s2] & E1 & E).
    destruct (default _ _) as [scope s3]. apply bind_Some in E as (s4 & _ & E). apply bind_Some in E as ([p s5] & E2 & E).
    injection E as <- _. apply bind_Some in E2 as (s6 & _ & E2). split; [by eapply read_ipv6_ok|]. by eapply read_number_bound in E2.
Qed.

Lemma parse_u16_bound s p : parse_u16 s = Some p -> 0 <= p < 2 ^ 16.
Proof.
  unfold parse_u16. set (t := match s with 43 :: s => s | _ => s end). pose proof (read_digits_range 10 t ltac:(lia)) as Hd.
  destruct (read_digits 10 t) as [[|d ds] [|c rest]]; try done. destruct (_ <? _) eqn:E; [|done]. intros [= <-].
  apply Z.ltb_lt in E. split; [by apply digits_val_nonneg|done].
Qed.
