(* ===== verification/Fmt.v ===== *)
(** * Log formatting ([crates/common/src/fmt.rs])

    Durations and byte counts as the log lines show them.  An [f64] is the integer
    it was converted from, rounded to 53 bits, over a power of 1024: the loop only
    divides by 1024, which is exact; [{:.1}] rounds the exact value to the nearest
    tenth, ties to the even digit. *)
From S2P Require Import Prelude Addr NetText.

(** ** Durations *)

(** [{v:02}] of a number below 100. *)
Definition pad2 (v : Z) : str := if v <? 10 then lit "0" ++ decimal v else decimal v.

Definition fmt_duration (secs : Z) : str :=
  let h := secs / 3600 in
  let m := secs mod 3600 / 60 in
  let s := secs mod 60 in
  let days := h / 24 in
  let h := h mod 24 in
  if 0 <? days then decimal days ++ lit "d" ++ pad2 h ++ lit "h" ++ pad2 m ++ lit "m"
  else if 0 <? h then decimal h ++ lit "h" ++ pad2 m ++ lit "m" ++ pad2 s ++ lit "s"
  else if 0 <? m then decimal m ++ lit "m" ++ pad2 s ++ lit "s"
  else decimal s ++ lit "s".

(** ** Byte counts *)

(** [a / b] to the nearest integer, ties to even. *)
Definition round_even (a b : Z) : Z :=
  let q := a / b in
  let r := 2 * (a mod b) in
  if (b <? r) || ((r =? b) && Z.odd q) then q + 1 else q.

(** [n as f64]. *)
Definition as_f64 (n : Z) : Z :=
  let ulp := 2 ^ Z.max 0 (Z.log2 n - 52) in round_even n ulp * ulp.

Definition UNITS : list str := [lit "B"; lit "KiB"; lit "MiB"; lit "GiB"; lit "TiB"; lit "PiB"].

(** The loop: the value is [r / 1024 ^ unit]; [fuel] is the number of units left. *)
Fixpoint unit_loop (fuel : nat) (r : Z) (unit : nat) : nat :=
  match fuel with
  | O => unit
  | S fuel => if 1024 * 1024 ^ Z.of_nat unit <=? r then unit_loop fuel r (S unit) else unit
  end.

Definition fmt_bytes (n : Z) : str :=
  let r := as_f64 n in
  let unit := unit_loop (length UNITS - 1) r 0 in
  if (unit =? 0)%nat then decimal n ++ lit " B"
  else
    let tenths := round_even (10 * r) (1024 ^ Z.of_nat unit) in
    decimal (tenths / 10) ++ lit "." ++ decimal (tenths mod 10) ++ lit " " ++ default [] (UNITS !! unit).

Example fmt_examples :
  map fmt_bytes [0; 512; 1024; 3 * 1024 * 1024; 1280; 1048575] =
    [lit "0 B"; lit "512 B"; lit "1.0 KiB"; lit "3.0 MiB"; lit "1.2 KiB"; lit "1024.0 KiB"] /\
  map fmt_duration [3; 64; 3600; 3 * 86400; 86400 + 3 * 3600 + 5 * 60] =
    [lit "3s"; lit "1m04s"; lit "1h00m00s"; lit "3d00h00m"; lit "1d03h05m"].
Proof. split; reflexivity. Qed.

#[local] Ltac dlia := Z.to_euclidean_division_equations; lia.

(** ** Reading a duration back *)

Definition weight (c : Z) : option Z :=
  if c =? 100 then Some 86400 else if c =? 104 then Some 3600 else if c =? 109 then Some 60 else if c =? 115 then Some 1 else None.

Fixpoint read_duration (fuel : nat) (s : str) : option Z :=
  match s, fuel with
  | [], _ => Some 0
  | _, O => None
  | _, S fuel =>
      '(v, rest) ← read_number 10 None (2 ^ 64) true s;
      match rest with
      | c :: rest => w ← weight c; t ← read_duration fuel rest; Some (v * w + t)
      | [] => None
      end
  end.

Lemma read_pad2 v rest : 0 <= v < 100 -> stops 10 rest -> read_number 10 None (2 ^ 64) true (pad2 v ++ rest) = Some (v, rest).
Proof.
  intros Hv Hs. unfold pad2. destruct (Z.ltb_spec v 10) as [Hlt|Hge].
  - assert (lit "0" ++ decimal v = map digit_char [0; v]) as ->.
    { unfold decimal, digits. cbn [digits_rev]. rewrite Z.mod_small, Z.div_small by lia. done. }
    unfold read_number. rewrite read_digits_app; [|lia| |done].
    + cbn [negb andb digits_val foldl]. rewrite (proj2 (Z.ltb_lt _ _)) by lia. done.
    + repeat (apply Forall_cons; split; [lia|]). by apply Forall_nil.
  - apply (read_decimal v None _ true rest 19); [cbn; lia|lia|lia|done|done].
Qed.

(** One field of a duration. *)
Lemma read_field fuel v c w rest t s : weight c = Some w -> s <> [] -> read_number 10 None (2 ^ 64) true s = Some (v, c :: rest) ->
  read_duration fuel rest = Some t -> read_duration (S fuel) s = Some (v * w + t).
Proof. intros Hw Hs Hr Ht. destruct s as [|x s]; [done|]. cbn [read_duration]. rewrite Hr. cbn. by rewrite Hw, Ht. Qed.

Lemma decimal_nonempty v rest : 0 <= v < 10 ^ 20 -> decimal v ++ rest <> [].
Proof. intros Hv. destruct (digits_spec 10 19 v ltac:(lia) Hv ltac:(lia)) as (d & ds & E & _). unfold decimal. by rewrite E. Qed.

Lemma pad2_nonempty v rest : 0 <= v < 10 ^ 20 -> pad2 v ++ rest <> [].
Proof. intros Hv. unfold pad2. destruct (v <? 10); [done|by apply decimal_nonempty]. Qed.

Lemma read_first fuel v c w rest t : weight c = Some w -> 0 <= v < 2 ^ 64 -> stops 10 (c :: rest) ->
  read_duration fuel rest = Some t -> read_duration (S fuel) (decimal v ++ c :: rest) = Some (v * w + t).
Proof.
  intros Hw Hv Hs Ht. eapply read_field; [exact Hw|apply decimal_nonempty; lia| |exact Ht].
  apply (read_decimal v None _ true (c :: rest) 19); [cbn; lia|lia|lia|done|done].
Qed.

Lemma read_next fuel v c w rest t : weight c = Some w -> 0 <= v < 60 -> stops 10 (c :: rest) ->
  read_duration fuel rest = Some t -> read_duration (S fuel) (pad2 v ++ c :: rest) = Some (v * w + t).
Proof. intros Hw Hv Hs Ht. eapply read_field; [exact Hw|apply pad2_nonempty; lia| |exact Ht]. apply read_pad2; [lia|done]. Qed.

(** ** Rounding *)

Lemma round_even_near a b : 0 < b -> Z.abs (2 * (round_even a b * b - a)) <= b.
Proof.
  intros Hb. unfold round_even. pose proof (Z.div_mod a b ltac:(lia)) as E. pose proof (Z.mod_pos_bound a b Hb) as Hr.
  destruct ((b <? 2 * (a mod b)) || ((2 * (a mod b) =? b) && Z.odd (a / b))) eqn:Eb.
  - assert (b <= 2 * (a mod b)) by (apply orb_prop in Eb as [?%Z.ltb_lt|[?%Z.eqb_eq _]%andb_prop]; lia). nia.
  - apply orb_false_iff in Eb as [?%Z.ltb_ge _]. nia.
Qed.

Lemma as_f64_exact n : 0 <= n < 2 ^ 53 -> as_f64 n = n.
Proof.
  intros Hn. unfold as_f64. assert (Z.log2 n <= 52) as Hl.
  { destruct (decide (n = 0)) as [->|]; [done|]. apply Z.lt_succ_r, Z.log2_lt_pow2; lia. }
  rewrite Z.max_l by lia. change (2 ^ 0) with 1. pose proof (round_even_near n 1 ltac:(lia)). lia.
Qed.

Lemma as_f64_near n : 0 <= n < 2 ^ 64 -> Z.abs (as_f64 n - n) <= 2 ^ 10.
Proof.
  intros Hn. unfold as_f64. set (e := Z.max 0 (Z.log2 n - 52)). assert (Z.log2 n <= 63) as Hl.
  { destruct (decide (n = 0)) as [->|]; [done|]. apply Z.lt_succ_r, Z.log2_lt_pow2; lia. }
  assert (0 < 2 ^ e <= 2 ^ 11) as He by (split; [apply Z.pow_pos_nonneg; lia|apply Z.pow_le_mono_r; lia]).
  pose proof (round_even_near n (2 ^ e) (proj1 He)). change (2 ^ 11) with (2 * 2 ^ 10) in He. lia.
Qed.

Lemma unit_loop_spec r : 0 <= r -> forall fuel unit, (unit = 0%nat \/ 1024 ^ Z.of_nat unit <= r) ->
  let u := unit_loop fuel r unit in
  (unit ≤ u ≤ unit + fuel)%nat /\ (u = 0%nat \/ 1024 ^ Z.of_nat u <= r) /\ ((u < unit + fuel)%nat -> r < 1024 * 1024 ^ Z.of_nat u).
Proof.
  intros Hr. induction fuel as [|fuel IH]; intros unit Hu; cbn [unit_loop]; [split_and!; [lia|lia|done|lia]|].
  destruct (Z.leb_spec (1024 * 1024 ^ Z.of_nat unit) r) as [Hle|Hlt].
  - destruct (IH (S unit)) as (Hb & Hv & Hlast); [right; rewrite Nat2Z.inj_succ, Z.pow_succ_r by lia; lia|].
    split_and!; [lia|lia|done|]. intros. apply Hlast. lia.
  - split_and!; [lia|lia|done|done].
Qed.

(** ** Properties *)

(** A duration is printed without loss below a day and to the minute from there on:
    reading the fields back gives the seconds, or the seconds of its full minutes. *)
Theorem fmt_duration_reads secs : 0 <= secs < 2 ^ 64 ->
  read_duration 3 (fmt_duration secs) = Some (if 86400 <=? secs then secs - secs mod 60 else secs).
Proof.
  intros Hs. unfold fmt_duration. change (lit "d") with [100]. change (lit "h") with [104]. change (lit "m") with [109]. change (lit "s") with [115].
  assert (secs / 3600 / 24 = secs / 86400) as Ed by (rewrite Z.div_div by dlia; done).
  destruct (Z.ltb_spec 0 (secs / 3600 / 24)) as [Hd|Hd].
  { destruct (Z.leb_spec 86400 secs); [|dlia]. cbn [app]. erewrite read_first; [|done|dlia|done|].
    2: { apply (read_next _ _ 104 3600); [done|dlia|done|]. apply (read_next _ _ 109 60); [done|dlia|done|]. done. }
    f_equal. dlia. }
  destruct (Z.leb_spec 86400 secs); [dlia|].
  destruct (Z.ltb_spec 0 (secs / 3600 mod 24)) as [Hh|Hh]; [|destruct (Z.ltb_spec 0 (secs mod 3600 / 60)) as [Hm|Hm]]; cbn [app].
  - erewrite read_first; [|done|dlia|done|].
    2: { apply (read_next _ _ 109 60); [done|dlia|done|]. apply (read_next _ _ 115 1); [done|dlia|done|]. done. }
    f_equal. dlia.
  - erewrite read_first; [|done|dlia|done|]. 2: { apply (read_next _ _ 115 1); [done|dlia|done|]. done. }
    f_equal. dlia.
  - erewrite read_first; [|done|dlia|done|]. 2: done. f_equal. dlia.
Qed.

(** A byte count is printed in the largest unit that does not exceed it, as a number
    of tenths that is the nearest one, up to the 53 bits of the [f64]. *)
Theorem fmt_bytes_reads n : 0 <= n < 2 ^ 64 ->
  (as_f64 n < 1024 /\ fmt_bytes n = decimal n ++ lit " B") \/
  exists unit name tenths, (1 ≤ unit ≤ 5)%nat /\ UNITS !! unit = Some name /\
    fmt_bytes n = decimal (tenths / 10) ++ lit "." ++ decimal (tenths mod 10) ++ lit " " ++ name /\
    10 <= tenths /\ ((unit < 5)%nat -> tenths <= 10240) /\
    Z.abs (2 * (tenths * 1024 ^ Z.of_nat unit - 10 * n)) <= 1024 ^ Z.of_nat unit + (if 2 ^ 53 <=? n then 20480 else 0).
Proof.
  intros Hn. unfold fmt_bytes. set (r := as_f64 n).
  assert (Z.abs (r - n) <= if 2 ^ 53 <=? n then 2 ^ 10 else 0) as Hrn.
  { destruct (Z.leb_spec (2 ^ 53) n); [by apply as_f64_near|]. unfold r. rewrite as_f64_exact by lia. lia. }
  assert (0 <= r) as Hr by (destruct (Z.leb_spec (2 ^ 53) n); lia).
  destruct (unit_loop_spec r Hr (length UNITS - 1) 0 (or_introl eq_refl)) as (Hu & Hv & Hl).
  set (u := unit_loop _ r 0) in *. change (0 + (length UNITS - 1))%nat with 5%nat in *.
  destruct (Nat.eqb_spec u 0) as [->|Hne]; [left; split; [apply Hl; lia|done]|right].
  destruct Hv as [|Hv]; [done|]. assert (is_Some (UNITS !! u)) as [name Hname] by (apply lookup_lt_is_Some; change (length UNITS) with 6%nat; lia).
  assert (0 < 1024 ^ Z.of_nat u) as Hpos by (apply Z.pow_pos_nonneg; lia).
  pose proof (round_even_near (10 * r) _ Hpos) as Ht. set (t := round_even _ _) in *.
  exists u, name, t. rewrite Hname. split; [lia|]. split; [done|]. split; [done|]. split; [nia|]. split.
  - intros H5. specialize (Hl H5). nia.
  - destruct (Z.leb_spec (2 ^ 53) n); lia.
Qed.
