(* ===== verification/HostPort.v ===== *)
(** * Endpoints as text ([Host::to_display] of [crates/common/src/addr.rs],
      [parse_host_port] of [crates/client/src/lib.rs])

    How a host is printed before its port, and how the client reads the server
    address of its configuration back. *)
From S2P Require Import Prelude Addr NetText.

(** [Host::to_display]. *)
Definition to_display (h : Host) : str :=
  match h with
  | Domain d => d
  | Ip (V4 v4) => display_v4 v4
  | Ip (V6 v6) => lit "[" ++ display_v6 v6 ++ lit "]"
  end.

(** The texts of the [anyhow] errors. *)
Inductive HostPortError := MissingPort | BadPort | UnmatchedBracket | BareIpv6 | EmptyHost.

(** [str::strip_prefix] and [str::strip_suffix] of one character. *)
Definition strip_prefix (c : Z) (s : str) : option str := match s with x :: s => if x =? c then Some s else None | [] => None end.
Definition strip_suffix (c : Z) (s : str) : option str := (fun t => rev t) <$> strip_prefix c (rev s).

(** [parse_host_port]. *)
Definition parse_host_port (s : str) : result HostPortError (Host * Z) :=
  match parse_socket_addr s with
  | Some sa => Ok (Ip (sa_ip sa), sa_port sa)
  | None =>
      let? (host, port) := ok_or (rsplit_once 58 s) MissingPort in
      let? port := ok_or (parse_u16 port) BadPort in
      let? host :=
        match strip_prefix 91 host with
        | Some inner => ok_or (strip_suffix 93 inner) UnmatchedBracket
        | None => if existsb (Z.eqb 58) host then Err BareIpv6 else Ok host
        end in
      if bool_decide (host = []) then Err EmptyHost
      else
        let h := match parse_ip_addr host with Some ip => Ip ip | None => Domain host end in
        Ok (h, port)
  end.

(** ** Lemmas *)

Lemma strip_prefix_Some c s t : strip_prefix c s = Some t <-> s = c :: t.
Proof.
  destruct s as [|x s]; cbn; [done|]. destruct (Z.eqb_spec x c) as [->|Hne]; split; intros E; try congruence; discriminate.
Qed.

Lemma strip_suffix_Some c s t : strip_suffix c s = Some t <-> s = t ++ [c].
Proof.
  unfold strip_suffix. rewrite fmap_Some. split.
  - intros (r & Hr & ->). apply strip_prefix_Some in Hr. rewrite <- (rev_involutive s), Hr. done.
  - intros ->. exists (rev t). rewrite strip_prefix_Some, rev_app_distr, rev_involutive. done.
Qed.

Lemma existsb_colon s : existsb (Z.eqb 58) s = false <-> Forall (fun c => c <> 58) s.
Proof.
  induction s as [|c s IH]; cbn [existsb]; [split; [constructor|done]|].
  rewrite orb_false_iff, Forall_cons, IH, Z.eqb_neq. split; intros [? ?]; split; (done || congruence).
Qed.

Lemma rsplit_once_None c s : rsplit_once c s = None -> Forall (fun x => x <> c) s.
Proof.
  induction s as [|x s IH]; cbn [rsplit_once]; [constructor|]. destruct (rsplit_once c s) as [[a b]|]; [done|].
  destruct (Z.eqb_spec x c); [done|]. constructor; auto.
Qed.

Lemma rsplit_once_Some c : forall s a b, rsplit_once c s = Some (a, b) -> s = a ++ c :: b /\ Forall (fun x => x <> c) b.
Proof.
  induction s as [|x s IH]; intros a b; cbn [rsplit_once]; [done|].
  destruct (rsplit_once c s) as [[a' b']|] eqn:E.
  - intros [= <- <-]. destruct (IH _ _ eq_refl) as [-> Hb]. done.
  - destruct (Z.eqb_spec x c) as [->|]; [|done]. intros [= <- <-]. split; [done|by apply rsplit_once_None].
Qed.

(** Hosts that have a text form of their own: an address, or a nonempty name that
    holds no colon, does not begin with a bracket and is not itself an address. *)
Definition host_text_ok (h : Host) : Prop :=
  match h with
  | Ip ip => ip_ok ip
  | Domain d => d <> [] /\ Forall (fun c => c <> 58) d /\ head d <> Some 91 /\ parse_ip_addr d = None
  end.

Lemma host_port_printed h port : host_text_ok h -> 0 <= port < 2 ^ 16 ->
  parse_host_port (to_display h ++ lit ":" ++ decimal port) = Ok (h, port).
Proof.
  intros Hh Hp. change (lit ":") with [58]. unfold parse_host_port. destruct h as [d|[v4|v6]]; cbn [to_display host_text_ok ip_ok app] in *.
  - destruct Hh as (Hne & Hc & Hb & Hip). rewrite parse_socket_name by done.
    rewrite rsplit_once_last by apply decimal_no_colon. cbn [ok_or]. rewrite parse_u16_print by done. cbn [ok_or].
    destruct (strip_prefix 91 d) as [inner|] eqn:E; [apply strip_prefix_Some in E as ->; done|].
    rewrite (proj2 (existsb_colon d)) by done. rewrite bool_decide_false, Hip by done. done.
  - destruct Hh. by rewrite parse_socket_v4.
  - destruct Hh. change (lit "[") with [91]. change (lit "]") with [93]. rewrite <- !(assoc (++)). cbn [app].
    by rewrite parse_socket_v6.
Qed.

(** A name read back as itself is one of those. *)
Lemma name_text_ok d port : parse_host_port (d ++ 58 :: decimal port) = Ok (Domain d, port) -> host_text_ok (Domain d).
Proof.
  unfold parse_host_port. destruct (parse_socket_addr _) as [sa|]; [done|]. rewrite rsplit_once_last by apply decimal_no_colon. cbn [ok_or].
  destruct (parse_u16 (decimal port)) as [q|]; [|done]. cbn [ok_or]. destruct (strip_prefix 91 d) as [inner|] eqn:E1.
  - apply strip_prefix_Some in E1 as ->. destruct (strip_suffix 93 inner) as [x|] eqn:E2; [|done]. apply strip_suffix_Some in E2 as ->. cbn [ok_or].
    case_bool_decide; [done|]. destruct (parse_ip_addr x); [done|]. intros [= E _]. apply (f_equal length) in E.
    cbn in E. rewrite length_app in E. lia.
  - destruct (existsb (Z.eqb 58) d) eqn:E2; [done|]. apply existsb_colon in E2. case_bool_decide as Hne; [done|].
    destruct (parse_ip_addr d) eqn:Eip; [done|]. intros _. split_and!; [done|done| |done].
    intros Hh. destruct d as [|c d]; [done|]. by injection Hh as ->.
Qed.

(** ** Properties *)

(** C34: printing an endpoint as [host:port] and reading it back with
    [parse_host_port] gives the endpoint again for every IPv4 address and every IPv6
    address (the compressed and the IPv4-mapped forms included), and for a name if and
    only if it is nonempty, holds no colon, does not begin with a bracket and is not
    itself an address; any other name, such as [a:b], which the address frame and
    SOCKS5 can carry, is rejected or read as something else. *)
Theorem host_port_roundtrip h port : (forall ip, h = Ip ip -> ip_ok ip) -> 0 <= port < 2 ^ 16 ->
  parse_host_port (to_display h ++ lit ":" ++ decimal port) = Ok (h, port) <->
  match h with
  | Ip _ => True
  | Domain d => d <> [] /\ Forall (fun c => c <> 58) d /\ head d <> Some 91 /\ parse_ip_addr d = None
  end.
Proof.
  intros Hip Hp. destruct h as [d|ip].
  - split; [apply name_text_ok|]. intros Hd. exact (host_port_printed (Domain d) port Hd Hp).
  - split; [done|]. intros _. exact (host_port_printed (Ip ip) port (Hip ip eq_refl) Hp).
Qed.

Lemma host_port_roundtrip_witness :
  parse_host_port (lit "[2001:db8::1]:443") = Ok (Ip (V6 [32; 1; 13; 184; 0; 0; 0; 0; 0; 0; 0; 0; 0; 0; 0; 1]), 443) /\
  parse_host_port (lit "a:b:443") <> Ok (Domain (lit "a:b"), 443).
Proof.
  split.
  - refine (proj2 (host_port_roundtrip (Ip (V6 [32; 1; 13; 184; 0; 0; 0; 0; 0; 0; 0; 0; 0; 0; 0; 1])) 443 _ ltac:(lia)) I).
    intros ip [= <-]. split; [reflexivity|]. apply wf_bytes_eval. reflexivity.
  - intros E. destruct (proj1 (host_port_roundtrip (Domain (lit "a:b")) 443 ltac:(discriminate) ltac:(lia)) E) as (_ & Hf & _).
    apply Forall_cons in Hf as [_ Hf]. apply Forall_cons in Hf as [Hf _]. by apply Hf.
Defined.

(** [parse_host_port] accepts nothing else than it says: the port fits 16 bits,
    an address has its 4 or 16 octets, a name is nonempty and no address, and is
    the text before the last colon, without a colon of its own or between
    brackets; and each error has its reason. *)
Theorem parse_host_port_exact s :
  match parse_host_port s with
  | Ok (Ip ip, port) => ip_ok ip /\ 0 <= port < 2 ^ 16
  | Ok (Domain d, port) =>
      0 <= port < 2 ^ 16 /\ d <> [] /\ parse_ip_addr d = None /\
      exists p, parse_u16 p = Some port /\
        ((s = d ++ 58 :: p /\ Forall (fun c => c <> 58) d /\ head d <> Some 91) \/ s = 91 :: d ++ 93 :: 58 :: p)
  | Err MissingPort => Forall (fun c => c <> 58) s
  | Err BadPort => exists a p, s = a ++ 58 :: p /\ Forall (fun c => c <> 58) p /\ parse_u16 p = None
  | Err UnmatchedBracket => exists a p, s = 91 :: a ++ 58 :: p /\ Forall (fun c => c <> 58) p /\ last a <> Some 93
  | Err BareIpv6 => exists a p, s = a ++ 58 :: p /\ head a <> Some 91 /\ ~ Forall (fun c => c <> 58) a
  | Err EmptyHost => exists p, s = 58 :: p \/ s = 91 :: 93 :: 58 :: p
  end.
Proof.
  unfold parse_host_port. destruct (parse_socket_addr s) as [sa|] eqn:Es.
  { by apply parse_socket_ok in Es. }
  destruct (rsplit_once 58 s) as [[host p]|] eqn:Er; [|by apply rsplit_once_None in Er].
  apply rsplit_once_Some in Er as [-> Hp]. cbn [ok_or].
  destruct (parse_u16 p) as [port|] eqn:Ep; cbn [ok_or]; [|by exists host, p]. pose proof (parse_u16_bound _ _ Ep) as Hport.
  destruct (strip_prefix 91 host) as [inner|] eqn:E1.
  - apply strip_prefix_Some in E1 as ->. destruct (strip_suffix 93 inner) as [d|] eqn:E2; cbn [ok_or].
    + apply strip_suffix_Some in E2 as ->. case_bool_decide as Ed; [exists p; right; by rewrite Ed|].
      destruct (parse_ip_addr d) as [ip|] eqn:Eip; [split; [by eapply parse_ip_ok|done]|].
      split; [exact Hport|]. split; [done|]. split; [done|]. exists p. split; [done|]. right. cbn [app]. by rewrite <- (assoc (++)).
    + exists inner, p. split_and!; [done..|]. intros Hl. apply last_Some in Hl as [l ->].
      by rewrite (proj2 (strip_suffix_Some 93 (l ++ [93]) l)) in E2.
  - assert (head host <> Some 91) as Hh.
    { intros Hh. destruct host as [|c host]; [done|]. injection Hh as ->. done. }
    destruct (existsb (Z.eqb 58) host) eqn:E2.
    + exists host, p. split_and!; [done..|]. intros Hf. apply existsb_colon in Hf. congruence.
    + apply existsb_colon in E2. case_bool_decide as Ed; [exists p; left; by rewrite Ed|].
      destruct (parse_ip_addr host) as [ip|] eqn:Eip; [split; [by eapply parse_ip_ok|done]|].
      split; [exact Hport|]. split; [done|]. split; [done|]. exists p. by split; [|left].
Qed.

(** Brackets around anything are accepted: a malformed IPv6 address between them is
    taken as a name, to fail only when it is resolved; and a scope is dropped. *)
Lemma bracketed_garbage_is_a_name :
  parse_host_port (lit "[2001:db8:::1]:443") = Ok (Domain (lit "2001:db8:::1"), 443) /\
  parse_host_port (lit "[fe80::1%eth0]:443") = Ok (Domain (lit "fe80::1%eth0"), 443) /\
  parse_host_port (lit "[fe80::1%3]:443") = parse_host_port (lit "[fe80::1]:443").
Proof. by vm_compute. Qed.

(** The texts of the unit tests. *)
Example parse_host_port_forms :
  parse_host_port (lit "1.2.3.4:80") = Ok (Ip (V4 [1; 2; 3; 4]), 80) /\
  parse_host_port (lit "Example.COM:8080") = Ok (Domain (lit "Example.COM"), 8080) /\
  map parse_host_port [lit "2001:db8::1"; lit "2001:db8::1:8080"; lit "[2001:db8::1"; lit "example.com"; lit "example.com:http"; lit ":80"]
    = [Err BareIpv6; Err BareIpv6; Err UnmatchedBracket; Err MissingPort; Err BadPort; Err EmptyHost].
Proof. by vm_compute. Qed.
