(* ===== verification/Dns.v ===== *)
(** * The DNS cache ([crates/common/src/dns.rs])

    Every locked section of the code is one operation on the map; the clock is
    an explicit argument at each of its reads, in nanoseconds. *)
From S2P Require Import Prelude Errors Addr.

Definition POSITIVE_TTL : Z := 300 * 10 ^ 9.
Definition NEGATIVE_TTL : Z := 30 * 10 ^ 9.
Definition MAX_ENTRIES : nat := 1024.

Abbreviation ips := (list IpAddr).

(** A cached resolution; a failure keeps the kind and the message. *)
Record Entry := Ent { e_result : result (ErrorKind * string) ips; e_expires : Z }.

(** The map of a [DnsCache], behind its lock. *)
Abbreviation DnsCache := (gmap str Entry).

Definition DnsCache_new : DnsCache := ∅.

Definition clone_result (r : result (ErrorKind * string) ips) : result io_error ips :=
  match r with
  | Ok l => Ok l
  | Err (kind, msg) => Err (IoError kind msg)
  end.

(** The read-locked section at the start of [resolve_with]. *)
Definition fresh (cache : DnsCache) (domain : str) (now : Z) : option (result io_error ips) :=
  match cache !! domain with
  | Some entry => if now <? e_expires entry then Some (clone_result (e_result entry)) else None
  | None => None
  end.

(** The read-locked section of the failure path. *)
Definition stale (cache : DnsCache) (domain : str) : option ips :=
  match cache !! domain with
  | Some entry => match e_result entry with Ok l => Some l | Err _ => None end
  | None => None
  end.

(** [map.retain(|_, entry| entry.expires > now)]. *)
Definition retain_fresh (now : Z) (m : DnsCache) : DnsCache := filter (fun kv => now < e_expires kv.2) m.

(** [insert]: [now] is the clock at the eviction, [now'] when the entry is made. *)
Definition insert (cache : DnsCache) (domain : str) (r : result (ErrorKind * string) ips) (ttl now now' : Z) : DnsCache :=
  let put (m : DnsCache) := <[domain := Ent r (now' + ttl)]> m in
  if (MAX_ENTRIES <=? size cache)%nat && negb (bool_decide (is_Some (cache !! domain))) then
    let m := retain_fresh now cache in
    if (MAX_ENTRIES <=? size m)%nat then m else put m
  else put cache.

(** The [match] on the lookup's answer: an empty answer is a failure. *)
Definition checked (answer : result io_error ips) : result io_error ips :=
  match answer with
  | Ok (ip :: l) => Ok (ip :: l)
  | Ok [] => Err (IoError AddrNotAvailable "no addresses resolved")
  | Err e => Err e
  end.

(** What [resolve_with] does once the lookup answered. *)
Definition resolved (cache : DnsCache) (domain : str) (answer : result io_error ips) (now now' : Z)
    : result io_error ips * DnsCache :=
  match checked answer with
  | Ok l => (Ok l, insert cache domain (Ok l) POSITIVE_TTL now now')
  | Err e =>
      match stale cache domain with
      | Some l => (Ok l, cache)
      | None => (Err e, insert cache domain (Err (io_kind e, io_msg e)) NEGATIVE_TTL now now')
      end
  end.

(** [resolve_with], undisturbed by other threads; [t0], [t1], [t2] are the
    successive clock reads. *)
Definition resolve_with (cache : DnsCache) (domain : str) (timeout : Z) (lookup : str -> Z -> result io_error ips)
    (t0 t1 t2 : Z) : result io_error ips * DnsCache :=
  match fresh cache domain t0 with
  | Some r => (r, cache)
  | None => resolved cache domain (lookup domain timeout) t1 t2
  end.

(** [resolve_sys]: what the helper thread's spawn and the bounded wait give. *)
Inductive RecvTimeout := Received (r : result io_error ips) | RecvTimedOut | Disconnected.

Definition resolve_sys (spawned : option io_error) (wait : RecvTimeout) : result io_error ips :=
  match spawned with
  | Some e => Err (IoError Other (io_msg e))
  | None =>
      match wait with
      | Received r => r
      | RecvTimedOut => Err (IoError TimedOut "dns resolution timed out")
      | Disconnected => Err (IoError Other "resolver thread died")
      end
  end.

(** ** Threads sharing the cache *)

(** A thread's position: before its call, waiting for the resolver, done. *)
Inductive Caller := Start (domain : str) | Looking (domain : str) | Done (domain : str) (r : result io_error ips).

(** One step of some thread, in any order; the clock never goes back. *)
Inductive dns_step : DnsCache * list Caller * Z -> DnsCache * list Caller * Z -> Prop :=
| dns_hit cache ts clock now i d r :
    clock <= now -> ts !! i = Some (Start d) -> fresh cache d now = Some r ->
    dns_step (cache, ts, clock) (cache, <[i := Done d r]> ts, now)
| dns_miss cache ts clock now i d :
    clock <= now -> ts !! i = Some (Start d) -> fresh cache d now = None ->
    dns_step (cache, ts, clock) (cache, <[i := Looking d]> ts, now)
| dns_answer cache ts clock now now' i d answer r cache' :
    clock <= now <= now' -> ts !! i = Some (Looking d) -> resolved cache d answer now now' = (r, cache') ->
    dns_step (cache, ts, clock) (cache', <[i := Done d r]> ts, now')
| dns_call cache ts clock d :
    dns_step (cache, ts, clock) (cache, ts ++ [Start d], clock).

(** ** Lemmas *)

(** At most [MAX_ENTRIES] entries, none of them an empty success. *)
Definition cache_ok (cache : DnsCache) : Prop :=
  (size cache ≤ MAX_ENTRIES)%nat /\ map_Forall (fun _ e => e_result e <> Ok []) cache.

Lemma cache_new_ok : cache_ok DnsCache_new.
Proof. unfold cache_ok, DnsCache_new. split; [rewrite map_size_empty; lia|apply map_Forall_empty]. Qed.

Lemma insert_ok cache d r ttl now now' : cache_ok cache -> r <> Ok [] -> cache_ok (insert cache d r ttl now now').
Proof.
  intros [Hs Hf] Hr. unfold insert. cbv zeta.
  assert (forall m : DnsCache, (size m < MAX_ENTRIES)%nat \/ (size m ≤ MAX_ENTRIES)%nat /\ is_Some (m !! d) ->
    map_Forall (fun _ e => e_result e <> Ok []) m -> cache_ok (<[d := Ent r (now' + ttl)]> m)) as Hput.
  { intros m Hm Hmf. split; [|by apply map_Forall_insert_2].
    destruct (m !! d) eqn:E.
    - rewrite map_size_insert_Some by by eexists. destruct Hm as [|[]]; lia.
    - rewrite map_size_insert_None by done. destruct Hm as [|[_ [? ?]]]; [lia|congruence]. }
  destruct (Nat.leb_spec MAX_ENTRIES (size cache)); cbn [andb].
  - destruct (bool_decide (is_Some (cache !! d))) eqn:E; cbn [negb].
    + apply bool_decide_eq_true in E. apply Hput; [by right|done].
    + set (m := retain_fresh now cache). assert (map_Forall (fun _ e => e_result e <> Ok []) m) as Hmf.
      { intros k x Hk. apply map_lookup_filter_Some in Hk as [Hk _]. by apply (Hf k). }
      assert (size m ≤ size cache)%nat by (apply map_size_filter).
      destruct (Nat.leb_spec MAX_ENTRIES (size m)); [split; [lia|done]|]. apply Hput; [by left|done].
  - apply Hput; [by left|done].
Qed.

Lemma checked_nonempty answer : checked answer <> Ok [].
Proof. by destruct answer as [[]|]. Qed.

Lemma resolved_ok cache d answer now now' : cache_ok cache ->
  cache_ok (snd (resolved cache d answer now now')) /\ fst (resolved cache d answer now now') <> Ok [].
Proof.
  intros Hc. unfold resolved. pose proof (checked_nonempty answer) as Hn. destruct (checked answer) as [l|e].
  - split; [|done]. apply insert_ok; [done|congruence].
  - unfold stale. destruct (cache !! d) as [[[l|] ?]|] eqn:E; cbn [e_result].
    + split; [done|]. destruct Hc as [_ Hf]. specialize (Hf _ _ E). cbn in *. congruence.
    + split; [|done]. by apply insert_ok.
    + split; [|done]. by apply insert_ok.
Qed.

Lemma fresh_nonempty cache d now r : cache_ok cache -> fresh cache d now = Some r -> r <> Ok [].
Proof.
  intros [_ Hf]. unfold fresh. destruct (cache !! d) as [[r' ?]|] eqn:E; [|done]. destruct (_ <? _); [|done].
  intros [= <-]. specialize (Hf _ _ E). cbn in *. destruct r' as [l|[k m]]; cbn; congruence.
Qed.

(** The insert keeps what other domains still have. *)
Lemma insert_other cache d r ttl now now' d' e : d' <> d -> cache !! d' = Some e -> now < e_expires e ->
  insert cache d r ttl now now' !! d' = Some e.
Proof.
  intros Hne He Hx. unfold insert. cbv zeta. destruct (_ && _).
  - assert ((retain_fresh now cache) !! d' = Some e) as Hfl by by apply map_lookup_filter_Some.
    destruct (_ <=? _)%nat; [done|]. by rewrite lookup_insert_ne.
  - by rewrite lookup_insert_ne.
Qed.

(** What is inserted is found, unless [MAX_ENTRIES] other fresh entries leave no
    room. *)
Lemma insert_lookup cache d r ttl now now' :
  insert cache d r ttl now now' !! d = Some (Ent r (now' + ttl)) \/
  (cache !! d = None /\ (MAX_ENTRIES ≤ size (retain_fresh now cache))%nat /\
   insert cache d r ttl now now' = retain_fresh now cache).
Proof.
  unfold insert. cbv zeta. destruct (Nat.leb_spec MAX_ENTRIES (size cache)); cbn [andb]; [|left; apply lookup_insert_eq].
  destruct (bool_decide _) eqn:E; cbn [negb]; [left; apply lookup_insert_eq|].
  apply bool_decide_eq_false in E. destruct (Nat.leb_spec MAX_ENTRIES (size (retain_fresh now cache)));
    [right|left; apply lookup_insert_eq]. split_and!; [|done..]. destruct (cache !! d); [|done]. by destruct E.
Qed.

(** The threads' invariant. *)
Definition dns_inv (s : DnsCache * list Caller * Z) : Prop :=
  let '(cache, ts, _) := s in
  cache_ok cache /\ Forall (fun c => match c with Done _ r => r <> Ok [] | _ => True end) ts.

Lemma dns_step_inv s s' : dns_inv s -> dns_step s s' -> dns_inv s'.
Proof.
  intros Hi Hst. destruct Hst as [cache ts clock now i d r Hc Ht Hf|cache ts clock now i d Hc Ht Hf
    |cache ts clock now now' i d answer r cache' Hc Ht Hr|cache ts clock d]; destruct Hi as [Hok Hts].
  - split; [done|]. apply Forall_insert; [done|]. by eapply fresh_nonempty.
  - split; [done|]. by apply Forall_insert.
  - destruct (resolved_ok cache d answer now now' Hok) as [Hok' Hr']. rewrite Hr in Hok', Hr'. split; [done|]. by apply Forall_insert.
  - split; [done|]. apply Forall_app. split; [done|]. by apply Forall_cons.
Qed.

(** ** Properties *)

(** C30: resolution through the cache, on every branch: a fresh entry is
    returned, failure or not, whatever the resolver would say, and the cache is
    unchanged; otherwise a non-empty answer is returned and kept for
    [POSITIVE_TTL]; a failure (or an empty answer) returns the old addresses
    when the cache has some, which leaves the cache as it was, so that the
    next call asks the resolver again, and otherwise the failure, which is
    kept for [NEGATIVE_TTL].  An answer is only not kept when [MAX_ENTRIES]
    other fresh entries leave no room, and no fresh entry of another domain is
    ever lost. *)
Theorem resolve_with_spec cache d timeout lookup t0 t1 t2 :
  let (res, cache') := resolve_with cache d timeout lookup t0 t1 t2 in
  let kept r ttl := cache' !! d = Some (Ent r (t2 + ttl)) \/
    (cache !! d = None /\ (MAX_ENTRIES ≤ size (retain_fresh t1 cache))%nat) in
  match fresh cache d t0 with
  | Some r => res = r /\ cache' = cache
  | None =>
      match lookup d timeout with
      | Ok (ip :: l) => res = Ok (ip :: l) /\ kept (Ok (ip :: l)) POSITIVE_TTL
      | failure =>
          let e := match failure with Err e => e | Ok _ => IoError AddrNotAvailable "no addresses resolved" end in
          match stale cache d with
          | Some l => res = Ok l /\ cache' = cache
          | None => res = Err e /\ kept (Err (io_kind e, io_msg e)) NEGATIVE_TTL
          end
      end
  end /\
  (forall d' e, d' <> d -> cache !! d' = Some e -> t1 < e_expires e -> cache' !! d' = Some e).
Proof.
  unfold resolve_with. destruct (fresh cache d t0) as [r|]; [by split_and!|].
  assert (forall r ttl, insert cache d r ttl t1 t2 !! d = Some (Ent r (t2 + ttl)) \/
    (cache !! d = None /\ (MAX_ENTRIES ≤ size (retain_fresh t1 cache))%nat)) as Hk.
  { intros r ttl. destruct (insert_lookup cache d r ttl t1 t2) as [|(? & ? & _)]; [by left|by right]. }
  unfold resolved. destruct (lookup d timeout) as [[|ip l]|e]; cbn [checked];
    [destruct (stale cache d)| |destruct (stale cache d)]; split; try (by split_and!);
    try (split; [done|apply Hk]); intros d' e' Hne He Hx; (exact He || by apply insert_other).
Qed.

(** Threads sharing the cache, in any interleaving of their locked sections
    and for any resolver answers: the cache never holds more than
    [MAX_ENTRIES] domains and no caller is ever handed an empty success. *)
Theorem dns_threads_safe s s' :
  dns_inv s -> rtc dns_step s s' ->
  (size s'.1.1 ≤ MAX_ENTRIES)%nat /\ Forall (fun c => match c with Done _ r => r <> Ok [] | _ => True end) s'.1.2.
Proof.
  intros Hi Hst. assert (dns_inv s') as Hi'.
  { induction Hst as [|? ? ? H1 _ IH]; [done|]. apply IH. by eapply dns_step_inv. }
  destruct s' as [[cache ts] clock]. destruct Hi' as [[Hs _] Hts]. by split.
Qed.

Lemma dns_threads_safe_witness :
  exists r, rtc dns_step (DnsCache_new, [], 0) (insert DnsCache_new [97] (Ok [V4 [127; 0; 0; 1]]) POSITIVE_TTL 5 5, [Done [97] r], 5) /\ r <> Ok [].
Proof.
  exists (Ok [V4 [127; 0; 0; 1]]).
  assert (rtc dns_step (DnsCache_new, [], 0)
    (insert DnsCache_new [97] (Ok [V4 [127; 0; 0; 1]]) POSITIVE_TTL 5 5, [Done [97] (Ok [V4 [127; 0; 0; 1]])], 5)) as Hst.
  { eapply rtc_l; [apply (dns_call _ _ _ [97])|]. eapply rtc_l.
    - eapply (dns_miss _ _ _ 1 0%nat); [lia|reflexivity|reflexivity].
    - eapply rtc_l; [|apply rtc_refl]. apply (dns_answer DnsCache_new [Looking [97]] 1 5 5 0%nat [97] (Ok [V4 [127; 0; 0; 1]]) (Ok [V4 [127; 0; 0; 1]])
        (insert DnsCache_new [97] (Ok [V4 [127; 0; 0; 1]]) POSITIVE_TTL 5 5)); [lia|reflexivity|reflexivity]. }
  split; [exact Hst|].
  destruct (dns_threads_safe (DnsCache_new, [], 0) _ (conj cache_new_ok (proj2 (Forall_nil _) I)) Hst) as [_ Hf].
  apply Forall_cons in Hf as [Hf _]. exact Hf.
Defined.
