(* ===== verification/Connect.v ===== *)
(** * Connecting under one deadline ([tcp_connect] of [crates/common/src/pump.rs])

    The budget of a connect covers the resolution of the name and the attempts at every
    resolved address.  The clock is passed on from call to call: the resolver
    and each attempt return a result and the time they returned at, in nanoseconds. *)
From S2P Require Import Prelude Errors Addr NetText Dns.

Section Connect.
(** [TcpStream::connect_timeout(addr, remaining)] begun at a time. *)
Context (connect_timeout : SocketAddr -> Z -> Z -> result io_error unit * Z).
(** The lookup of [resolve] ([resolve_sys]) of a domain under a timeout, begun at a time. *)
Context (lookup : str -> Z -> Z -> result io_error ips * Z).

(** [DnsCache::resolve]: the lookup is made only when no fresh entry answers. *)
Definition resolve (cache : DnsCache) (domain : str) (timeout now : Z) : result io_error ips * DnsCache * Z :=
  let '(answer, now') := lookup domain timeout now in
  (resolve_with cache domain timeout (fun _ _ => answer) now now' now',
   match fresh cache domain now with Some _ => now | None => now' end).

(** The loop over the resolved addresses: the stream's address, and when it was over. *)
Fixpoint connect_loop (addrs : list SocketAddr) (deadline now : Z) (last : io_error) : result io_error SocketAddr * Z :=
  match addrs with
  | [] => (Err last, now)
  | addr :: addrs =>
      let remaining := Z.max 0 (deadline - now) in
      if remaining =? 0 then (Err (IoError TimedOut "connect deadline exceeded"), now)
      else
        match connect_timeout addr remaining now with
        | (Ok _, now) => (Ok addr, now)
        | (Err e, now) => connect_loop addrs deadline now e
        end
  end.

(** The addresses of a host, when they are known, and the cache after. *)
Definition host_addrs (cache : DnsCache) (host : Host) (port deadline now : Z)
    : result io_error (list SocketAddr) * DnsCache * Z :=
  match host with
  | Ip ip => (Ok [SockAddr ip port 0], cache, now)
  | Domain domain =>
      let '(r, cache, now) := resolve cache domain (Z.max 0 (deadline - now)) now in
      (match r with Ok l => Ok (map (fun ip => SockAddr ip port 0) l) | Err e => Err e end, cache, now)
  end.

(** [tcp_connect], begun at [now]. *)
Definition tcp_connect (cache : DnsCache) (host : Host) (port timeout now : Z) : result io_error SocketAddr * DnsCache * Z :=
  let deadline := now + timeout in
  match host_addrs cache host port deadline now with
  | (Err e, cache, now) => (Err e, cache, now)
  | (Ok addrs, cache, now) =>
      let '(r, now) := connect_loop addrs deadline now (IoError AddrNotAvailable "no addresses resolved") in (r, cache, now)
  end.

(** An attempt returns within the time it is given; the resolver takes its time. *)
Definition connect_bounded : Prop := forall a rem now, 0 < rem -> now <= snd (connect_timeout a rem now) <= now + rem.
Definition lookup_waits : Prop := forall d t now, now <= snd (lookup d t now).
Definition lookup_bounded : Prop := forall d t now, 0 <= t -> snd (lookup d t now) <= now + t.

(** ** Lemmas *)

Lemma connect_loop_time addrs deadline now last : connect_bounded ->
  now <= snd (connect_loop addrs deadline now last) <= Z.max now deadline.
Proof.
  intros Hc. revert now last. induction addrs as [|x addrs IH]; intros now last; cbn [connect_loop]; [simpl; lia|].
  cbv zeta. destruct (Z.eqb_spec (Z.max 0 (deadline - now)) 0); [simpl; lia|].
  pose proof (Hc x (Z.max 0 (deadline - now)) now ltac:(lia)) as Hx.
  destruct (connect_timeout x _ now) as [[[]|e] now']; cbn [fst snd] in *; [lia|]. specialize (IH now' e). lia.
Qed.

(** The addresses tried in order from a time on, each with what was left until the
    deadline, all in vain until another time. *)
Inductive in_vain (deadline : Z) : Z -> list SocketAddr -> Z -> Prop :=
| vain_nil now : in_vain deadline now [] now
| vain_cons now a addrs e now' now'' :
    now < deadline -> connect_timeout a (deadline - now) now = (Err e, now') -> in_vain deadline now' addrs now'' ->
    in_vain deadline now (a :: addrs) now''.

(** What the loop returned, and when: the first address that answered, or an error
    when none did or no time was left for the next. *)
Definition loop_result (addrs : list SocketAddr) (deadline now : Z) (r : result io_error SocketAddr) (fin : Z) : Prop :=
  match r with
  | Ok a => exists l1 l2 at_, addrs = l1 ++ a :: l2 /\ in_vain deadline now l1 at_ /\ at_ < deadline /\
      connect_timeout a (deadline - at_) at_ = (Ok tt, fin)
  | Err e => in_vain deadline now addrs fin \/
      exists l1 a l2, addrs = l1 ++ a :: l2 /\ in_vain deadline now l1 fin /\ deadline <= fin /\ io_kind e = TimedOut
  end.

Lemma connect_loop_spec addrs deadline now last :
  loop_result addrs deadline now (fst (connect_loop addrs deadline now last)) (snd (connect_loop addrs deadline now last)).
Proof.
  revert now last. induction addrs as [|x addrs IH]; intros now last; cbn [connect_loop]; [left; apply vain_nil|].
  cbv zeta. destruct (Z.eqb_spec (Z.max 0 (deadline - now)) 0).
  { right. exists [], x, addrs. split_and!; [done|apply vain_nil|simpl; lia|done]. }
  replace (Z.max 0 (deadline - now)) with (deadline - now) by lia.
  destruct (connect_timeout x (deadline - now) now) as [[[]|e] now'] eqn:E; cbn [fst snd].
  - exists [], addrs, now. split_and!; [done|apply vain_nil|lia|done].
  - specialize (IH now' e). destruct (connect_loop addrs deadline now' e) as [[a|e'] fin]; cbn [fst snd loop_result] in *.
    + destruct IH as (l1 & l2 & at_ & -> & Hv & Hlt & Hok). exists (x :: l1), l2, at_.
      split_and!; [done|by eapply vain_cons; [lia|..]|done|done].
    + destruct IH as [Hv|(l1 & a & l2 & -> & Hv & Hd)]; [left; by eapply vain_cons; [lia|..]|right].
      exists (x :: l1), a, l2. split; [done|]. split; [by eapply vain_cons; [lia|..]|done].
Qed.

Lemma host_addrs_time cache host port deadline now : lookup_waits -> now <= snd (host_addrs cache host port deadline now).
Proof.
  intros Hw. destruct host as [d|ip]; cbn; [|lia]. unfold resolve. pose proof (Hw d (Z.max 0 (deadline - now)) now) as Hl.
  destruct (lookup _ _ _) as [answer t]. destruct (resolve_with _ _ _ _ _ _ _) as [r c]. cbn in *. destruct (fresh cache d now); lia.
Qed.

Lemma host_addrs_bounded cache host port deadline now : lookup_bounded -> now <= deadline ->
  snd (host_addrs cache host port deadline now) <= deadline.
Proof.
  intros Hb Hn. destruct host as [d|ip]; cbn; [|lia]. unfold resolve. pose proof (Hb d (Z.max 0 (deadline - now)) now ltac:(lia)) as Hl.
  destruct (lookup _ _ _) as [answer t]. destruct (resolve_with _ _ _ _ _ _ _) as [r c]. cbn in *. destruct (fresh cache d now); lia.
Qed.
End Connect.

(** ** Properties *)

(** C17: connecting has one budget for the resolution and all the addresses it gives.
    If every attempt returns within the time it is given, the call returns by its
    deadline, or when the resolution does if that overran it; so by the deadline if
    the resolver keeps to the timeout it was given.  The addresses are tried in order,
    each with what is left of the budget: a success is the first that answered, and a
    failure means that all were tried in vain, that no time was left for the next, or
    that the name did not resolve. *)
Theorem tcp_connect_deadline ct lk cache host port timeout now : connect_bounded ct -> lookup_waits lk -> 0 <= timeout ->
  let '(r, _, fin) := tcp_connect ct lk cache host port timeout now in
  let '(addrs, _, known) := host_addrs lk cache host port (now + timeout) now in
  now <= known <= fin /\ fin <= Z.max (now + timeout) known /\
  (lookup_bounded lk -> fin <= now + timeout) /\
  match addrs with
  | Ok addrs => loop_result ct addrs (now + timeout) known r fin
  | Err e => r = Err e /\ fin = known
  end.
Proof.
  intros Hc Hw Ht. unfold tcp_connect. pose proof (host_addrs_time lk cache host port (now + timeout) now Hw) as H1.
  pose proof (fun Hb => host_addrs_bounded lk cache host port (now + timeout) now Hb ltac:(lia)) as H2.
  destruct (host_addrs _ _ _ _ _ _) as [[[addrs|e] c] known]; cbn [snd] in *.
  - pose proof (connect_loop_time ct addrs (now + timeout) known (IoError AddrNotAvailable "no addresses resolved") Hc) as H3.
    pose proof (connect_loop_spec ct addrs (now + timeout) known (IoError AddrNotAvailable "no addresses resolved")) as H4.
    destruct (connect_loop _ _ _ _ _) as [r fin]. cbn [fst snd] in *.
    split; [lia|]. split; [lia|]. split; [|done]. intros Hb. specialize (H2 Hb). lia.
  - split; [lia|]. split; [lia|]. split; [|done]. intros Hb. specialize (H2 Hb). lia.
Qed.

(** A name with three addresses, the last of which answers, under a budget of 10. *)
Definition sample_connect (a : SocketAddr) (rem now : Z) : result io_error unit * Z :=
  (if bool_decide (sa_ip a = V4 [3]) then Ok tt else Err (IoError TimedOut "t"), now + Z.min rem 3).
Definition sample_lookup (d : str) (t now : Z) : result io_error ips * Z := (Ok [V4 [1]; V4 [2]; V4 [3]], now + Z.min (Z.max 0 t) 2).

Lemma tcp_connect_deadline_witness :
  tcp_connect sample_connect sample_lookup DnsCache_new (Domain [97]) 80 10 0 =
    (Ok (SockAddr (V4 [3]) 80 0), insert DnsCache_new [97] (Ok [V4 [1]; V4 [2]; V4 [3]]) POSITIVE_TTL 2 2, 10) /\
  10 <= 0 + 10.
Proof.
  assert (connect_bounded sample_connect) as Hc by (intros a rem now Hr; unfold sample_connect; simpl; lia).
  assert (lookup_waits sample_lookup) as Hw by (intros d t now; unfold sample_lookup; simpl; lia).
  assert (lookup_bounded sample_lookup) as Hb by (intros d t now Ht; unfold sample_lookup; simpl; lia).
  split; [vm_compute; reflexivity|].
  exact (proj1 (proj2 (proj2 (tcp_connect_deadline sample_connect sample_lookup DnsCache_new (Domain [97]) 80 10 0 Hc Hw ltac:(lia)))) Hb).
Defined.
