(* ===== verification/Config.v ===== *)
(** * Configuration ([crates/common/src/config.rs])

    The configuration records after deserialization, their defaults, the
    conversion into the core key and the validation of the loaders.  The file
    system and the json5 parser are arguments of the loaders; the error texts
    are represented by what they say. *)
From S2P Require Import Prelude Errors Cipher KeyConfig.

(** What the [String] errors of the validation say. *)
Inductive Fault :=
| UnknownMethod (name : str)
| EmptyPassword (field : string)
| BadKey (e : Error)
| BondLinks.

Inductive ConfigError (E : Type) := ConfigIo (source : io_error) | ConfigParse (source : E) | Validate (message : Fault).
Arguments ConfigIo {E}.
Arguments ConfigParse {E}.
Arguments Validate {E}.

Record ObfuscationConfig := Obf {
  oc_kf : Z;
  oc_kl : Z;
  oc_kh : Z;
  oc_kx : Z;
  oc_protocol : str;
  oc_protocol_key : option str;
  oc_transport : str;
  oc_transport_key : option str;
  oc_masked : bool;
  oc_plaintext : bool;
  oc_delta_encode : bool;
  oc_shuffle_data : bool
}.

(** [ObfuscationConfig::default]. *)
Definition ObfuscationConfig_default : ObfuscationConfig :=
  let k := default_key in {|
  oc_kf := k_kf k; oc_kl := k_kl k; oc_kh := k_kh k; oc_kx := k_kx k;
  oc_protocol := Method_name (k_protocol k); oc_protocol_key := None;
  oc_transport := Method_name (k_transport k); oc_transport_key := None;
  oc_masked := k_masked k; oc_plaintext := k_plaintext k;
  oc_delta_encode := k_delta_encode k; oc_shuffle_data := k_shuffle_data k
|}.

Definition PLACEHOLDER_PASSWORD : str := lit "nextppp".

(** [ObfuscationConfig::method]. *)
Definition method (name : str) : result Fault Method := ok_or (from_name name) (UnknownMethod name).

(** [Option::or]. *)
Definition option_or {A} (a b : option A) : option A := match a with Some _ => a | None => b end.

(** [ObfuscationConfig::resolve_password]. *)
Definition resolve_password (key shared : option str) (field : string) : result Fault str :=
  match option_or key shared with
  | Some [] => Err (EmptyPassword field)
  | Some p => Ok p
  | None => Ok PLACEHOLDER_PASSWORD
  end.

(** [ObfuscationConfig::to_key]. *)
Definition to_key (c : ObfuscationConfig) (shared_password : option str) : result Fault ObfuscationKey :=
  let? protocol_key := resolve_password (oc_protocol_key c) shared_password "protocol_key" in
  let? protocol := method (oc_protocol c) in
  let? transport_key := resolve_password (oc_transport_key c) shared_password "transport_key" in
  let? transport := method (oc_transport c) in
  let key := {|
    k_kf := oc_kf c; k_kl := oc_kl c; k_kh := oc_kh c; k_kx := oc_kx c;
    k_protocol := protocol; k_protocol_key := protocol_key;
    k_transport := transport; k_transport_key := transport_key;
    k_masked := oc_masked c; k_plaintext := oc_plaintext c;
    k_delta_encode := oc_delta_encode c; k_shuffle_data := oc_shuffle_data c |} in
  match validate key with
  | Ok _ => Ok key
  | Err e => Err (BadKey e)
  end.

(** The condition of [warn_placeholder]. *)
Definition placeholder_warned (key : ObfuscationKey) : bool :=
  str_eqb (k_protocol_key key) PLACEHOLDER_PASSWORD && str_eqb (k_transport_key key) PLACEHOLDER_PASSWORD.

(** ** The configuration files *)

Record ServerConfig := SConfig {
  sc_listen : str;
  sc_bond_enabled : bool;
  sc_password : option str;
  sc_connect_timeout : Z;
  sc_handshake_timeout : Z;
  sc_max_connections : option Z;
  sc_max_handshakes : option Z;
  sc_max_streams_per_conn : option Z;
  sc_obfuscation : ObfuscationConfig
}.

Record BondClientSection := BondC { bc_listen : str; bc_links : Z; bc_pool_size : Z; bc_max_streams : Z }.

Definition BondClientSection_default : BondClientSection := BondC [] 3 1 64.

Record MuxSection := MuxS { mx_enabled : bool; mx_pool_size : Z; mx_max_streams : Z }.

Definition MuxSection_default : MuxSection := MuxS true 4 64.

(** [MuxSection::effective_pool_size]. *)
Definition effective_pool_size (m : MuxSection) : Z := if mx_enabled m then mx_pool_size m else 0.

Record ServerSection := SSection {
  ss_address : str;
  ss_connect_timeout : Z;
  ss_connect_retries : Z;
  ss_mux : MuxSection;
  ss_obfuscation : ObfuscationConfig
}.

Record ClientConfig := CConfig {
  cc_listen : str;
  cc_bond : option BondClientSection;
  cc_password : option str;
  cc_max_connections : option Z;
  cc_server : ServerSection
}.

Definition default_connect_timeout : Z := 10.
Definition default_true : bool := true.
Definition default_connect_retries : Z := 1.
Definition default_handshake_timeout : Z := 15.
Definition default_max_handshakes : option Z := Some 256.
Definition default_max_streams_per_conn : option Z := Some 1024.

(** A file that only gives the required fields. *)
Definition minimal_server (listen : str) : ServerConfig :=
  SConfig listen default_true None default_connect_timeout default_handshake_timeout None
    default_max_handshakes default_max_streams_per_conn ObfuscationConfig_default.
Definition minimal_client (listen address : str) : ClientConfig :=
  CConfig listen None None None
    (SSection address default_connect_timeout default_connect_retries MuxSection_default ObfuscationConfig_default).

(** ** The loaders *)

Section Load.
Context {ParseError : Type}.

(** [load_jsonc]: the file's text or the failure to read it, and the parser. *)
Definition load_jsonc {T} (text : result io_error str) (from_str : str -> result ParseError T) : result (ConfigError ParseError) T :=
  match text with
  | Err e => Err (ConfigIo e)
  | Ok text =>
      match from_str text with
      | Err e => Err (ConfigParse e)
      | Ok cfg => Ok cfg
      end
  end.

(** [ClientConfig::load]. *)
Definition ClientConfig_load (text : result io_error str) (from_str : str -> result ParseError ClientConfig)
    : result (ConfigError ParseError) ClientConfig :=
  let? cfg := load_jsonc text from_str in
  match to_key (ss_obfuscation (cc_server cfg)) (cc_password cfg) with
  | Err e => Err (Validate e)
  | Ok _ =>
      match cc_bond cfg with
      | Some bond => if bc_links bond =? 0 then Err (Validate BondLinks) else Ok cfg
      | None => Ok cfg
      end
  end.

(** [ServerConfig::load]. *)
Definition ServerConfig_load (text : result io_error str) (from_str : str -> result ParseError ServerConfig)
    : result (ConfigError ParseError) ServerConfig :=
  let? cfg := load_jsonc text from_str in
  match to_key (sc_obfuscation cfg) (sc_password cfg) with
  | Err e => Err (Validate e)
  | Ok _ => Ok cfg
  end.
End Load.

(** ** Lemmas *)

(** The field types: [u32], [u8] and [String]. *)
Definition cfg_typed (c : ObfuscationConfig) (shared : option str) : bool :=
  (0 <=? oc_kf c) && (oc_kf c <? 2 ^ 32) && (0 <=? oc_kl c) && (oc_kl c <? 256) &&
  (0 <=? oc_kh c) && (oc_kh c <? 256) && (0 <=? oc_kx c) && (oc_kx c <? 2 ^ 32) &&
  forallb is_char (default [] (oc_protocol_key c)) && forallb is_char (default [] (oc_transport_key c)) &&
  forallb is_char (default [] shared).

(** The password a layer ends up with. *)
Definition effective_password (key shared : option str) : str := default PLACEHOLDER_PASSWORD (option_or key shared).

Lemma resolve_password_spec key shared field :
  resolve_password key shared field =
    if (length (effective_password key shared) =? 0)%nat then Err (EmptyPassword field) else Ok (effective_password key shared).
Proof. unfold resolve_password, effective_password. destruct (option_or key shared) as [[|c p]|]; done. Qed.

Lemma effective_password_chars c key shared :
  forallb is_char (default [] key) = true -> forallb is_char (default [] shared) = true ->
  c = effective_password key shared -> forallb is_char c = true.
Proof. intros Hk Hs ->. unfold effective_password. by destruct key, shared. Qed.

(** A method's canonical name names it. *)
Lemma from_name_name m : from_name (Method_name m) = Some m.
Proof. by destruct m. Qed.

(** ** Properties *)

(** C31: the configuration layer is exact: a configuration becomes a key exactly
    when both cipher names are known, neither layer's effective password (its
    own, else the shared one, else the placeholder) is empty and both NOP
    exponents are at most 20; the key then is valid for the protocol core,
    carries these passwords, methods and every other field unchanged; and the
    default configuration becomes the default key. *)
Theorem to_key_exact c shared : cfg_typed c shared = true ->
  (forall k, to_key c shared = Ok k <->
     method (oc_protocol c) = Ok (k_protocol k) /\ method (oc_transport c) = Ok (k_transport k) /\
     effective_password (oc_protocol_key c) shared = k_protocol_key k /\
     effective_password (oc_transport_key c) shared = k_transport_key k /\
     k_protocol_key k <> [] /\ k_transport_key k <> [] /\ k_kl k <= 20 /\ k_kh k <= 20 /\
     (k_kf k, k_kl k, k_kh k, k_kx k) = (oc_kf c, oc_kl c, oc_kh c, oc_kx c) /\
     (k_masked k, k_plaintext k, k_delta_encode k, k_shuffle_data k) =
       (oc_masked c, oc_plaintext c, oc_delta_encode c, oc_shuffle_data c)) /\
  (forall k, to_key c shared = Ok k -> key_valid k) /\
  to_key ObfuscationConfig_default None = Ok default_key.
Proof.
  intros Ht. assert (forall k, to_key c shared = Ok k <->
     method (oc_protocol c) = Ok (k_protocol k) /\ method (oc_transport c) = Ok (k_transport k) /\
     effective_password (oc_protocol_key c) shared = k_protocol_key k /\
     effective_password (oc_transport_key c) shared = k_transport_key k /\
     k_protocol_key k <> [] /\ k_transport_key k <> [] /\ k_kl k <= 20 /\ k_kh k <= 20 /\
     (k_kf k, k_kl k, k_kh k, k_kx k) = (oc_kf c, oc_kl c, oc_kh c, oc_kx c) /\
     (k_masked k, k_plaintext k, k_delta_encode k, k_shuffle_data k) =
       (oc_masked c, oc_plaintext c, oc_delta_encode c, oc_shuffle_data c)) as Hiff.
  { intros k. unfold to_key. rewrite !resolve_password_spec. destruct k as [kf kl kh kx p pk t tk ma pl de sh].
    cbn [k_kf k_kl k_kh k_kx k_protocol k_protocol_key k_transport k_transport_key k_masked k_plaintext k_delta_encode k_shuffle_data].
    set (ep := effective_password (oc_protocol_key c) shared). set (et := effective_password (oc_transport_key c) shared).
    destruct (Nat.eqb_spec (length ep) 0) as [E1|E1].
    { split; [done|]. intros (_ & _ & <- & _ & Hne & _). by apply nil_length_inv in E1. }
    destruct (method (oc_protocol c)) as [m1|]; [|split; [done|by intros [? _]]].
    destruct (Nat.eqb_spec (length et) 0) as [E2|E2].
    { split; [done|]. intros (_ & _ & _ & <- & _ & Hne & _). by apply nil_length_inv in E2. }
    destruct (method (oc_transport c)) as [m2|]; [|split; [done|by intros (_ & ? & _)]].
    unfold validate, MAX_NOP_EXPONENT. cbn [k_kl k_kh k_protocol_key k_transport_key].
    destruct (Nat.eqb_spec (length ep) 0); [done|]. destruct (Nat.eqb_spec (length et) 0); [done|]. cbn [orb].
    destruct (Z.ltb_spec 20 (oc_kl c)), (Z.ltb_spec 20 (oc_kh c)); cbn [orb]; (split; [|]);
      try (intros [=]; fail); try (intros (_ & _ & _ & _ & _ & _ & ? & ? & [= -> -> -> ->] & _); lia).
    - intros [= <- <- <- <- <- <- <- <- <- <- <- <-]. split_and!; try done; intros E; by rewrite E in *.
    - intros ([= ->] & [= ->] & <- & <- & _ & _ & _ & _ & [= -> -> -> ->] & [= -> -> -> ->]). done. }
  split; [exact Hiff|]. split; [|by vm_compute].
  intros k Hk. pose proof Hk as Hv. apply Hiff in Hk as (_ & _ & Hp & Htk & Hpn & Htn & Hl & Hh & [= E1 E2 E3 E4] & _).
  unfold cfg_typed in Ht. repeat (apply andb_prop in Ht as [Ht ?]). split.
  - unfold key_typed. rewrite E1, E2, E3, E4. repeat (apply andb_true_intro; split); try done;
      [by apply (effective_password_chars _ (oc_protocol_key c) shared)|by apply (effective_password_chars _ (oc_transport_key c) shared)].
  - unfold validate, MAX_NOP_EXPONENT. destruct (Z.ltb_spec 20 (k_kl k)), (Z.ltb_spec 20 (k_kh k)); try lia. cbn [orb].
    by destruct (k_protocol_key k), (k_transport_key k).
Qed.

Lemma to_key_exact_witness :
  exists k, to_key (ObfuscationConfig_default) (Some (lit "shared")) = Ok k /\ key_valid k.
Proof.
  destruct (to_key_exact ObfuscationConfig_default (Some (lit "shared")) eq_refl) as (_ & Hv & _).
  eexists. split; [|apply Hv]; vm_compute; reflexivity.
Defined.
