(* ===== verification/Server.v ===== *)
(** * The server ([crates/server/src/lib.rs])

    The accept gates and connection counters, and one tunnel as a state machine:
    the demux loop, the stream tasks and the outbound channel take their atomic
    steps in any order.  Each handler is a function; the step relation only
    says who may move. *)
From S2P Require Import Prelude Errors Handshake KeyConfig Mux Addr Tunnel Config.

Definition OUTBOUND_BOUND : nat := 256.
Definition STREAM_BOUND : nat := 32.

(** ** Configuration and counters *)

Record ServerRuntime := SRuntime {
  rt_key : ObfuscationKey;
  rt_connect_timeout : Z;
  rt_handshake_timeout : Z;
  rt_max_connections : option Z;
  rt_max_handshakes : option Z;
  rt_max_streams_per_conn : option Z;
  rt_allow_bond : bool
}.

(** [ServerRuntime::from_config]; durations in seconds. *)
Definition ServerRuntime_from_config (cfg : ServerConfig) : result Fault ServerRuntime :=
  let? key := to_key (sc_obfuscation cfg) (sc_password cfg) in
  Ok (SRuntime key (sc_connect_timeout cfg) (sc_handshake_timeout cfg) (sc_max_connections cfg)
        (sc_max_handshakes cfg) (sc_max_streams_per_conn cfg) (sc_bond_enabled cfg)).

(** [ServerStats]: [AtomicU64]s. *)
Record ServerStats := SStats {
  st_active : Z;
  st_sessions : Z;
  st_handshake_failures : Z;
  st_handshaking : Z;
  st_rejected_overload : Z;
  st_bytes_to_targets : Z;
  st_bytes_to_clients : Z
}.

Definition ServerStats_default : ServerStats := SStats 0 0 0 0 0 0 0.

Definition add_active (d : Z) (s : ServerStats) : ServerStats :=
  SStats (u64 (st_active s + d)) (st_sessions s) (st_handshake_failures s) (st_handshaking s)
    (st_rejected_overload s) (st_bytes_to_targets s) (st_bytes_to_clients s).
Definition add_handshaking (d : Z) (s : ServerStats) : ServerStats :=
  SStats (st_active s) (st_sessions s) (st_handshake_failures s) (u64 (st_handshaking s + d))
    (st_rejected_overload s) (st_bytes_to_targets s) (st_bytes_to_clients s).
Definition add_handshake_failures (s : ServerStats) : ServerStats :=
  SStats (st_active s) (st_sessions s) (u64 (st_handshake_failures s + 1)) (st_handshaking s)
    (st_rejected_overload s) (st_bytes_to_targets s) (st_bytes_to_clients s).
Definition add_rejected (s : ServerStats) : ServerStats :=
  SStats (st_active s) (st_sessions s) (st_handshake_failures s) (st_handshaking s)
    (u64 (st_rejected_overload s + 1)) (st_bytes_to_targets s) (st_bytes_to_clients s).

(** The counters of [handle_stream]: a session once the REPLY is queued, the bytes once
    its pump returned ([up] is the way from the target). *)
Definition stream_started (s : ServerStats) : ServerStats :=
  SStats (st_active s) (u64 (st_sessions s + 1)) (st_handshake_failures s) (st_handshaking s)
    (st_rejected_overload s) (st_bytes_to_targets s) (st_bytes_to_clients s).
Definition stream_counted (s : ServerStats) (o : PumpOutcome) : ServerStats :=
  SStats (st_active s) (st_sessions s) (st_handshake_failures s) (st_handshaking s)
    (st_rejected_overload s) (u64 (st_bytes_to_targets s + po_down o)) (u64 (st_bytes_to_clients s + po_up o)).

(** The traffic counters are the sums over the streams that ended, modulo 2^64. *)
Lemma traffic_sums os s :
  let total f := foldr Z.add 0 (map f os) in let s' := foldl stream_counted s os in
  u64 (st_bytes_to_targets s') = u64 (st_bytes_to_targets s + total po_down) /\
  u64 (st_bytes_to_clients s') = u64 (st_bytes_to_clients s + total po_up) /\ st_active s' = st_active s.
Proof.
  revert s. induction os as [|o os IH]; intros s; cbn [foldl foldr map]; [by rewrite !Z.add_0_r|].
  destruct (IH (stream_counted s o)) as (-> & -> & ->). cbn [stream_counted st_bytes_to_targets st_bytes_to_clients st_active].
  unfold u64. rewrite !Z.add_mod_idemp_l by done. by rewrite !Z.add_assoc.
Qed.

(** [should_log_failure]. *)
Definition should_log_failure (n : Z) : bool := (n =? 1) || (n mod 64 =? 0).

(** ** Accepting *)

(** A gate of the accept loop: [Some(max)] and the gauge is at it. *)
Definition gate_closed (max : option Z) (gauge : Z) : bool :=
  match max with Some m => m <=? gauge | None => false end.

(** The session id of the [n]-th accepted connection. *)
Definition session_id_for (base n : Z) : Z :=
  let sid := u128 (base + n) in if sid =? 0 then 1 else sid.

(** An accepted socket: dropped by a gate, or handed to [handle_conn] with its
    session id; the stats and the connection counter. *)
Definition accept_conn (rt : ServerRuntime) (base counter : Z) (st : ServerStats) : option Z * (ServerStats * Z) :=
  if gate_closed (rt_max_connections rt) (st_active st) then (None, (add_rejected st, counter))
  else if gate_closed (rt_max_handshakes rt) (st_handshaking st) then (None, (add_rejected st, counter))
  else (Some (session_id_for base counter), (st, u64 (counter + 1))).

(** ** One connection *)

(** How a connection's setup and handshake go, and whether the socket conversions
    that follow succeed ([set_nonblocking], [TcpStream::from_std]; [split_link]). *)
Inductive HandshakeEnd := HsSetupFailed | HsFailed | HsDone (role : SessionRole) (converted : bool).

(** The points of [handshake_sync], [handle_conn_inner] and [register_link] between
    which the counters change. *)
Inductive ConnPhase :=
| CSetup                          (** spawned; the timeouts are not set yet *)
| CHandshaking                    (** inside [HandshakingGuard] *)
| CHandshaked                     (** [handshake_sync] returned *)
| CActive                         (** an [ActiveGuard] is held by the tunnel or the link *)
| CLost                           (** returned after the increment, without a guard *)
| CEnded.

#[export] Instance ConnPhase_eq_dec : EqDecision ConnPhase.
Proof. solve_decision. Defined.

(** One step of a connection: its next phase and the counters. *)
Definition conn_step (hs : HandshakeEnd) (c : ConnPhase) (st : ServerStats) : ConnPhase * ServerStats :=
  match c with
  | CSetup =>
      match hs with
      | HsSetupFailed => (CHandshaked, st)
      | _ => (CHandshaking, add_handshaking 1 st)
      end
  | CHandshaking => (CHandshaked, add_handshaking (-1) st)
  | CHandshaked =>
      match hs with
      | HsSetupFailed | HsFailed => (CEnded, add_handshake_failures st)
      | HsDone _ converted => (if converted then CActive else CLost, add_active 1 st)
      end
  | CActive => (CEnded, add_active (-1) st)
  | CLost => (CLost, st)
  | CEnded => (CEnded, st)
  end.

(** The accept loop and its connections, each with the way its handshake goes. *)
Record Accepting := Acc { ac_conns : list (HandshakeEnd * ConnPhase); ac_stats : ServerStats; ac_counter : Z }.

Inductive accept_step (rt : ServerRuntime) (base : Z) : Accepting -> Accepting -> Prop :=
| as_accept conns st n sid st' n' hs :
    accept_conn rt base n st = (Some sid, (st', n')) ->
    accept_step rt base (Acc conns st n) (Acc (conns ++ [(hs, CSetup)]) st' n')
| as_reject conns st n st' n' :
    accept_conn rt base n st = (None, (st', n')) ->
    accept_step rt base (Acc conns st n) (Acc conns st' n')
| as_conn conns st n i hs c c' st' :
    conns !! i = Some (hs, c) -> conn_step hs c st = (c', st') ->
    accept_step rt base (Acc conns st n) (Acc (<[i := (hs, c')]> conns) st' n).

(** ** One tunnel *)

(** The positions of a stream task ([handle_stream]).  [receiving] tells whether its
    event receiver still exists: the task holds it until [pump_stream], then [pump_down]
    does and drops it when it ends, while [pump_up] and the task may go on. *)
Inductive TaskPhase :=
| TConnecting                     (** in [tcp_connect] *)
| TReplying (ok : bool)           (** waiting to queue the REPLY *)
| TPumping (receiving : bool)     (** in [pump_stream] *)
| TRemoving (receiving : bool)    (** about to deregister *)
| TGone.

#[export] Instance TaskPhase_eq_dec : EqDecision TaskPhase.
Proof. solve_decision. Defined.

(** A stream task with its event channel: what is queued, and (for the
    statements) what was routed to it and what it took. *)
Record Task := Tk {
  tk_stream : Z;
  tk_addr : ProxyAddr;
  tk_phase : TaskPhase;
  tk_queue : list StreamEvent;
  tk_routed : list StreamEvent;
  tk_taken : list StreamEvent
}.

Definition receiving (t : Task) : bool :=
  match tk_phase t with
  | TConnecting | TReplying _ => true
  | TPumping r | TRemoving r => r
  | TGone => false
  end.

Definition set_phase (p : TaskPhase) (t : Task) : Task :=
  Tk (tk_stream t) (tk_addr t) p (tk_queue t) (tk_routed t) (tk_taken t).

(** The event receiver is dropped, and what is queued with it. *)
Definition drop_receiver (p : TaskPhase) (t : Task) : Task :=
  Tk (tk_stream t) (tk_addr t) p [] (tk_routed t) (tk_taken t).

(** The event at which [pump_down] leaves its loop. *)
Definition ends_pump (ev : StreamEvent) : bool := match ev with SData _ => false | SEof | SClose => true end.

(** [pump_down] has met it. *)
Definition pump_over (t : Task) : bool := match last (tk_taken t) with Some ev => ends_pump ev | None => false end.

(** The demux loop between two frames, waiting in [route], or finished. *)
Inductive Demux := DIdle | DRouting (stream : Z) (ev : StreamEvent) (task : nat) | DEnded.

Record TunnelState := Tun {
  tn_registry : gmap Z nat;        (** stream id to the task holding the receiver *)
  tn_tasks : list Task;            (** every task ever spawned *)
  tn_queue : list OutFrame;        (** the outbound channel *)
  tn_wire : list OutFrame;         (** what the writer took *)
  tn_closed : bool;                (** the writer is gone *)
  tn_demux : Demux
}.

Definition tunnel_new : TunnelState := Tun ∅ [] [] [] false DIdle.

Definition with_registry (reg : gmap Z nat) (s : TunnelState) : TunnelState :=
  Tun reg (tn_tasks s) (tn_queue s) (tn_wire s) (tn_closed s) (tn_demux s).
Definition with_demux (d : Demux) (s : TunnelState) : TunnelState :=
  Tun (tn_registry s) (tn_tasks s) (tn_queue s) (tn_wire s) (tn_closed s) d.
Definition with_task (i : nat) (t : Task) (s : TunnelState) : TunnelState :=
  Tun (tn_registry s) (<[i := t]> (tn_tasks s)) (tn_queue s) (tn_wire s) (tn_closed s) (tn_demux s).
Definition enqueue (f : OutFrame) (s : TunnelState) : TunnelState :=
  Tun (tn_registry s) (tn_tasks s) (tn_queue s ++ [f]) (tn_wire s) (tn_closed s) (tn_demux s).

(** [out.try_send(f)], its result ignored. *)
Definition out_try_send (f : OutFrame) (s : TunnelState) : TunnelState :=
  if negb (tn_closed s) && (length (tn_queue s) <? OUTBOUND_BOUND)%nat then enqueue f s else s.

(** [handle_open]. *)
Definition handle_open (rt : ServerRuntime) (stream : Z) (payload : bytes) (s : TunnelState) : TunnelState :=
  let close := out_try_send (OutFrame_bare Close stream) s in
  if bool_decide (is_Some (tn_registry s !! stream)) then close
  else if (match rt_max_streams_per_conn rt with Some cap => cap <=? Z.of_nat (size (tn_registry s)) | None => false end) then close
  else
    match addr_decode payload with
    | Err _ => close
    | Ok addr =>
        Tun (<[stream := length (tn_tasks s)]> (tn_registry s))
          (tn_tasks s ++ [Tk stream addr TConnecting [] [] []])
          (tn_queue s) (tn_wire s) (tn_closed s) (tn_demux s)
    end.

(** The start of [route]: the lookup, and the bounce of an unknown stream. *)
Definition route (stream : Z) (ev : StreamEvent) (s : TunnelState) : TunnelState :=
  match tn_registry s !! stream with
  | Some i =>
      match tn_tasks s !! i with
      | Some t =>
          with_demux (DRouting stream ev i)
            (with_task i (Tk (tk_stream t) (tk_addr t) (tk_phase t) (tk_queue t) (tk_routed t ++ [ev]) (tk_taken t)) s)
      | None => s
      end
  | None => out_try_send (OutFrame_bare Close stream) s
  end.

(** The end of [route] when the send failed or timed out. *)
Definition route_drop (stream : Z) (s : TunnelState) : TunnelState :=
  with_demux DIdle (out_try_send (OutFrame_bare Close stream) (with_registry (delete stream (tn_registry s)) s)).

(** The end of the demux loop: the writer is aborted.  The loop's [Arc] of the
    registry is dropped, not the map: every stream task holds another one. *)
Definition demux_end (s : TunnelState) : TunnelState :=
  Tun (tn_registry s) (tn_tasks s) (tn_queue s) (tn_wire s) true DEnded.

(** One frame through the [match] of [run_demux]. *)
Definition demux_frame (rt : ServerRuntime) (msg : bytes) (s : TunnelState) : TunnelState :=
  match parse_frame msg with
  | Ok (Open, stream, payload) => handle_open rt stream payload s
  | Ok (Data, stream, payload) => route stream (SData payload) s
  | Ok (Eof, stream, _) => route stream SEof s
  | Ok (Close, stream, _) => with_registry (delete stream (tn_registry s)) s
  | Ok (Reply, _, _) => demux_end s
  | Err _ => demux_end s
  end.

(** The atomic steps of a stream task, as far as the tunnel sees them: connected or
    not, the REPLY queued (or the channel gone), an event taken, the end of [pump_down]
    (after an EOF or a CLOSE, a failed write, or aborted), a frame of the pump queued,
    the pump over, which joins both its tasks, the deregistration. *)
Inductive TaskAct :=
| AConnected (ok : bool) | AReply | ATake | ADownEnds | APump (f : OutFrame) | AFinish | ARemove.

Definition reply_frame (stream : Z) (ok : bool) : OutFrame :=
  OutFrame_new Reply stream [if ok then REPLY_OK else REPLY_REFUSED].

(** [None]: the act is not possible now. *)
Definition task_step (i : nat) (t : Task) (a : TaskAct) (s : TunnelState) : option TunnelState :=
  let room := (length (tn_queue s) <? OUTBOUND_BOUND)%nat in
  match tk_phase t, a with
  | TConnecting, AConnected ok => Some (with_task i (set_phase (TReplying ok) t) s)
  | TReplying ok, AReply =>
      if tn_closed s then Some (with_task i (set_phase (TRemoving true) t) s)
      else if room then
        Some (with_task i (set_phase (if ok then TPumping true else TRemoving true) t) (enqueue (reply_frame (tk_stream t) ok) s))
      else None
  | TPumping true, ATake =>
      match tk_queue t with
      | ev :: q =>
          if pump_over t then None
          else Some (with_task i (Tk (tk_stream t) (tk_addr t) (TPumping true) q (tk_routed t) (tk_taken t ++ [ev])) s)
      | [] => None
      end
  | TPumping true, ADownEnds => Some (with_task i (drop_receiver (TPumping false) t) s)
  | TPumping _, APump f =>
      if pump_frame (tk_stream t) f && room && negb (tn_closed s) then Some (enqueue f s) else None
  | TPumping false, AFinish => Some (with_task i (set_phase (TRemoving false) t) s)
  | TRemoving _, ARemove =>
      Some (with_registry (delete (tk_stream t) (tn_registry s)) (with_task i (drop_receiver TGone t) s))
  | _, _ => None
  end.

(** The writer task returned: its receiver is gone. *)
Definition out_gone (s : TunnelState) : TunnelState :=
  Tun (tn_registry s) (tn_tasks s) (tn_queue s) (tn_wire s) true (tn_demux s).

(** Who may move on its own.  [tunnel_routed] is [tx.send(ev)] finding room, [tunnel_dead]
    finding the receiver gone, [tunnel_stalled] the timeout while the channel is full. *)
Inductive tunnel_local : TunnelState -> TunnelState -> Prop :=
| tunnel_routed s stream ev i t :
    tn_demux s = DRouting stream ev i -> tn_tasks s !! i = Some t -> receiving t = true ->
    (length (tk_queue t) < STREAM_BOUND)%nat ->
    tunnel_local s (with_demux DIdle
      (with_task i (Tk (tk_stream t) (tk_addr t) (tk_phase t) (tk_queue t ++ [ev]) (tk_routed t) (tk_taken t)) s))
| tunnel_dead s stream ev i t :
    tn_demux s = DRouting stream ev i -> tn_tasks s !! i = Some t -> receiving t = false ->
    tunnel_local s (route_drop stream s)
| tunnel_stalled s stream ev i t :
    tn_demux s = DRouting stream ev i -> tn_tasks s !! i = Some t -> (STREAM_BOUND ≤ length (tk_queue t))%nat ->
    tunnel_local s (route_drop stream s)
| tunnel_task s i t a s' : tn_tasks s !! i = Some t -> task_step i t a s = Some s' -> tunnel_local s s'
| tunnel_writes s f q : tn_closed s = false -> tn_queue s = f :: q ->
    tunnel_local s (Tun (tn_registry s) (tn_tasks s) q (tn_wire s ++ [f]) false (tn_demux s))
| tunnel_reader_ends s : tn_demux s = DIdle -> tunnel_local s (demux_end s)
| tunnel_writer_ends s : tn_closed s = false -> tunnel_local s (out_gone s).

(** A message of the peer is read only between two frames. *)
Inductive tunnel_step (rt : ServerRuntime) : TunnelState -> TunnelState -> Prop :=
| tunnel_demux msg s : tn_demux s = DIdle -> wf_bytes msg -> tunnel_step rt s (demux_frame rt msg s)
| tunnel_own s s' : tunnel_local s s' -> tunnel_step rt s s'.

(** Everything ever queued for the client, in order. *)
Definition out_log (s : TunnelState) : list OutFrame := tn_wire s ++ tn_queue s.

(** A DATA or EOF frame of a stream. *)
Definition carries_stream (stream : Z) (f : OutFrame) : Prop :=
  (exists d, parse_frame (of_header f) = Ok (Data, stream, d)) \/ (exists d, parse_frame (of_header f) = Ok (Eof, stream, d)).

(** Every DATA or EOF of a stream follows its positive REPLY. *)
Definition replies_first (log : list OutFrame) : Prop :=
  forall l1 f l2 stream, log = l1 ++ f :: l2 -> carries_stream stream f -> reply_frame stream true ∈ l1.

(** What the frame being routed still adds to a task. *)
Definition in_route (s : TunnelState) (i : nat) : list StreamEvent :=
  match tn_demux s with DRouting _ ev j => if decide (i = j) then [ev] else [] | _ => [] end.

(** ** The tunnel's invariant *)

Record task_inv (s : TunnelState) (i : nat) (t : Task) : Prop := {
  task_u32 : is_u32 (tk_stream t);
  task_bound : (length (tk_queue t) ≤ STREAM_BOUND)%nat;
  task_prefix : tk_taken t ++ tk_queue t `prefix_of` tk_routed t;
  task_exact : tn_registry s !! tk_stream t = Some i -> receiving t = true -> tk_taken t ++ tk_queue t ++ in_route s i = tk_routed t;
  task_dropped : receiving t = false -> tk_queue t = [];
  task_last : forall l ev, tk_taken t = l ++ [ev] -> Forall (fun e => ends_pump e = false) l;
  task_replied : forall rx, tk_phase t = TPumping rx -> reply_frame (tk_stream t) true ∈ out_log s
}.

Record tunnel_inv (rt : ServerRuntime) (s : TunnelState) : Prop := {
  inv_cap : forall cap, rt_max_streams_per_conn rt = Some cap -> 0 <= cap -> Z.of_nat (size (tn_registry s)) <= cap;
  inv_registry : forall stream i, tn_registry s !! stream = Some i ->
    exists t, tn_tasks s !! i = Some t /\ tk_stream t = stream /\ tk_phase t <> TGone;
  inv_route : forall stream ev i, tn_demux s = DRouting stream ev i ->
    exists t, tn_tasks s !! i = Some t /\ tk_stream t = stream /\
      (forall j, tn_registry s !! stream = Some j -> j = i) /\
      (exists pre, tk_routed t = pre ++ [ev] /\ tk_taken t ++ tk_queue t `prefix_of` pre /\ (receiving t = true -> tk_taken t ++ tk_queue t = pre));
  inv_queue : (length (tn_queue s) ≤ OUTBOUND_BOUND)%nat;
  inv_log : replies_first (out_log s);
  inv_tasks : forall i t, tn_tasks s !! i = Some t -> task_inv s i t
}.

(** ** Lemmas *)

Lemma replies_first_snoc log f :
  replies_first log -> (forall stream, carries_stream stream f -> reply_frame stream true ∈ log) -> replies_first (log ++ [f]).
Proof.
  intros Hl Hf l1 g l2 stream E Hc. destruct l2 as [|x l2] using rev_ind.
  - apply app_inj_tail in E as [<- <-]. by apply Hf.
  - clear IHl2. rewrite app_comm_cons, app_assoc in E. apply app_inj_tail in E as [E _]. by apply (Hl l1 g l2).
Qed.

Lemma parse_frame_kind k rest kind stream d : parse_frame (as_u8 k :: rest) = Ok (kind, stream, d) -> kind = k.
Proof.
  unfold parse_frame. rewrite from_as_u8. cbn [ok_or]. destruct (decode_varint rest) as [[v n]|]; [|done]. by intros [= <- _ _].
Qed.

Lemma carries_kind k stream' payload stream : carries_stream stream (OutFrame_new k stream' payload) -> k = Data \/ k = Eof.
Proof. intros [[d E]|[d E]]; apply parse_frame_kind in E as <-; auto. Qed.

(** A pump's frame belongs to its stream. *)
Lemma carries_new k stream payload st : is_u32 stream -> carries_stream st (OutFrame_new k stream payload) -> st = stream.
Proof.
  intros Hu Hc. pose proof (parse_frame_header k stream [] Hu) as E. rewrite app_nil_r in E.
  destruct Hc as [[d Hc]|[d Hc]]; cbn [of_header OutFrame_new] in Hc; rewrite E in Hc; by injection Hc as _ <- _.
Qed.

Section TunnelLemmas.
Context (rt : ServerRuntime).
Implicit Types s : TunnelState.

Lemma inv_new : tunnel_inv rt tunnel_new.
Proof.
  split; unfold tunnel_new; cbn [tn_registry tn_tasks tn_demux tn_queue]; try done.
  - simpl. lia.
  - intros l1 f l2 stream E. by destruct l1.
Qed.

Lemma inv_enqueue s f : tunnel_inv rt s -> (length (tn_queue s) < OUTBOUND_BOUND)%nat ->
  (forall stream, carries_stream stream f -> reply_frame stream true ∈ out_log s) -> tunnel_inv rt (enqueue f s).
Proof.
  intros [Hcap Hreg Hro Hq Hlog Hts] Hroom Hf. split; try done.
  - cbn [tn_queue enqueue]. rewrite length_app. simpl. lia.
  - unfold out_log. cbn [tn_queue tn_wire enqueue]. rewrite app_assoc. by apply replies_first_snoc.
  - intros i t Ht. destruct (Hts i t Ht) as [Hu Hb Hp He Hdr Hla Hr]. split; try done.
    intros rx Hph. unfold out_log. cbn [tn_queue tn_wire enqueue]. rewrite app_assoc. apply elem_of_app. left. by eapply Hr.
Qed.

Lemma inv_try_send_close s stream : tunnel_inv rt s -> tunnel_inv rt (out_try_send (OutFrame_bare Close stream) s).
Proof.
  intros Hi. unfold out_try_send. destruct (tn_closed s); [done|]. cbn [negb andb].
  destruct (Nat.ltb_spec (length (tn_queue s)) OUTBOUND_BOUND); [|done]. apply inv_enqueue; [done|done|].
  intros st Hc. by apply carries_kind in Hc as [|].
Qed.

Lemma inv_delete s stream : tunnel_inv rt s -> tunnel_inv rt (with_registry (delete stream (tn_registry s)) s).
Proof.
  intros [Hcap Hreg Hro Hq Hlog Hts]. split; try done; cbn [tn_registry with_registry].
  - intros cap Hc Hp. specialize (Hcap cap Hc Hp). pose proof (map_size_delete stream (tn_registry s)) as Hs.
    destruct (tn_registry s !! stream); unfold id in Hs; lia.
  - intros st i Hl. apply lookup_delete_Some in Hl as [_ Hl]. by apply Hreg.
  - intros st ev i Hd. destruct (Hro st ev i Hd) as (t & Ht & Hs & Hj & He). exists t. split_and!; try done.
    intros j Hl. apply lookup_delete_Some in Hl as [_ Hl]. by apply Hj.
  - intros i t Ht. destruct (Hts i t Ht) as [Hu Hb Hp He Hdr Hla Hr]. split; try done.
    intros Hl. cbn [with_registry tn_registry] in Hl. apply lookup_delete_Some in Hl as [_ Hl]. by apply He.
Qed.

(** A task moves, and drops its receiver at most. *)
Lemma inv_task s i t t' : tunnel_inv rt s -> tn_tasks s !! i = Some t ->
  tk_stream t' = tk_stream t -> tk_routed t' = tk_routed t -> tk_taken t' ++ tk_queue t' `prefix_of` tk_taken t ++ tk_queue t ->
  (receiving t' = true -> receiving t = true /\ tk_taken t' ++ tk_queue t' = tk_taken t ++ tk_queue t) ->
  (receiving t' = false -> tk_queue t' = []) ->
  (length (tk_queue t') ≤ length (tk_queue t))%nat ->
  (forall l ev, tk_taken t' = l ++ [ev] -> Forall (fun e => ends_pump e = false) l) ->
  (forall rx, tk_phase t' = TPumping rx -> reply_frame (tk_stream t) true ∈ out_log s) ->
  (tk_phase t' = TGone -> tn_registry s !! tk_stream t <> Some i) ->
  tunnel_inv rt (with_task i t' s).
Proof.
  intros [Hcap Hreg Hro Hq Hlog Hts] Ht Es Er Eq Erc Edr Hl Hlast Hph Hgone.
  assert (forall j u, <[i := t']> (tn_tasks s) !! j = Some u -> (j = i /\ u = t') \/ (j <> i /\ tn_tasks s !! j = Some u)) as Hj.
  { intros j u Hu. apply list_lookup_insert_Some in Hu as [(-> & -> & _)|[? ?]]; auto. }
  assert (<[i := t']> (tn_tasks s) !! i = Some t') as Hi by (apply list_lookup_insert_eq; by eapply lookup_lt_Some).
  split; try done; cbn [tn_registry tn_tasks tn_demux with_task].
  - intros st j Hlk. destruct (Hreg st j Hlk) as (u & Hu & Hs & Hg). destruct (decide (j = i)) as [->|Hne].
    + rewrite Ht in Hu. injection Hu as <-. exists t'. split_and!; [done|congruence|]. intros Hg'. subst st. by apply Hgone.
    + exists u. by rewrite list_lookup_insert_ne.
  - intros st ev j Hd. destruct (Hro st ev j Hd) as (u & Hu & Hs & Hj' & pre & Epre & Hpre & Hex). destruct (decide (j = i)) as [->|Hne].
    + rewrite Ht in Hu. injection Hu as <-. exists t'. split_and!; [done|congruence|done|]. exists pre. rewrite Er. split_and!; [done|by etransitivity|].
      intros Hrc. destruct (Erc Hrc) as [Hrc' ->]. by apply Hex.
    + exists u. rewrite list_lookup_insert_ne by done. split_and!; [done..|by exists pre].
  - intros j u Hu. destruct (Hj j u Hu) as [[-> ->]|[Hne Hu']].
    + destruct (Hts i t Ht) as [Hu0 Hb Hp He Hdr Hla Hr]. split; rewrite ?Es; try done; [lia|rewrite Er; by etransitivity|].
      intros Hlk Hrc. cbn [tn_registry with_task] in Hlk. destruct (Erc Hrc) as [Hrc' E].
      rewrite Er, <- (He Hlk Hrc'), (app_assoc (tk_taken t')), E. by rewrite <- app_assoc.
    + by destruct (Hts j u Hu') as [Hu0 Hb Hp He Hdr Hla Hr].
Qed.

Lemma inv_closed s c : tunnel_inv rt s -> tunnel_inv rt (Tun (tn_registry s) (tn_tasks s) (tn_queue s) (tn_wire s) c (tn_demux s)).
Proof. intros [Hcap Hreg Hro Hq Hlog Hts]. split; try done. intros i t Ht. by destruct (Hts i t Ht). Qed.

Lemma inv_end s : tn_demux s = DIdle -> tunnel_inv rt s -> tunnel_inv rt (demux_end s).
Proof.
  intros Hd [Hcap Hreg Hro Hq Hlog Hts]. split; try done. intros i t Ht. destruct (Hts i t Ht) as [Hu Hb Hp He Hdr Hla Hr]. split; try done.
  intros Hlk Hrc. specialize (He Hlk Hrc). unfold in_route in *. rewrite Hd in He. done.
Qed.

Lemma inv_open s stream payload : tn_demux s = DIdle -> is_u32 stream -> tunnel_inv rt s ->
  tunnel_inv rt (handle_open rt stream payload s).
Proof.
  intros Hd Hu Hi. unfold handle_open. cbv zeta.
  destruct (bool_decide _) eqn:Edup; [by apply inv_try_send_close|]. apply bool_decide_eq_false in Edup.
  destruct (match rt_max_streams_per_conn rt with Some _ => _ | None => _ end) eqn:Ecap; [by apply inv_try_send_close|].
  destruct (addr_decode payload) as [addr|]; [|by apply inv_try_send_close].
  assert (tn_registry s !! stream = None) as Hnone by (destruct (tn_registry s !! stream); [by destruct Edup|done]).
  destruct Hi as [Hcap Hreg Hro Hq Hlog Hts].
  assert (forall j u, (tn_tasks s ++ [Tk stream addr TConnecting [] [] []]) !! j = Some u ->
    tn_tasks s !! j = Some u \/ (j = length (tn_tasks s) /\ u = Tk stream addr TConnecting [] [] [])) as Hj.
  { intros j u Hu'. apply lookup_app_Some in Hu' as [|[Hge Hu']]; [by left|]. right.
    apply list_lookup_singleton_Some in Hu' as [Hz <-]. split; [lia|done]. }
  split; cbn [tn_registry tn_tasks tn_demux tn_queue]; try done.
  - intros cap Hc Hp. specialize (Hcap cap Hc Hp). rewrite Hc in Ecap. rewrite map_size_insert_None by done.
    destruct (Z.leb_spec cap (Z.of_nat (size (tn_registry s)))); [done|lia].
  - intros st i Hlk. destruct (decide (st = stream)) as [->|Hne].
    + rewrite lookup_insert_eq in Hlk. injection Hlk as <-. eexists. split; [apply list_lookup_middle; done|done].
    + rewrite lookup_insert_ne in Hlk by done. destruct (Hreg st i Hlk) as (t & Ht & ?). exists t.
      by rewrite (lookup_app_l_Some _ _ _ _ Ht).
  - intros st ev i Hr. congruence.
  - intros j u Hu'. destruct (Hj j u Hu') as [Ht|[-> ->]].
    + destruct (Hts j u Ht) as [Hu0 Hb Hp He Hdr Hla Hr]. split; try done. cbn [tn_registry]. intros Hlk Hrc.
      destruct (decide (tk_stream u = stream)) as [E|Hne].
      * rewrite E, lookup_insert_eq in Hlk. injection Hlk as <-. apply lookup_lt_Some in Ht. lia.
      * rewrite lookup_insert_ne in Hlk by done. by apply He.
    + split; cbn [tk_stream tk_queue tk_taken tk_routed tk_phase]; try done; [simpl; lia| |by intros [] ?].
      intros _ _. unfold in_route. cbn [tn_demux]. by rewrite Hd.
Qed.

Lemma inv_route_start s stream ev : tn_demux s = DIdle -> tunnel_inv rt s -> tunnel_inv rt (route stream ev s).
Proof.
  intros Hd Hi. unfold route. destruct (tn_registry s !! stream) as [i|] eqn:Hlk; [|by apply inv_try_send_close].
  pose proof Hi as [Hcap Hreg Hro Hq Hlog Hts]. destruct (Hreg stream i Hlk) as (t & Ht & Hs & Hg). rewrite Ht.
  assert (forall j u, <[i := Tk (tk_stream t) (tk_addr t) (tk_phase t) (tk_queue t) (tk_routed t ++ [ev]) (tk_taken t)]> (tn_tasks s) !! j = Some u ->
    (j = i /\ u = Tk (tk_stream t) (tk_addr t) (tk_phase t) (tk_queue t) (tk_routed t ++ [ev]) (tk_taken t)) \/ (j <> i /\ tn_tasks s !! j = Some u)) as Hj.
  { intros j u Hu. apply list_lookup_insert_Some in Hu as [(-> & -> & _)|[? ?]]; auto. }
  assert (forall t', <[i := t']> (tn_tasks s) !! i = Some t') as Hself by (intros; apply list_lookup_insert_eq; by eapply lookup_lt_Some).
  destruct (Hts i t Ht) as [Hu Hb Hp He Hdr Hla Hr]. rewrite Hs in He. specialize (He Hlk). unfold in_route in He. rewrite Hd, app_nil_r in He.
  split; cbn [with_demux with_task tn_registry tn_tasks tn_demux tn_queue]; try done.
  - intros st j Hl. destruct (Hreg st j Hl) as (u & Hu' & ? & ?). destruct (decide (j = i)) as [->|Hne].
    + eexists. split; [apply Hself|]. rewrite Ht in Hu'. by injection Hu' as <-.
    + exists u. by rewrite list_lookup_insert_ne.
  - intros st ev' j [= <- <- <-]. eexists. split; [apply Hself|]. cbn [tk_stream tk_routed tk_taken tk_queue]. split_and!; [done|congruence|].
    exists (tk_routed t). by split_and!.
  - intros j u Hu'. destruct (Hj j u Hu') as [[-> ->]|[Hne Hu'']].
    + split; cbn [tk_stream tk_queue tk_taken tk_routed tk_phase]; try done.
      * by apply prefix_app_r.
      * intros _ Hrc. unfold in_route. cbn [with_demux tn_demux]. rewrite decide_True by done. by rewrite <- (He Hrc), <- app_assoc.
    + destruct (Hts j u Hu'') as [Hu0 Hb0 Hp0 He0 Hdr0 Hla0 Hr0]. split; try done. intros Hl Hrc. unfold in_route. cbn [with_demux tn_demux].
      rewrite decide_False by done. specialize (He0 Hl Hrc). unfold in_route in He0. by rewrite Hd in He0.
Qed.

Lemma inv_route_drop s stream ev i : tn_demux s = DRouting stream ev i -> tunnel_inv rt s -> tunnel_inv rt (route_drop stream s).
Proof.
  intros Hd Hi. pose proof (inv_delete s stream Hi) as Hi1.
  assert (tunnel_inv rt (with_demux DIdle (with_registry (delete stream (tn_registry s)) s))) as Hi2.
  { destruct Hi1 as [Hcap Hreg Hro Hq Hlog Hts]. split; try done. intros j u Hu. destruct (Hts j u Hu) as [Hu0 Hb Hp He Hdr Hla Hr]. split; try done.
    cbn [with_demux with_registry tn_registry] in *. intros Hl Hrc. specialize (He Hl Hrc). unfold in_route in *. cbn [with_demux with_registry tn_demux] in *.
    rewrite Hd in He. case_decide as Ej; [|done]. subst j.
    destruct Hi as [_ _ Hro0 _ _ _]. destruct (Hro0 stream ev i Hd) as (t & Ht & Hs & _ & _).
    cbn [with_demux with_registry tn_tasks] in Hu. rewrite Ht in Hu. injection Hu as <-. rewrite Hs, lookup_delete_eq in Hl. done. }
  unfold route_drop. unfold out_try_send in *. cbn [with_registry tn_closed tn_queue].
  destruct (negb _ && _) eqn:E; [|done]. apply andb_prop in E as [_ E]. apply Nat.ltb_lt in E.
  apply (inv_enqueue _ (OutFrame_bare Close stream)) in Hi2; [done|done|]. intros st Hc. by apply carries_kind in Hc as [|].
Qed.

Lemma parse_frame_u32 msg k stream payload : wf_bytes msg -> parse_frame msg = Ok (k, stream, payload) -> is_u32 stream.
Proof.
  intros Hw. unfold parse_frame. destruct msg as [|b rest]; [done|]. apply wf_bytes_cons in Hw as [_ Hw].
  destruct (from_u8 b) as [k'|]; [|done]. cbn [ok_or]. destruct (decode_varint rest) as [[v n]|] eqn:E; [|done]. intros [= _ <- _].
  by apply (decode_varint_from_bounds 0 0 rest v n ltac:(lia) Hw ltac:(simpl; lia)) in E as [? _].
Qed.

Lemma inv_demux_frame s msg : tn_demux s = DIdle -> wf_bytes msg -> tunnel_inv rt s -> tunnel_inv rt (demux_frame rt msg s).
Proof.
  intros Hd Hw Hi. unfold demux_frame. destruct (parse_frame msg) as [[[k stream] payload]|e] eqn:E; [|by apply inv_end].
  destruct k; [apply inv_open; [done|by eapply parse_frame_u32|done]|by apply inv_end
    |by apply inv_route_start|by apply inv_route_start|by apply inv_delete].
Qed.

Lemma inv_routed s stream ev i t : tn_demux s = DRouting stream ev i -> tn_tasks s !! i = Some t ->
  receiving t = true -> (length (tk_queue t) < STREAM_BOUND)%nat -> tunnel_inv rt s ->
  tunnel_inv rt (with_demux DIdle
      (with_task i (Tk (tk_stream t) (tk_addr t) (tk_phase t) (tk_queue t ++ [ev]) (tk_routed t) (tk_taken t)) s)).
Proof.
  intros Hd Ht Hrc Hroom [Hcap Hreg Hro Hq Hlog Hts].
  set (t' := Tk _ _ _ _ _ _).
  assert (<[i := t']> (tn_tasks s) !! i = Some t') as Hself by (apply list_lookup_insert_eq; by eapply lookup_lt_Some).
  destruct (Hro stream ev i Hd) as (t0 & Ht0 & Hs & Hj & pre & Epre & _ & Hex). rewrite Ht in Ht0. injection Ht0 as <-.
  assert (tk_taken t ++ tk_queue t ++ [ev] = tk_routed t) as Hall by (by rewrite Epre, <- (Hex Hrc), <- app_assoc).
  split; cbn [with_demux with_task tn_registry tn_tasks tn_demux tn_queue]; try done.
  - intros st j Hl. destruct (Hreg st j Hl) as (u & Hu & ? & ?). destruct (decide (j = i)) as [->|Hne].
    + rewrite Ht in Hu. injection Hu as <-. by exists t'.
    + exists u. by rewrite list_lookup_insert_ne.
  - intros j u Hu. apply list_lookup_insert_Some in Hu as [(-> & <- & _)|[Hne Hu]].
    + destruct (Hts j t Ht) as [Hu0 Hb Hp He Hdr Hla Hr]. split; unfold t'; cbn [tk_stream tk_queue tk_taken tk_routed tk_phase]; try done.
      * rewrite length_app. simpl. lia.
      * by rewrite Hall.
      * intros _ _. unfold in_route. cbn [with_demux tn_demux]. by rewrite app_nil_r, Hall.
      * change (receiving t = false -> tk_queue t ++ [ev] = []). congruence.
    + destruct (Hts j u Hu) as [Hu0 Hb Hp He Hdr Hla Hr]. split; try done. intros Hl Hrc'. specialize (He Hl Hrc').
      unfold in_route in *. cbn [with_demux with_task tn_demux]. rewrite Hd in He. by rewrite decide_False in He.
Qed.

(** A task that moves on with its receiver as it is. *)
Lemma inv_phase s i t p : tunnel_inv rt s -> tn_tasks s !! i = Some t -> receiving (set_phase p t) = receiving t ->
  (forall rx, p = TPumping rx -> reply_frame (tk_stream t) true ∈ out_log s) -> p <> TGone ->
  tunnel_inv rt (with_task i (set_phase p t) s).
Proof.
  intros Hi Ht Erc Hp Hg. destruct (inv_tasks _ _ Hi i t Ht) as [_ _ _ _ Hdr Hla _].
  eapply inv_task; [exact Hi|exact Ht|done|done|done| | |done|exact Hla|exact Hp|by intros ?].
  - rewrite Erc. by split.
  - rewrite Erc. exact Hdr.
Qed.

(** A task that drops its receiver. *)
Lemma inv_drop_receiver s i t p : tunnel_inv rt s -> tn_tasks s !! i = Some t -> receiving (drop_receiver p t) = false ->
  (forall rx, p = TPumping rx -> reply_frame (tk_stream t) true ∈ out_log s) -> (p = TGone -> tn_registry s !! tk_stream t <> Some i) ->
  tunnel_inv rt (with_task i (drop_receiver p t) s).
Proof.
  intros Hi Ht Erc Hp Hg. destruct (inv_tasks _ _ Hi i t Ht) as [_ _ _ _ _ Hla _].
  eapply inv_task; [exact Hi|exact Ht|done|done| | |done|apply Nat.le_0_l|exact Hla|exact Hp|exact Hg].
  - cbn [drop_receiver tk_taken tk_queue]. rewrite app_nil_r. by eexists.
  - congruence.
Qed.

(** A task that takes an event. *)
Lemma inv_take s i t ev q : tunnel_inv rt s -> tn_tasks s !! i = Some t -> tk_phase t = TPumping true -> tk_queue t = ev :: q ->
  pump_over t = false ->
  tunnel_inv rt (with_task i (Tk (tk_stream t) (tk_addr t) (TPumping true) q (tk_routed t) (tk_taken t ++ [ev])) s).
Proof.
  intros Hi Ht Eph Eq Hov. destruct (inv_tasks _ _ Hi i t Ht) as [_ _ _ _ _ Hla Hr].
  assert ((tk_taken t ++ [ev]) ++ q = tk_taken t ++ tk_queue t) as E by (by rewrite Eq, <- app_assoc).
  eapply inv_task; [exact Hi|exact Ht|done|done|by cbn; rewrite E| |done|rewrite Eq; simpl; lia| |intros _ _; by eapply Hr|done].
  - intros _. split; [unfold receiving; by rewrite Eph|exact E].
  - cbn [tk_taken]. intros l e [<- _]%app_inj_tail. revert Hla Hov. unfold pump_over.
    destruct (tk_taken t) as [|x l' _] using rev_ind; intros Hla Hov; [by apply Forall_nil|].
    apply Forall_app. split; [by eapply Hla|]. apply Forall_singleton. by rewrite last_snoc in Hov.
Qed.

Lemma inv_task_step s i t a s' : tunnel_inv rt s -> tn_tasks s !! i = Some t -> task_step i t a s = Some s' -> tunnel_inv rt s'.
Proof.
  intros Hi Ht. destruct (inv_tasks _ _ Hi i t Ht) as [Hu Hb Hp He Hdr Hla Hr].
  assert (forall f, pump_frame (tk_stream t) f && (length (tn_queue s) <? OUTBOUND_BOUND)%nat && negb (tn_closed s) = true ->
    reply_frame (tk_stream t) true ∈ out_log s -> tunnel_inv rt (enqueue f s)) as Hpump.
  { intros f [[Ef Hroom%Nat.ltb_lt]%andb_prop _]%andb_prop Hrep. apply inv_enqueue; [done|done|]. intros st Hc.
    apply pump_frame_new in Ef as (k & _ & Ef). rewrite Ef in Hc. by apply carries_new in Hc as ->. }
  unfold task_step. destruct (tk_phase t) as [|ok|[]|r|] eqn:Eph, a; try done.
  - intros [= <-]. apply inv_phase; try done. unfold receiving. by rewrite Eph.
  - destruct (tn_closed s); [intros [= <-]; apply inv_phase; try done; unfold receiving; by rewrite Eph|].
    destruct (Nat.ltb_spec (length (tn_queue s)) OUTBOUND_BOUND) as [Hroom|]; [|done]. intros [= <-].
    assert (tunnel_inv rt (enqueue (reply_frame (tk_stream t) ok) s)) as Hi'.
    { apply inv_enqueue; [done|done|]. intros st Hc. by apply carries_kind in Hc as [|]. }
    apply inv_phase; [exact Hi'|exact Ht|unfold receiving; rewrite Eph; by destruct ok| |by destruct ok].
    destruct ok; [|done]. intros _ _. unfold out_log. cbn [enqueue tn_queue tn_wire]. rewrite app_assoc. apply elem_of_app. right. by left.
  - destruct (tk_queue t) as [|ev q] eqn:Eq; [done|]. destruct (pump_over t) eqn:Eov; [done|]. intros [= <-]. by apply inv_take.
  - intros [= <-]. apply inv_drop_receiver; try done. intros _ _. by eapply Hr.
  - destruct (_ && _) eqn:E; [|done]. intros [= <-]. apply Hpump; [done|by eapply Hr].
  - destruct (_ && _) eqn:E; [|done]. intros [= <-]. apply Hpump; [done|by eapply Hr].
  - intros [= <-]. apply inv_phase; try done. unfold receiving. by rewrite Eph.
  - intros [= <-]. pose proof (inv_delete s (tk_stream t) Hi) as Hi'.
    refine (inv_drop_receiver (with_registry _ s) i t TGone Hi' Ht eq_refl _ _); [done|]. intros _. cbn [with_registry tn_registry].
    by rewrite lookup_delete_eq.
Qed.

Lemma tunnel_step_inv s s' : tunnel_inv rt s -> tunnel_step rt s s' -> tunnel_inv rt s'.
Proof.
  intros Hi Hst. destruct Hst as [msg s Hd Hw|s s' Hst]; [by apply inv_demux_frame|].
  destruct Hst as [s stream ev i t Hd Ht Hrc Hroom|s stream ev i t Hd Ht Hrc|s stream ev i t Hd Ht Hfull
    |s i t a s' Ht Hts|s f q Hc Hq|s Hd|s Hc].
  - by apply (inv_routed s stream).
  - by eapply inv_route_drop.
  - by eapply inv_route_drop.
  - by eapply inv_task_step.
  - assert (out_log (Tun (tn_registry s) (tn_tasks s) q (tn_wire s ++ [f]) false (tn_demux s)) = out_log s) as El.
    { unfold out_log. cbn [tn_queue tn_wire]. by rewrite Hq, <- app_assoc. }
    destruct Hi as [Hcap Hreg Hro Hlq Hlog Hts]. split; try done.
    + rewrite Hq in Hlq. cbn [tn_queue length] in *. lia.
    + by rewrite El.
    + intros i t Ht. destruct (Hts i t Ht) as [Hu Hb Hp He Hdr Hla Hr]. split; try done. by rewrite El.
  - by apply inv_end.
  - by apply inv_closed.
Qed.

Lemma tunnel_reachable_inv s : rtc (tunnel_step rt) tunnel_new s -> tunnel_inv rt s.
Proof.
  assert (forall a b, rtc (tunnel_step rt) a b -> tunnel_inv rt a -> tunnel_inv rt b) as Hgen.
  { intros a b Hst. induction Hst as [|? ? ? Hs _ IH]; [done|]. intros Ha. apply IH. by eapply tunnel_step_inv. }
  intros Hst. apply (Hgen _ _ Hst), inv_new.
Qed.
End TunnelLemmas.

(** ** A dropped receiver *)

(** The task [t'] some time after [t]: without receiver, nothing queued, nothing more
    received. *)
Definition unheard (t t' : Task) : Prop :=
  tk_stream t' = tk_stream t /\ receiving t' = false /\ tk_queue t' `prefix_of` tk_queue t /\ tk_taken t' = tk_taken t.

Lemma out_try_send_tasks f s : tn_tasks (out_try_send f s) = tn_tasks s.
Proof. unfold out_try_send. by destruct (_ && _). Qed.

Lemma unheard_insert s i t j u u' : tn_tasks s !! i = Some t -> receiving t = false -> tn_tasks s !! j = Some u ->
  (receiving u = false -> unheard u u') -> exists t', <[j := u']> (tn_tasks s) !! i = Some t' /\ unheard t t'.
Proof.
  intros Ht Hrc Hu Hun. destruct (decide (j = i)) as [->|Hne].
  - rewrite Ht in Hu. injection Hu as <-. exists u'. split; [apply list_lookup_insert_eq; by eapply lookup_lt_Some|by apply Hun].
  - exists t. by rewrite list_lookup_insert_ne.
Qed.

Lemma unheard_frame rt msg s i t : tn_tasks s !! i = Some t -> receiving t = false ->
  exists t', tn_tasks (demux_frame rt msg s) !! i = Some t' /\ unheard t t'.
Proof.
  intros Ht Hrc. assert (forall ts, ts = tn_tasks s -> exists t', ts !! i = Some t' /\ unheard t t') as Hsame by (intros ? ->; by exists t).
  assert (forall stream ev, exists t', tn_tasks (route stream ev s) !! i = Some t' /\ unheard t t') as Hroute.
  { intros stream ev. unfold route. destruct (tn_registry s !! stream) as [j|]; [|apply Hsame, out_try_send_tasks].
    destruct (tn_tasks s !! j) as [u|] eqn:Hu; [|by apply Hsame]. eapply unheard_insert; [done..|]. by intros ?. }
  unfold demux_frame. destruct (parse_frame msg) as [[[[] stream] payload]|e]; try (by apply Hsame); try apply Hroute.
  unfold handle_open. cbv zeta. destruct (bool_decide _); [apply Hsame, out_try_send_tasks|].
  destruct (match rt_max_streams_per_conn rt with Some _ => _ | None => _ end); [apply Hsame, out_try_send_tasks|].
  destruct (addr_decode payload); [|apply Hsame, out_try_send_tasks]. exists t. split; [by apply lookup_app_l_Some|done].
Qed.

Lemma unheard_task s j u a s' i t : tn_tasks s !! j = Some u -> task_step j u a s = Some s' -> tn_tasks s !! i = Some t ->
  receiving t = false -> exists t', tn_tasks s' !! i = Some t' /\ unheard t t'.
Proof.
  intros Hu Hst Ht Hrc. assert (forall u', (receiving u = false -> unheard u u') ->
    exists t', <[j := u']> (tn_tasks s) !! i = Some t' /\ unheard t t') as Hins by (intros; by eapply unheard_insert).
  revert Hst. unfold task_step. destruct (tk_phase u) as [|ok|[]|r|] eqn:Ep, a; try done;
    repeat (case_match; try done); intros [= <-]; try (exists t; by split); apply Hins; unfold receiving at 1; rewrite Ep; try done;
    unfold unheard; intros ->; cbn.
  split_and!; [done|done|apply prefix_nil|done].
Qed.

Lemma unheard_step rt s s' i t : tunnel_step rt s s' -> tn_tasks s !! i = Some t -> receiving t = false ->
  exists t', tn_tasks s' !! i = Some t' /\ unheard t t'.
Proof.
  intros Hst Ht Hrc. destruct Hst as [msg s Hd Hw|s s' Hst]; [by apply unheard_frame|].
  destruct Hst as [s stream ev j u Hd Hu Hru Hroom|s stream ev j u Hd Hu Hru|s stream ev j u Hd Hu Hfull
    |s j u a s' Hu Hts|s f q Hc Hq|s Hd|s Hc]; try (by exists t).
  - eapply unheard_insert; [done..|]. congruence.
  - exists t. unfold route_drop. cbn [with_demux tn_tasks]. by rewrite out_try_send_tasks.
  - exists t. unfold route_drop. cbn [with_demux tn_tasks]. by rewrite out_try_send_tasks.
  - exact (unheard_task s j u a s' i t Hu Hts Ht Hrc).
Qed.

Lemma unheard_run rt s s' i t : rtc (tunnel_step rt) s s' -> tn_tasks s !! i = Some t -> receiving t = false ->
  exists t', tn_tasks s' !! i = Some t' /\ unheard t t'.
Proof.
  intros Hr. revert t. induction Hr as [s|s s1 s' Hst _ IH]; intros t Ht Hrc; [by exists t|].
  destruct (unheard_step rt s s1 i t Hst Ht Hrc) as (t1 & Ht1 & E1 & E2 & E3 & E4). destruct (IH t1 Ht1 E2) as (t' & Ht' & F1 & F2 & F3 & F4).
  exists t'. split; [done|]. split_and!; [congruence|done|by etransitivity|congruence].
Qed.

Lemma route_drop_spec stream s : tn_registry (route_drop stream s) !! stream = None /\
  (tn_closed s = false -> (length (tn_queue s) < OUTBOUND_BOUND)%nat ->
   out_log (route_drop stream s) = out_log s ++ [OutFrame_bare Close stream]).
Proof.
  unfold route_drop, out_try_send, out_log. cbn [with_registry tn_closed tn_queue]. split.
  - destruct (_ && _); cbn; apply lookup_delete_eq.
  - intros -> Hroom. rewrite (proj2 (Nat.ltb_lt _ _) Hroom). cbn. by rewrite app_assoc.
Qed.

(** An event for a receiver that is gone is not delivered. *)
Lemma routing_ends rt s s' stream ev i t : tn_demux s = DRouting stream ev i -> tn_tasks s !! i = Some t -> receiving t = false ->
  tunnel_step rt s s' -> tn_demux s' = tn_demux s \/ s' = route_drop stream s.
Proof.
  intros Hd Ht Hrc Hst. destruct Hst as [msg s Hd' Hw|s s' Hst]; [congruence|].
  destruct Hst as [s stream' ev' j u Hd' Hu Hru Hroom|s stream' ev' j u Hd' Hu Hru|s stream' ev' j u Hd' Hu Hfull
    |s j u a s' Hu Hts|s f q Hc Hq|s Hd'|s Hc]; try (by left); try congruence.
  - right. congruence.
  - right. congruence.
  - left. revert Hts. unfold task_step. destruct (tk_phase u) as [|ok|[]|r|], a; try done; repeat (case_match; try done); by intros [= <-].
Qed.

(** ** Connections: the gauges *)

Definition count_phase (p : ConnPhase) (conns : list (HandshakeEnd * ConnPhase)) : nat :=
  count (fun c => c.2 = p) conns.

Lemma count_phase_app p a b : count_phase p (a ++ b) = (count_phase p a + count_phase p b)%nat.
Proof. apply count_app. Qed.

Lemma count_phase_insert p conns i hs c c' : conns !! i = Some (hs, c) ->
  (count_phase p (<[i := (hs, c')]> conns) + (if decide (c = p) then 1 else 0) =
   count_phase p conns + (if decide (c' = p) then 1 else 0))%nat.
Proof. intros Hl. exact (count_insert (fun c => c.2 = p) conns i (hs, c) (hs, c') Hl). Qed.

(** The gauges count the connections in their phases. *)
Definition gauges (a : Accepting) : Prop :=
  st_handshaking (ac_stats a) = u64 (Z.of_nat (count_phase CHandshaking (ac_conns a))) /\
  st_active (ac_stats a) = u64 (Z.of_nat (count_phase CActive (ac_conns a)) + Z.of_nat (count_phase CLost (ac_conns a))).

Lemma u64_step a b d : a = u64 b -> u64 (a + d) = u64 (b + d).
Proof. intros ->. unfold u64. by rewrite Z.add_mod_idemp_l by lia. Qed.

Lemma accept_conn_stats rt base n st o st' n' : accept_conn rt base n st = (o, (st', n')) ->
  st_active st' = st_active st /\ st_handshaking st' = st_handshaking st.
Proof.
  unfold accept_conn. destruct (gate_closed _ _); [by intros [= _ <- _]|]. destruct (gate_closed _ _); by intros [= _ <- _].
Qed.

Lemma gauges_step rt base a a' : gauges a -> accept_step rt base a a' -> gauges a'.
Proof.
  intros [Hh Ha] Hst. destruct Hst as [conns st n sid st' n' hs E|conns st n st' n' E|conns st n i hs c c' st' Hl E];
    unfold gauges in *; cbn [ac_stats ac_conns] in *.
  - apply accept_conn_stats in E as [-> ->]. rewrite !count_phase_app. cbn. by rewrite !Nat.add_0_r.
  - by apply accept_conn_stats in E as [-> ->].
  - pose proof (count_phase_insert CHandshaking conns i hs c c' Hl) as C1.
    pose proof (count_phase_insert CActive conns i hs c c' Hl) as C2.
    pose proof (count_phase_insert CLost conns i hs c c' Hl) as C3.
    set (k1 := count_phase CHandshaking conns) in *. set (k2 := count_phase CActive conns) in *. set (k3 := count_phase CLost conns) in *.
    set (m1 := count_phase CHandshaking (<[i := (hs, c')]> conns)) in *. set (m2 := count_phase CActive (<[i := (hs, c')]> conns)) in *.
    set (m3 := count_phase CLost (<[i := (hs, c')]> conns)) in *. clearbody k1 k2 k3 m1 m2 m3.
    unfold conn_step in E. destruct c, hs as [| |role [|]]; injection E as <- <-;
      repeat first [rewrite decide_True in C1 by done|rewrite decide_False in C1 by done
        |rewrite decide_True in C2 by done|rewrite decide_False in C2 by done
        |rewrite decide_True in C3 by done|rewrite decide_False in C3 by done];
      unfold add_active, add_handshaking, add_handshake_failures; cbn [st_handshaking st_active];
      (split; [rewrite ?(u64_step _ _ _ Hh) by done; rewrite ?Hh; f_equal; lia
              |rewrite ?(u64_step _ _ _ Ha) by done; rewrite ?Ha; f_equal; lia]).
Qed.

(** ** Properties *)

(** C24: one server tunnel is safe under every interleaving of its demux loop, its
    stream tasks and its writer, for any peer input: the registered streams
    never exceed the configured cap, the channels never exceed their bounds,
    what a stream task receives is a prefix of what was routed to it, in order,
    without gaps and with nothing after an EOF, and exactly that while it is
    registered, its event receiver exists and no frame is in transit.  Once the
    receiver is dropped ([pump_down] ended, whether or not the task goes on) nothing
    is queued or received ever again; the next event routed there can only end with
    the stream deregistered and a CLOSE bounced, if the outbound channel has room.
    A stream's DATA and EOF frames only ever follow its positive REPLY. *)
Theorem server_tunnel_safe rt s : rtc (tunnel_step rt) tunnel_new s ->
  (forall cap, rt_max_streams_per_conn rt = Some cap -> 0 <= cap -> Z.of_nat (size (tn_registry s)) <= cap) /\
  (length (tn_queue s) ≤ OUTBOUND_BOUND)%nat /\
  (forall i t, tn_tasks s !! i = Some t ->
     (length (tk_queue t) ≤ STREAM_BOUND)%nat /\ tk_taken t ++ tk_queue t `prefix_of` tk_routed t /\
     (forall l ev, tk_taken t = l ++ [ev] -> SEof ∉ l) /\
     (tn_registry s !! tk_stream t = Some i -> receiving t = true -> tn_demux s = DIdle -> tk_taken t ++ tk_queue t = tk_routed t) /\
     (receiving t = false -> tk_queue t = [] /\
        forall s', rtc (tunnel_step rt) s s' -> exists t', tn_tasks s' !! i = Some t' /\ unheard t t')) /\
  (forall stream ev i t, tn_demux s = DRouting stream ev i -> tn_tasks s !! i = Some t -> receiving t = false ->
     tunnel_step rt s (route_drop stream s) /\ tn_registry (route_drop stream s) !! stream = None /\
     (tn_closed s = false -> (length (tn_queue s) < OUTBOUND_BOUND)%nat ->
        out_log (route_drop stream s) = out_log s ++ [OutFrame_bare Close stream]) /\
     (forall s', tunnel_step rt s s' -> tn_demux s' = tn_demux s \/ s' = route_drop stream s)) /\
  (forall l1 f l2 stream, out_log s = l1 ++ f :: l2 -> carries_stream stream f -> reply_frame stream true ∈ l1).
Proof.
  intros Hst. destruct (tunnel_reachable_inv rt s Hst) as [Hcap Hreg Hro Hq Hlog Hts].
  split; [done|]. split; [done|]. split; [|split; [|exact Hlog]].
  - intros i t Ht. destruct (Hts i t Ht) as [Hu Hb Hp He Hdr Hla Hr]. split; [done|]. split; [done|]. split; [|split].
    + intros l ev E Hin. specialize (Hla l ev E). rewrite Forall_forall in Hla. by specialize (Hla SEof Hin).
    + intros Hl Hrc Hd. specialize (He Hl Hrc). unfold in_route in He. by rewrite Hd, app_nil_r in He.
    + intros Hrc. split; [by apply Hdr|]. intros s' Hr'. by eapply unheard_run.
  - intros stream ev i t Hd Ht Hrc. split; [by eapply tunnel_own, tunnel_dead|].
    destruct (route_drop_spec stream s) as [H1 H2]. split; [exact H1|]. split; [exact H2|].
    intros s' Hs. by eapply routing_ends.
Qed.

(** The runtime of a minimal configuration, with a cap of [cap] streams. *)
Definition small_runtime (cap : Z) : ServerRuntime := SRuntime default_key 10 15 None (Some 256) (Some cap) true.

(** OPEN of [127.0.0.1:80] on a stream. *)
Definition open_msg (stream : Z) : bytes :=
  FrameHeader_new Open stream ++ addr_encode (PAddr (Ip (V4 [127; 0; 0; 1])) 80).

(** A task opened, connected and accepted. *)
Definition opened_task (q routed : list StreamEvent) : Task :=
  Tk 7 (PAddr (Ip (V4 [127; 0; 0; 1])) 80) (TPumping true) q routed [].

Ltac demux_by m := eapply rtc_l; [apply (tunnel_demux _ m); [reflexivity|apply wf_bytes_eval; reflexivity]|].
Ltac task_by i a := eapply rtc_l; [eapply tunnel_own, (tunnel_task _ i _ a); [reflexivity|reflexivity]|].

Ltac routed_by := eapply rtc_l; [eapply tunnel_own, tunnel_routed; [reflexivity|reflexivity|reflexivity|cbv; lia]|].

Lemma pumping_reachable cap : cap = 1 \/ cap = 2 ->
  rtc (tunnel_step (small_runtime cap)) tunnel_new (Tun {[7 := 0%nat]} [opened_task [] []] [reply_frame 7 true] [] false DIdle).
Proof.
  intros [-> | ->]; demux_by (open_msg 7); task_by 0%nat (AConnected true); task_by 0%nat AReply; apply rtc_refl.
Qed.

Lemma server_tunnel_safe_witness :
  exists s, rtc (tunnel_step (small_runtime 1)) tunnel_new s /\ Z.of_nat (size (tn_registry s)) <= 1 /\ tn_registry s !! 7 = Some 0%nat.
Proof.
  exists (Tun {[7 := 0%nat]} [opened_task [] []] [reply_frame 7 true] [] false DIdle).
  split; [apply (pumping_reachable 1); left; reflexivity|]. split; [|reflexivity].
  apply (server_tunnel_safe (small_runtime 1) _ (pumping_reachable 1 (or_introl eq_refl))); [reflexivity|lia].
Defined.

(** C32: the server's gauges are exact under every interleaving of the accept loop
    and its connections: [handshaking] counts the connections inside the
    handshake guard and [active] those holding an active slot; but a
    connection whose socket conversion fails after the increment keeps its
    slot for good, since nothing it does afterwards gives it back. *)
Theorem gauges_exact rt base a : rtc (accept_step rt base) (Acc [] ServerStats_default 0) a ->
  st_handshaking (ac_stats a) = u64 (Z.of_nat (count_phase CHandshaking (ac_conns a))) /\
  st_active (ac_stats a) = u64 (Z.of_nat (count_phase CActive (ac_conns a)) + Z.of_nat (count_phase CLost (ac_conns a))) /\
  (forall a' i hs, ac_conns a !! i = Some (hs, CLost) -> accept_step rt base a a' -> ac_conns a' !! i = Some (hs, CLost)).
Proof.
  intros Hst. assert (gauges a) as [Hh Ha].
  { assert (forall x y, rtc (accept_step rt base) x y -> gauges x -> gauges y) as Hgen.
    { intros x y Hr. induction Hr as [|? ? ? Hs _ IH]; [done|]. intros Hx. apply IH. by eapply gauges_step. }
    apply (Hgen _ _ Hst). split; reflexivity. }
  split; [done|]. split; [done|].
  intros a' i hs Hl Hs. destruct Hs as [conns st n sid st' n' hs' E|conns st n st' n' E|conns st n j hs' c c' st' Hj E];
      cbn [ac_conns] in *; [by apply lookup_app_l_Some|done|].
  destruct (decide (i = j)) as [<-|Hne]; [|by rewrite list_lookup_insert_ne].
    rewrite Hl in Hj. injection Hj as <- <-. cbn [conn_step] in E. injection E as <- _.
    apply list_lookup_insert_eq. by eapply lookup_lt_Some.
Qed.

(** A bond link whose [split_link] fails. *)
Lemma lost_reachable :
  rtc (accept_step (small_runtime 1) 5) (Acc [] ServerStats_default 0)
    (Acc [(HsDone BondLink false, CLost)] (SStats 1 0 0 0 0 0 0) 1).
Proof.
  eapply rtc_l; [eapply (as_accept _ _ [] ServerStats_default 0 5 _ _ (HsDone BondLink false)); reflexivity|].
  eapply rtc_l; [eapply (as_conn _ _ _ _ _ 0%nat); reflexivity|].
  eapply rtc_l; [eapply (as_conn _ _ _ _ _ 0%nat); reflexivity|].
  eapply rtc_l; [eapply (as_conn _ _ _ _ _ 0%nat); reflexivity|]. apply rtc_refl.
Qed.

Lemma gauges_exact_witness :
  st_active (SStats 1 0 0 0 0 0 0) =
    u64 (Z.of_nat (count_phase CActive [(HsDone BondLink false, CLost)]) + Z.of_nat (count_phase CLost [(HsDone BondLink false, CLost)])).
Proof. apply (gauges_exact (small_runtime 1) 5 _ lost_reachable). Defined.

(** ** What the steps allow beyond the intent *)

(** With one connection allowed, one lost slot closes the accept gate for good. *)
Lemma lost_slot_closes_gate rt base counter st : rt_max_connections rt = Some 1 -> st_active st = 1 ->
  fst (accept_conn rt base counter st) = None.
Proof. intros Hm Ha. unfold accept_conn. by rewrite Hm, Ha. Qed.

(** When the tunnel ends, the registry survives (every stream task holds it), so a
    stream's event channel stays open: a task whose target is silent is not
    woken by the end of its tunnel.  Nothing but a step of a task of the same
    stream ever closes the channel. *)
Theorem tunnel_end_keeps_streams :
  (exists s, rtc (tunnel_step (small_runtime 1)) tunnel_new s /\ tn_demux s = DEnded /\ tn_closed s = true /\
     tn_tasks s = [opened_task [] []] /\ tn_registry s !! 7 = Some 0%nat) /\
  (forall rt s s' stream i, tn_demux s = DEnded -> tn_registry s !! stream = Some i -> tunnel_step rt s s' ->
     tn_demux s' = DEnded /\ (tn_registry s' !! stream = Some i \/
       exists j t a, tn_tasks s !! j = Some t /\ tk_stream t = stream /\ task_step j t a s = Some s')).
Proof.
  split.
  - exists (demux_end (Tun {[7 := 0%nat]} [opened_task [] []] [reply_frame 7 true] [] false DIdle)). split; [|done].
    eapply rtc_r; [apply (pumping_reachable 1); by left|].
    by apply tunnel_own, tunnel_reader_ends.
  - intros rt s s' stream i Hd Hl Hst. destruct Hst as [msg s Hd' Hw|s s' Hst]; [congruence|].
    destruct Hst as [s stream' ev j t Hd'|s stream' ev j t Hd'|s stream' ev j t Hd'
      |s j t a s' Ht Hts|s f q Hc Hq|s Hd'|s Hc]; try congruence; [|by split; [|left]..].
    destruct (decide (tk_stream t = stream)) as [Es|Hne].
    + split; [|right; by exists j, t, a]. revert Hts. unfold task_step.
      destruct (tk_phase t), a; try done; repeat (case_match; try done); by intros [= <-].
    + revert Hts. unfold task_step. destruct (tk_phase t), a; try done; repeat (case_match; try done); intros [= <-];
        (split; [done|left]); cbn [with_registry with_task enqueue tn_registry]; rewrite ?lookup_delete_ne by done; done.
Qed.

(** A task that ends deregisters whatever now holds its stream id: after OPEN,
    CLOSE and OPEN of the same id, the first task's end cuts the second stream
    off, whose task goes on. *)
Theorem stale_task_deregisters_new_stream :
  exists s, rtc (tunnel_step (small_runtime 2)) tunnel_new s /\
    tn_registry s !! 7 = None /\ map tk_phase (tn_tasks s) = [TGone; TConnecting] /\ tn_demux s = DIdle.
Proof.
  eexists. split.
  - demux_by (open_msg 7). demux_by (FrameHeader_new Close 7). demux_by (open_msg 7).
    task_by 0%nat (AConnected false). task_by 0%nat AReply. task_by 0%nat ARemove. apply rtc_refl.
  - vm_compute. auto.
Qed.

(** The cap counts registered streams, not tasks: OPEN and CLOSE in turn leave any
    number of tasks connecting. *)
Theorem open_close_exceeds_cap :
  exists s, rtc (tunnel_step (small_runtime 1)) tunnel_new s /\
    map tk_phase (tn_tasks s) = [TConnecting; TConnecting; TConnecting].
Proof.
  eexists. split.
  - demux_by (open_msg 7). demux_by (FrameHeader_new Close 7). demux_by (open_msg 8). demux_by (FrameHeader_new Close 8).
    demux_by (open_msg 9). apply rtc_refl.
  - vm_compute. done.
Qed.

(** What arrives behind an EOF is queued, in a channel whose receiver [pump_down] is
    about to drop: it is lost though the stream is registered and idle, and its task
    goes on sending. *)
Theorem event_behind_eof_lost :
  exists s t, rtc (tunnel_step (small_runtime 1)) tunnel_new s /\ tn_registry s !! 7 = Some 0%nat /\ tn_demux s = DIdle /\
    tn_tasks s !! 0%nat = Some t /\ tk_phase t = TPumping false /\
    tk_routed t = [SEof; SData [1]] /\ tk_taken t = [SEof] /\ tk_queue t = [].
Proof.
  eexists. exists (Tk 7 (PAddr (Ip (V4 [127; 0; 0; 1])) 80) (TPumping false) [] [SEof; SData [1]] [SEof]).
  split.
  - etransitivity; [apply (pumping_reachable 1); by left|].
    demux_by (FrameHeader_new Eof 7). routed_by. task_by 0%nat ATake. demux_by (FrameHeader_new Data 7 ++ [1]). routed_by.
    task_by 0%nat ADownEnds. apply rtc_refl.
  - split_and!; vm_compute; reflexivity.
Qed.
