(* ===== verification/Pool.v ===== *)
(** * The client's tunnel pool ([crates/client/src/pool.rs])

    One pooled tunnel as a state machine of its OPEN calls, its reader task and
    its writer; the assignment of streams to tunnels; dialing with retries; and
    the maintainer that refills the pool. *)
From S2P Require Import Prelude Errors Mux Pump Addr Tunnel.

Definition OUTBOUND_BOUND : nat := 256.

(** ** One tunnel *)

(** A call of [Tunnel::open] and the [Stream] it returns. *)
Inductive OpenPhase :=
| OSending                    (** waiting to queue the OPEN *)
| OWaiting                    (** waiting for the REPLY *)
| OStreaming (graceful : bool)  (** the [Stream] is held by its caller *)
| OClosed.

Record OpenCall := Call {
  op_sid : Z;
  op_addr : ProxyAddr;
  op_phase : OpenPhase;
  op_reply : option bool;          (** what was sent through the [oneshot] *)
  op_events : list StreamEvent     (** the event channel *)
}.

Record Tunnel := Tnl {
  ct_next : Z;                     (** [next_stream]: an [AtomicU32] *)
  ct_streams : Z;                  (** [streams]: an [AtomicU32] *)
  ct_alive : bool;
  ct_pending : gmap Z nat;         (** stream id to the call holding the receiver *)
  ct_registry : gmap Z nat;
  ct_calls : list OpenCall;        (** every call ever made *)
  ct_queue : list OutFrame;        (** the outbound channel *)
  ct_closed : bool;                (** the writer is gone *)
  ct_reader : bool;                (** the reader task runs *)
  ct_replies : list (Z * bool)     (** the REPLYs the reader met (for the statements) *)
}.

(** [spawn_tunnel]. *)
Definition spawn_tunnel : Tunnel := Tnl 0 0 true ∅ ∅ [] [] false true [].

Definition with_call (i : nat) (c : OpenCall) (t : Tunnel) : Tunnel :=
  Tnl (ct_next t) (ct_streams t) (ct_alive t) (ct_pending t) (ct_registry t) (<[i := c]> (ct_calls t))
    (ct_queue t) (ct_closed t) (ct_reader t) (ct_replies t).
Definition set_open_phase (p : OpenPhase) (c : OpenCall) : OpenCall :=
  Call (op_sid c) (op_addr c) p (op_reply c) (op_events c).
Definition with_out (q : list OutFrame) (t : Tunnel) : Tunnel :=
  Tnl (ct_next t) (ct_streams t) (ct_alive t) (ct_pending t) (ct_registry t) (ct_calls t)
    q (ct_closed t) (ct_reader t) (ct_replies t).

(** [alloc_stream]. *)
Definition alloc_stream (t : Tunnel) : Z * Tunnel :=
  (u32 (ct_next t + 1),
   Tnl (u32 (ct_next t + 1)) (ct_streams t) (ct_alive t) (ct_pending t) (ct_registry t) (ct_calls t)
     (ct_queue t) (ct_closed t) (ct_reader t) (ct_replies t)).

(** [unregister]. *)
Definition unregister (sid : Z) (t : Tunnel) : Tunnel :=
  Tnl (ct_next t) (u32 (ct_streams t - 1)) (ct_alive t) (delete sid (ct_pending t)) (delete sid (ct_registry t))
    (ct_calls t) (ct_queue t) (ct_closed t) (ct_reader t) (ct_replies t).

(** [mark_dead]: idempotent. *)
Definition mark_dead (t : Tunnel) : Tunnel :=
  if ct_alive t
  then Tnl (ct_next t) (ct_streams t) false ∅ ∅ (ct_calls t) (ct_queue t) (ct_closed t) (ct_reader t) (ct_replies t)
  else t.

(** [kill]: [mark_dead], then the reader is aborted. *)
Definition kill (t : Tunnel) : Tunnel :=
  let t := mark_dead t in
  Tnl (ct_next t) (ct_streams t) (ct_alive t) (ct_pending t) (ct_registry t) (ct_calls t)
    (ct_queue t) (ct_closed t) false (ct_replies t).

Definition tunnel_try_send (f : OutFrame) (t : Tunnel) : Tunnel :=
  if negb (ct_closed t) && (length (ct_queue t) <? OUTBOUND_BOUND)%nat then with_out (ct_queue t ++ [f]) t else t.

(** [open] up to its first await: the stream is registered everywhere. *)
Definition open_begin (addr : ProxyAddr) (t : Tunnel) : Tunnel :=
  let i := length (ct_calls t) in
  let (sid, t) := alloc_stream t in
  Tnl (ct_next t) (u32 (ct_streams t + 1)) (ct_alive t) (<[sid := i]> (ct_pending t)) (<[sid := i]> (ct_registry t))
    (ct_calls t ++ [Call sid addr OSending None []]) (ct_queue t) (ct_closed t) (ct_reader t) (ct_replies t).

(** The steps of a call after that: the OPEN is queued or the channel is gone; the
    REPLY came, the waiter was dropped or the budget ran out; the stream is
    marked graceful or dropped.  While the [Stream] is held, the caller's pump
    queues frames through [Stream::out]. *)
Inductive OpenAct :=
| OSend | OSendFailed | OAccepted | ORefused | ODied | OTimedOut | OPump (f : OutFrame) | OMarkGraceful | ODrop (dedicated : bool).

Definition open_step (i : nat) (c : OpenCall) (a : OpenAct) (t : Tunnel) : option Tunnel :=
  let close := with_call i (set_open_phase OClosed c) in
  match op_phase c, a with
  | OSending, OSend =>
      if negb (ct_closed t) && (length (ct_queue t) <? OUTBOUND_BOUND)%nat
      then Some (with_call i (set_open_phase OWaiting c)
                  (with_out (ct_queue t ++ [OutFrame_new Open (op_sid c) (addr_encode (op_addr c))]) t))
      else None
  | OSending, OSendFailed => if ct_closed t then Some (close (mark_dead (unregister (op_sid c) t))) else None
  | OWaiting, OAccepted =>
      if decide (op_reply c = Some true) then Some (with_call i (set_open_phase (OStreaming false) c) t) else None
  | OWaiting, ORefused => if decide (op_reply c = Some false) then Some (close (unregister (op_sid c) t)) else None
  | OWaiting, ODied =>
      if decide (op_reply c = None /\ ct_pending t !! op_sid c <> Some i)
      then Some (close (unregister (op_sid c) t)) else None
  | OWaiting, OTimedOut =>
      if decide (op_reply c = None)
      then Some (close (tunnel_try_send (OutFrame_bare Close (op_sid c)) (unregister (op_sid c) t))) else None
  | OStreaming graceful, OPump f =>
      if negb graceful && pump_frame (op_sid c) f && (negb (ct_closed t) && (length (ct_queue t) <? OUTBOUND_BOUND)%nat)
      then Some (with_out (ct_queue t ++ [f]) t) else None
  | OStreaming _, OMarkGraceful => Some (with_call i (set_open_phase (OStreaming true) c) t)
  | OStreaming graceful, ODrop dedicated =>
      let t := unregister (op_sid c) t in
      let t := if graceful then t else tunnel_try_send (OutFrame_bare Close (op_sid c)) t in
      Some (close (if dedicated then kill t else t))
  | _, _ => None
  end.

(** What [tx.send(ev)] under the stall timeout gives. *)
Inductive Delivery := Delivered | Dead | Stalled.

(** [route_event]. *)
Definition route_event (sid : Z) (ev : StreamEvent) (d : Delivery) (t : Tunnel) : Tunnel :=
  match ct_registry t !! sid with
  | Some i =>
      match d, ct_calls t !! i with
      | Delivered, Some c => with_call i (Call (op_sid c) (op_addr c) (op_phase c) (op_reply c) (op_events c ++ [ev])) t
      | _, _ =>
          tunnel_try_send (OutFrame_bare Close sid)
            (Tnl (ct_next t) (ct_streams t) (ct_alive t) (ct_pending t) (delete sid (ct_registry t)) (ct_calls t)
               (ct_queue t) (ct_closed t) (ct_reader t) (ct_replies t))
      end
  | None => tunnel_try_send (OutFrame_bare Close sid) t
  end.

(** A REPLY: the waiter leaves [pending] and is answered. *)
Definition reader_reply (sid : Z) (payload : bytes) (t : Tunnel) : Tunnel :=
  let ok := bool_decide (head payload = Some REPLY_OK) in
  let t' := Tnl (ct_next t) (ct_streams t) (ct_alive t) (delete sid (ct_pending t)) (ct_registry t) (ct_calls t)
              (ct_queue t) (ct_closed t) (ct_reader t) (ct_replies t ++ [(sid, ok)]) in
  match ct_pending t !! sid with
  | Some i =>
      match ct_calls t !! i with
      | Some c => with_call i (Call (op_sid c) (op_addr c) (op_phase c) (Some ok) (op_events c)) t'
      | None => t'
      end
  | None => t'
  end.

(** The end of [run_reader]. *)
Definition reader_end (t : Tunnel) : Tunnel :=
  let t := mark_dead t in
  Tnl (ct_next t) (ct_streams t) (ct_alive t) (ct_pending t) (ct_registry t) (ct_calls t)
    (ct_queue t) (ct_closed t) false (ct_replies t).

(** One frame through the [match] of [run_reader]; [d] is how its event's send goes. *)
Definition reader_frame (msg : bytes) (d : Delivery) (t : Tunnel) : Tunnel :=
  match parse_frame msg with
  | Ok (Reply, sid, payload) => reader_reply sid payload t
  | Ok (Data, sid, payload) => route_event sid (SData payload) d t
  | Ok (Eof, sid, _) => route_event sid SEof d t
  | Ok (Close, sid, _) =>
      Tnl (ct_next t) (ct_streams t) (ct_alive t) (ct_pending t) (delete sid (ct_registry t)) (ct_calls t)
        (ct_queue t) (ct_closed t) (ct_reader t) (ct_replies t)
  | Ok (Open, _, _) => reader_end t
  | Err _ => reader_end t
  end.

(** The writer task returned: its receiver is gone. *)
Definition writer_gone (t : Tunnel) : Tunnel :=
  Tnl (ct_next t) (ct_streams t) (ct_alive t) (ct_pending t) (ct_registry t) (ct_calls t)
    (ct_queue t) true (ct_reader t) (ct_replies t).

(** Who may move on its own. *)
Inductive client_local : Tunnel -> Tunnel -> Prop :=
| client_open addr t : client_local t (open_begin addr t)
| client_call i c a t t' : ct_calls t !! i = Some c -> open_step i c a t = Some t' -> client_local t t'
| client_reader_ends t : ct_reader t = true -> client_local t (reader_end t)
| client_kill t : client_local t (kill t)  (** [open_dedicated] after a failed [open] *)
| client_writer_ends t : client_local t (writer_gone t).

(** A frame read from the server, or written to it. *)
Inductive client_step : Tunnel -> Tunnel -> Prop :=
| client_own t t' : client_local t t' -> client_step t t'
| client_frame msg d t : ct_reader t = true -> client_step t (reader_frame msg d t)
| client_writes t f q : ct_closed t = false -> ct_queue t = f :: q -> client_step t (with_out q t).

(** ** Assignment *)

(** A pooled tunnel as [pick] and [any_live] see it. *)
Record PoolTunnel := PTun { pt_alive : bool; pt_streams : Z }.

Definition eligible (max_streams : Z) (t : PoolTunnel) : bool := pt_alive t && (pt_streams t <? max_streams).

(** [min_by_key] of the eligible tunnels from index [i] on: the first minimum. *)
Fixpoint pick_from (max_streams : Z) (i : nat) (best : option (nat * Z)) (ts : list PoolTunnel) : option (nat * Z) :=
  match ts with
  | [] => best
  | t :: ts =>
      let best :=
        if eligible max_streams t then
          match best with
          | Some (_, k) => if pt_streams t <? k then Some (i, pt_streams t) else best
          | None => Some (i, pt_streams t)
          end
        else best in
      pick_from max_streams (S i) best ts
  end.

(** [Pool::pick]: the index of the tunnel. *)
Definition pick (max_streams : Z) (ts : list PoolTunnel) : option nat := fst <$> pick_from max_streams 0 None ts.

(** [Pool::any_live]. *)
Definition any_live (ts : list PoolTunnel) : bool := existsb pt_alive ts.

(** What one turn of the loop of [open_stream] meets: the pool as [pick] and then
    [any_live] lock it, the clock, and how [tunnel.open] on a given tunnel goes ([inr]: the error and whether the
    tunnel is still alive then). *)
Record Turn := Trn { tu_tunnels : list PoolTunnel; tu_later : list PoolTunnel; tu_now : Z; tu_open : nat -> Z + (list Cause * bool) }.

Inductive Opened :=
| OnTunnel (i : nat) (sid : Z)     (** a stream of a pool tunnel *)
| Dedicated                        (** [open_dedicated] decides *)
| Failed (e : list Cause)
| Undecided.                       (** the turns ran out *)

(** The loop of [open_stream] over its turns. *)
Fixpoint open_loop (max_streams wait_deadline : Z) (turns : list Turn) : Opened :=
  match turns with
  | [] => Undecided
  | u :: turns =>
      match pick max_streams (tu_tunnels u) with
      | None =>
          if any_live (tu_later u) then Dedicated
          else if Z.max 0 (wait_deadline - tu_now u) =? 0 then Failed [OtherCause]
          else open_loop max_streams wait_deadline turns
      | Some i =>
          match tu_open u i with
          | inl sid => OnTunnel i sid
          | inr (e, alive) => if alive then Failed e else open_loop max_streams wait_deadline turns
          end
      end
  end.

(** [Pool::open_stream], entered at [now]. *)
Definition open_stream (pool_size max_streams connect_timeout now : Z) (turns : list Turn) : Opened :=
  if pool_size =? 0 then Dedicated else open_loop max_streams (now + connect_timeout) turns.

(** [open_dedicated]: [dialed] is the dial of its own tunnel, [open] how [tunnel.open]
    goes on it; a tunnel whose only stream was not opened is torn down. *)
Definition open_dedicated {A : Type} (dialed : result (list Cause) unit) (open : Tunnel -> result (list Cause) A * Tunnel)
    : result (list Cause) A * option Tunnel :=
  match dialed with
  | Err e => (Err e, None)
  | Ok _ =>
      match open spawn_tunnel with
      | (Ok stream, tunnel) => (Ok stream, Some tunnel)
      | (Err e, tunnel) => (Err e, Some (kill tunnel))
      end
  end.

(** Nothing of a dedicated tunnel is left running behind an error. *)
Lemma open_dedicated_clean {A : Type} dialed (open : Tunnel -> result (list Cause) A * Tunnel) e t :
  open_dedicated dialed open = (Err e, Some t) -> ct_alive t = false /\ ct_reader t = false.
Proof.
  unfold open_dedicated. destruct dialed as [[]|]; [|done]. destruct (open spawn_tunnel) as [[a|e'] t']; [done|]. intros [= _ <-].
  unfold kill, mark_dead. by destruct (ct_alive t') eqn:E; cbn.
Qed.

(** ** Dialing *)

(** [retryable]. *)
Definition retryable (chain : list Cause) : bool :=
  if is_clean_close chain then true
  else existsb (fun c => match c with IoCause e => bool_decide (io_kind e = ConnectionRefused) | _ => false end) chain.

Section Dial.
(** The connection and the handshake of one dial: attempt, budget and clock to the
    outcome and the clock after it; and the time that passes between the two
    readings of the clock. *)
Context {A : Type} (connect_timeout : Z) (exchange : nat -> Z -> Z -> result (list Cause) A * Z) (lag : nat -> Z).

(** [dial_once]. *)
Definition dial_once (attempt : nat) (deadline now : Z) : result (list Cause) A * Z :=
  let now := now + lag attempt in
  let remaining := Z.max 0 (deadline - now) in
  if remaining =? 0 then (Err [IoCause (IoError TimedOut "dial deadline exceeded")], now)
  else exchange attempt (Z.min remaining connect_timeout) now.

(** The loop of [dial_sync]: [fuel] turns at most, [connect_retries + 1] are enough. *)
Fixpoint dial_loop (fuel : nat) (connect_retries attempt : nat) (deadline now : Z) (last : option (list Cause))
    : result (list Cause) A * Z * nat :=
  match fuel with
  | O => (Err (OtherCause :: default [OtherCause] last), now, attempt)
  | S fuel =>
      if now <? deadline then
        match dial_once attempt deadline now with
        | (Ok v, now) => (Ok v, now, S attempt)
        | (Err e, now) =>
            if (connect_retries <=? attempt)%nat || negb (retryable e) then (Err e, now, S attempt)
            else dial_loop fuel connect_retries (S attempt) deadline now (Some e)
        end
      else (Err (OtherCause :: default [OtherCause] last), now, attempt)
  end.

(** [dial_sync]: the result, the time and the number of dials made. *)
Definition dial_sync (connect_retries : nat) (deadline now : Z) : result (list Cause) A * Z * nat :=
  dial_loop (S connect_retries) connect_retries 0 deadline now None.
End Dial.

(** The deadline of [dial] and [dial_link]: a full [connect_timeout] per attempt. *)
Definition dial_deadline (connect_timeout : Z) (connect_retries : nat) (now : Z) : Z :=
  now + connect_timeout * u32 (Z.of_nat connect_retries + 1).

(** ** The maintainer *)

(** The maintainer between its rounds; after counting the live tunnels and before
    reading [dialing]; with [n] dials still to spawn. *)
Inductive Maintainer := MIdle | MCounted (live : Z) | MSpawning (n : nat).

Record PoolInner := Pl {
  pl_tunnels : list bool;      (** [tunnels]: is each alive *)
  pl_dialing : Z;              (** [dialing] *)
  pl_dials : nat;              (** dial tasks that have not finished dialing *)
  pl_pushed : nat;             (** dial tasks that pushed their tunnel and still hold the guard *)
  pl_maintainer : Maintainer
}.

(** [Pool::new] *)
Definition pool_new : PoolInner := Pl [] 0 0 0 MIdle.

(** [tunnels.retain(alive)] and the count, under the lock. *)
Definition maintain_count (p : PoolInner) : PoolInner :=
  let live := filter (fun b => b = true) (pl_tunnels p) in
  Pl live (pl_dialing p) (pl_dials p) (pl_pushed p) (MCounted (Z.of_nat (length live))).

(** What is missing with [live] live tunnels and [dialing] dials in flight. *)
Definition shortage (pool_size live dialing : Z) : nat := Z.to_nat (pool_size - u32 (live + dialing)).

(** [dialing] is read and the shortage computed. *)
Definition maintain_short (pool_size live : Z) (p : PoolInner) : PoolInner :=
  Pl (pl_tunnels p) (pl_dialing p) (pl_dials p) (pl_pushed p) (MSpawning (shortage pool_size live (pl_dialing p))).

(** One turn of the spawn loop. *)
Definition maintain_spawn (n : nat) (p : PoolInner) : PoolInner :=
  Pl (pl_tunnels p) (pl_dialing p + 1) (S (pl_dials p)) (pl_pushed p) (MSpawning n).

(** On a runtime of one worker ([multi = false]) the others move only when the
    maintainer waits at the end of its round. *)
Definition others_may (multi : bool) (p : PoolInner) : Prop := multi = true \/ pl_maintainer p = MIdle.

Inductive pool_step (multi : bool) (pool_size : Z) : PoolInner -> PoolInner -> Prop :=
| pool_count p : pl_maintainer p = MIdle -> pool_step multi pool_size p (maintain_count p)
| pool_short p live : pl_maintainer p = MCounted live -> pool_step multi pool_size p (maintain_short pool_size live p)
| pool_spawn p n : pl_maintainer p = MSpawning (S n) -> pool_step multi pool_size p (maintain_spawn n p)
| pool_round p : pl_maintainer p = MSpawning 0 ->
    pool_step multi pool_size p (Pl (pl_tunnels p) (pl_dialing p) (pl_dials p) (pl_pushed p) MIdle)
| pool_dialed p n : others_may multi p -> pl_dials p = S n ->
    pool_step multi pool_size p (Pl (pl_tunnels p ++ [true]) (pl_dialing p) n (S (pl_pushed p)) (pl_maintainer p))
| pool_guard_drop p n : others_may multi p -> pl_pushed p = S n ->
    pool_step multi pool_size p (Pl (pl_tunnels p) (pl_dialing p - 1) (pl_dials p) n (pl_maintainer p))
| pool_dial_failed p n : others_may multi p -> pl_dials p = S n ->
    pool_step multi pool_size p (Pl (pl_tunnels p) (pl_dialing p - 1) n (pl_pushed p) (pl_maintainer p))
| pool_died p i : others_may multi p -> pl_tunnels p !! i = Some true ->
    pool_step multi pool_size p (Pl (<[i := false]> (pl_tunnels p)) (pl_dialing p) (pl_dials p) (pl_pushed p) (pl_maintainer p))
| pool_retain p i : others_may multi p -> pl_tunnels p !! i = Some false ->
    pool_step multi pool_size p (Pl (delete i (pl_tunnels p)) (pl_dialing p) (pl_dials p) (pl_pushed p) (pl_maintainer p)).

(** The live tunnels of the pool. *)
Definition pool_live (p : PoolInner) : nat := count (fun b => b = true) (pl_tunnels p).

(** ** The tunnel's invariant *)

Definition is_open (c : OpenCall) : bool := match op_phase c with OClosed => false | _ => true end.
Definition awaiting (c : OpenCall) : bool := match op_phase c with OSending | OWaiting => true | _ => false end.

Definition open_count (cs : list OpenCall) : nat := count (fun c => is_open c = true) cs.

Record client_inv (t : Tunnel) : Prop := {
  ci_next : ct_next t = u32 (Z.of_nat (length (ct_calls t)));
  ci_sid : forall i c, ct_calls t !! i = Some c -> op_sid c = u32 (Z.of_nat i + 1);
  ci_streams : ct_streams t = u32 (Z.of_nat (open_count (ct_calls t)));
  ci_pending : forall sid i, ct_pending t !! sid = Some i ->
    exists c, ct_calls t !! i = Some c /\ op_sid c = sid /\ awaiting c = true /\ op_reply c = None;
  ci_registry : forall sid i, ct_registry t !! sid = Some i ->
    exists c, ct_calls t !! i = Some c /\ op_sid c = sid /\ is_open c = true;
  ci_reply : forall i c b, ct_calls t !! i = Some c -> op_reply c = Some b -> (op_sid c, b) ∈ ct_replies t;
  ci_streaming : forall i c g, ct_calls t !! i = Some c -> op_phase c = OStreaming g -> op_reply c = Some true;
  ci_queue : (length (ct_queue t) ≤ OUTBOUND_BOUND)%nat
}.

Lemma open_count_app a b : open_count (a ++ b) = (open_count a + open_count b)%nat.
Proof. apply count_app. Qed.

Lemma open_count_insert cs i c c' : cs !! i = Some c ->
  (open_count (<[i := c']> cs) + (if is_open c then 1 else 0) = open_count cs + (if is_open c' then 1 else 0))%nat.
Proof.
  intros Hl. pose proof (count_insert (fun c => is_open c = true) cs i c c' Hl) as Hc. unfold open_count.
  cbv beta in Hc. destruct (decide (is_open c = true)) as [E|E%not_true_is_false], (decide (is_open c' = true)) as [E'|E'%not_true_is_false];
    rewrite E, E'; lia.
Qed.

Lemma u32_step a b d : a = u32 b -> u32 (a + d) = u32 (b + d).
Proof. intros ->. unfold u32. by rewrite Z.add_mod_idemp_l by lia. Qed.

Lemma client_inv_new : client_inv spawn_tunnel.
Proof. split; try done. simpl. lia. Qed.

Lemma client_inv_open addr t : client_inv t -> client_inv (open_begin addr t).
Proof.
  intros [Hn Hsid Hs Hp Hr Hrep Hst Hq]. unfold open_begin, alloc_stream.
  set (sid := u32 (ct_next t + 1)). set (c0 := Call sid addr OSending None []).
  assert (sid = u32 (Z.of_nat (length (ct_calls t)) + 1)) as Esid by (unfold sid; by apply u32_step).
  assert (forall j c, (ct_calls t ++ [c0]) !! j = Some c -> ct_calls t !! j = Some c \/ (j = length (ct_calls t) /\ c = c0)) as Hj.
  { intros j c Hl. apply lookup_app_Some in Hl as [|[Hge Hl]]; [by left|]. right.
    apply list_lookup_singleton_Some in Hl as [Hz <-]. split; [lia|done]. }
  assert ((ct_calls t ++ [c0]) !! length (ct_calls t) = Some c0) as Hself by (by apply list_lookup_middle).
  split; cbn [ct_next ct_calls ct_streams ct_pending ct_registry ct_queue ct_replies].
  - rewrite length_app. cbn [length]. rewrite Esid. f_equal. lia.
  - intros j c Hl. destruct (Hj j c Hl) as [|[-> ->]]; [by apply Hsid|done].
  - rewrite open_count_app, (u32_step _ _ _ Hs). f_equal.
    assert (open_count [c0] = 1%nat) as -> by reflexivity. lia.
  - intros s i Hl. destruct (decide (s = sid)) as [->|Hne].
    + rewrite lookup_insert_eq in Hl. injection Hl as <-. by exists c0.
    + rewrite lookup_insert_ne in Hl by done. destruct (Hp s i Hl) as (c & Hc & ?). exists c. by rewrite (lookup_app_l_Some _ _ _ _ Hc).
  - intros s i Hl. destruct (decide (s = sid)) as [->|Hne].
    + rewrite lookup_insert_eq in Hl. injection Hl as <-. by exists c0.
    + rewrite lookup_insert_ne in Hl by done. destruct (Hr s i Hl) as (c & Hc & ?). exists c. by rewrite (lookup_app_l_Some _ _ _ _ Hc).
  - intros j c b Hl Hb. destruct (Hj j c Hl) as [|[-> ->]]; [by eapply Hrep|done].
  - intros j c g Hl Hph. destruct (Hj j c Hl) as [|[-> ->]]; [by eapply Hst|done].
  - done.
Qed.

(** A call moves and stays open. *)
Lemma client_inv_call i c c' t : client_inv t -> ct_calls t !! i = Some c -> is_open c = true ->
  op_sid c' = op_sid c -> is_open c' = true -> op_reply c' = op_reply c ->
  (awaiting c = true -> awaiting c' = true \/ op_reply c <> None) ->
  (forall g, op_phase c' = OStreaming g -> op_reply c' = Some true) ->
  client_inv (with_call i c' t).
Proof.
  intros [Hn Hsid Hs Hp Hr Hrep Hst Hq] Hl Ho Es Ho' Er Ha Hg.
  assert (<[i := c']> (ct_calls t) !! i = Some c') as Hself by (apply list_lookup_insert_eq; by eapply lookup_lt_Some).
  assert (forall j u, <[i := c']> (ct_calls t) !! j = Some u -> (j = i /\ u = c') \/ (j <> i /\ ct_calls t !! j = Some u)) as Hj.
  { intros j u Hu. apply list_lookup_insert_Some in Hu as [(-> & -> & _)|[? ?]]; auto. }
  split; cbn [with_call ct_next ct_calls ct_streams ct_pending ct_registry ct_queue ct_replies]; try done.
  - by rewrite length_insert.
  - intros j u Hu. destruct (Hj j u Hu) as [[-> ->]|[_ Hu']]; [rewrite Es; by apply Hsid|by apply Hsid].
  - rewrite Hs. do 2 f_equal. pose proof (open_count_insert _ _ _ c' Hl) as Hc. rewrite Ho, Ho' in Hc. lia.
  - intros s j Hlk. destruct (Hp s j Hlk) as (u & Hu & Hsu & Hau & Hru). destruct (decide (j = i)) as [->|Hne].
    + rewrite Hl in Hu. injection Hu as <-. exists c'. split_and!; [done|congruence| |congruence]. by destruct (Ha Hau).
    + exists u. by rewrite list_lookup_insert_ne.
  - intros s j Hlk. destruct (Hr s j Hlk) as (u & Hu & Hsu & Hou). destruct (decide (j = i)) as [->|Hne].
    + rewrite Hl in Hu. injection Hu as <-. exists c'. split_and!; [done|congruence|done].
    + exists u. by rewrite list_lookup_insert_ne.
  - intros j u b Hu Hb. destruct (Hj j u Hu) as [[-> ->]|[_ Hu']]; [rewrite Es; rewrite Er in Hb; by eapply Hrep|by eapply Hrep].
  - intros j u g Hu Hph. destruct (Hj j u Hu) as [[-> ->]|[_ Hu']]; [by eapply Hg|by eapply Hst].
Qed.

(** A call ends: it is unregistered exactly once. *)
Lemma client_inv_close i c t : client_inv t -> ct_calls t !! i = Some c -> is_open c = true ->
  client_inv (with_call i (set_open_phase OClosed c) (unregister (op_sid c) t)).
Proof.
  intros [Hn Hsid Hs Hp Hr Hrep Hst Hq] Hl Ho. set (c' := set_open_phase OClosed c).
  assert (forall j u, <[i := c']> (ct_calls t) !! j = Some u -> (j = i /\ u = c') \/ (j <> i /\ ct_calls t !! j = Some u)) as Hj.
  { intros j u Hu. apply list_lookup_insert_Some in Hu as [(-> & <- & _)|[? ?]]; auto. }
  split; cbn [with_call unregister ct_next ct_calls ct_streams ct_pending ct_registry ct_queue ct_replies]; try done.
  - by rewrite length_insert.
  - intros j u Hu. destruct (Hj j u Hu) as [[-> ->]|[_ Hu']]; [exact (Hsid i c Hl)|by apply Hsid].
  - pose proof (open_count_insert _ _ _ c' Hl) as Hc. rewrite Ho in Hc. change (is_open c') with false in Hc. cbv iota in Hc.
    change (ct_streams t - 1) with (ct_streams t + -1). rewrite (u32_step _ _ (-1) Hs). f_equal. lia.
  - intros s j Hlk. apply lookup_delete_Some in Hlk as [Hne Hlk]. destruct (Hp s j Hlk) as (u & Hu & Hsu & ?).
    exists u. rewrite list_lookup_insert_ne; [done|]. intros ->. rewrite Hl in Hu. congruence.
  - intros s j Hlk. apply lookup_delete_Some in Hlk as [Hne Hlk]. destruct (Hr s j Hlk) as (u & Hu & Hsu & ?).
    exists u. rewrite list_lookup_insert_ne; [done|]. intros ->. rewrite Hl in Hu. congruence.
  - intros j u b Hu Hb. destruct (Hj j u Hu) as [[-> ->]|[_ Hu']]; [by eapply (Hrep i c)|by eapply Hrep].
  - intros j u g Hu Hph. by destruct (Hj j u Hu) as [[-> ->]|[_ Hu']]; [|eapply Hst].
Qed.

(** Fields the invariant does not constrain, the outbound queue, and death. *)
Lemma client_inv_frame t alive closed reader replies :
  (forall x, x ∈ ct_replies t -> x ∈ replies) -> client_inv t ->
  client_inv (Tnl (ct_next t) (ct_streams t) alive (ct_pending t) (ct_registry t) (ct_calls t) (ct_queue t) closed reader replies).
Proof. intros Hx [Hn Hsid Hs Hp Hr Hrep Hst Hq]. split; try done. intros i c b Hl Hb. cbn. by eapply Hx, Hrep. Qed.

Lemma client_inv_out q t : (length q ≤ OUTBOUND_BOUND)%nat -> client_inv t -> client_inv (with_out q t).
Proof. by intros Hlen [Hn Hsid Hs Hp Hr Hrep Hst Hq]. Qed.

Lemma client_inv_try_send f t : client_inv t -> client_inv (tunnel_try_send f t).
Proof.
  intros Hi. unfold tunnel_try_send. destruct (_ && _) eqn:E; [|done]. apply andb_prop in E as [_ E]. apply Nat.ltb_lt in E.
  apply client_inv_out; [|done]. rewrite length_app. simpl. lia.
Qed.

Lemma client_inv_mark_dead t : client_inv t -> client_inv (mark_dead t).
Proof. intros Hi. unfold mark_dead. destruct (ct_alive t); [|done]. by destruct Hi as [Hn Hsid Hs Hp Hr Hrep Hst Hq]. Qed.

Lemma client_inv_end t : client_inv t -> client_inv (reader_end t).
Proof. intros Hi. by apply (client_inv_frame (mark_dead t)); [|apply client_inv_mark_dead]. Qed.

Lemma client_inv_registry sid t : client_inv t ->
  client_inv (Tnl (ct_next t) (ct_streams t) (ct_alive t) (ct_pending t) (delete sid (ct_registry t)) (ct_calls t)
    (ct_queue t) (ct_closed t) (ct_reader t) (ct_replies t)).
Proof.
  intros [Hn Hsid Hs Hp Hr Hrep Hst Hq]. split; try done. intros s i Hl. cbn in Hl.
  apply lookup_delete_Some in Hl as [_ Hl]. by apply Hr.
Qed.

Lemma with_call_mark_dead i c t : with_call i c (mark_dead t) = mark_dead (with_call i c t).
Proof. unfold mark_dead, with_call. destruct t as [? ? alive]. cbn. by destruct alive. Qed.

Lemma with_call_try_send i c f t : with_call i c (tunnel_try_send f t) = tunnel_try_send f (with_call i c t).
Proof. unfold tunnel_try_send, with_call, with_out. cbn. by destruct (_ && _). Qed.

Lemma with_call_kill i c t : with_call i c (kill t) = kill (with_call i c t).
Proof. unfold kill. rewrite <- with_call_mark_dead. done. Qed.

Lemma client_inv_kill t : client_inv t -> client_inv (kill t).
Proof. intros Hi. by apply (client_inv_frame (mark_dead t)); [|apply client_inv_mark_dead]. Qed.

Lemma open_step_inv i c a t t' : client_inv t -> ct_calls t !! i = Some c -> open_step i c a t = Some t' -> client_inv t'.
Proof.
  intros Hi Hl E. unfold open_step in E.
  destruct (op_phase c) as [| |g|] eqn:Ep, a; try discriminate.
  - destruct (_ && _) eqn:Eq; [|discriminate]. injection E as <-. apply andb_prop in Eq as [_ Eq]. apply Nat.ltb_lt in Eq.
    apply (client_inv_call i c); try done; [|by unfold is_open; rewrite Ep|by left].
    apply client_inv_out; [|done]. rewrite length_app. simpl. lia.
  - destruct (ct_closed t); [|discriminate]. injection E as <-. rewrite with_call_mark_dead.
    apply client_inv_mark_dead, client_inv_close; [done..|]. by unfold is_open; rewrite Ep.
  - destruct (decide _) as [Er|]; [|discriminate]. injection E as <-.
    apply (client_inv_call i c); try done; [by unfold is_open; rewrite Ep|].
    intros _. right. cbn. by rewrite Er.
  - destruct (decide _) as [Er|]; [|discriminate]. injection E as <-.
    apply client_inv_close; [done..|]. by unfold is_open; rewrite Ep.
  - destruct (decide _) as [Er|]; [|discriminate]. injection E as <-.
    apply client_inv_close; [done..|]. by unfold is_open; rewrite Ep.
  - destruct (decide _) as [Er|]; [|discriminate]. injection E as <-. rewrite with_call_try_send.
    apply client_inv_try_send, client_inv_close; [done..|]. by unfold is_open; rewrite Ep.
  - destruct (_ && _) eqn:Eq; [|discriminate]. injection E as <-.
    apply andb_prop in Eq as [_ Eq]. apply andb_prop in Eq as [_ Eq]. apply Nat.ltb_lt in Eq.
    apply client_inv_out; [|done]. rewrite length_app. simpl. lia.
  - injection E as <-. assert (op_reply c = Some true) as Er by (by eapply (ci_streaming _ Hi)).
    apply (client_inv_call i c); try done; [by unfold is_open; rewrite Ep|by unfold awaiting; rewrite Ep].
  - injection E as <-.
    assert (client_inv (with_call i (set_open_phase OClosed c) (unregister (op_sid c) t))) as Hc.
    { apply client_inv_close; [done..|]. by unfold is_open; rewrite Ep. }
    destruct dedicated, g; rewrite ?with_call_kill, ?with_call_try_send; auto using client_inv_kill, client_inv_try_send.
Qed.

(** A frame is delivered or refused; nothing but the call's channel changes. *)
Lemma route_event_inv sid ev d t : client_inv t -> client_inv (route_event sid ev d t).
Proof.
  intros Hi. unfold route_event. destruct (ct_registry t !! sid) as [i|] eqn:Er; [|by apply client_inv_try_send].
  destruct (ci_registry _ Hi _ _ Er) as (c & Hc & _ & Ho).
  destruct d; rewrite ?Hc; [|by apply client_inv_try_send, client_inv_registry..].
  apply (client_inv_call i c); try done; [auto|]. intros g Hg. exact (ci_streaming _ Hi _ _ _ Hc Hg).
Qed.

Lemma reader_reply_inv sid payload t : client_inv t -> client_inv (reader_reply sid payload t).
Proof.
  intros Hi. unfold reader_reply. set (ok := bool_decide _).
  set (t1 := Tnl _ _ _ _ _ _ _ _ _ _).
  assert (client_inv t1) as Hi1.
  { destruct Hi as [Hn Hsid Hs Hp Hr Hrep Hst Hq]. split; try done.
    - intros s i Hl. cbn in Hl. apply lookup_delete_Some in Hl as [_ Hl]. by apply Hp.
    - intros i c b Hl Hb. cbn. apply elem_of_app. left. by eapply Hrep. }
  destruct (ct_pending t !! sid) as [i|] eqn:Ep; [|done].
  destruct (ci_pending _ Hi _ _ Ep) as (c & Hc & Hs & Ha & Hnone). rewrite Hc.
  destruct Hi1 as [Hn Hsid Hst Hp Hr Hrep Hstr Hq].
  set (c' := Call _ _ _ _ _).
  assert (forall j u, <[i := c']> (ct_calls t) !! j = Some u -> (j = i /\ u = c') \/ (j <> i /\ ct_calls t !! j = Some u)) as Hj.
  { intros j u Hu. apply list_lookup_insert_Some in Hu as [(-> & <- & _)|[? ?]]; auto. }
  assert (is_open c = true) as Ho by (unfold is_open; unfold awaiting in Ha; by destruct (op_phase c)).
  split; cbn [with_call ct_next ct_calls ct_streams ct_pending ct_registry ct_queue ct_replies t1] in *; try done.
  - by rewrite length_insert.
  - intros j u Hu. destruct (Hj j u Hu) as [[-> ->]|[_ Hu']]; [exact (Hsid i c Hc)|by apply Hsid].
  - rewrite Hst. do 2 f_equal. pose proof (open_count_insert _ _ _ c' Hc) as Hcount.
    change (is_open c') with (is_open c) in Hcount. lia.
  - intros s j Hlk. apply lookup_delete_Some in Hlk as Hlk'. destruct Hlk' as [Hne Hlk'].
    destruct (Hp s j Hlk) as (u & Hu & Hsu & Hau & Hru). exists u. rewrite list_lookup_insert_ne; [done|].
    intros ->. rewrite Hc in Hu. injection Hu as <-. congruence.
  - intros s j Hlk. destruct (Hr s j Hlk) as (u & Hu & Hsu & Hou). destruct (decide (j = i)) as [->|Hne].
    + rewrite Hc in Hu. injection Hu as <-. exists c'. split_and!; [|done..]. apply list_lookup_insert_eq. by eapply lookup_lt_Some.
    + exists u. by rewrite list_lookup_insert_ne.
  - intros j u b Hu Hb. destruct (Hj j u Hu) as [[-> ->]|[_ Hu']]; [|by eapply Hrep].
    cbn in Hb. injection Hb as <-. cbn. rewrite Hs. set_solver.
  - intros j u g Hu Hph. destruct (Hj j u Hu) as [[-> ->]|[_ Hu']]; [|by eapply Hstr].
    cbn in Hph. unfold awaiting in Ha. by rewrite Hph in Ha.
Qed.

Lemma reader_frame_inv msg d t : client_inv t -> client_inv (reader_frame msg d t).
Proof.
  intros Hi. unfold reader_frame. destruct (parse_frame msg) as [[[k sid] payload]|]; [|by apply client_inv_end].
  destruct k; auto using client_inv_end, route_event_inv, reader_reply_inv, client_inv_registry.
Qed.

Lemma client_step_inv t t' : client_step t t' -> client_inv t -> client_inv t'.
Proof.
  intros Hstep Hi. destruct Hstep as [t t' Hl|msg d t _|t f q _ Eq].
  - destruct Hl as [addr t|i c a t t' Hl E|t _|t|t]; [by apply client_inv_open|by eapply open_step_inv
      |by apply client_inv_end|by apply client_inv_kill|by apply (client_inv_frame t)].
  - by apply reader_frame_inv.
  - apply client_inv_out; [|done]. pose proof (ci_queue _ Hi) as Hq. rewrite Eq in Hq. simpl in Hq. lia.
Qed.

Lemma client_reach_inv t : rtc client_step spawn_tunnel t -> client_inv t.
Proof.
  intros Hr. assert (forall s, rtc client_step s t -> client_inv s -> client_inv t) as Hall.
  { clear Hr. intros s Hst. induction Hst as [|x y z Hs _ IH]; [done|]. intros Hi. apply IH. by eapply client_step_inv. }
  by apply (Hall spawn_tunnel); [|apply client_inv_new].
Qed.

Lemma open_count_le cs : (open_count cs ≤ length cs)%nat.
Proof. apply count_le. Qed.

Lemma open_count_zero cs i c : open_count cs = 0%nat -> cs !! i = Some c -> is_open c = false.
Proof. intros Hz Hl. apply not_true_is_false. exact (count_0 _ cs i c Hz Hl). Qed.

Lemma client_sid_small t i c : client_inv t -> (Z.of_nat (length (ct_calls t)) < 2 ^ 32) ->
  ct_calls t !! i = Some c -> op_sid c = Z.of_nat i + 1.
Proof.
  intros Hi Hlt Hl. rewrite (ci_sid _ Hi _ _ Hl). apply lookup_lt_Some in Hl. unfold u32. apply Z.mod_small. lia.
Qed.

(** While the outbound channel is full, a call that has not sent its OPEN yet has no
    step at all: its budget does not cover the send. *)
Lemma sending_has_no_budget t i c : op_phase c = OSending -> ct_closed t = false -> (OUTBOUND_BOUND ≤ length (ct_queue t))%nat ->
  forall a, open_step i c a t = None.
Proof.
  intros Hp Hc Hq a. unfold open_step. rewrite Hp, Hc, (proj2 (Nat.ltb_ge _ _) Hq). by destruct a.
Qed.

(** A CLOSE is no answer to an OPEN: the call goes on waiting, and all that is left to
    it is the end of its budget. *)
Lemma close_is_no_answer t i c d : is_u32 (op_sid c) ->
  ct_calls t !! i = Some c -> op_phase c = OWaiting -> op_reply c = None -> ct_pending t !! op_sid c = Some i ->
  let t' := reader_frame (FrameHeader_new Close (op_sid c)) d t in
  ct_calls t' !! i = Some c /\ ct_pending t' !! op_sid c = Some i /\
  (forall a t'', open_step i c a t' = Some t'' -> a = OTimedOut).
Proof.
  intros Hu Hc Hp Hr Hpend t'. unfold t', reader_frame.
  rewrite <- (app_nil_r (FrameHeader_new Close (op_sid c))), parse_frame_header by done. split; [done|]. split; [done|].
  intros a t''. unfold open_step. rewrite Hp, Hr. destruct a; try done; case_decide as Hd; try done. by destruct Hd as [_ []].
Qed.

(** C25: however OPEN calls, their timeouts and drops, frames from the server
    (malformed ones too), writer progress and teardown interleave on a client
    tunnel, before its 2^32nd stream: stream ids are distinct and nonzero; the
    load counter that assignment reads is exactly the number of calls still
    open; a table entry always belongs to an open call of that id, and a pending
    one to a call still waiting with no answer; with no open call the counter is
    0 and both tables are empty; a [Stream] is only ever handed out after a REPLY
    OK for its own id; and the outbound channel stays within its bound. *)
Theorem client_tunnel_accounting t :
  rtc client_step spawn_tunnel t -> Z.of_nat (length (ct_calls t)) < 2 ^ 32 ->
  (forall i j c d, ct_calls t !! i = Some c -> ct_calls t !! j = Some d -> op_sid c = op_sid d -> i = j) /\
  (forall i c, ct_calls t !! i = Some c -> 0 < op_sid c) /\
  ct_streams t = Z.of_nat (open_count (ct_calls t)) /\
  (forall sid i, ct_pending t !! sid = Some i ->
    exists c, ct_calls t !! i = Some c /\ op_sid c = sid /\ awaiting c = true /\ op_reply c = None) /\
  (forall sid i, ct_registry t !! sid = Some i ->
    exists c, ct_calls t !! i = Some c /\ op_sid c = sid /\ is_open c = true) /\
  (open_count (ct_calls t) = 0%nat -> ct_streams t = 0 /\ ct_pending t = ∅ /\ ct_registry t = ∅) /\
  (forall i c g, ct_calls t !! i = Some c -> op_phase c = OStreaming g -> (op_sid c, true) ∈ ct_replies t) /\
  (length (ct_queue t) ≤ OUTBOUND_BOUND)%nat.
Proof.
  intros Hr Hlt. pose proof (client_reach_inv _ Hr) as Hi.
  assert (ct_streams t = Z.of_nat (open_count (ct_calls t))) as Hs.
  { rewrite (ci_streams _ Hi). pose proof (open_count_le (ct_calls t)). unfold u32. apply Z.mod_small. lia. }
  split_and!; [| |done|apply Hi|apply Hi| | |apply Hi].
  - intros i j c d Hc Hd E. rewrite (client_sid_small t i c), (client_sid_small t j d) in E by done. lia.
  - intros i c Hc. rewrite (client_sid_small t i c) by done. lia.
  - intros Hz. split_and!; [rewrite Hs, Hz; done| |].
    + apply map_empty. intros sid. destruct (_ !! sid) as [i|] eqn:E; [|done]. exfalso.
      destruct (ci_pending _ Hi _ _ E) as (c & Hc & _ & Ha & _). pose proof (open_count_zero _ _ _ Hz Hc) as Ho.
      unfold awaiting, is_open in *. by destruct (op_phase c).
    + apply map_empty. intros sid. destruct (_ !! sid) as [i|] eqn:E; [|done]. exfalso.
      destruct (ci_registry _ Hi _ _ E) as (c & Hc & _ & Ha). by rewrite (open_count_zero _ _ _ Hz Hc) in Ha.
  - intros i c g Hc Hg. eapply (ci_reply _ Hi); [done|]. by eapply (ci_streaming _ Hi).
Qed.

(** One stream opened, its OPEN queued and written, its REPLY OK read. *)
Definition sample_opened : Tunnel := open_begin (PAddr (Domain [97]) 80) spawn_tunnel.
Definition sample_answered : option Tunnel :=
  c ← ct_calls sample_opened !! 0%nat;
  t ← open_step 0 c OSend sample_opened;
  let t := reader_frame (mux_message (Reply, 1, [REPLY_OK])) Delivered t in
  c ← ct_calls t !! 0%nat;
  open_step 0 c OAccepted t.

Lemma client_tunnel_accounting_witness :
  match sample_answered with
  | Some t => ct_streams t = 1 /\ open_count (ct_calls t) = 1%nat /\ (1, true) ∈ ct_replies t
  | None => False
  end.
Proof.
  destruct sample_answered as [t|] eqn:E; [|by vm_compute in E].
  assert (rtc client_step spawn_tunnel t) as Hr.
  { unfold sample_answered in E. apply bind_Some in E as (c1 & Hc1 & E). apply bind_Some in E as (t1 & Ht1 & E). cbv zeta in E.
    apply bind_Some in E as (c2 & Hc2 & E).
    eapply rtc_l; [apply client_own, client_open|]. eapply rtc_l; [by eapply client_own, client_call|].
    eapply rtc_l; [apply (client_frame (mux_message (Reply, 1, [REPLY_OK])) Delivered)|].
    - vm_compute in Hc1. injection Hc1 as <-. vm_compute in Ht1. by injection Ht1 as <-.
    - apply rtc_once. by eapply client_own, client_call. }
  vm_compute in E. injection E as <-.
  destruct (client_tunnel_accounting _ Hr) as (_ & _ & Hs & _ & _ & _ & Hg & _); [by vm_compute|].
  split; [exact Hs|split; [reflexivity|]]. exact (Hg 0%nat _ false eq_refl eq_refl).
Defined.

(** ** Assignment *)

(** What a partial scan may have found among the tunnels before index [n]. *)
Definition best_ok (m : Z) (ts : list PoolTunnel) (best : option (nat * Z)) : Prop :=
  match best with
  | None => forall j t, ts !! j = Some t -> eligible m t = false
  | Some (i, k) =>
      (exists t, ts !! i = Some t /\ eligible m t = true /\ pt_streams t = k) /\
      (forall j t, ts !! j = Some t -> eligible m t = true -> k <= pt_streams t /\ ((j < i)%nat -> k < pt_streams t))
  end.

Lemma best_ok_snoc m ts t best : best_ok m ts best ->
  best_ok m (ts ++ [t])
    (if eligible m t then
       match best with
       | Some (_, k) => if pt_streams t <? k then Some (length ts, pt_streams t) else best
       | None => Some (length ts, pt_streams t)
       end
     else best).
Proof.
  intros Hb.
  assert (forall j u, (ts ++ [t]) !! j = Some u -> ts !! j = Some u \/ (j = length ts /\ u = t)) as Hj.
  { intros j u Hl. apply lookup_app_Some in Hl as [|[Hge Hl]]; [by left|]. right.
    apply list_lookup_singleton_Some in Hl as [Hz <-]. split; [lia|done]. }
  assert ((ts ++ [t]) !! length ts = Some t) as Hself by (by apply list_lookup_middle).
  destruct (eligible m t) eqn:Et; destruct best as [[i k]|]; cbn [best_ok] in Hb.
  - destruct Hb as [(u & Hu & Heu & Hk) Hmin]. destruct (pt_streams t <? k) eqn:Ek; cbn [best_ok].
    + apply Z.ltb_lt in Ek. split; [by exists t|]. intros j v Hv Hev.
      destruct (Hj j v Hv) as [Hv'|[-> ->]]; [|lia]. destruct (Hmin j v Hv' Hev). lia.
    + apply Z.ltb_ge in Ek. split; [exists u; by rewrite (lookup_app_l_Some _ _ _ _ Hu)|]. intros j v Hv Hev.
      destruct (Hj j v Hv) as [Hv'|[-> ->]]; [by apply Hmin|]. apply lookup_lt_Some in Hu. lia.
  - split; [by exists t|]. intros j v Hv Hev. destruct (Hj j v Hv) as [Hv'|[-> ->]]; [|lia]. by rewrite (Hb j v Hv') in Hev.
  - destruct Hb as [(u & Hu & Heu & Hk) Hmin]. cbn [best_ok]. split; [exists u; by rewrite (lookup_app_l_Some _ _ _ _ Hu)|].
    intros j v Hv Hev. destruct (Hj j v Hv) as [Hv'|[-> ->]]; [by apply Hmin|congruence].
  - intros j v Hv. destruct (Hj j v Hv) as [Hv'|[-> ->]]; [by eapply Hb|done].
Qed.

Lemma pick_from_ok m later : forall earlier best, best_ok m earlier best ->
  best_ok m (earlier ++ later) (pick_from m (length earlier) best later).
Proof.
  induction later as [|t later IH]; intros earlier best Hb; [by rewrite app_nil_r|].
  cbn [pick_from]. rewrite cons_middle, (assoc (++)).
  replace (S (length earlier)) with (length (earlier ++ [t])) by (rewrite length_app; simpl; lia).
  apply IH, best_ok_snoc, Hb.
Qed.

(** [pick] returns a live tunnel below the cap with the least load, the first of
    those in pool order, and nothing only when there is none. *)
Lemma pick_spec m ts :
  match pick m ts with
  | Some i => exists t, ts !! i = Some t /\ eligible m t = true /\
      (forall j u, ts !! j = Some u -> eligible m u = true ->
        pt_streams t <= pt_streams u /\ ((j < i)%nat -> pt_streams t < pt_streams u))
  | None => forall j t, ts !! j = Some t -> eligible m t = false
  end.
Proof.
  pose proof (pick_from_ok m ts [] None) as Hb. unfold pick. cbn [app length] in Hb.
  assert (best_ok m [] None) as Hnil by (intros j t Hl; by rewrite lookup_nil in Hl).
  specialize (Hb Hnil). destruct (pick_from m 0 None ts) as [[i k]|]; cbn [fmap option_fmap option_map fst best_ok] in *; [|done].
  destruct Hb as [(t & Ht & He & <-) Hmin]. by exists t.
Qed.

(** Tunnel [i] is the one to use: live, below the cap, least loaded, first. *)
Definition chosen (m : Z) (ts : list PoolTunnel) (i : nat) : Prop :=
  exists t, ts !! i = Some t /\ eligible m t = true /\
    (forall j u, ts !! j = Some u -> eligible m u = true -> pt_streams t <= pt_streams u /\ ((j < i)%nat -> pt_streams t < pt_streams u)).
Definition saturated (m : Z) (ts : list PoolTunnel) : Prop := forall j t, ts !! j = Some t -> eligible m t = false.
Definition all_dead (ts : list PoolTunnel) : Prop := forall j t, ts !! j = Some t -> pt_alive t = false.

(** A turn after which [open_stream] tries again: the pool was empty with time left,
    or the chosen tunnel died while opening. *)
Definition retry_turn (m deadline : Z) (u : Turn) : Prop :=
  (saturated m (tu_tunnels u) /\ all_dead (tu_later u) /\ tu_now u < deadline) \/
  (exists i e, chosen m (tu_tunnels u) i /\ tu_open u i = inr (e, false)).

Lemma any_live_false ts : any_live ts = false -> all_dead ts.
Proof.
  intros Hf j t Hl. destruct (pt_alive t) eqn:Ha; [|done]. exfalso.
  assert (any_live ts = true) as Ht; [|congruence]. apply existsb_exists. exists t. split; [|done].
  by apply list_elem_of_In, (list_elem_of_lookup_2 _ j).
Qed.

(** C26: [open_stream] ends where it should.  With pooling off it dials a dedicated
    tunnel.  Otherwise it keeps trying through turns that found the pool empty
    with time left or whose tunnel died under the OPEN, and the first other turn
    decides: a stream comes from the live tunnel below the cap with the least
    load (the first such in pool order); a dedicated tunnel is dialed only when
    every tunnel is at its cap and one is live; an error is the chosen live
    tunnel's own verdict, or means that the pool had no live tunnel when the
    waiting budget was over. *)
Theorem open_stream_exact pool_size m connect_timeout now turns :
  let deadline := now + connect_timeout in
  let r := open_stream pool_size m connect_timeout now turns in
  if pool_size =? 0 then r = Dedicated
  else exists n, Forall (retry_turn m deadline) (take n turns) /\
    match turns !! n with
    | None => r = Undecided
    | Some u =>
        match r with
        | OnTunnel i sid => chosen m (tu_tunnels u) i /\ tu_open u i = inl sid
        | Dedicated => saturated m (tu_tunnels u) /\ exists j t, tu_later u !! j = Some t /\ pt_alive t = true
        | Failed e =>
            (saturated m (tu_tunnels u) /\ all_dead (tu_later u) /\ deadline <= tu_now u /\ e = [OtherCause]) \/
            (exists i, chosen m (tu_tunnels u) i /\ tu_open u i = inr (e, true))
        | Undecided => False
        end
    end.
Proof.
  cbv zeta. unfold open_stream. destruct (pool_size =? 0); [done|]. set (deadline := now + connect_timeout).
  induction turns as [|u turns (n & Hf & Hr)]; [by exists 0%nat|]. cbn [open_loop].
  pose proof (pick_spec m (tu_tunnels u)) as Hp. destruct (pick m (tu_tunnels u)) as [i|].
  - destruct (tu_open u i) as [sid|[e [|]]] eqn:Eo.
    + exists 0%nat. cbn. auto.
    + exists 0%nat. cbn. split; [done|]. right. by exists i.
    + exists (S n). cbn. split; [|done]. constructor; [|done]. right. by exists i, e.
  - destruct (any_live (tu_later u)) eqn:Ea.
    + exists 0%nat. cbn. split_and!; [done..|]. apply existsb_exists in Ea as (t & Hin & Ht).
      apply list_elem_of_In, list_elem_of_lookup_1 in Hin as [j Hj]. by exists j, t.
    + apply any_live_false in Ea. destruct (Z.max 0 (deadline - tu_now u) =? 0) eqn:Ed.
      * exists 0%nat. cbn. split; [done|]. left. apply Z.eqb_eq in Ed. split_and!; [done..|lia|done].
      * exists (S n). cbn. split; [|done]. constructor; [|done]. left. apply Z.eqb_neq in Ed. split_and!; [done..|lia].
Qed.

(** ** Dialing *)

Section DialSpec.
Context {A : Type} (connect_timeout : Z) (exchange : nat -> Z -> Z -> result (list Cause) A * Z) (lag : nat -> Z) (k : Z).
#[local] Abbreviation dial := (dial_once connect_timeout exchange lag).

(** Clocks run forward, two readings of the clock are at most [connect_timeout]
    apart, and the [k] blocking socket calls of one exchange under budget [b] (each
    has [b] as its own timeout) take [k * b] at most. *)
Context (Hct : 0 < connect_timeout) (Hk : 2 <= k) (Hlag : forall i, 0 <= lag i <= connect_timeout)
  (Hexchange : forall i b now, 0 < b -> now <= snd (exchange i b now) <= now + k * b).

Lemma dial_once_time i deadline now : now < deadline ->
  now <= snd (dial i deadline now) <= deadline + (k - 1) * connect_timeout.
Proof.
  intros Hlt. unfold dial_once. pose proof (Hlag i). destruct (_ =? 0) eqn:E; cbn [snd]; [nia|].
  apply Z.eqb_neq in E. set (rem := Z.max 0 (deadline - (now + lag i))) in *.
  pose proof (Hexchange i (Z.min rem connect_timeout) (now + lag i) ltac:(lia)) as Hx. nia.
Qed.

(** The dials from attempt [a] at a time on, up to attempt [b] at another: each begun
    before the deadline, when the one before it had failed with an error worth a
    retry, and not the last one allowed. *)
Inductive retried (retries : nat) (deadline : Z) : nat -> Z -> nat -> Z -> Prop :=
| retried_none a now : retried retries deadline a now a now
| retried_more a now e now' b now'' :
    now < deadline -> (a < retries)%nat -> dial a deadline now = (Err e, now') -> retryable e = true ->
    retried retries deadline (S a) now' b now'' -> retried retries deadline a now b now''.

(** What the loop gives from attempt [a] on: [n] dials in all, the outcome of the
    last one or the deadline's error. *)
Definition dial_result (retries a : nat) (deadline now : Z) (out : result (list Cause) A * Z * nat) : Prop :=
  let '(r, t, n) := out in
  (a ≤ n ≤ S retries)%nat /\
  now <= t <= Z.max now (deadline + (k - 1) * connect_timeout) /\
  match r with
  | Ok v => exists i at_, n = S i /\ retried retries deadline a now i at_ /\ at_ < deadline /\ dial i deadline at_ = (Ok v, t)
  | Err e =>
      (exists i at_, n = S i /\ retried retries deadline a now i at_ /\ at_ < deadline /\ dial i deadline at_ = (Err e, t) /\
         (i = retries \/ retryable e = false)) \/
      (retried retries deadline a now n t /\ deadline <= t /\ exists e', e = OtherCause :: e')
  end.

Lemma dial_result_more retries a deadline now e t1 out : now < deadline -> (a < retries)%nat -> dial a deadline now = (Err e, t1) ->
  retryable e = true -> dial_result retries (S a) deadline t1 out -> dial_result retries a deadline now out.
Proof.
  intros Hlt Ha E Hre. pose proof (dial_once_time a deadline now Hlt) as Ht. rewrite E in Ht. cbn [snd] in Ht.
  destruct out as [[r t] n]. intros (Hn & Htt & Hr). split; [lia|]. split; [lia|].
  assert (forall i at_, retried retries deadline (S a) t1 i at_ -> retried retries deadline a now i at_) as Hmore
    by (intros; by eapply retried_more).
  destruct r as [v|e2].
  - destruct Hr as (i & at_ & -> & Hi & ?). exists i, at_. by refine (conj eq_refl (conj (Hmore _ _ Hi) _)).
  - destruct Hr as [(i & at_ & -> & Hi & ?)|[Hi ?]]; [left; exists i, at_; by refine (conj eq_refl (conj (Hmore _ _ Hi) _))|right].
    by refine (conj (Hmore _ _ Hi) _).
Qed.

Lemma dial_loop_ok retries deadline fuel : forall a now last,
  (fuel + a = S retries)%nat -> (a ≤ retries)%nat ->
  dial_result retries a deadline now (dial_loop connect_timeout exchange lag fuel retries a deadline now last).
Proof.
  induction fuel as [|fuel IH]; intros a now last Hf Ha; [lia|]. cbn [dial_loop].
  destruct (now <? deadline) eqn:Ed.
  2: { apply Z.ltb_ge in Ed. split; [lia|]. split; [lia|]. right. split; [apply retried_none|]. eauto. }
  apply Z.ltb_lt in Ed. pose proof (dial_once_time a deadline now Ed) as Ht.
  destruct (dial a deadline now) as [[v|e] t1] eqn:E1; cbn [snd] in Ht.
  { split; [lia|]. split; [lia|]. exists a, now. split; [done|]. split; [apply retried_none|done]. }
  destruct ((retries <=? a)%nat || negb (retryable e)) eqn:Es.
  { split; [lia|]. split; [lia|]. left. exists a, now. split; [done|]. split; [apply retried_none|]. split; [done|]. split; [done|].
    apply orb_prop in Es as [Es%Nat.leb_le|Es%negb_true_iff]; [left; lia|by right]. }
  apply orb_false_iff in Es as [Es%Nat.leb_gt Hre%negb_false_iff].
  by eapply dial_result_more, IH; [done|done|done|done|lia|lia].
Qed.

(** C27: a dial makes at most [connect_retries + 1] connections, one after the other:
    each further one begins at the moment the one before it failed, with an error
    worth a retry and with time left.  It returns the first success, or the failure
    that was final (not worth a retry, or the last allowed), or the deadline's error
    when the deadline had passed by the end of the last failure; and it ends within
    [k - 1] attempt budgets of the deadline, [k] being the number of blocking socket
    calls of one exchange, because the budget is set as the timeout of each call, and
    the pause between the two readings of the clock of an attempt being at most
    [connect_timeout]. *)
Theorem dial_sync_bounded retries now deadline : now < deadline ->
  dial_result retries 0 deadline now (dial_sync connect_timeout exchange lag retries deadline now) /\
  (0 < snd (dial_sync connect_timeout exchange lag retries deadline now))%nat.
Proof.
  intros Hlt. pose proof (dial_loop_ok retries deadline (S retries) 0 now None ltac:(lia) ltac:(lia)) as Hr. split; [exact Hr|].
  unfold dial_sync in *. cbn [dial_loop] in *. rewrite (proj2 (Z.ltb_lt _ _) Hlt) in *.
  destruct (dial 0%nat deadline now) as [[v|e] t1]; [cbn; lia|].
  destruct (_ || _) eqn:Es; [cbn; lia|]. apply orb_false_iff in Es as [Es%Nat.leb_gt _].
  pose proof (dial_loop_ok retries deadline retries 1 t1 (Some e) ltac:(lia) ltac:(lia)) as H1.
  destruct (dial_loop _ _ _ _ _ _ _ _ _) as [[r t] n]. destruct H1 as [Hn _]. cbn. lia.
Qed.
End DialSpec.

Lemma dial_sync_bounded_witness :
  let exchange := fun (i : nat) (b now : Z) =>
    (if (i =? 1)%nat then Ok tt else Err [IoCause (IoError ConnectionRefused "refused")], now + 2 * b) in
  let out := dial_sync 10 exchange (fun _ => 1) 3 (dial_deadline 10 3 0) 0 in
  out = (Ok tt, 42, 2%nat) /\ dial_result 10 exchange (fun _ => 1) 2 3 0 (dial_deadline 10 3 0) 0 out.
Proof.
  split; [vm_compute; reflexivity|]. apply dial_sync_bounded; try lia; [|vm_compute; reflexivity].
  intros i b now Hb. cbn [snd]. lia.
Defined.

(** ** The maintainer *)

(** Dials spawned or about to be. *)
Definition spawning (p : PoolInner) : Z := match pl_maintainer p with MSpawning n => Z.of_nat n | _ => 0 end.

Record pool_inv (multi : bool) (P : Z) (p : PoolInner) : Prop := {
  pi_dialing : pl_dialing p = Z.of_nat (pl_dials p) + Z.of_nat (pl_pushed p);
  pi_cap : pl_dialing p + spawning p <= P;
  pi_total : Z.of_nat (pool_live p) + Z.of_nat (pl_dials p) + spawning p <= if multi then 2 * P else P;
  pi_counted : forall L, pl_maintainer p = MCounted L ->
    0 <= L <= 2 * P /\ Z.of_nat (pool_live p) + Z.of_nat (pl_dials p) <= L + P /\ (multi = false -> L = Z.of_nat (pool_live p))
}.

Lemma pool_live_filter (ts : list bool) : filter (fun b => b = true) (filter (fun b => b = true) ts) = filter (fun b : bool => b = true) ts.
Proof. rewrite list_filter_filter. apply list_filter_iff. intros b. tauto. Qed.

Lemma pool_inv_new multi P : 0 <= P -> pool_inv multi P pool_new.
Proof. intros HP. split; cbn; [lia|lia|destruct multi; lia|discriminate]. Qed.

(** A step of the others: the live tunnels and the dials may only shrink together,
    and a worker of one does not run between the count and the spawns. *)
Lemma pool_inv_others multi P p ts dialing dials pushed : others_may multi p -> pool_inv multi P p ->
  dialing = Z.of_nat dials + Z.of_nat pushed -> dialing <= pl_dialing p ->
  (count (fun b => b = true) ts + dials ≤ pool_live p + pl_dials p)%nat ->
  pool_inv multi P (Pl ts dialing dials pushed (pl_maintainer p)).
Proof.
  intros Hm [Hd Hc Ht Hl] E1 E2 E3. split; cbn [pl_tunnels pl_dialing pl_dials pl_pushed pl_maintainer] in *.
  - done.
  - change (spawning _) with (spawning p). lia.
  - change (spawning _) with (spawning p). unfold pool_live at 1. cbn [pl_tunnels]. lia.
  - intros L EL. destruct (Hl L EL) as (HLb & HLt & HLm). unfold pool_live at 1. cbn [pl_tunnels]. split; [done|]. split; [lia|].
    intros ->. destruct Hm as [|Hm]; [done|]. congruence.
Qed.

Lemma pool_inv_count multi P p : pl_maintainer p = MIdle -> pool_inv multi P p -> pool_inv multi P (maintain_count p).
Proof.
  intros Em [Hd Hc Ht Hl]. assert (pool_live (maintain_count p) = pool_live p) as El.
  { unfold pool_live, maintain_count. cbn [pl_tunnels]. unfold count. by rewrite pool_live_filter. }
  unfold spawning in Hc, Ht. rewrite Em in Hc, Ht. split; rewrite ?El; unfold maintain_count, spawning; cbn in *; [done|lia|lia|].
  intros L [= <-]. change (length (filter _ (pl_tunnels p))) with (pool_live p). destruct multi; lia.
Qed.

Lemma pool_inv_short multi P p L : 0 <= P < 2 ^ 30 -> pl_maintainer p = MCounted L -> pool_inv multi P p ->
  pool_inv multi P (maintain_short P L p).
Proof.
  intros HP Em [Hd Hc Ht Hl]. destruct (Hl L Em) as (HL & HLt & Hat). unfold spawning in Hc, Ht. rewrite Em in Hc, Ht.
  assert (u32 (L + pl_dialing p) = L + pl_dialing p) as Eu by (unfold u32; apply Z.mod_small; lia).
  assert (pool_live (maintain_short P L p) = pool_live p) as El by done.
  split; rewrite ?El; unfold maintain_short, shortage, spawning; rewrite Eu; cbn [pl_tunnels pl_dialing pl_dials pl_pushed pl_maintainer]; [done|lia| |discriminate].
  destruct multi; [lia|]. rewrite (Hat eq_refl) in *. lia.
Qed.

Lemma pool_inv_spawn multi P p n : pl_maintainer p = MSpawning (S n) -> pool_inv multi P p -> pool_inv multi P (maintain_spawn n p).
Proof.
  intros Em [Hd Hc Ht Hl]. unfold spawning in Hc, Ht. rewrite Em in Hc, Ht.
  assert (pool_live (maintain_spawn n p) = pool_live p) as El by done.
  split; rewrite ?El; unfold maintain_spawn, spawning; cbn [pl_tunnels pl_dialing pl_dials pl_pushed pl_maintainer]; [lia|lia| |discriminate].
  destruct multi; lia.
Qed.

Lemma pool_step_inv multi P p p' : 0 <= P < 2 ^ 30 -> pool_step multi P p p' -> pool_inv multi P p -> pool_inv multi P p'.
Proof.
  intros HP Hstep Hi. pose proof (pi_dialing _ _ _ Hi) as Hd. destruct Hstep.
  - by apply pool_inv_count.
  - by apply pool_inv_short.
  - by apply pool_inv_spawn.
  - destruct Hi as [_ Hc Ht Hl]. unfold spawning in Hc, Ht. rewrite H in Hc, Ht. by split; [done|..|discriminate].
  - apply pool_inv_others; [done..|lia|lia|]. rewrite count_app, count_one, decide_True by done. unfold pool_live. lia.
  - apply pool_inv_others; [done..|lia|lia|]. unfold pool_live. lia.
  - apply pool_inv_others; [done..|lia|lia|]. unfold pool_live. lia.
  - apply pool_inv_others; [done..|lia|]. unfold pool_live.
    pose proof (count_insert (fun b => b = true) (pl_tunnels p) i true false ltac:(done)) as Hc.
    rewrite decide_True, decide_False in Hc by done. lia.
  - apply pool_inv_others; [done..|lia|]. unfold pool_live.
    pose proof (count_delete (fun b => b = true) (pl_tunnels p) i false ltac:(done)) as Hc.
    rewrite decide_False in Hc by done. lia.
Qed.

Lemma pool_reach_inv multi P p : 0 <= P < 2 ^ 30 -> rtc (pool_step multi P) pool_new p -> pool_inv multi P p.
Proof.
  intros HP Hr. assert (forall s, rtc (pool_step multi P) s p -> pool_inv multi P s -> pool_inv multi P p) as Hall.
  { clear Hr. intros s Hst. induction Hst as [|x y z Hs _ IH]; [done|]. intros Hi. apply IH. by eapply pool_step_inv. }
  exact (Hall pool_new Hr (pool_inv_new multi P (proj1 HP))).
Qed.

(** One round of the maintainer that finds the pool empty and one dial finishing
    between its two readings. *)
Definition overshot : PoolInner := Pl [true; true] 1 0 1 (MSpawning 0).

Lemma overshot_reachable : rtc (pool_step true 1) pool_new overshot.
Proof.
  apply (rtc_l _ _ (Pl [] 0 0 0 (MCounted 0))); [by apply (pool_count _ _ pool_new)|].
  apply (rtc_l _ _ (Pl [] 0 0 0 (MSpawning 1))); [by apply (pool_short true 1 (Pl [] 0 0 0 (MCounted 0)) 0)|].
  apply (rtc_l _ _ (Pl [] 1 1 0 (MSpawning 0))); [by apply (pool_spawn true 1 (Pl [] 0 0 0 (MSpawning 1)))|].
  apply (rtc_l _ _ (Pl [] 1 1 0 MIdle)); [by apply (pool_round true 1 (Pl [] 1 1 0 (MSpawning 0)))|].
  apply (rtc_l _ _ (Pl [] 1 1 0 (MCounted 0))); [by apply (pool_count true 1 (Pl [] 1 1 0 MIdle))|].
  apply (rtc_l _ _ (Pl [true] 1 0 1 (MCounted 0))); [apply (pool_dialed true 1 (Pl [] 1 1 0 (MCounted 0)) 0); [by left|done]|].
  apply (rtc_l _ _ (Pl [true] 0 0 0 (MCounted 0))); [apply (pool_guard_drop true 1 (Pl [true] 1 0 1 (MCounted 0)) 0); [by left|done]|].
  apply (rtc_l _ _ (Pl [true] 0 0 0 (MSpawning 1))); [by apply (pool_short true 1 (Pl [true] 0 0 0 (MCounted 0)) 0)|].
  apply (rtc_l _ _ (Pl [true] 1 1 0 (MSpawning 0))); [by apply (pool_spawn true 1 (Pl [true] 0 0 0 (MSpawning 1)))|].
  apply rtc_once, (pool_dialed true 1 (Pl [true] 1 1 0 (MSpawning 0)) 0); [by left|done].
Qed.

(** The count of [tunnels] and the load of [dialing] are two readings: a dial that
    pushes its tunnel and drops its guard in between is in neither, and the pool
    grows past [pool_size] although the counter is there to prevent it. *)
Lemma pool_overshoot : exists p, rtc (pool_step true 1) pool_new p /\ pool_live p = 2%nat.
Proof. exists overshot. split; [apply overshot_reachable|reflexivity]. Qed.

(** ** Refilling *)

(** The dial tasks have moved: one is new, has pushed its tunnel or has ended. *)
Definition dials_moved (p p' : PoolInner) : Prop := pl_dials p' <> pl_dials p \/ pl_pushed p' <> pl_pushed p.

(** A step with no tunnel lost and no dial failed.  A round begins whenever [maintain]
    wakes up ([added], [died], a second, or thirty), dials in flight or not; but those
    in flight are not passed over forever: with the pool goes how many rounds may still
    begin before one of them moves, any number again after each such move. *)
Definition healthy_step (multi : bool) (P : Z) (s s' : nat * PoolInner) : Prop :=
  let '(patience, p) := s in let '(patience', p') := s' in
  pool_step multi P p p' /\ (pool_live p + pl_dials p ≤ pool_live p' + pl_dials p')%nat /\
  (dials_moved p p' \/ (patience' ≤ patience)%nat) /\
  (pl_maintainer p = MIdle -> pl_maintainer p' <> MIdle -> pl_dialing p <> 0 -> (patience' < patience)%nat).

(** What is left before the pool is full: spawns and moves of dials; and rounds, their
    stages and dead tunnels before the next of those. *)
Definition refill_moves (P : Z) (s : nat * PoolInner) : nat :=
  3 * (Z.to_nat (2 * P) - (pool_live s.2 + pl_dials s.2)) + (2 * pl_dials s.2 + pl_pushed s.2).
Definition refill_stage (p : PoolInner) : nat :=
  if pl_dialing p =? 0 then
    match pl_maintainer p with
    | MSpawning (S _) => 0
    | MCounted L => if L =? Z.of_nat (pool_live p) then 1 else 4
    | MIdle => 2
    | MSpawning O => 3
    end
  else match pl_maintainer p with MIdle => 0 | MSpawning _ => 1 | MCounted _ => 2 end.
Definition refill_wait (s : nat * PoolInner) : nat :=
  5 * s.1 + refill_stage s.2 + (length (pl_tunnels s.2) - pool_live s.2).

Lemma healthy_progress multi P n p : 0 <= P < 2 ^ 30 -> pool_inv multi P p -> Z.of_nat (pool_live p) < P ->
  exists s', healthy_step multi P (n, p) s'.
Proof.
  intros HP [Hd Hc Ht Hl] Hlt. destruct p as [ts dialing dials pushed [|L|[|k]]].
  - destruct dials as [|dials]; [destruct pushed as [|pushed]|].
    + exists (n, maintain_count (Pl ts dialing 0 0 MIdle)). split; [by apply pool_count|]. split; [|split; [by right|]].
      * unfold pool_live, maintain_count, count. cbn. rewrite pool_live_filter. lia.
      * intros _ _. cbn in *. lia.
    + exists (n, Pl ts (dialing - 1) 0 pushed MIdle). split; [by apply (pool_guard_drop _ _ (Pl ts dialing 0 (S pushed) MIdle)); [right|]|].
      split; [done|]. split; [by right|]. by intros _ [].
    + exists (n, Pl (ts ++ [true]) dialing dials (S pushed) MIdle).
      split; [by apply (pool_dialed _ _ (Pl ts dialing (S dials) pushed MIdle)); [right|]|]. split; [|split; [by right|by intros _ []]].
      unfold pool_live. cbn [pl_tunnels pl_dials]. rewrite count_app, count_one, decide_True by done. lia.
  - exists (n, maintain_short P L (Pl ts dialing dials pushed (MCounted L))). split; [by apply pool_short|]. split; [done|]. by split; [right|].
  - exists (n, Pl ts dialing dials pushed MIdle). split; [by apply (pool_round _ _ (Pl ts dialing dials pushed (MSpawning 0)))|].
    split; [done|]. by split; [right|].
  - exists (n, maintain_spawn k (Pl ts dialing dials pushed (MSpawning (S k)))). split; [by apply pool_spawn|].
    split; [cbn; lia|]. by split; [right|].
Qed.

(** A round that begins with dials in flight was one of those allowed; the others
    are bound to spawn. *)
Lemma count_decreases multi P n n' p : pl_maintainer p = MIdle -> healthy_step multi P (n, p) (n', maintain_count p) ->
  (refill_wait (n', maintain_count p) < refill_wait (n, p))%nat.
Proof.
  intros Em (_ & _ & Hn & Hp). specialize (Hp Em ltac:(discriminate)).
  assert (pool_live (maintain_count p) = pool_live p) as El.
  { unfold pool_live, maintain_count, count. cbn [pl_tunnels]. by rewrite pool_live_filter. }
  pose proof (count_le (fun b => b = true) (pl_tunnels p)) as Hlive. fold (pool_live p) in Hlive.
  unfold refill_wait, refill_stage. cbn [fst snd]. rewrite El, Em. unfold maintain_count in *. cbn [pl_maintainer pl_dialing pl_tunnels] in *.
  change (length (filter _ (pl_tunnels p))) with (pool_live p). rewrite Z.eqb_refl.
  destruct Hn as [[[]|[]]|Hn]; [done..|]. destruct (Z.eqb_spec (pl_dialing p) 0); [lia|]. specialize (Hp ltac:(done)). lia.
Qed.

Lemma short_decreases multi P L p : 0 <= P < 2 ^ 30 -> pool_inv multi P p -> Z.of_nat (pool_live p) < P -> pl_maintainer p = MCounted L ->
  (refill_stage (maintain_short P L p) < refill_stage p)%nat.
Proof.
  intros HP [Hd Hc Ht Hl] Hlt Em. destruct (Hl L Em) as (HL & _ & _). unfold refill_stage.
  change (pool_live (maintain_short P L p)) with (pool_live p). unfold maintain_short. cbn [pl_maintainer pl_dialing]. rewrite Em.
  destruct (Z.eqb_spec (pl_dialing p) 0) as [E0|]; [|lia]. unfold shortage.
  assert (u32 (L + pl_dialing p) = L) as -> by (unfold u32; rewrite Z.mod_small; lia).
  destruct (Z.eqb_spec L (Z.of_nat (pool_live p))) as [EL|]; [|destruct (Z.to_nat _); lia].
  destruct (Z.to_nat (P - L)) eqn:E; lia.
Qed.

(** A step that is not one of the dials leaves what they have to do, and a dial's move
    or a spawn leaves less. *)
Lemma healthy_decreases multi P s s' : 0 <= P < 2 ^ 30 -> pool_inv multi P s.2 -> Z.of_nat (pool_live s.2) < P ->
  healthy_step multi P s s' ->
  (refill_moves P s' < refill_moves P s \/ refill_moves P s' = refill_moves P s /\ refill_wait s' < refill_wait s)%nat.
Proof.
  destruct s as [n p], s' as [n' p']. cbn [snd]. intros HP Hi Hlt Hs. pose proof Hs as (Hstep & Hgood & Hpat & _).
  pose proof Hi as [Hd Hc Ht Hl]. assert (Z.of_nat (pool_live p) + Z.of_nat (pl_dials p) + spawning p <= 2 * P) as Ht2 by (destruct multi; lia).
  unfold refill_moves. cbn [fst snd]. unfold dials_moved in Hpat.
  destruct Hstep as [p Em|p L Em|p k Em|p Em|p k Ho E|p k Ho E|p k Ho E|p i Ho E|p i Ho E].
  - right. split; [|by eapply count_decreases]. unfold maintain_count, pool_live, count. cbn. by rewrite pool_live_filter.
  - right. split; [done|]. pose proof (short_decreases multi P L p HP Hi Hlt Em) as Hst. unfold refill_wait. cbn [fst snd].
    change (pool_live (maintain_short P L p)) with (pool_live p). unfold maintain_short in *. cbn [pl_tunnels pl_dials pl_pushed] in *.
    destruct Hpat as [[[]|[]]|Hn]; [done..|lia].
  - left. unfold spawning in Ht2. rewrite Em in Ht2. change (pool_live (maintain_spawn k p)) with (pool_live p). unfold maintain_spawn. cbn [pl_dials pl_pushed]. lia.
  - right. split; [done|]. unfold refill_wait, refill_stage. cbn [fst snd pl_tunnels pl_dials pl_pushed pl_dialing pl_maintainer] in *. rewrite Em.
    change (pool_live (Pl (pl_tunnels p) _ _ _ _)) with (pool_live p). destruct Hpat as [[[]|[]]|Hn]; [done..|]. destruct (_ =? 0); lia.
  - left. assert (pool_live (Pl (pl_tunnels p ++ [true]) (pl_dialing p) k (S (pl_pushed p)) (pl_maintainer p)) = S (pool_live p)) as ->.
    { unfold pool_live. cbn [pl_tunnels]. rewrite count_app, count_one, decide_True by done. lia. }
    cbn [pl_dials pl_pushed]. unfold spawning in Ht2. destruct (pl_maintainer p); lia.
  - left. cbn [pl_dials pl_pushed]. change (pool_live (Pl (pl_tunnels p) _ _ _ _)) with (pool_live p). rewrite E. lia.
  - exfalso. revert Hgood. cbn [pl_dials]. change (pool_live (Pl (pl_tunnels p) _ _ _ _)) with (pool_live p). lia.
  - exfalso. revert Hgood. unfold pool_live. cbn [pl_tunnels pl_dials].
    pose proof (count_insert (fun b => b = true) (pl_tunnels p) i true false ltac:(done)) as Hci.
    rewrite decide_True, decide_False in Hci by done. lia.
  - assert (pool_live (Pl (delete i (pl_tunnels p)) (pl_dialing p) (pl_dials p) (pl_pushed p) (pl_maintainer p)) = pool_live p) as El.
    { unfold pool_live. cbn [pl_tunnels]. pose proof (count_delete (fun b => b = true) (pl_tunnels p) i false ltac:(done)) as Hcd.
      rewrite decide_False in Hcd by done. lia. }
    right. unfold refill_wait, refill_stage. cbn [fst snd]. rewrite El. cbn [pl_tunnels pl_dials pl_pushed pl_dialing pl_maintainer] in *. split; [done|].
    pose proof (lookup_lt_Some _ _ _ E) as Hi'. pose proof (length_delete (pl_tunnels p) i ltac:(by eexists)) as Hdel.
    assert (pool_live p ≤ length (delete i (pl_tunnels p)))%nat as Hle by (rewrite <- El; apply count_le).
    destruct Hpat as [[[]|[]]|Hn]; [done..|lia].
Qed.

(** C33: once tunnels stop dying and dials succeed, the pool fills: from every
    reachable state, a round caught at any point and dials in flight included, every
    run of the maintainer and the dial tasks reaches [pool_size] live tunnels, whatever
    the interleaving, and never gets stuck before.  Rounds may begin at any time, while
    dials are in flight too; the one thing asked of a run is that it does not begin
    infinitely many of them without any of the dials in flight moving. *)
Theorem pool_refills multi P patience p : 0 <= P < 2 ^ 30 -> rtc (pool_step multi P) pool_new p ->
  eventually (healthy_step multi P) (fun s => P <= Z.of_nat (pool_live s.2)) (patience, p).
Proof.
  intros HP Hr. apply (eventually_lex _ _ (fun s => pool_inv multi P s.2) (refill_moves P) refill_wait); [|by apply pool_reach_inv].
  clear p Hr. intros [n p] Hi. destruct (Z.le_gt_cases P (Z.of_nat (pool_live p))) as [|Hlt]; [by left|right].
  split; [by apply healthy_progress|]. intros [n' p'] Hs. split; [exact (pool_step_inv multi P p p' HP (proj1 Hs) Hi)|]. by eapply healthy_decreases.
Qed.

(** Two rounds may pass over the dials of the first. *)
Lemma pool_refills_witness :
  eventually (healthy_step true 1) (fun s => 1 <= Z.of_nat (pool_live s.2)) (2%nat, Pl [] 1 1 0 MIdle) /\
  healthy_step true 1 (2%nat, Pl [] 1 1 0 MIdle) (1%nat, Pl [] 1 1 0 (MCounted 0)).
Proof.
  split.
  - apply (pool_refills true 1 2); [lia|]. apply (rtc_l _ _ (Pl [] 0 0 0 (MCounted 0))); [by apply (pool_count _ _ pool_new)|].
    apply (rtc_l _ _ (Pl [] 0 0 0 (MSpawning 1))); [by apply (pool_short true 1 (Pl [] 0 0 0 (MCounted 0)) 0)|].
    apply (rtc_l _ _ (Pl [] 1 1 0 (MSpawning 0))); [by apply (pool_spawn true 1 (Pl [] 0 0 0 (MSpawning 1)))|].
    apply rtc_once. by apply (pool_round true 1 (Pl [] 1 1 0 (MSpawning 0))).
  - split; [by apply (pool_count true 1 (Pl [] 1 1 0 MIdle))|]. split; [cbn; lia|]. split; [right; lia|]. intros _ _ _. lia.
Defined.
