(* ===== verification/Socks5.v ===== *)
(** * The SOCKS5 inbound ([crates/client/src/socks5.rs])

    Method negotiation, the CONNECT request and the forwarding of one inbound
    connection.  [anyhow] errors are their chains of causes ([Pump.Cause]). *)
From S2P Require Import Prelude Errors Env Pump Addr Tunnel.

Definition VER : Z := 5.
Definition METHOD_NO_AUTH : Z := 0.
Definition METHOD_NONE_ACCEPTABLE : Z := 255.
Definition CMD_CONNECT : Z := 1.
Definition REP_SUCCEEDED : Z := 0.
Definition REP_GENERAL : Z := 1.
Definition REP_CMD_UNSUPPORTED : Z := 7.
Definition REP_ATYP_UNSUPPORTED : Z := 8.

(** ** The stream: tokio's [read_exact] and [write_all] *)

Definition early_eof : io_error := IoError UnexpectedEof "early eof".

Definition stream_read_exact (n : nat) (io : duplex) : result io_error bytes * duplex :=
  let r := io_rd io in
  if (n <=? length (rd_data r))%nat
  then (Ok (take n (rd_data r)), Duplex (Reader (drop n (rd_data r)) (rd_end r)) (io_wr io))
  else (Err (default early_eof (rd_end r)), Duplex (Reader [] (rd_end r)) (io_wr io)).

Definition stream_write_all (data : bytes) (io : duplex) : result io_error unit * duplex :=
  match wr_err (io_wr io) with
  | None => (Ok tt, Duplex (io_rd io) (Writer (wr_out (io_wr io) ++ data) None))
  | Some e => (Err e, io)
  end.

(** ** Replies and negotiation *)

Definition reply_bytes (rep : Z) : bytes := [VER; rep; 0; ATYP_IPV4; 0; 0; 0; 0; 0; 0].

(** [reply]. *)
Definition reply (rep : Z) (io : duplex) : result io_error unit * duplex := stream_write_all (reply_bytes rep) io.

(** [negotiate]. *)
Definition negotiate (io : duplex) : result io_error unit * duplex :=
  let? ver_nmethods & io := stream_read_exact 2 io in
  if negb (nth 0 ver_nmethods 0 =? VER) then (Err (IoError InvalidData "bad SOCKS version"), io)
  else
    let? methods & io := stream_read_exact (Z.to_nat (nth 1 ver_nmethods 0)) io in
    if negb (existsb (Z.eqb METHOD_NO_AUTH) methods) then
      let (_, io) := stream_write_all [VER; METHOD_NONE_ACCEPTABLE] io in
      (Err (IoError InvalidData "client offered no acceptable auth method"), io)
    else stream_write_all [VER; METHOD_NO_AUTH] io.

(** [read_addr], its host part first. *)
Definition read_host (atyp : Z) (io : duplex) : result io_error Host * duplex :=
  if atyp =? ATYP_IPV4 then
    let? octets & io := stream_read_exact 4 io in (Ok (Ip (V4 octets)), io)
  else if atyp =? ATYP_IPV6 then
    let? octets & io := stream_read_exact 16 io in (Ok (Ip (V6 octets)), io)
  else if atyp =? ATYP_DOMAIN then
    let? len & io := stream_read_exact 1 io in
    if nth 0 len 0 =? 0 then (Err (IoError InvalidData "empty domain"), io)
    else
      let? name & io := stream_read_exact (Z.to_nat (nth 0 len 0)) io in
      match from_utf8 name with
      | None => (Err (IoError InvalidData "domain is not utf-8"), io)
      | Some name =>
          if existsb (fun b => negb (graphic b)) (utf8 name)
          then (Err (IoError InvalidData "invalid domain characters"), io)
          else (Ok (Domain name), io)
      end
  else (Err (IoError InvalidData "unsupported ATYP"), io).

Definition read_addr (atyp : Z) (io : duplex) : result io_error ProxyAddr * duplex :=
  let? host & io := read_host atyp io in
  let? port & io := stream_read_exact 2 io in
  (Ok (PAddr host (be_val port)), io).

(** [read_connect]; [context] puts a neutral cause in front. *)
Definition read_connect (io : duplex) : result (list Cause) ProxyAddr * duplex :=
  match negotiate io with
  | (Err e, io) => (Err [OtherCause; IoCause e], io)
  | (Ok _, io) =>
      match stream_read_exact 4 io with
      | (Err e, io) => (Err [OtherCause; IoCause e], io)
      | (Ok head, io) =>
          if negb (nth 0 head 0 =? VER) then (Err [OtherCause], io)
          else if negb (nth 1 head 0 =? CMD_CONNECT) then (Err [OtherCause], snd (reply REP_CMD_UNSUPPORTED io))
          else if negb (nth 2 head 0 =? 0) then (Err [OtherCause], snd (reply REP_GENERAL io))
          else
            match read_addr (nth 3 head 0) io with
            | (Ok addr, io) => (Ok addr, io)
            | (Err e, io) =>
                let rep := if decide (io_kind e = InvalidData) then REP_ATYP_UNSUPPORTED else REP_GENERAL in
                (Err [OtherCause; IoCause e], snd (reply rep io))
            end
      end
  end.

(** ** Forwarding *)

(** [ClientStats]: [AtomicU64]s. *)
Record ClientStats := CStats {
  cs_active : Z; cs_connections : Z; cs_tunnels : Z; cs_tunnel_failures : Z; cs_bytes_up : Z; cs_bytes_down : Z
}.

(** [negotiate_and_forward]: [elapsed] tells that the negotiation timed out,
    [open_stream] is the pool's answer, [pump] what pumping stream [sid] does to
    the inbound socket.  The last component is the stream that was opened and
    whether it was marked graceful before its drop. *)
Definition negotiate_and_forward (elapsed : bool) (open_stream : ProxyAddr -> result (list Cause) Z)
    (pump : Z -> duplex -> PumpOutcome * duplex) (io : duplex) (st : ClientStats)
    : result (list Cause) unit * (duplex * ClientStats * option (Z * bool)) :=
  if elapsed then (Err [IoCause (IoError TimedOut "socks5 negotiation timeout")], (io, st, None))
  else
    match read_connect io with
    | (Err e, io) => (Err e, (io, st, None))
    | (Ok addr, io) =>
        match open_stream addr with
        | Ok sid =>
            let st := CStats (cs_active st) (cs_connections st) (u64 (cs_tunnels st + 1)) (cs_tunnel_failures st)
                        (cs_bytes_up st) (cs_bytes_down st) in
            match reply REP_SUCCEEDED io with
            | (Err e, io) => (Err [OtherCause; IoCause e], (io, st, Some (sid, false)))
            | (Ok _, io) =>
                let (o, io) := pump sid io in
                let st := CStats (cs_active st) (cs_connections st) (cs_tunnels st) (cs_tunnel_failures st)
                            (u64 (cs_bytes_up st + po_up o)) (u64 (cs_bytes_down st + po_down o)) in
                (Ok tt, (io, st, Some (sid, is_graceful (po_end o))))
            end
        | Err e =>
            let st := CStats (cs_active st) (cs_connections st) (cs_tunnels st) (u64 (cs_tunnel_failures st + 1))
                        (cs_bytes_up st) (cs_bytes_down st) in
            (Err (OtherCause :: e), (snd (reply REP_GENERAL io), st, None))
        end
    end.

(** ** Lemmas *)

Section Negotiation.
Context (e : option io_error).

(** A connection that still has [w] to deliver and was sent [o]. *)
Abbreviation conn w o := (Duplex (Reader w e) (Writer o None)).

Lemma stream_read_app n a b o : length a = n -> stream_read_exact n (conn (a ++ b) o) = (Ok a, conn b o).
Proof.
  intros <-. unfold stream_read_exact. cbn [io_rd io_wr rd_data rd_end]. rewrite length_app.
  destruct (Nat.leb_spec (length a) (length a + length b)); [|lia]. by rewrite take_app_length, drop_app_length.
Qed.

Lemma stream_read_cases n w o :
  (exists a b, w = a ++ b /\ length a = n /\ stream_read_exact n (conn w o) = (Ok a, conn b o)) \/
  (exists err, stream_read_exact n (conn w o) = (Err err, conn [] o)).
Proof.
  destruct (decide (n ≤ length w)%nat) as [Hn|Hn].
  - left. exists (take n w), (drop n w). rewrite take_drop, length_take, Nat.min_l by done. split_and!; [done..|].
    rewrite <- (take_drop n w) at 1. apply stream_read_app. rewrite length_take. lia.
  - right. unfold stream_read_exact. cbn [io_rd io_wr rd_data rd_end].
    destruct (Nat.leb_spec n (length w)); [lia|]. by eexists.
Qed.

Lemma stream_read_ok n w o a io' : stream_read_exact n (conn w o) = (Ok a, io') ->
  exists b, w = a ++ b /\ length a = n /\ io' = conn b o.
Proof.
  destruct (stream_read_cases n w o) as [(a' & b & -> & Hl & ->)|(err & ->)]; [|done]. intros [= -> <-]. by exists b.
Qed.

Lemma stream_read_err n w o err io' : stream_read_exact n (conn w o) = (Err err, io') -> io' = conn [] o.
Proof. destruct (stream_read_cases n w o) as [(a' & b & -> & Hl & ->)|(err' & ->)]; by intros [=]. Qed.

(** The host part of a request is read exactly as the address frame encodes it. *)
Lemma read_host_encode h rest o : host_ok h ->
  read_host (nth 0 (host_bytes h) 0) (conn (drop 1 (host_bytes h) ++ rest) o) = (Ok h, conn rest o).
Proof.
  intros Hh. destruct h as [d|[oct|oct]]; cbn [host_bytes].
  - destruct Hh as [Hd Hl]. rewrite utf8_ascii, Nat.min_l, firstn_all by (by apply graphic_ascii) || lia. cbn [app nth].
    rewrite skipn_cons. unfold read_host. change (ATYP_DOMAIN =? ATYP_IPV4) with false. change (ATYP_DOMAIN =? ATYP_IPV6) with false.
    rewrite Z.eqb_refl. change (Z.of_nat (length d) :: d) with ([Z.of_nat (length d)] ++ d). rewrite drop_0, <- app_assoc, stream_read_app by done.
    cbn [nth]. destruct (Z.eqb_spec (Z.of_nat (length d)) 0); [lia|]. rewrite Nat2Z.id, stream_read_app by done.
    rewrite from_utf8_ascii, utf8_ascii by (by apply graphic_ascii). by rewrite (proj2 (graphic_range d)).
  - destruct Hh as [Hw Hl]. cbn [nth]. rewrite skipn_cons, drop_0. unfold read_host. rewrite Z.eqb_refl. by rewrite stream_read_app.
  - destruct Hh as [Hw Hl]. cbn [nth]. rewrite skipn_cons, drop_0. unfold read_host. change (ATYP_IPV6 =? ATYP_IPV4) with false.
    rewrite Z.eqb_refl. by rewrite stream_read_app.
Qed.

Lemma read_host_ok atyp w o h io' : wf_bytes w -> read_host atyp (conn w o) = (Ok h, io') ->
  host_ok h /\ exists rest, atyp :: w = host_bytes h ++ rest /\ io' = conn rest o.
Proof.
  intros Hw. unfold read_host. destruct (Z.eqb_spec atyp ATYP_IPV4) as [->|]; [|destruct (Z.eqb_spec atyp ATYP_IPV6) as [->|];
    [|destruct (Z.eqb_spec atyp ATYP_DOMAIN) as [->|]; [|done]]].
  1,2: destruct (stream_read_exact _ _) as [[oct|] io1] eqn:E; [|done]; intros [= <- <-];
    apply stream_read_ok in E as (b & -> & Hl & ->); apply wf_bytes_app in Hw as [Ho _]; split; [done|]; by exists b.
  destruct (stream_read_exact 1 _) as [[len|] io1] eqn:E1; [|done]. apply stream_read_ok in E1 as (b & -> & Hl1 & ->).
  destruct len as [|l [|]]; try done. cbn [nth]. destruct (Z.eqb_spec l 0); [done|].
  apply wf_bytes_app in Hw as [Hl Hw]. apply wf_bytes_cons in Hl as [Hl _].
  destruct (stream_read_exact _ _) as [[name|] io2] eqn:E2; [|done]. apply stream_read_ok in E2 as (rest & -> & Hl2 & ->).
  apply wf_bytes_app in Hw as [Hn _]. destruct (from_utf8 name) as [s|] eqn:Eu; [|done].
  rewrite (utf8_from_utf8 _ _ Hn Eu). destruct (existsb _ _) eqn:Eg; [done|]. apply graphic_range in Eg.
  rewrite from_utf8_ascii in Eu by (by apply graphic_ascii). injection Eu as <-. intros [= <- <-].
  split; [split; [done|lia]|]. exists rest. split; [|done]. cbn [host_bytes app].
  rewrite utf8_ascii, Nat.min_l, firstn_all by (by apply graphic_ascii) || lia.
  simpl. rewrite Hl2, Z2Nat.id by lia. done.
Qed.

Lemma read_addr_encode a rest o : addr_ok a ->
  read_addr (nth 0 (addr_encode a) 0) (conn (drop 1 (addr_encode a) ++ rest) o) = (Ok a, conn rest o).
Proof.
  intros [Hp Hh]. destruct a as [h port]. unfold addr_encode, encode_into. cbn [pa_host pa_port app] in *.
  assert (host_bytes h = nth 0 (host_bytes h) 0 :: drop 1 (host_bytes h)) as E by by destruct h as [|[]].
  assert (nth 0 (host_bytes h ++ be_bytes 2 port) 0 = nth 0 (host_bytes h) 0) as -> by by rewrite E.
  assert (drop 1 (host_bytes h ++ be_bytes 2 port) = drop 1 (host_bytes h) ++ be_bytes 2 port) as -> by by rewrite E.
  unfold read_addr. rewrite <- app_assoc, read_host_encode by done. rewrite stream_read_app by (by rewrite be_bytes_length).
  rewrite be_val_bytes. change (256 ^ Z.of_nat 2) with 65536. by rewrite Z.mod_small.
Qed.

Lemma read_addr_ok atyp w o a io' : wf_bytes w -> read_addr atyp (conn w o) = (Ok a, io') ->
  addr_ok a /\ exists rest, atyp :: w = addr_encode a ++ rest /\ io' = conn rest o.
Proof.
  intros Hw. unfold read_addr. destruct (read_host atyp (conn w o)) as [[h|] io1] eqn:E; [|done].
  apply read_host_ok in E as (Hh & r1 & Ew & ->); [|done].
  destruct (stream_read_exact 2 _) as [[p|] io2] eqn:E2; [|done]. apply stream_read_ok in E2 as (rest & -> & Hl & ->).
  intros [= <- <-]. assert (wf_bytes p) as Hwp.
  { assert (wf_bytes (drop 1 (atyp :: w))) as Hd by done. rewrite Ew in Hd.
    assert (host_bytes h = nth 0 (host_bytes h) 0 :: drop 1 (host_bytes h)) as E by by destruct h as [|[]].
    rewrite E in Hd. cbn [app] in Hd. rewrite skipn_cons, drop_0 in Hd. apply wf_bytes_app in Hd as [_ Hd]. by apply wf_bytes_app in Hd as [Hd _]. }
  pose proof (be_bytes_val p Hwp) as Hb. rewrite Hl in Hb. split.
  - split; [|done]. cbn [pa_port]. unfold be_val. pose proof (le_val_bound (rev p) ltac:(auto with bytes)) as Hv.
    rewrite length_rev, Hl in Hv. done.
  - exists rest. split; [|done]. unfold addr_encode, encode_into. cbn [pa_host pa_port app]. rewrite Hb, Ew. by rewrite app_assoc.
Qed.

(** A failed address read says nothing to the peer. *)
Lemma read_addr_err atyp w o err io' : read_addr atyp (conn w o) = (Err err, io') -> exists w', io' = conn w' o.
Proof.
  assert (forall n w r io', stream_read_exact n (conn w o) = (r, io') -> exists w', io' = conn w' o) as Hr.
  { intros n w0 r io0 E. destruct (stream_read_cases n w0 o) as [(a & b & _ & _ & E')|(err' & E')];
      rewrite E' in E; injection E as _ <-; by eexists. }
  unfold read_addr. destruct (read_host atyp (conn w o)) as [rh io1] eqn:E.
  assert (exists w1, io1 = conn w1 o) as [w1 ->].
  { revert E. unfold read_host. destruct (atyp =? ATYP_IPV4); [|destruct (atyp =? ATYP_IPV6); [|destruct (atyp =? ATYP_DOMAIN);
      [|intros [= _ <-]; by eexists]]].
    1,2: destruct (stream_read_exact _ _) as [[?|?] ?] eqn:E; apply Hr in E as [? ->]; intros [= _ <-]; by eexists.
    destruct (stream_read_exact 1 _) as [[?|?] ?] eqn:E; apply Hr in E as [? ->]; [|intros [= _ <-]; by eexists].
    destruct (_ =? 0); [intros [= _ <-]; by eexists|].
    destruct (stream_read_exact _ _) as [[nm|?] ?] eqn:E; apply Hr in E as [? ->]; [|intros [= _ <-]; by eexists].
    destruct (from_utf8 nm) as [s|]; [destruct (existsb _ _)|]; intros [= _ <-]; by eexists. }
  destruct rh as [h|err']; [|intros [= _ <-]; by eexists].
  destruct (stream_read_exact 2 _) as [[p|] io2] eqn:E2; [done|]. apply Hr in E2 as [? ->]. intros [= _ <-]. by eexists.
Qed.

(** The greeting. *)
Lemma negotiate_spec w o : wf_bytes w ->
  (exists ms rest, w = [VER; Z.of_nat (length ms)] ++ ms ++ rest /\ METHOD_NO_AUTH ∈ ms /\
     negotiate (conn w o) = (Ok tt, conn rest (o ++ [VER; METHOD_NO_AUTH]))) \/
  (exists err rest s, negotiate (conn w o) = (Err err, conn rest (o ++ s)) /\ s ∈ [[]; [VER; METHOD_NONE_ACCEPTABLE]] /\
     forall ms rest', w = [VER; Z.of_nat (length ms)] ++ ms ++ rest' -> METHOD_NO_AUTH ∈ ms -> False).
Proof.
  intros Hw. unfold negotiate.
  destruct (stream_read_cases 2 w o) as [(vn & b & -> & Hl & ->)|(err & E)].
  2:{ right. rewrite E. exists err, [], []. rewrite app_nil_r. split; [done|]. split; [by left|]. intros ms rest' -> _.
      revert E. cbn [app]. change (VER :: Z.of_nat (length ms) :: ms ++ rest') with ([VER; Z.of_nat (length ms)] ++ ms ++ rest').
      by rewrite stream_read_app. }
  destruct vn as [|v [|n [|]]]; try done. cbn [nth]. apply wf_bytes_app in Hw as [Hvn Hb].
  apply wf_bytes_cons in Hvn as [_ Hvn]. apply wf_bytes_cons in Hvn as [Hn _].
  destruct (Z.eqb_spec v VER) as [->|Hv]; cbn [negb].
  2:{ right. eexists _, b, []. rewrite app_nil_r. split; [done|]. split; [by left|]. intros ms rest' [= E _ _] _. done. }
  destruct (stream_read_cases (Z.to_nat n) b o) as [(ms & rest & -> & Hms & ->)|(err & E)].
  2:{ right. rewrite E. exists err, [], []. rewrite app_nil_r. split; [done|]. split; [by left|]. intros ms rest' [= -> ->] _.
      revert E. by rewrite Nat2Z.id, stream_read_app. }
  destruct (existsb (Z.eqb METHOD_NO_AUTH) ms) eqn:Ex; cbn [negb stream_write_all io_wr wr_err wr_out io_rd].
  - left. exists ms, rest. rewrite Hms, Z2Nat.id by lia. split; [done|]. split; [|done].
    apply existsb_exists in Ex as (x & Hx & Ex). apply Z.eqb_eq in Ex as <-. by apply list_elem_of_In.
  - right. eexists _, rest, _. split; [done|]. split; [by right; left|]. intros ms' rest' [= Hn' E] Hin.
    assert (ms = ms') as <-.
    { apply (f_equal (take (length ms))) in E. rewrite take_app_length, take_app_length' in E; [done|]. subst n. by rewrite Hms, Nat2Z.id. }
    apply not_true_iff_false in Ex. apply Ex, existsb_exists. exists METHOD_NO_AUTH. split; [by apply list_elem_of_In|done].
Qed.

(** What the client may have been told when the request was not accepted. *)
Definition refusals : list bytes :=
  [[]; [VER; METHOD_NONE_ACCEPTABLE]; [VER; METHOD_NO_AUTH];
   [VER; METHOD_NO_AUTH] ++ reply_bytes REP_GENERAL;
   [VER; METHOD_NO_AUTH] ++ reply_bytes REP_CMD_UNSUPPORTED;
   [VER; METHOD_NO_AUTH] ++ reply_bytes REP_ATYP_UNSUPPORTED].

(** The bytes of an acceptable request. *)
Definition connect_request (ms : bytes) (a : ProxyAddr) : bytes :=
  [VER; Z.of_nat (length ms)] ++ ms ++ [VER; CMD_CONNECT; 0] ++ addr_encode a.

Lemma addr_encode_head a : addr_encode a = nth 0 (addr_encode a) 0 :: drop 1 (addr_encode a).
Proof. destruct a as [[|[]] ?]; done. Qed.

Lemma read_connect_accepts ms a rest o : METHOD_NO_AUTH ∈ ms -> (length ms < 256)%nat -> wf_bytes ms -> addr_ok a ->
  read_connect (conn (connect_request ms a ++ rest) o) = (Ok a, conn rest (o ++ [VER; METHOD_NO_AUTH])).
Proof.
  intros Hin Hl Hw Ha. unfold read_connect, connect_request, negotiate. rewrite <- !app_assoc, stream_read_app by done. cbn [nth].
  rewrite Z.eqb_refl. cbn [negb]. rewrite Nat2Z.id, stream_read_app by done.
  assert (existsb (Z.eqb METHOD_NO_AUTH) ms = true) as ->.
  { apply existsb_exists. exists METHOD_NO_AUTH. split; [by apply list_elem_of_In|done]. }
  cbn [negb stream_write_all io_wr wr_err wr_out io_rd].
  rewrite (addr_encode_head a). cbn [app].
  match goal with |- context [conn (?x :: ?y :: ?z :: ?t :: ?r) _] =>
    change (x :: y :: z :: t :: r) with ([x; y; z; t] ++ r) end.
  rewrite stream_read_app by done. cbn [nth]. rewrite !Z.eqb_refl. cbn [negb]. by rewrite read_addr_encode.
Qed.

Lemma read_connect_inv w o : wf_bytes w ->
  (exists ms a rest, w = connect_request ms a ++ rest /\ METHOD_NO_AUTH ∈ ms /\ addr_ok a /\
     read_connect (conn w o) = (Ok a, conn rest (o ++ [VER; METHOD_NO_AUTH]))) \/
  (exists err rest s, read_connect (conn w o) = (Err err, conn rest (o ++ s)) /\ s ∈ refusals).
Proof.
  intros Hw. assert (forall s, s ∈ [[]; [VER; METHOD_NONE_ACCEPTABLE]] -> s ∈ refusals) as Hsub.
  { intros s Hs. apply elem_of_cons in Hs as [->|Hs]; [in_list|]. apply list_elem_of_singleton in Hs as ->. in_list. }
  unfold read_connect. destruct (negotiate_spec w o Hw) as [(ms & b & -> & Hin & ->)|(err & rest & s & -> & Hs & _)].
  2:{ right. eexists _, rest, s. split; [done|by apply Hsub]. }
  apply wf_bytes_app in Hw as [_ Hw]. apply wf_bytes_app in Hw as [_ Hw].
  set (o' := o ++ [VER; METHOD_NO_AUTH]).
  destruct (stream_read_cases 4 b o') as [(hd & b' & -> & Hl & ->)|(err & ->)].
  2:{ right. eexists _, [], _. split; [done|]. in_list. }
  apply wf_bytes_app in Hw as [Hwh Hw].
  destruct hd as [|v [|c [|r [|t [|]]]]]; try done. cbn [nth].
  destruct (Z.eqb_spec v VER) as [->|]; cbn [negb]; [|right; eexists _, b', _; split; [done|]; in_list].
  unfold reply, stream_write_all. cbn [io_wr wr_err wr_out io_rd snd].
  destruct (Z.eqb_spec c CMD_CONNECT) as [->|]; cbn [negb];
    [|right; eexists _, b', _; split; [unfold o'; rewrite <- app_assoc; done|]; in_list].
  destruct (Z.eqb_spec r 0) as [->|]; cbn [negb];
    [|right; eexists _, b', _; split; [unfold o'; rewrite <- app_assoc; done|]; in_list].
  destruct (read_addr t (conn b' o')) as [[a|err] io'] eqn:Ea.
  - left. apply read_addr_ok in Ea as (Ha & rest & Er & ->); [|done]. exists ms, a, rest.
    split; [|by split_and!]. unfold connect_request. rewrite <- !app_assoc. simpl. by rewrite <- Er.
  - right. apply read_addr_err in Ea as [w' ->]. cbn [io_wr wr_err wr_out io_rd snd].
    eexists _, w', _. split; [unfold o'; rewrite <- app_assoc; done|]. case_decide; in_list.
Qed.
End Negotiation.

(** ** Properties *)

(** C23: the SOCKS5 inbound is exact: on a working connection it accepts exactly
    the requests that offer NO-AUTH and ask to CONNECT to an address of the
    tunnel's own address format, answering the greeting and leaving the rest of
    the stream unread; anything else is an error whose answer, if any, is the
    greeting's refusal or one failure reply, never a success. *)
Theorem socks5_exact e w o : wf_bytes w ->
  (forall a rest,
     (exists ms, w = connect_request ms a ++ rest /\ METHOD_NO_AUTH ∈ ms /\ addr_ok a) <->
     read_connect (Duplex (Reader w e) (Writer o None)) =
       (Ok a, Duplex (Reader rest e) (Writer (o ++ [VER; METHOD_NO_AUTH]) None))) /\
  (forall err io', read_connect (Duplex (Reader w e) (Writer o None)) = (Err err, io') ->
     exists s, wr_out (io_wr io') = o ++ s /\ s ∈ refusals).
Proof.
  intros Hw. split.
  - intros a rest. split.
    + intros (ms & -> & Hin & Ha). unfold connect_request in Hw. rewrite <- !app_assoc in Hw.
      apply wf_bytes_app in Hw as [Hh Hw]. apply wf_bytes_app in Hw as [Hms _].
      apply wf_bytes_cons in Hh as [_ Hh]. apply wf_bytes_cons in Hh as [Hh _].
      apply read_connect_accepts; (done || lia).
    + intros E. destruct (read_connect_inv e w o Hw) as [(ms & a' & rest' & -> & Hin & Ha & E')|(? & ? & ? & E' & _)];
        rewrite E' in E; [|done]. injection E as -> ->. by exists ms.
  - intros err io' E. destruct (read_connect_inv e w o Hw) as [(ms & a' & rest' & -> & Hin & Ha & E')|(? & ? & s & E' & Hs)];
      rewrite E' in E; [done|]. injection E as _ <-. by exists s.
Qed.

Lemma socks5_exact_witness :
  read_connect (Duplex (Reader [5; 1; 0; 5; 1; 0; 1; 127; 0; 0; 1; 0; 80; 9] None) (Writer [] None)) =
    (Ok (PAddr (Ip (V4 [127; 0; 0; 1])) 80), Duplex (Reader [9] None) (Writer [5; 0] None)).
Proof.
  apply (socks5_exact None [5; 1; 0; 5; 1; 0; 1; 127; 0; 0; 1; 0; 80; 9] [] ltac:(apply wf_bytes_eval; reflexivity)).
  exists [0]. split; [reflexivity|]. split; [by left|]. split; [simpl; lia|].
  split; [apply wf_bytes_eval; reflexivity|reflexivity].
Defined.
