(* ===== verification/Client.v ===== *)
(** * The client's runtime and its inbound ([crates/client/src/lib.rs],
      [crates/nextppp/src/main.rs])

    The runtime parameters derived from the configuration, the start-up sequence
    of both roles, and the accept loops of the SOCKS5 inbounds with the gauge of
    open sessions they share. *)
From S2P Require Import Prelude Errors Cipher KeyConfig Config Addr NetText HostPort Socks5.
From S2P Require Server.

(** ** Runtime parameters *)

Record BondParams := BParams { bp_links : Z; bp_pool_size : Z; bp_max_streams : Z; bp_target : str }.

(** Durations in seconds; the DNS cache starts empty. *)
Record ClientRuntime := CRuntime {
  cr_server_host : Host;
  cr_server_port : Z;
  cr_server_key : ObfuscationKey;
  cr_connect_timeout : Z;
  cr_connect_retries : Z;
  cr_max_connections : option Z;
  cr_pool_size : Z;
  cr_max_streams : Z;
  cr_bond : option BondParams
}.

Inductive RuntimeError := ObfuscationError (e : Fault) | InvalidAddress (e : HostPortError).

(** [ClientRuntime::from_config]. *)
Definition ClientRuntime_from_config (cfg : ClientConfig) : result RuntimeError ClientRuntime :=
  let server := cc_server cfg in
  match to_key (ss_obfuscation server) (cc_password cfg) with
  | Err e => Err (ObfuscationError e)
  | Ok key =>
      match parse_host_port (ss_address server) with
      | Err e => Err (InvalidAddress e)
      | Ok (host, port) =>
          let bond := (fun b => BParams (bc_links b) (bc_pool_size b) (Z.max (bc_max_streams b) 1) (ss_address server)) <$> cc_bond cfg in
          Ok (CRuntime host port key (ss_connect_timeout server) (ss_connect_retries server) (cc_max_connections cfg)
                (effective_pool_size (ss_mux server)) (Z.max (mx_max_streams (ss_mux server)) 1) bond)
      end
  end.

(** ** Start-up *)

Inductive StartError (E : Type) :=
| LoadFailed (e : ConfigError E)
| InvalidListen (spec : str)
| BindFailed (e : io_error)
| RuntimeFailed (e : RuntimeError)
| AlreadyExists
| CheckFailed (e : io_error)
| WriteFailed (e : io_error).
Arguments LoadFailed {E}.
Arguments InvalidListen {E}.
Arguments BindFailed {E}.
Arguments RuntimeFailed {E}.
Arguments AlreadyExists {E}.
Arguments CheckFailed {E}.
Arguments WriteFailed {E}.

Section Start.
(** The listener type, the system's [bind] and the configuration parser's error. *)
Context {Listener ParseError : Type} (bind : SocketAddr -> result io_error Listener).

(** [bind_listen] of [main.rs]. *)
Definition bind_listen (spec : str) : result (StartError ParseError) Listener :=
  match parse_socket_addr spec with
  | None => Err (InvalidListen spec)
  | Some listen => match bind listen with Ok l => Ok l | Err e => Err (BindFailed e) end
  end.

(** [write_example] on a path: what [try_exists] and [fs::write] answer; and whether
    [fs::write] was called. *)
Definition write_example (init : result io_error bool * result io_error unit) : result (StartError ParseError) unit * bool :=
  match fst init with
  | Ok true => (Err AlreadyExists, false)
  | Ok false => match snd init with Ok _ => (Ok tt, true) | Err e => (Err (WriteFailed e), true) end
  | Err e => (Err (CheckFailed e), false)
  end.

(** What a run does before it ends or blocks in [serve]. *)
Inductive Started (A : Type) := ExampleWritten | Serving (a : A).
Arguments ExampleWritten {A}.
Arguments Serving {A}.

(** [run_client] up to [serve]: the listeners and the runtime it is called with. *)
Definition run_client (init : option (result io_error bool * result io_error unit)) (text : result io_error str)
    (from_str : str -> result ParseError ClientConfig)
    : result (StartError ParseError) (Started (Listener * option Listener * ClientRuntime)) :=
  match init with
  | Some path => let? _ := fst (write_example path) in Ok ExampleWritten
  | None =>
      match ClientConfig_load text from_str with
      | Err e => Err (LoadFailed e)
      | Ok cfg =>
          let? listener := bind_listen (cc_listen cfg) in
          let? bond_listener :=
            match cc_bond cfg with
            | Some bond => let? l := bind_listen (bc_listen bond) in Ok (Some l)
            | None => Ok None
            end in
          match ClientRuntime_from_config cfg with
          | Ok rt => Ok (Serving (listener, bond_listener, rt))
          | Err e => Err (RuntimeFailed e)
          end
      end
  end.

(** [run_server] likewise. *)
Definition run_server (init : option (result io_error bool * result io_error unit)) (text : result io_error str)
    (from_str : str -> result ParseError ServerConfig)
    : result (StartError ParseError) (Started (Listener * Server.ServerRuntime)) :=
  match init with
  | Some path => let? _ := fst (write_example path) in Ok ExampleWritten
  | None =>
      match ServerConfig_load text from_str with
      | Err e => Err (LoadFailed e)
      | Ok cfg =>
          let? listener := bind_listen (sc_listen cfg) in
          match Server.ServerRuntime_from_config cfg with
          | Ok rt => Ok (Serving (listener, rt))
          | Err e => Err (RuntimeFailed (ObfuscationError e))
          end
      end
  end.

(** ** Start-up: properties *)

(** What [serve] and the pools rely on. *)
Definition runtime_sane (cfg : ClientConfig) (rt : ClientRuntime) : Prop :=
  validate (cr_server_key rt) = Ok tt /\
  0 <= cr_server_port rt < 2 ^ 16 /\ 1 <= cr_max_streams rt /\
  (cr_pool_size rt = 0 <-> mx_enabled (ss_mux (cc_server cfg)) = false \/ mx_pool_size (ss_mux (cc_server cfg)) = 0) /\
  (forall b, cr_bond rt = Some b -> bp_links b <> 0 /\ 1 <= bp_max_streams b).

Lemma to_key_validates c shared k : to_key c shared = Ok k -> validate k = Ok tt.
Proof.
  unfold to_key. destruct (resolve_password (oc_protocol_key c) _ _); [|done]. destruct (method (oc_protocol c)); [|done].
  destruct (resolve_password (oc_transport_key c) _ _); [|done]. destruct (method (oc_transport c)); [|done].
  set (key := {| k_kf := _ |}). destruct (validate key) as [[]|] eqn:E; [|done]. by intros [= <-].
Qed.

Lemma parse_host_port_port s h p : parse_host_port s = Ok (h, p) -> 0 <= p < 2 ^ 16.
Proof.
  unfold parse_host_port. destruct (parse_socket_addr s) as [sa|] eqn:Es.
  { intros [= <- <-]. by apply parse_socket_ok in Es as [_ ?]. }
  destruct (rsplit_once 58 s) as [[host t]|]; [|done]. cbn [ok_or].
  destruct (parse_u16 t) as [q|] eqn:Eq; [|done]. cbn [ok_or]. apply parse_u16_bound in Eq.
  destruct (match strip_prefix 91 host with Some _ => _ | None => _ end); [|done]. case_bool_decide; [done|]. by intros [= _ <-].
Qed.

Lemma client_load_ok text (from_str : str -> result ParseError ClientConfig) cfg : ClientConfig_load text from_str = Ok cfg ->
  is_ok (to_key (ss_obfuscation (cc_server cfg)) (cc_password cfg)) = true /\
  (forall b, cc_bond cfg = Some b -> bc_links b <> 0).
Proof.
  unfold ClientConfig_load. destruct (load_jsonc text from_str) as [c|]; [|done].
  destruct (to_key _ _) eqn:Ek; [|done]. destruct (cc_bond c) as [b|] eqn:Eb.
  - destruct (Z.eqb_spec (bc_links b) 0); [done|]. intros [= <-]. rewrite Ek, Eb. split; [done|]. by intros b' [= <-].
  - intros [= <-]. rewrite Ek, Eb. done.
Qed.

Lemma server_load_ok text (from_str : str -> result ParseError ServerConfig) cfg : ServerConfig_load text from_str = Ok cfg ->
  is_ok (to_key (sc_obfuscation cfg) (sc_password cfg)) = true.
Proof.
  unfold ServerConfig_load. destruct (load_jsonc text from_str) as [c|]; [|done]. destruct (to_key _ _) eqn:Ek; [|done].
  intros [= <-]. by rewrite Ek.
Qed.

Lemma from_config_ok cfg rt : ClientRuntime_from_config cfg = Ok rt -> (forall b, cc_bond cfg = Some b -> bc_links b <> 0) ->
  runtime_sane cfg rt /\ (cr_bond rt = None <-> cc_bond cfg = None).
Proof.
  unfold ClientRuntime_from_config. destruct (to_key _ _) as [key|] eqn:Ek; [|done].
  destruct (parse_host_port _) as [[h p]|] eqn:Ep; [|done]. intros [= <-] Hb.
  split; [|by destruct (cc_bond cfg)]. unfold runtime_sane. cbn [cr_server_key cr_server_port cr_max_streams cr_pool_size cr_bond].
  split; [by apply to_key_validates in Ek|]. split; [by apply parse_host_port_port in Ep|]. split; [lia|]. split.
  - unfold effective_pool_size. destruct (mx_enabled _); split; intros E; auto. by destruct E.
  - intros b Hl. apply fmap_Some in Hl as (c & Hc & ->). cbn. split; [by apply Hb|lia].
Qed.

Lemma bind_listen_cases spec : match bind_listen spec with
  | Ok l => exists sa, parse_socket_addr spec = Some sa /\ bind sa = Ok l
  | Err (InvalidListen s) => s = spec /\ parse_socket_addr s = None
  | Err (BindFailed e) => exists sa, parse_socket_addr spec = Some sa /\ bind sa = Err e
  | Err _ => False
  end.
Proof. unfold bind_listen. destruct (parse_socket_addr spec) as [sa|] eqn:E; [|done]. destruct (bind sa) eqn:Eb; by exists sa. Qed.

(** The addresses a client configuration asks to listen on. *)
Definition listen_specs (cfg : ClientConfig) : list str :=
  cc_listen cfg :: match cc_bond cfg with Some b => [bc_listen b] | None => [] end.

(** Both binds of [run_client]. *)
Lemma bind_both_cases cfg :
  match (let? l := bind_listen (cc_listen cfg) in
         let? o := match cc_bond cfg with Some bond => let? l := bind_listen (bc_listen bond) in Ok (Some l) | None => Ok None end in Ok (l, o)) with
  | Ok (l, o) => (exists sa, parse_socket_addr (cc_listen cfg) = Some sa /\ bind sa = Ok l) /\
      match o, cc_bond cfg with
      | None, None => True
      | Some l', Some b => exists sa, parse_socket_addr (bc_listen b) = Some sa /\ bind sa = Ok l'
      | _, _ => False
      end
  | Err (InvalidListen s) => parse_socket_addr s = None /\ s ∈ listen_specs cfg
  | Err (BindFailed e) => exists spec sa, spec ∈ listen_specs cfg /\ parse_socket_addr spec = Some sa /\ bind sa = Err e
  | Err _ => False
  end.
Proof.
  unfold listen_specs. pose proof (bind_listen_cases (cc_listen cfg)) as Hl.
  destruct (bind_listen (cc_listen cfg)) as [l|[| | e| | | |]]; try done.
  - destruct (cc_bond cfg) as [b|]; [|done]. pose proof (bind_listen_cases (bc_listen b)) as Hb. cbn.
    destruct (bind_listen (bc_listen b)) as [l'|[| | e| | | |]]; try done.
    + destruct Hb as [-> Hb]. split; [done|]. right. left.
    + destruct Hb as (sa & Hp & Hb). exists (bc_listen b), sa. split; [right; left|done].
  - destruct Hl as [-> Hp]. split; [done|left].
  - destruct Hl as (sa & Hp & Hb). exists (cc_listen cfg), sa. split; [left|done].
Qed.

(** C35: start-up is sound: when the client reaches [serve], its configuration was
    loaded and valid, the plain listener is the one bound to the literal address of
    [listen] and the bond listener the one bound to the literal address of the bond
    section's own [listen], the bond listener is there exactly when the bond
    section and the bond parameters are (so [serve]'s [expect] cannot panic), and
    the runtime is sane: a valid key, a 16-bit port, at least one stream per tunnel
    and one link per bonded tunnel, and pooling off exactly as configured.  A
    configuration that loads can then only fail on one of its own listen addresses,
    a bind of one of them or its server address, never on its keys.  The server
    serves on the literal address of its [listen], and a loaded configuration
    always gives it a runtime.  With [--init] nothing is
    loaded or served, and a file that exists is never written. *)
Theorem startup_sound init text (from_client : str -> result ParseError ClientConfig) (from_server : str -> result ParseError ServerConfig) :
  match run_client init text from_client with
  | Ok (Serving (listener, bond_listener, rt)) => init = None /\ exists cfg sa,
      ClientConfig_load text from_client = Ok cfg /\
      parse_socket_addr (cc_listen cfg) = Some sa /\ bind sa = Ok listener /\
      match bond_listener, cc_bond cfg with
      | None, None => cr_bond rt = None
      | Some l, Some b => is_Some (cr_bond rt) /\ exists sa', parse_socket_addr (bc_listen b) = Some sa' /\ bind sa' = Ok l
      | _, _ => False
      end /\
      runtime_sane cfg rt
  | Ok ExampleWritten => init = Some (Ok false, Ok tt)
  | Err (RuntimeFailed (ObfuscationError _)) => False
  | Err (RuntimeFailed (InvalidAddress e)) =>
      exists cfg, ClientConfig_load text from_client = Ok cfg /\ parse_host_port (ss_address (cc_server cfg)) = Err e
  | Err (LoadFailed e) => ClientConfig_load text from_client = Err e
  | Err (InvalidListen spec) => parse_socket_addr spec = None /\
      exists cfg, ClientConfig_load text from_client = Ok cfg /\ spec ∈ listen_specs cfg
  | Err (BindFailed e) => exists cfg spec sa, ClientConfig_load text from_client = Ok cfg /\
      spec ∈ listen_specs cfg /\ parse_socket_addr spec = Some sa /\ bind sa = Err e
  | Err AlreadyExists => exists w, init = Some (Ok true, w)
  | Err (CheckFailed e) => exists w, init = Some (Err e, w)
  | Err (WriteFailed e) => init = Some (Ok false, Err e)
  end /\
  match run_server init text from_server with
  | Ok (Serving (listener, rt)) => init = None /\
      exists cfg sa, ServerConfig_load text from_server = Ok cfg /\ validate (Server.rt_key rt) = Ok tt /\
        parse_socket_addr (sc_listen cfg) = Some sa /\ bind sa = Ok listener
  | Ok ExampleWritten => init = Some (Ok false, Ok tt)
  | Err (RuntimeFailed _) => False
  | Err (LoadFailed e) => ServerConfig_load text from_server = Err e
  | Err (InvalidListen spec) => parse_socket_addr spec = None /\
      exists cfg, ServerConfig_load text from_server = Ok cfg /\ spec = sc_listen cfg
  | Err (BindFailed e) => exists cfg sa, ServerConfig_load text from_server = Ok cfg /\
      parse_socket_addr (sc_listen cfg) = Some sa /\ bind sa = Err e
  | Err AlreadyExists => exists w, init = Some (Ok true, w)
  | Err (CheckFailed e) => exists w, init = Some (Err e, w)
  | Err (WriteFailed e) => init = Some (Ok false, Err e)
  end /\
  (forall path, snd (write_example path) = true <-> fst path = Ok false).
Proof.
  split; [|split].
  - unfold run_client. destruct init as [[[[]|] [[]|]]|]; cbn; eauto.
    destruct (ClientConfig_load text from_client) as [cfg|] eqn:El; [|done].
    destruct (client_load_ok _ _ _ El) as [Hk Hb]. pose proof (bind_both_cases cfg) as Ho.
    destruct (bind_listen (cc_listen cfg)) as [l|[]]; try done; cbn in Ho |- *; [|destruct Ho; by eauto|destruct Ho as (spec & sa & Ho); by exists cfg, spec, sa].
    destruct (match cc_bond cfg with Some _ => _ | None => _ end) as [o|[]]; try done; cbn in Ho |- *;
      [|destruct Ho; by eauto|destruct Ho as (spec & sa & Ho); by exists cfg, spec, sa].
    destruct Ho as [(sa & Hsa & Hbind) Ho]. destruct (ClientRuntime_from_config cfg) as [rt|e] eqn:Er.
    + destruct (from_config_ok _ _ Er Hb) as [Hsane Hrb]. split; [done|]. exists cfg, sa. split_and!; try done.
      destruct o as [l'|], (cc_bond cfg) as [b|]; try done; [|by apply Hrb].
      split; [|done]. destruct (cr_bond rt); [done|]. by destruct Hrb as [Hrb _]; specialize (Hrb eq_refl).
    + unfold ClientRuntime_from_config in Er. destruct (to_key _ _); [|done].
      destruct (parse_host_port _) as [[h p]|e'] eqn:Ep; [done|]. injection Er as <-. by exists cfg.
  - unfold run_server. destruct init as [[[[]|] [[]|]]|]; cbn; eauto.
    destruct (ServerConfig_load text from_server) as [cfg|] eqn:El; [|done]. apply server_load_ok in El as Hk.
    pose proof (bind_listen_cases (sc_listen cfg)) as Hl. destruct (bind_listen (sc_listen cfg)) as [l|[]]; try done; cbn in Hl |- *.
    + unfold Server.ServerRuntime_from_config. destruct (to_key _ _) as [k|] eqn:Ek; [|done]. destruct Hl as (sa & Hp & Hs).
      split; [done|]. exists cfg, sa. split_and!; try done. by apply to_key_validates in Ek.
    + destruct Hl as [-> Hp]. by eauto.
    + destruct Hl as (sa & Hp & Hs). by eauto.
  - intros [[[]|] [|]]; cbn; split; done.
Qed.
End Start.

(** ** The inbounds

    The plain and the bond listener run the same accept loop and share the stats. *)

(** A loop waits for a connection, or is between the gate's load and the increments. *)
Inductive AcceptLoop := LWaiting | LAdmitting.

Record Inbound := In_ {
  in_loops : list AcceptLoop;
  in_sessions : nat;          (** handler tasks whose guard lives *)
  in_stats : ClientStats
}.

Definition ClientStats_default : ClientStats := CStats 0 0 0 0 0 0.
Definition inbound_new (listeners : nat) : Inbound := In_ (replicate listeners LWaiting) 0 ClientStats_default.

(** The counters a connection adds to before its task is spawned. *)
Definition session_started (st : ClientStats) : ClientStats :=
  CStats (u64 (cs_active st + 1)) (u64 (cs_connections st + 1)) (cs_tunnels st) (cs_tunnel_failures st)
    (cs_bytes_up st) (cs_bytes_down st).
(** [ActiveGuard::drop]. *)
Definition session_ended (st : ClientStats) : ClientStats :=
  CStats (u64 (cs_active st - 1)) (cs_connections st) (cs_tunnels st) (cs_tunnel_failures st)
    (cs_bytes_up st) (cs_bytes_down st).

(** The steps of [accept_inbound] and of the handler tasks: a handler's own counters
    change without touching [active]. *)
Inductive inbound_step (max_connections : option Z) : Inbound -> Inbound -> Prop :=
| ib_gate_open i loops n st : loops !! i = Some LWaiting -> Server.gate_closed max_connections (cs_active st) = false ->
    inbound_step max_connections (In_ loops n st) (In_ (<[i := LAdmitting]> loops) n st)
| ib_gate_closed i loops n st : loops !! i = Some LWaiting -> Server.gate_closed max_connections (cs_active st) = true ->
    inbound_step max_connections (In_ loops n st) (In_ loops n st)
| ib_admit i loops n st : loops !! i = Some LAdmitting ->
    inbound_step max_connections (In_ loops n st) (In_ (<[i := LWaiting]> loops) (S n) (session_started st))
| ib_progress loops n st st' : (0 < n)%nat -> cs_active st' = cs_active st -> cs_connections st' = cs_connections st ->
    inbound_step max_connections (In_ loops n st) (In_ loops n st')
| ib_end loops n st : inbound_step max_connections (In_ loops (S n) st) (In_ loops n (session_ended st)).

#[export] Instance AcceptLoop_eq_dec : EqDecision AcceptLoop.
Proof. solve_decision. Defined.

(** Loops past the gate. *)
Definition admitting (loops : list AcceptLoop) : nat := count (fun l => l = LAdmitting) loops.

Record inbound_inv (max : option Z) (listeners : nat) (s : Inbound) : Prop := {
  ii_loops : length (in_loops s) = listeners;
  ii_active : cs_active (in_stats s) = u64 (Z.of_nat (in_sessions s));
  ii_cap : forall m, max = Some m -> 0 <= m -> m + Z.of_nat listeners < 2 ^ 64 ->
    Z.of_nat (in_sessions s) + Z.of_nat (admitting (in_loops s)) <= m + Z.of_nat listeners - (if (listeners =? 0)%nat then 0 else 1)
}.

Lemma inbound_inv_new max listeners : inbound_inv max listeners (inbound_new listeners).
Proof.
  split; cbn [inbound_new in_loops in_sessions in_stats]; [apply length_replicate|done|]. intros m _ Hm _.
  assert (admitting (replicate listeners LWaiting) = 0%nat) as ->.
  { unfold admitting. induction listeners as [|n IH]; [done|]. cbn [replicate]. change (LWaiting :: ?l) with ([LWaiting] ++ l).
    by rewrite count_app, count_one, decide_False. }
  destruct (Nat.eqb_spec listeners 0); lia.
Qed.

Lemma inbound_step_inv max listeners s s' : inbound_step max s s' -> inbound_inv max listeners s -> inbound_inv max listeners s'.
Proof.
  intros Hstep [Hl Ha Hc]. destruct Hstep as [i loops n st Hi Hg|i loops n st Hi Hg|i loops n st Hi|loops n st st' Hn E1 E2|loops n st];
    cbn [in_loops in_sessions in_stats] in *.
  - split; cbn [in_loops in_sessions in_stats]; [by rewrite length_insert|done|]. intros m Em Hm Hb. specialize (Hc m Em Hm Hb).
    pose proof (count_insert (fun l => l = LAdmitting) loops i LWaiting LAdmitting Hi) as Hci.
    rewrite decide_False, decide_True in Hci by done. fold (admitting (<[i:=LAdmitting]> loops)) (admitting loops) in Hci.
    pose proof (lookup_lt_Some _ _ _ Hi) as Hlen.
    assert (admitting (<[i:=LAdmitting]> loops) ≤ listeners)%nat as Hle by (rewrite <- Hl, <- (length_insert loops i LAdmitting); apply count_le).
    subst max. cbn [Server.gate_closed] in Hg. apply Z.leb_gt in Hg. rewrite Ha in Hg. unfold u64 in Hg.
    rewrite Z.mod_small in Hg by (destruct (listeners =? 0)%nat; lia). rewrite (proj2 (Nat.eqb_neq listeners 0)) in * by lia. lia.
  - by split.
  - pose proof (count_insert (fun l => l = LAdmitting) loops i LAdmitting LWaiting Hi) as Hci.
    rewrite decide_True, decide_False in Hci by done. fold (admitting (<[i:=LWaiting]> loops)) (admitting loops) in Hci.
    split; cbn [in_loops in_sessions in_stats session_started cs_active]; [by rewrite length_insert| |].
    + rewrite Ha. unfold u64. rewrite Z.add_mod_idemp_l by lia. f_equal. lia.
    + intros m Em Hm Hb. specialize (Hc m Em Hm Hb). lia.
  - split; cbn [in_loops in_sessions in_stats]; [done|congruence|done].
  - split; cbn [in_loops in_sessions in_stats session_ended cs_active]; [done| |].
    + rewrite Ha. unfold u64. rewrite Zminus_mod_idemp_l. f_equal. lia.
    + intros m Em Hm Hb. specialize (Hc m Em Hm Hb). lia.
Qed.

Lemma inbound_reach_inv max listeners s : rtc (inbound_step max) (inbound_new listeners) s -> inbound_inv max listeners s.
Proof.
  intros Hr. assert (forall a, rtc (inbound_step max) a s -> inbound_inv max listeners a -> inbound_inv max listeners s) as Hall.
  { clear Hr. intros a Hst. induction Hst as [|x y z Hs _ IH]; [done|]. intros Hi. apply IH. by eapply inbound_step_inv. }
  exact (Hall _ Hr (inbound_inv_new max listeners)).
Qed.

(** The gauge of open inbound sessions is exact under every interleaving of the
    accept loops, the handlers and their ends, and with [max_connections] set the
    sessions never exceed it with one listener, and exceed it by at most one with
    the bond listener as well: the gate of one loop may pass between the load and
    the increment of the other. *)
Theorem inbound_gauge_exact max listeners s : rtc (inbound_step max) (inbound_new listeners) s ->
  cs_active (in_stats s) = u64 (Z.of_nat (in_sessions s)) /\
  (forall m, max = Some m -> 0 <= m < 2 ^ 63 -> (1 ≤ listeners ≤ 2)%nat ->
     Z.of_nat (in_sessions s) <= m + Z.of_nat listeners - 1).
Proof.
  intros Hr. destruct (inbound_reach_inv _ _ _ Hr) as [_ Ha Hc]. split; [done|]. intros m Em Hm Hl.
  specialize (Hc m Em ltac:(lia) ltac:(lia)). rewrite (proj2 (Nat.eqb_neq listeners 0)) in Hc by lia. lia.
Qed.

(** Both loops past the gate of one free slot. *)
Lemma inbound_gauge_exact_witness :
  exists s, rtc (inbound_step (Some 1)) (inbound_new 2) s /\ in_sessions s = 2%nat /\ Z.of_nat (in_sessions s) <= 1 + 2 - 1.
Proof.
  set (st1 := session_started ClientStats_default).
  assert (rtc (inbound_step (Some 1)) (inbound_new 2) (In_ [LWaiting; LWaiting] 2 (session_started st1))) as Hr.
  { apply (rtc_l _ _ (In_ [LAdmitting; LWaiting] 0 ClientStats_default)); [by apply (ib_gate_open _ 0%nat [LWaiting; LWaiting])|].
    apply (rtc_l _ _ (In_ [LAdmitting; LAdmitting] 0 ClientStats_default)); [by apply (ib_gate_open _ 1%nat [LAdmitting; LWaiting])|].
    apply (rtc_l _ _ (In_ [LWaiting; LAdmitting] 1 st1)); [by apply (ib_admit _ 0%nat [LAdmitting; LAdmitting])|].
    apply rtc_once. by apply (ib_admit _ 1%nat [LWaiting; LAdmitting]). }
  exists (In_ [LWaiting; LWaiting] 2 (session_started st1)). split; [exact Hr|]. split; [reflexivity|].
  destruct (inbound_gauge_exact _ _ _ Hr) as [_ Hc]. apply (Hc 1 eq_refl); lia.
Defined.
