(* ===== verification/Shutdown.v ===== *)
(** * Shutdown ([crates/common/src/shutdown.rs], the accept loops of
      [crates/server/src/lib.rs] and [crates/client/src/lib.rs])

    The way from the signal to the end of [serve]: the turns of the accept loop
    until it sees the flag, and the drain of active sessions after it.  Times are
    milliseconds; the clock, the session gauge and what a turn waits for are what
    the code reads. *)
From S2P Require Import Prelude Pump.

Definition DRAIN_TIMEOUT : Z := 10 * 1000.

(** The pause between two readings of the gauge. *)
Definition DRAIN_POLL : Z := 100.

(** ** The accept loop *)

Definition SHUTDOWN_POLL : Z := 200.

(** The pause after an accept that failed for want of descriptors. *)
Definition EXHAUSTED_PAUSE : Z := 100.

(** What the [select!] of one turn gives; the client's loop has no aggregator. *)
Inductive Ready := RAccepted | RAcceptFailed (errno : option Z) | RBonded | RAggregatorFailed | RTimer.

Inductive LoopEnd := LShutdown | LAggregatorFailed.

(** [accept_loop] over the turns it takes, each with the time its [select!] waits:
    how it ended ([None]: it has not), when, and when it accepted connections. *)
Fixpoint accept_loop (requested : Z -> bool) (turns : list (Z * Ready)) (now : Z) (accepted : list Z)
    : option LoopEnd * Z * list Z :=
  match turns with
  | [] => (None, now, accepted)
  | (wait, ready) :: turns =>
      if requested now then (Some LShutdown, now, accepted)
      else
        let now := now + wait in
        match ready with
        | RAccepted => accept_loop requested turns now (accepted ++ [now])
        | RAcceptFailed errno =>
            if requested now then (Some LShutdown, now, accepted)
            else accept_loop requested turns (if accept_exhausted errno then now + EXHAUSTED_PAUSE else now) accepted
        | RBonded | RTimer => accept_loop requested turns now accepted
        | RAggregatorFailed => (Some LAggregatorFailed, now, accepted)
        end
  end.

(** [requested]: the flag, once the handler has stored it at [t0]. *)
Definition requested (t0 now : Z) : bool := t0 <=? now.

(** ** The drain *)

Inductive Drained := AllDrained | StillActive (active : Z).

(** [drain_sessions]: the [i]-th turn reads the gauge [active i] and then the clock
    [now i]; [None] when [fuel] turns were not enough. *)
Fixpoint drain_loop (active now : nat -> Z) (deadline : Z) (fuel i : nat) : option (Drained * nat) :=
  match fuel with
  | O => None
  | S fuel =>
      if active i =? 0 then Some (AllDrained, i)
      else if deadline <=? now i then Some (StillActive (active i), i)
      else drain_loop active now deadline fuel (S i)
  end.
Definition drain_sessions (active now : nat -> Z) (start : Z) (fuel : nat) : option (Drained * nat) :=
  drain_loop active now (start + DRAIN_TIMEOUT) fuel 0.

(** ** Lemmas *)

Lemma drain_loop_spec active now deadline fuel : forall i r j, drain_loop active now deadline fuel i = Some (r, j) ->
  (i ≤ j < i + fuel)%nat /\ (forall k, (i ≤ k < j)%nat -> active k <> 0 /\ now k < deadline) /\
  match r with
  | AllDrained => active j = 0
  | StillActive n => n = active j /\ n <> 0 /\ deadline <= now j
  end.
Proof.
  induction fuel as [|fuel IH]; intros i r j; cbn [drain_loop]; [done|].
  destruct (Z.eqb_spec (active i) 0) as [Ea|Ea].
  { intros [= <- <-]. split; [lia|]. split; [intros; lia|done]. }
  destruct (Z.leb_spec deadline (now i)) as [Hd|Hd].
  { intros [= <- <-]. split; [lia|]. split; [intros; lia|done]. }
  intros E. destruct (IH _ _ _ E) as (Hj & Hk & Hr). split; [lia|]. split; [|done].
  intros k Hki. destruct (decide (k = i)) as [->|]; [done|]. apply Hk. lia.
Qed.

(** Enough turns: the clock passes the deadline within them. *)
Lemma drain_loop_fuel active now deadline : (forall i, now i + DRAIN_POLL <= now (S i)) -> forall fuel i,
  deadline - now i <= DRAIN_POLL * (Z.of_nat fuel - 1) -> (1 ≤ fuel)%nat -> is_Some (drain_loop active now deadline fuel i).
Proof.
  intros Hclock. unfold DRAIN_POLL in *. induction fuel as [|fuel IH]; intros i Hf Hge; [lia|]. cbn [drain_loop].
  destruct (_ =? 0); [by eexists|]. destruct (Z.leb_spec deadline (now i)) as [Hd|Hd]; [by eexists|].
  destruct (decide (fuel = 0%nat)) as [->|]; [change (Z.of_nat 1) with 1 in Hf; lia|].
  apply IH; [|lia]. specialize (Hclock i). lia.
Qed.

(** The drain always ends and ends right: with a clock that the pause moves by at
    least 100 ms, 101 turns are enough whatever the gauge does; it reports all
    sessions drained when the first reading that stops it is zero, and otherwise
    the sessions still active at the first reading that is past the deadline. *)
Lemma drain_ends active now start turn :
  start <= now 0%nat <= start + turn -> (forall i, now i + DRAIN_POLL <= now (S i) <= now i + turn) ->
  exists r j, drain_sessions active now start 101 = Some (r, j) /\
    (forall k, (k < j)%nat -> active k <> 0 /\ now k < start + DRAIN_TIMEOUT) /\
    now j <= start + DRAIN_TIMEOUT + turn /\
    match r with
    | AllDrained => active j = 0
    | StillActive n => n = active j /\ n <> 0 /\ start + DRAIN_TIMEOUT <= now j
    end.
Proof.
  intros H0 Hclock. destruct (drain_loop_fuel active now (start + DRAIN_TIMEOUT) (fun i => proj1 (Hclock i)) 101 0) as [[r j] E].
  { unfold DRAIN_TIMEOUT, DRAIN_POLL. change (Z.of_nat 101) with 101. lia. }
  { lia. }
  exists r, j. split; [exact E|]. destruct (drain_loop_spec _ _ _ _ _ _ _ E) as (Hj & Hk & Hr).
  assert (forall k, (k < j)%nat -> active k <> 0 /\ now k < start + DRAIN_TIMEOUT) as Hk' by (intros k Hkj; apply Hk; lia).
  split; [exact Hk'|]. split; [|exact Hr].
  destruct j as [|j]; [unfold DRAIN_TIMEOUT; lia|]. destruct (Hk' j ltac:(lia)) as [_ Hlt]. specialize (Hclock j). lia.
Qed.

(** The connections accepted at or after the signal. *)
Definition late (t0 : Z) (accepted : list Z) : nat := count (fun t => t0 <= t) accepted.

Lemma late_none t0 acc : (forall t, t ∈ acc -> t < t0) -> late t0 acc = 0%nat.
Proof.
  intros Hacc. unfold late. destruct (count _ acc) eqn:E; [done|]. exfalso. unfold count in E.
  destruct (filter _ acc) as [|t l] eqn:Ef; [done|]. assert (t ∈ filter (fun t => t0 <= t) acc) as Ht by (rewrite Ef; by left).
  apply list_elem_of_filter in Ht as [Hle Ht]. specialize (Hacc t Ht). lia.
Qed.

(** The loop's end comes within a turn of the signal; only the turn under way when it
    came can still accept. *)
Lemma accept_loop_bounded t0 (turns : list (Z * Ready)) : Forall (fun t => 0 <= t.1 <= SHUTDOWN_POLL) turns ->
  forall now acc, now <= t0 + SHUTDOWN_POLL + EXHAUSTED_PAUSE ->
  (forall t, t ∈ acc -> t <= now) -> (now < t0 -> late t0 acc = 0%nat) -> (late t0 acc ≤ 1)%nat ->
  let '(r, now', acc') := accept_loop (requested t0) turns now acc in
  now' <= t0 + SHUTDOWN_POLL + EXHAUSTED_PAUSE /\ (late t0 acc' ≤ 1)%nat /\ (r = Some LShutdown -> t0 <= now').
Proof.
  unfold SHUTDOWN_POLL, EXHAUSTED_PAUSE, requested.
  induction turns as [|[wait ready] turns IH]; intros Hw now acc Hnow Hacc Hz Hone; cbn [accept_loop]; [by split_and!|].
  apply Forall_cons in Hw as [Hw Hws]. cbn in Hw. destruct (Z.leb_spec t0 now) as [Hl|Hl]; [by split_and!|]. specialize (Hz Hl).
  assert (forall t, t ∈ acc -> t <= now + wait) as Ha0 by (intros t Ht; specialize (Hacc t Ht); lia).
  destruct ready as [|errno| | |].
  - apply IH; [done|lia| | |].
    + intros t [Ht| ->%list_elem_of_singleton]%elem_of_app; [by apply Ha0|lia].
    + intros Hlt. unfold late in *. rewrite count_app, Hz, count_one, decide_False by lia. done.
    + unfold late in *. rewrite count_app, Hz, count_one. case_decide; lia.
  - destruct (Z.leb_spec t0 (now + wait)) as [Hl2|Hl2]; [by split_and!; [lia|..]|].
    unfold EXHAUSTED_PAUSE. destruct (accept_exhausted errno); apply IH; try done; try lia. intros t Ht. specialize (Ha0 t Ht). lia.
  - by apply IH; [|lia|..].
  - split; [lia|]. by split.
  - by apply IH; [|lia|..].
Qed.

(** The wake-up connection of the signal handler is not dropped by the loop: it is
    accepted and handed to a session like any other. *)
Lemma wake_up_is_served t0 wait turns : 0 < wait -> exists now acc,
  accept_loop (requested t0) ((wait, RAccepted) :: (0, RTimer) :: turns) (t0 - wait) [] = (Some LShutdown, now, acc) /\ acc = [t0].
Proof.
  intros Hw. exists t0, [t0]. split; [|done]. cbn [accept_loop]. unfold requested.
  destruct (Z.leb_spec t0 (t0 - wait)); [lia|]. replace (t0 - wait + wait) with t0 by lia. by rewrite Z.leb_refl.
Qed.
