(* ===== verification/Serve.v ===== *)
(** * The processes from start to exit ([serve] of [crates/server/src/lib.rs] and
      [crates/client/src/lib.rs], [install] of [crates/common/src/shutdown.rs],
      [main] of [crates/nextppp/src/main.rs])

    What is left of both roles around their loops: the set-up calls of [serve], the
    signal handler with its static state, the loop of the bond inbound, the drop of
    the runtime when [serve] returns, and the exit.  The calls of the system and of
    the runtime answer what they answer; times are those of [Shutdown]. *)
From S2P Require Import Prelude Errors KeyConfig Config Addr NetText Pump Client Shutdown.
From S2P Require Server.

(** ** The signal handler *)

(** [FLAG], [WAKE_ADDR], and whether the process has a handler. *)
Record Signals := Sgn { sl_flag : bool; sl_wake : option SocketAddr; sl_handler : bool }.

Definition signals_new : Signals := Sgn false None false.

(** [install]: [set_handler] is whether [ctrlc] took the handler; a failure is logged. *)
Definition install (set_handler : bool) (wake_addr : SocketAddr) (s : Signals) : Signals :=
  Sgn (sl_flag s) (Some wake_addr) (sl_handler s || set_handler).

(** A signal: without a handler the process dies of it; with it the flag is set, and
    the address in the slot is connected to. *)
Inductive Delivered := Killed | Handled (s : Signals) (connects : option SocketAddr).

Definition deliver (s : Signals) : Delivered :=
  if sl_handler s then Handled (Sgn true (sl_wake s) true) (sl_wake s) else Killed.

(** ** The set-up of [serve] *)

Inductive SetupCall := GetAddress | SetNonblocking | BuildRuntime | FromStd | GetTokioAddress | BondSetNonblocking | BondFromStd | BondGetAddress.

Definition failing {A} (c : SetupCall) (r : result io_error A) : result (SetupCall * io_error) A :=
  match r with Ok a => Ok a | Err e => Err (c, e) end.

(** What the calls on one listener and on the runtime answer.  An address that is only
    logged is asked for only if the line is. *)
Record Setup := Stp {
  su_logged : bool;
  su_local_addr : result io_error SocketAddr;
  su_nonblocking : result io_error unit;
  su_runtime : result io_error unit;
  su_from_std : result io_error unit;
  su_tokio_addr : result io_error SocketAddr;
  su_handler : bool
}.

Definition logged_addr (c : SetupCall) (logged : bool) (addr : result io_error SocketAddr) : result (SetupCall * io_error) unit :=
  if logged then (let? _ := failing c addr in Ok tt) else Ok tt.

(** [serve] up to the runtime, and from inside it up to [install]; the same in both
    roles. *)
Definition open_runtime (su : Setup) : result (SetupCall * io_error) unit :=
  let? _ := logged_addr GetAddress (su_logged su) (su_local_addr su) in
  let? _ := failing SetNonblocking (su_nonblocking su) in
  failing BuildRuntime (su_runtime su).

Definition enter_runtime (su : Setup) (sig : Signals) : result (SetupCall * io_error) Signals :=
  let? _ := failing FromStd (su_from_std su) in
  let? wake := failing GetTokioAddress (su_tokio_addr su) in
  Ok (install (su_handler su) wake sig).

(** The calls on the bond listener before the parameters are looked at. *)
Definition bond_calls (b : Setup) : result (SetupCall * io_error) unit :=
  let? _ := failing BondSetNonblocking (su_nonblocking b) in
  failing BondFromStd (su_from_std b).

(** ** To the exit *)

(** How the loop and the drain behind it ended, when, and when connections were
    accepted, on the bond inbound too where there is one. *)
Record Report := Rep { rp_end : LoopEnd; rp_drained : Drained; rp_at : Z; rp_accepted : list Z; rp_bonded : option (list Z) }.

(** [serve] has not returned, or it panicked or returned at a time. *)
Inductive Run := Running | Panicked (at_ : Z) | Returned (r : result (SetupCall * io_error) Report) (at_ : Z).

(** The gauge and the clock as the turns of a drain read them. *)
Record Drain := Drn { dr_active : nat -> Z; dr_now : nat -> Z }.

(** The tokio runtime: when a blocking function handed to its pool at a given time
    begins, and when the work that runs at a given time ends (the blocking functions,
    and the tasks that are being polled).  Dropping it waits for that work, and what
    is spawned but not running is dropped. *)
Record Runtime := Rtm { rn_starts : Z -> Z; rn_work : Z -> list Z }.

Definition drop_runtime (rn : Runtime) (now : Z) : Z := fold_right Z.max now (rn_work rn now).

(** The runtime is dropped on every way out of [block_on]. *)
Definition dropped (rn : Runtime) (r : Run) : Run :=
  match r with
  | Running => Running
  | Panicked now => Panicked (drop_runtime rn now)
  | Returned r now => Returned r (drop_runtime rn now)
  end.

Section Serve.
(** The flag over time, the readings of a drain that begins at a given time, and the
    runtime. *)
Context (requested : Z -> bool) (drain : Z -> Drain) (rn : Runtime).

(** The loop, and the drain on the blocking pool once it returned.  The task of the
    bond inbound's loop, which accepted [bonded], lives as long as the runtime. *)
Definition loop_and_drain (ran : option LoopEnd * Z * list Z) (bonded : option (list Z)) : Run :=
  match ran with
  | (Some e, now, accepted) =>
      let now := rn_starts rn now in
      match drain_sessions (dr_active (drain now)) (dr_now (drain now)) now 101 with
      | Some (r, j) =>
          let now := dr_now (drain now) j in
          Returned (Ok (Rep e r now accepted (filter (fun t => t <= now) <$> bonded))) now
      | None => Running
      end
  | (None, _, _) => Running
  end.

(** The server's [accept_loop] from its start: [agg_listen] is whether the aggregator
    gave its listener. *)
Definition server_loop (agg_listen : bool) (turns : list (Z * Ready)) (start : Z) : option LoopEnd * Z * list Z :=
  if agg_listen then accept_loop requested turns start [] else (Some LAggregatorFailed, start, []).

Definition serve_server (su : Setup) (agg_listen : bool) (turns : list (Z * Ready)) (start : Z) (sig : Signals) : Run * Signals :=
  match open_runtime su with
  | Err e => (Returned (Err e) start, sig)
  | Ok _ =>
      match enter_runtime su sig with
      | Err e => (dropped rn (Returned (Err e) start), sig)
      | Ok sig => (dropped rn (loop_and_drain (server_loop agg_listen turns start) None), sig)
      end
  end.

(** The client's [serve]: [params] is whether the runtime has bond parameters.  The
    bond inbound's loop is a task of its own, with turns of its own. *)
Definition serve_client (su : Setup) (bond : option Setup) (params : bool) (turns bond_turns : list (Z * Ready)) (start : Z)
    (sig : Signals) : Run * Signals :=
  match open_runtime su with
  | Err e => (Returned (Err e) start, sig)
  | Ok _ =>
      match enter_runtime su sig with
      | Err e => (dropped rn (Returned (Err e) start), sig)
      | Ok sig =>
          let main := loop_and_drain (accept_loop requested turns start []) in
          (dropped rn
             match bond with
             | None => main None
             | Some b =>
                 match bond_calls b with
                 | Err e => Returned (Err e) start
                 | Ok _ =>
                     if negb params then Panicked start
                     else match logged_addr BondGetAddress (su_logged b) (su_tokio_addr b) with
                          | Err e => Returned (Err e) start
                          | Ok _ => main (Some (snd (accept_loop requested bond_turns start [])))
                          end
                 end
             end, sig)
      end
  end.

(** ** The processes

    [main] behind the command line.  A listener is known by what the calls [serve]
    makes on it answer. *)
Context {ParseError : Type} (bind : SocketAddr -> result io_error Setup).

Inductive Exit :=
| Exited (r : result (StartError ParseError + SetupCall * io_error) (option Report)) (at_ : Z)
| ExitPanic (at_ : Z)
| StillRunning.

Definition exit_of (r : Run) : Exit :=
  match r with
  | Running => StillRunning
  | Panicked now => ExitPanic now
  | Returned (Ok rep) now => Exited (Ok (Some rep)) now
  | Returned (Err e) now => Exited (Err (inr e)) now
  end.

Definition server_process (init : option (result io_error bool * result io_error unit)) (text : result io_error str)
    (from_str : str -> result ParseError ServerConfig) (agg_listen : bool) (turns : list (Z * Ready)) (start : Z) : Exit :=
  match run_server bind init text from_str with
  | Err e => Exited (Err (inl e)) start
  | Ok (ExampleWritten _) => Exited (Ok None) start
  | Ok (Serving _ (listener, _)) => exit_of (fst (serve_server listener agg_listen turns start signals_new))
  end.

Definition client_process (init : option (result io_error bool * result io_error unit)) (text : result io_error str)
    (from_str : str -> result ParseError ClientConfig) (turns bond_turns : list (Z * Ready)) (start : Z) : Exit :=
  match run_client bind init text from_str with
  | Err e => Exited (Err (inl e)) start
  | Ok (ExampleWritten _) => Exited (Ok None) start
  | Ok (Serving _ (listener, bond_listener, rt)) =>
      exit_of (fst (serve_client listener bond_listener (bool_decide (is_Some (cr_bond rt))) turns bond_turns start signals_new))
  end.
End Serve.

(** ** Lemmas *)

(** The error a call of the set-up answers with. *)
Definition error_of {A} (r : result io_error A) : option io_error := match r with Ok _ => None | Err e => Some e end.

Definition setup_error (su : Setup) (c : SetupCall) : option io_error :=
  match c with
  | GetAddress => if su_logged su then error_of (su_local_addr su) else None
  | SetNonblocking | BondSetNonblocking => error_of (su_nonblocking su)
  | BuildRuntime => error_of (su_runtime su)
  | FromStd | BondFromStd => error_of (su_from_std su)
  | GetTokioAddress => error_of (su_tokio_addr su)
  | BondGetAddress => if su_logged su then error_of (su_tokio_addr su) else None
  end.

(** The calls made inside the runtime. *)
Definition in_runtime (c : SetupCall) : bool :=
  match c with GetAddress | SetNonblocking | BuildRuntime => false | _ => true end.

Lemma open_runtime_spec su :
  match open_runtime su with
  | Ok _ => True
  | Err (c, e) => in_runtime c = false /\ setup_error su c = Some e
  end.
Proof. unfold open_runtime, logged_addr, failing, setup_error. by destruct su as [[] [] [] [] fs ta h]. Qed.

Lemma enter_runtime_spec su sig :
  match enter_runtime su sig with
  | Ok s => exists wake, su_tokio_addr su = Ok wake /\ s = install (su_handler su) wake sig
  | Err (c, e) => in_runtime c = true /\ setup_error su c = Some e
  end.
Proof. unfold enter_runtime, failing, setup_error. destruct su as [lg la nb ru [] [] h]; try done. by eexists. Qed.

Lemma bond_calls_spec b :
  match bond_calls b with
  | Ok _ => True
  | Err (c, e) => in_runtime c = true /\ setup_error b c = Some e
  end.
Proof. unfold bond_calls, failing, setup_error. by destruct b as [lg la [] ru [] ta h]. Qed.

Lemma bond_addr_spec b :
  match logged_addr BondGetAddress (su_logged b) (su_tokio_addr b) with
  | Ok _ => True
  | Err (c, e) => in_runtime c = true /\ setup_error b c = Some e
  end.
Proof. unfold logged_addr, failing, setup_error. by destruct b as [[] la nb ru fs [] h]. Qed.

(** A runtime whose blocking pool begins a function within [queue] ms, and whose
    running work ends within [grace] ms. *)
Record well_kept (queue grace : Z) (rn : Runtime) : Prop := {
  wk_grace : 0 <= grace;
  wk_starts : forall now, now <= rn_starts rn now <= now + queue;
  wk_work : forall now e, e ∈ rn_work rn now -> e <= now + grace
}.

(** When a process leaves that begins to drop its runtime at [now]: as soon as nothing
    runs any more. *)
Record leaves (rn : Runtime) (grace now at_ : Z) : Prop := {
  lv_bound : now <= at_ <= now + grace;
  lv_waits : forall e, e ∈ rn_work rn now -> e <= at_;
  lv_last : at_ = now \/ at_ ∈ rn_work rn now
}.

Lemma fold_max_spec now l : let m := fold_right Z.max now l in
  now <= m /\ (forall e, e ∈ l -> e <= m) /\ (m = now \/ m ∈ l).
Proof.
  induction l as [|x l (Hn & Hl & Hm)]; cbn [fold_right].
  - split_and!; [lia|by intros e Hin%not_elem_of_nil|by left].
  - split_and!; [lia| |].
    + intros e [->|Hin]%elem_of_cons; [lia|]. specialize (Hl e Hin). lia.
    + destruct (Z.max_spec x (fold_right Z.max now l)) as [[_ ->]|[_ ->]]; [|right; left].
      destruct Hm as [->|Hm]; [by left|right; by right].
Qed.

Lemma drop_runtime_leaves queue grace rn now : well_kept queue grace rn -> leaves rn grace now (drop_runtime rn now).
Proof.
  intros [Hg _ Hw]. destruct (fold_max_spec now (rn_work rn now)) as (Hn & Hl & Hm). unfold drop_runtime. split; [|done..].
  split; [done|]. destruct Hm as [->|Hm]; [lia|by apply Hw].
Qed.

Definition total_wait (turns : list (Z * Ready)) : Z := fold_right (fun t n => t.1 + n) 0 turns.

(** The loop is over at the turn that follows the signal. *)
Lemma accept_loop_ends t0 last turns : forall now acc, t0 <= now + total_wait turns ->
  is_Some (accept_loop (requested t0) (turns ++ [last]) now acc).1.1.
Proof.
  unfold requested. induction turns as [|[wait ready] turns IH]; intros now acc Ht; cbn [app accept_loop total_wait fold_right fst] in *.
  - destruct last as [w r]. rewrite (proj2 (Z.leb_le t0 now)) by lia. by eexists.
  - fold (total_wait turns) in Ht. destruct (t0 <=? now); [by eexists|].
    assert (t0 <= now + wait + total_wait turns) as Ht' by lia. destruct ready as [|errno| | |]; try (by apply IH); [|by eexists].
    destruct (t0 <=? now + wait); [by eexists|]. destruct (accept_exhausted errno); apply IH; unfold EXHAUSTED_PAUSE; lia.
Qed.

(** The loop is ended by the signal or by the aggregator. *)
Lemma accept_loop_reason requested turns : forall now acc, (accept_loop requested turns now acc).1.1 = Some LAggregatorFailed ->
  exists w, (w, RAggregatorFailed) ∈ turns.
Proof.
  assert (forall t (l : list (Z * Ready)), (exists w, (w, RAggregatorFailed) ∈ l) -> exists w, (w, RAggregatorFailed) ∈ t :: l) as Hcons
    by (intros t l (w & Hw); exists w; by right).
  induction turns as [|[wait ready] turns IH]; intros now acc; cbn [accept_loop]; [done|]. destruct (requested now); [done|].
  destruct ready as [|errno| | |]; try (intros E; by eapply Hcons, IH).
  - destruct (requested (now + wait)); [done|]. intros E. by eapply Hcons, IH.
  - intros _. exists wait. by left.
Qed.

(** A drain whose turns take between its pause and [turn] ms. *)
Definition well_timed (turn : Z) (drain : Z -> Drain) : Prop := forall now,
  now <= dr_now (drain now) 0%nat <= now + turn /\ (forall i, dr_now (drain now) i + DRAIN_POLL <= dr_now (drain now) (S i) <= dr_now (drain now) i + turn).

(** What a process that served reports, the signal having come at [t0]. *)
Record report_ok (t0 queue turn : Z) (drain : Z -> Drain) (rep : Report) : Prop := {
  ro_time : rp_at rep <= t0 + SHUTDOWN_POLL + EXHAUSTED_PAUSE + queue + DRAIN_TIMEOUT + turn;
  ro_late : (late t0 (rp_accepted rep) ≤ 1)%nat;
  ro_bonded : forall acc, rp_bonded rep = Some acc -> (late t0 acc ≤ 1)%nat /\ Forall (fun t => t <= rp_at rep) acc;
  ro_signal : rp_end rep = LShutdown -> t0 <= rp_at rep;
  ro_drained : exists now j, rp_at rep = dr_now (drain now) j /\
    (forall k, (k < j)%nat -> dr_active (drain now) k <> 0 /\ dr_now (drain now) k < now + DRAIN_TIMEOUT) /\
    match rp_drained rep with
    | AllDrained => dr_active (drain now) j = 0
    | StillActive n => n = dr_active (drain now) j /\ n <> 0 /\ now + DRAIN_TIMEOUT <= rp_at rep
    end
}.

Lemma drain_clock turn drain now i : well_timed turn drain -> now <= dr_now (drain now) i.
Proof. intros Hd. destruct (Hd now) as [[H0 _] Hs]. unfold DRAIN_POLL in Hs. induction i as [|i IH]; [done|]. specialize (Hs i). lia. Qed.

Lemma late_filter t0 (now : Z) acc : (late t0 (filter (fun t => (t <= now)%Z) acc) ≤ late t0 acc)%nat.
Proof.
  unfold late, count. induction acc as [|t acc IH]; [done|]. rewrite !filter_cons.
  destruct (decide (t <= now)); rewrite ?filter_cons; destruct (decide (t0 <= t)); cbn [length]; lia.
Qed.

Lemma loop_and_drain_ok t0 queue grace turn drain rn e now acc bonded : well_timed turn drain -> well_kept queue grace rn ->
  now <= t0 + SHUTDOWN_POLL + EXHAUSTED_PAUSE -> (late t0 acc ≤ 1)%nat -> (e = LShutdown -> t0 <= now) ->
  (forall b, bonded = Some b -> (late t0 b ≤ 1)%nat) ->
  exists rep, loop_and_drain drain rn (Some e, now, acc) bonded = Returned (Ok rep) (rp_at rep) /\ rp_end rep = e /\
    report_ok t0 queue turn drain rep.
Proof.
  intros Hd Hk Hn Hl He Hb. pose proof (wk_starts _ _ _ Hk now) as Hq. unfold loop_and_drain. set (at_ := rn_starts rn now) in *.
  destruct (Hd at_) as [H0 Hs]. destruct (drain_ends (dr_active (drain at_)) (dr_now (drain at_)) at_ turn H0 Hs) as (r & j & E & Hj & Ht & Hr).
  pose proof (drain_clock turn drain at_ j Hd) as Hc. rewrite E.
  exists (Rep e r (dr_now (drain at_) j) acc (filter (fun t => t <= dr_now (drain at_) j) <$> bonded)). split; [done|]. split; [done|].
  split; cbn [rp_at rp_accepted rp_bonded rp_end rp_drained].
  - lia.
  - done.
  - intros b Eb. destruct bonded as [b'|]; [|done]. injection Eb as <-. split.
    + specialize (Hb b' eq_refl). pose proof (late_filter t0 (dr_now (drain at_) j) b'). lia.
    + apply Forall_forall. by intros t [Hle _]%list_elem_of_filter.
  - intros Ee. specialize (He Ee). lia.
  - exists at_, j. by split_and!.
Qed.

(** The bond inbound is in the report exactly when there is one. *)
Lemma loop_and_drain_bonded drain rn ran bonded rep at_ : loop_and_drain drain rn ran bonded = Returned (Ok rep) at_ ->
  is_Some (rp_bonded rep) <-> is_Some bonded.
Proof.
  unfold loop_and_drain. destruct ran as [[[e|] now] acc]; [|done].
  destruct (drain_sessions _ _ _ _) as [[r j]|]; [|done]. intros [= <- _]. cbn [rp_bonded]. by rewrite fmap_is_Some.
Qed.

(** A loop from its start. *)
Lemma loop_late t0 turns start : start <= t0 -> Forall (fun t => 0 <= t.1 <= SHUTDOWN_POLL) turns ->
  (late t0 (accept_loop (requested t0) turns start []).2 ≤ 1)%nat.
Proof.
  intros Ht Hw. pose proof (accept_loop_bounded t0 _ Hw start []) as Hb.
  destruct (accept_loop (requested t0) turns start []) as [[r now] acc].
  destruct Hb as (_ & Hl & _); [unfold SHUTDOWN_POLL, EXHAUSTED_PAUSE; lia|by intros t Hin%not_elem_of_nil|done|by apply Nat.le_0_l|done].
Qed.

(** A loop from its start to the report. *)
Lemma served t0 queue grace turn drain rn turns last start bonded : start <= t0 <= start + total_wait turns ->
  Forall (fun t => 0 <= t.1 <= SHUTDOWN_POLL) (turns ++ [last]) -> well_timed turn drain -> well_kept queue grace rn ->
  (forall b, bonded = Some b -> (late t0 b ≤ 1)%nat) ->
  exists rep, loop_and_drain drain rn (accept_loop (requested t0) (turns ++ [last]) start []) bonded = Returned (Ok rep) (rp_at rep) /\
    report_ok t0 queue turn drain rep /\
    (rp_end rep = LAggregatorFailed -> exists w, (w, RAggregatorFailed) ∈ turns ++ [last]).
Proof.
  intros Ht Hw Hd Hk Hbond. pose proof (accept_loop_bounded t0 _ Hw start []) as Hb. destruct (accept_loop_ends t0 last turns start []) as [e He]; [lia|].
  pose proof (accept_loop_reason (requested t0) (turns ++ [last]) start []) as Hreason.
  destruct (accept_loop (requested t0) (turns ++ [last]) start []) as [[r now] acc]. cbn in He. subst r.
  destruct Hb as (Hn & Hl & Hr); [unfold SHUTDOWN_POLL, EXHAUSTED_PAUSE; lia|by intros t Hin%not_elem_of_nil|done|by apply Nat.le_0_l|].
  destruct (loop_and_drain_ok t0 queue grace turn drain rn e now acc bonded Hd Hk Hn Hl) as (rep & E & Ee & Hok); [by intros ->; apply Hr|done|].
  exists rep. split; [done|]. split; [done|]. rewrite Ee. intros ->. by apply Hreason.
Qed.

(** Where an error of the set-up of [su], or of the bond listener, leaves the process. *)
Definition setup_failed (rn : Runtime) (su : Setup) (bond : option Setup) (start : Z) (c : SetupCall) (e : io_error) (at_ : Z) : Prop :=
  (setup_error su c = Some e \/ exists b, bond = Some b /\ setup_error b c = Some e) /\
  at_ = if in_runtime c then drop_runtime rn start else start.

(** How the client's [serve] goes: its loops, an error of a set-up call, or the panic. *)
Lemma serve_client_cases requested drain rn su bond params turns bond_turns start sig :
  let r := fst (serve_client requested drain rn su bond params turns bond_turns start sig) in
  r = dropped rn (loop_and_drain drain rn (accept_loop requested turns start [])
                    ((fun _ => snd (accept_loop requested bond_turns start [])) <$> bond)) \/
  (exists c e at_, r = Returned (Err (c, e)) at_ /\ setup_failed rn su bond start c e at_) \/
  ((is_Some bond /\ params = false) /\ r = Panicked (drop_runtime rn start)).
Proof.
  unfold serve_client, setup_failed. pose proof (open_runtime_spec su) as Ho. destruct (open_runtime su) as [[]|[c e]].
  2: { right. left. destruct Ho as [Hc He]. exists c, e, start. rewrite Hc. by auto. }
  pose proof (enter_runtime_spec su sig) as He. destruct (enter_runtime su sig) as [s|[c e]]; cbn [fst dropped].
  2: { right. left. destruct He as [Hc He]. exists c, e, (drop_runtime rn start). rewrite Hc. by auto. }
  destruct bond as [b|]; [|by left]. pose proof (bond_calls_spec b) as Hb. destruct (bond_calls b) as [[]|[c e]].
  2: { right. left. destruct Hb as [Hc Hb]. exists c, e, (drop_runtime rn start). rewrite Hc. by eauto 6. }
  destruct params; [|right; right; by eauto]. cbn [negb].
  pose proof (bond_addr_spec b) as Ha. destruct (logged_addr _ _ _) as [[]|[c e]]; [by left|].
  right. left. destruct Ha as [Hc Ha]. exists c, e, (drop_runtime rn start). rewrite Hc. by eauto 6.
Qed.

(** A client that serves has its bond listener exactly when it has bond parameters. *)
Lemma run_client_bond {L P} (bind : SocketAddr -> result io_error L) init text (from_str : str -> result P ClientConfig) l b rt :
  run_client bind init text from_str = Ok (Serving _ (l, b, rt)) -> is_Some b -> is_Some (cr_bond rt).
Proof.
  unfold run_client. destruct init as [path|]; [by destruct (write_example path).1|].
  destruct (ClientConfig_load text from_str) as [cfg|] eqn:El; [|done]. destruct (client_load_ok _ _ _ El) as [_ Hb].
  destruct (bind_listen bind (cc_listen cfg)) as [l'|]; [|done].
  destruct (cc_bond cfg) as [bc|] eqn:Ec; [destruct (bind_listen bind (bc_listen bc)) as [bl|]; [|done]|];
    (destruct (ClientRuntime_from_config cfg) as [rt'|] eqn:Er; [|done]); intros [= <- <- <-] Hs; [|by destruct Hs].
  destruct (from_config_ok _ _ Er) as [_ Hrb]; [by rewrite Ec|]. destruct (cr_bond rt'); [done|].
  destruct Hrb as [Hrb _]. specialize (Hrb eq_refl). by rewrite Ec in Hrb.
Qed.

(** The example is written on [--init] alone. *)
Lemma server_example {L P} (bind : SocketAddr -> result io_error L) init text (from_str : str -> result P ServerConfig) :
  match run_server bind init text from_str with
  | Ok (ExampleWritten _) => init = Some (Ok false, Ok tt)
  | Ok _ => init = None
  | Err _ => True
  end.
Proof.
  unfold run_server. destruct init as [[[[]|] [[]|]]|]; try done. cbn. destruct (ServerConfig_load text from_str); [|done].
  destruct (bind_listen bind _); [|done]. cbn. by destruct (Server.ServerRuntime_from_config _).
Qed.

Lemma client_example {L P} (bind : SocketAddr -> result io_error L) init text (from_str : str -> result P ClientConfig) :
  match run_client bind init text from_str with
  | Ok (ExampleWritten _) => init = Some (Ok false, Ok tt)
  | Ok _ => init = None
  | Err _ => True
  end.
Proof.
  unfold run_client. destruct init as [[[[]|] [[]|]]|]; try done. cbn. destruct (ClientConfig_load text from_str) as [cfg|]; [|done].
  destruct (bind_listen bind _); [|done]. cbn. destruct (match cc_bond cfg with Some _ => _ | None => _ end); [|done]. cbn.
  by destruct (ClientRuntime_from_config _).
Qed.

(** ** Properties *)

(** What both processes are asked for, from a run to the exit. *)
Section Exit.
Context (t0 queue grace turn : Z) (drain : Z -> Drain) (rn : Runtime) (turns bond_turns : list (Z * Ready)) (last : Z * Ready) (start : Z).

(** A signal within the turns of the loops, no turn longer than its poll. *)
Record in_time : Prop := {
  it_signal : start <= t0 <= start + total_wait turns;
  it_turns : Forall (fun t => 0 <= t.1 <= SHUTDOWN_POLL) (turns ++ [last]);
  it_bonded : Forall (fun t => 0 <= t.1 <= SHUTDOWN_POLL) bond_turns;
  it_drain : well_timed turn drain;
  it_kept : well_kept queue grace rn
}.

Lemma client_served su bond params sig : in_time -> (is_Some bond -> params = true) ->
  match fst (serve_client (requested t0) drain rn su bond params (turns ++ [last]) bond_turns start sig) with
  | Returned (Ok rep) at_ => report_ok t0 queue turn drain rep /\ leaves rn grace (rp_at rep) at_ /\
      (is_Some (rp_bonded rep) <-> is_Some bond) /\ (rp_end rep = LAggregatorFailed -> exists w, (w, RAggregatorFailed) ∈ turns ++ [last])
  | Returned (Err (c, e)) at_ => setup_failed rn su bond start c e at_
  | Panicked _ | Running => False
  end.
Proof.
  intros [Ht Hw Hbw Hd Hk] Hp. set (bonded := (fun _ => (accept_loop (requested t0) bond_turns start []).2) <$> bond).
  destruct (served t0 queue grace turn drain rn turns last start bonded Ht Hw Hd Hk) as (rep & Erep & Hok & Hr).
  { intros b (? & _ & ->)%fmap_Some. by apply loop_late; [lia|]. }
  assert (is_Some (rp_bonded rep) <-> is_Some bond) as Hb.
  { rewrite (loop_and_drain_bonded _ _ _ _ _ _ Erep). unfold bonded. by rewrite fmap_is_Some. }
  destruct (serve_client_cases (requested t0) drain rn su bond params (turns ++ [last]) bond_turns start sig) as [->|[(c & e & at_ & -> & He)|[[Hb' Hf] _]]].
  - fold bonded. rewrite Erep. cbn [dropped]. split_and!; try done. by eapply drop_runtime_leaves.
  - done.
  - by rewrite Hp in Hf.
Qed.

Lemma server_served su agg sig : in_time ->
  match fst (serve_server (requested t0) drain rn su agg (turns ++ [last]) start sig) with
  | Returned (Ok rep) at_ => report_ok t0 queue turn drain rep /\ leaves rn grace (rp_at rep) at_ /\ rp_bonded rep = None /\
      (rp_end rep = LAggregatorFailed -> agg = false \/ exists w, (w, RAggregatorFailed) ∈ turns ++ [last])
  | Returned (Err (c, e)) at_ => setup_failed rn su None start c e at_
  | Panicked _ | Running => False
  end.
Proof.
  intros [Ht Hw _ Hd Hk]. unfold serve_server, setup_failed. pose proof (open_runtime_spec su) as Ho. destruct (open_runtime su) as [[]|[c e]].
  2: { destruct Ho as [Hc He]. cbn [fst]. rewrite Hc. by auto. }
  pose proof (enter_runtime_spec su sig) as He. destruct (enter_runtime su sig) as [s|[c e]]; cbn [fst].
  2: { destruct He as [Hc He]. cbn [dropped]. rewrite Hc. by auto. }
  assert (exists rep, loop_and_drain drain rn (server_loop (requested t0) agg (turns ++ [last]) start) None = Returned (Ok rep) (rp_at rep) /\
    report_ok t0 queue turn drain rep /\ (rp_end rep = LAggregatorFailed -> agg = false \/ exists w, (w, RAggregatorFailed) ∈ turns ++ [last]))
    as (rep & E & Hok & Hr).
  { unfold server_loop. destruct agg.
    - destruct (served t0 queue grace turn drain rn turns last start None Ht Hw Hd Hk) as (rep & E & Hok & Hr); [done|]. exists rep. by auto.
    - destruct (loop_and_drain_ok t0 queue grace turn drain rn LAggregatorFailed start [] None Hd Hk) as (rep & E & Hr & Hok);
        try done; [unfold SHUTDOWN_POLL, EXHAUSTED_PAUSE; lia|apply Nat.le_0_l|]. exists rep. by auto. }
  rewrite E. cbn [dropped]. split_and!; try done; [by eapply drop_runtime_leaves|].
  apply loop_and_drain_bonded in E as [E _]. destruct (rp_bonded rep); [|done]. by destruct E.
Qed.
End Exit.

(** C38: both processes from start to exit.  Let a signal come at [t0], let no turn of
    an accept loop wait longer than its poll, let the turns last up to the signal,
    and let the runtime begin a blocking function within [queue] ms of its being
    spawned and be done with the work that runs at any one time within [grace] ms.
    Then the process exits: with the example written under [--init]; with the error
    of the start-up, or of the first call of [serve]'s set-up that fails, before
    its loop accepts anything; or successfully after its loop and its drain.  The
    drain ends at most 300 ms, [queue], 10 s and one of its turns after the signal,
    reporting all sessions drained when the reading that stops it is zero and
    otherwise the sessions active at the first reading past the deadline.  The
    process is then gone exactly when the work that ran at that moment has ended,
    for dropping the runtime waits for it, so its exit is bounded by [grace] on top
    and by nothing of the code's own; an error inside the runtime waits likewise.
    Behind the signal the loop accepts at most one connection, and so does the loop
    of the bond inbound, which the client has exactly when it has a bond listener.
    It never panics on its bond parameters.  Only the server's loop can end for
    another reason than the signal, when the aggregator fails, and that exit is
    successful too.  Once [serve] is set up with a handler, a signal sets the flag
    and connects to the listener's own address; before that it kills. *)
Theorem processes_exit {P : Type} t0 queue grace turn drain rn (bind : SocketAddr -> result io_error Setup) init text
    (from_server : str -> result P ServerConfig) (from_client : str -> result P ClientConfig) agg turns bond_turns last start :
  in_time t0 queue grace turn drain rn turns bond_turns last start ->
  match server_process (requested t0) drain rn bind init text from_server agg (turns ++ [last]) start with
  | Exited (Ok None) _ => init = Some (Ok false, Ok tt)
  | Exited (Ok (Some rep)) at_ => init = None /\ report_ok t0 queue turn drain rep /\ leaves rn grace (rp_at rep) at_ /\
      rp_bonded rep = None /\
      (rp_end rep = LAggregatorFailed -> agg = false \/ exists w, (w, RAggregatorFailed) ∈ turns ++ [last])
  | Exited (Err (inl e)) _ => run_server bind init text from_server = Err e
  | Exited (Err (inr (c, e))) at_ => exists l rt, run_server bind init text from_server = Ok (Serving _ (l, rt)) /\
      setup_failed rn l None start c e at_
  | ExitPanic _ | StillRunning => False
  end /\
  match client_process (requested t0) drain rn bind init text from_client (turns ++ [last]) bond_turns start with
  | Exited (Ok None) _ => init = Some (Ok false, Ok tt)
  | Exited (Ok (Some rep)) at_ => init = None /\ report_ok t0 queue turn drain rep /\ leaves rn grace (rp_at rep) at_ /\
      (exists l b rt, run_client bind init text from_client = Ok (Serving _ (l, b, rt)) /\ (is_Some (rp_bonded rep) <-> is_Some b)) /\
      (rp_end rep = LAggregatorFailed -> exists w, (w, RAggregatorFailed) ∈ turns ++ [last])
  | Exited (Err (inl e)) _ => run_client bind init text from_client = Err e
  | Exited (Err (inr (c, e))) at_ => exists l b rt, run_client bind init text from_client = Ok (Serving _ (l, b, rt)) /\
      setup_failed rn l b start c e at_
  | ExitPanic _ | StillRunning => False
  end /\
  deliver signals_new = Killed /\
  (forall su sig s, enter_runtime su sig = Ok s -> sl_handler s = true ->
     exists wake, su_tokio_addr su = Ok wake /\ deliver s = Handled (Sgn true (Some wake) true) (Some wake)).
Proof.
  intros Hin. split; [|split; [|split]].
  - unfold server_process. destruct (run_server bind init text from_server) as [[|[l rt]]|e] eqn:Er; [..|done];
      pose proof (server_example bind init text from_server) as Hi; rewrite Er in Hi; [done|].
    pose proof (server_served _ _ _ _ _ _ _ _ _ _ l agg signals_new Hin) as Hs.
    destruct (fst (serve_server _ _ _ _ _ _ _ _)) as [|at_|[rep|[c e]] at_]; cbn [exit_of]; try done. by exists l, rt.
  - unfold client_process. destruct (run_client bind init text from_client) as [[|[[l b] rt]]|e] eqn:Er; [..|done];
      pose proof (client_example bind init text from_client) as Hi; rewrite Er in Hi; [done|].
    pose proof (client_served _ _ _ _ _ _ _ _ _ _ l b (bool_decide (is_Some (cr_bond rt))) signals_new Hin) as Hs.
    destruct (fst (serve_client _ _ _ _ _ _ _ _ _ _)) as [|at_|[rep|[c e]] at_]; cbn [exit_of];
      (lapply Hs; [clear Hs; intros Hs|by intros Hb; apply bool_decide_eq_true; eapply run_client_bond]); try done; [|by exists l, b, rt].
    destruct Hs as (Hok & Hl & Hb & Hr). split_and!; try done. by exists l, b, rt.
  - done.
  - intros su sig s E Hh. pose proof (enter_runtime_spec su sig) as Hs. rewrite E in Hs. destruct Hs as (wake & Ew & ->).
    exists wake. split; [done|]. unfold deliver. by rewrite Hh.
Qed.

(** A server on port 80 of every address; a signal in its second turn. *)
Definition sample_config : ServerConfig := SConfig (lit "0.0.0.0:80") false (Some (lit "secret")) 10 10 None None None ObfuscationConfig_default.
Definition sample_addr : SocketAddr := SockAddr (V4 [0; 0; 0; 0]) 80 0.
Definition sample_setup : Setup := Stp true (Ok sample_addr) (Ok tt) (Ok tt) (Ok tt) (Ok sample_addr) true.
Definition sample_drain (now : Z) : Drain := Drn (fun i => if (i <? 3)%nat then 2 else 0) (fun i => now + 100 * Z.of_nat i).

(** At any time a handshake may run that gives up at 15 s. *)
Definition sample_runtime : Runtime := Rtm (fun now => now + 1) (fun now => if (0 <=? now) && (now <? 15000) then [15000] else []).

(** A drain that ends at once, and a process that a handshake keeps for 14 s more. *)
Lemma processes_exit_witness :
  let turns := [(200, RTimer); (50, RAccepted)] ++ [(0, RTimer)] in
  let process := server_process (requested 250) sample_drain sample_runtime (fun _ => Ok sample_setup) None (Ok [])
                   (fun _ => @Ok unit _ sample_config) true turns 0 in
  process = Exited (Ok (Some (Rep LShutdown AllDrained 551 [250] None))) 15000 /\
  551 <= 250 + SHUTDOWN_POLL + EXHAUSTED_PAUSE + 1 + DRAIN_TIMEOUT + 100 /\ 551 <= 15000 <= 551 + 15000.
Proof.
  intros turns process.
  assert (process = Exited (Ok (Some (Rep LShutdown AllDrained 551 [250] None))) 15000) as E by (vm_compute; reflexivity).
  split; [exact E|].
  destruct (processes_exit 250 1 15000 100 sample_drain sample_runtime (fun _ => Ok sample_setup) None (Ok []) (fun _ => @Ok unit _ sample_config)
    (fun _ => @Err unit ClientConfig tt) true [(200, RTimer); (50, RAccepted)] [] (0, RTimer) 0) as [H _].
  - split.
    + vm_compute. by split.
    + unfold SHUTDOWN_POLL. repeat (apply Forall_cons; split; [simpl; lia|]). by apply Forall_nil.
    + by apply Forall_nil.
    + intros now. unfold DRAIN_POLL. cbn. split; [lia|]. intros i. lia.
    + split; [lia|cbn; lia|]. intros now e. cbn. destruct (Z.leb_spec 0 now), (Z.ltb_spec now 15000); cbn; try by intros Hin%not_elem_of_nil.
      intros ->%list_elem_of_singleton. lia.
  - fold turns in H. fold process in H. rewrite E in H. destruct H as (_ & Hok & Hleaves & _).
    split; [exact (ro_time _ _ _ _ _ Hok)|exact (lv_bound _ _ _ _ Hleaves)].
Defined.
