(* ===== verification/Bond.v ===== *)
(** * Bonded tunnels ([crates/client/src/bond.rs], [crates/server/src/bond.rs])

    The outcome of the client's dial of a link-aggregated tunnel and the server's
    registration of a link; the dialer as the pool uses it, with its clock and its
    upkeep of the links, is in [Dialer].  The aggregator is a third-party crate:
    what its calls answer are arguments, and the calls the code makes on it
    ([terminate], [add_io]) are what is computed. *)
From S2P Require Import Prelude Errors Pump.

(** ** Dialing *)

(** How one link task ends, and for a dialed link whether [add_io] takes it. *)
Inductive LinkEnd := LinkJoinError | LinkFailed (chain : list Cause) | LinkDialed (added : bool).

Inductive BondError := LinkJoin | LinksRefused | AllLinksFailed | ChannelFailed | ChannelTimeout.

(** [e.chain().any(..)]: is the cause [CoreError::RoleRefused]. *)
Definition chain_refused (chain : list Cause) : bool :=
  existsb (fun c => match c with CoreCause e => error_eq e RoleRefused | _ => false end) chain.

(** The loop over the link tasks: the links added and whether the server refused the
    role; [None] when a task could not be joined. *)
Fixpoint collect_links (tasks : list LinkEnd) (live : nat) (refused : bool) : option (nat * bool) :=
  match tasks with
  | [] => Some (live, refused)
  | LinkJoinError :: _ => None
  | LinkDialed added :: tasks => collect_links tasks (if added then S live else live) refused
  | LinkFailed chain :: tasks => collect_links tasks live (refused || chain_refused chain)
  end.

(** The wait until [Control::links] shows [live] links: [links i] is its length at
    the [i]-th look, [now i] the clock after it; the looks made. *)
Fixpoint settle (links : nat -> nat) (now : nat -> Z) (live : nat) (settled : Z) (fuel i : nat) : option nat :=
  match fuel with
  | O => None
  | S fuel => if (links i <? live)%nat && (now i <? settled) then settle links now live settled fuel (S i) else Some i
  end.

(** [outgoing.connect()] under [connect_timeout]. *)
Inductive ChannelEnd := ChannelUp (id : Z) | ChannelErr | ChannelElapsed.

(** [BondDialer::dial]: the tunnel's id or the error, and whether the aggregator was
    terminated. *)
Definition bond_dial (tasks : list LinkEnd) (channel : ChannelEnd) : result BondError Z * bool :=
  match collect_links tasks 0 false with
  | None => (Err LinkJoin, true)
  | Some (live, refused) =>
      if (live =? 0)%nat then (Err (if refused then LinksRefused else AllLinksFailed), true)
      else
        match channel with
        | ChannelUp id => (Ok id, false)
        | ChannelErr => (Err ChannelFailed, true)
        | ChannelElapsed => (Err ChannelTimeout, true)
        end
  end.

(** ** The server's side *)

(** What becomes of the active slot counted before [register_link]: never given back,
    held by the aggregator with the link's read half, or given back at once. *)
Inductive LinkSlot := SlotLost | SlotHeld | SlotReleased.

(** [register_link]: [split_link]'s outcome and [add_incoming_io]'s. *)
Definition register_link (split added : bool) : LinkSlot :=
  if split then (if added then SlotHeld else SlotReleased) else SlotLost.

(** ** Lemmas *)

Definition link_added (t : LinkEnd) : bool := match t with LinkDialed added => added | _ => false end.
Definition link_refused (t : LinkEnd) : bool := match t with LinkFailed chain => chain_refused chain | _ => false end.
Definition added_links (tasks : list LinkEnd) : nat := count (fun t => link_added t = true) tasks.

Lemma added_links_cons t tasks : added_links (t :: tasks) = ((if link_added t then 1 else 0) + added_links tasks)%nat.
Proof.
  unfold added_links. change (t :: tasks) with ([t] ++ tasks). rewrite count_app, count_one.
  destruct (link_added t); [rewrite decide_True by done|rewrite decide_False by done]; done.
Qed.

Lemma collect_links_spec tasks : forall live refused,
  match collect_links tasks live refused with
  | None => LinkJoinError ∈ tasks
  | Some (n, r) => (LinkJoinError ∉ tasks) /\ n = (live + added_links tasks)%nat /\ r = (refused || existsb link_refused tasks)
  end.
Proof.
  induction tasks as [|t tasks IH]; intros live refused; cbn [collect_links].
  { split; [apply not_elem_of_nil|]. split; [unfold added_links; cbn; lia|]. by rewrite orb_false_r. }
  destruct t as [|chain|added].
  - apply list_elem_of_here.
  - specialize (IH live (refused || chain_refused chain)). destruct (collect_links _ _ _) as [[n r]|]; [|by apply list_elem_of_further].
    destruct IH as (Hj & -> & ->). rewrite added_links_cons, not_elem_of_cons. split_and!; [done..|].
    cbn [existsb link_refused]. by rewrite orb_assoc.
  - specialize (IH (if added then S live else live) refused). destruct (collect_links _ _ _) as [[n r]|]; [|by apply list_elem_of_further].
    destruct IH as (Hj & -> & ->). rewrite added_links_cons, not_elem_of_cons. cbn [link_added existsb link_refused orb].
    split_and!; [done..| |done]. destruct added; lia.
Qed.

(** The wait ends: 26 looks 10 ms apart pass 250 ms. *)
Lemma settle_ends links now live start : start <= now 0%nat -> (forall i, now i + 10 <= now (S i)) ->
  is_Some (settle links now live (start + 250) 26 0).
Proof.
  intros H0 Hclock. assert (forall fuel i, (i + fuel = 26)%nat -> (1 ≤ fuel)%nat -> start + 10 * Z.of_nat i <= now i ->
    is_Some (settle links now live (start + 250) fuel i)) as Hgen.
  { induction fuel as [|fuel IH]; intros i Hi Hf Hn; [lia|]. cbn [settle].
    destruct (_ <? live)%nat; [|by eexists]. destruct (Z.ltb_spec (now i) (start + 250)); [|by eexists]. cbn [andb].
    destruct fuel as [|fuel]; [lia|]. apply IH; [lia|lia|]. specialize (Hclock i). lia. }
  apply Hgen; lia.
Qed.

(** ** Properties *)

(** C36: a bonded tunnel is dialed completely or not at all: it comes up exactly when
    every link task could be joined, at least one of the links was added and the
    channel connected, and then the aggregator lives; on every error the
    aggregator is terminated, so no added link lingers; and the error tells why,
    a refusal of the role only when no link was added and the server refused one. *)
Theorem bond_dial_exact tasks channel :
  match bond_dial tasks channel with
  | (Ok id, terminated) =>
      terminated = false /\ (LinkJoinError ∉ tasks) /\ (1 ≤ added_links tasks ≤ length tasks)%nat /\ channel = ChannelUp id
  | (Err e, terminated) => terminated = true /\
      match e with
      | LinkJoin => LinkJoinError ∈ tasks
      | LinksRefused => added_links tasks = 0%nat /\ exists chain, LinkFailed chain ∈ tasks /\ chain_refused chain = true
      | AllLinksFailed => added_links tasks = 0%nat /\ forall chain, LinkFailed chain ∈ tasks -> chain_refused chain = false
      | ChannelFailed => (1 ≤ added_links tasks)%nat /\ channel = ChannelErr
      | ChannelTimeout => (1 ≤ added_links tasks)%nat /\ channel = ChannelElapsed
      end
  end.
Proof.
  unfold bond_dial. pose proof (collect_links_spec tasks 0 false) as Hc.
  destruct (collect_links tasks 0 false) as [[n r]|]; [|done]. destruct Hc as (Hj & -> & ->). cbn [orb Nat.add].
  pose proof (count_le (fun t => link_added t = true) tasks) as Hle. fold (added_links tasks) in Hle.
  destruct (Nat.eqb_spec (added_links tasks) 0) as [E|E].
  - destruct (existsb link_refused tasks) eqn:Er; split; try done; (split; [done|]).
    + apply existsb_exists in Er as (t & Hin%list_elem_of_In & Ht). destruct t as [|chain|]; try done. by exists chain.
    + intros chain Hin. apply not_true_is_false. intros Hr. apply not_true_iff_false in Er. apply Er.
      apply existsb_exists. exists (LinkFailed chain). split; [by apply list_elem_of_In|done].
  - destruct channel; split_and!; (done || lia).
Qed.
