(* ===== verification/TunnelPair.v ===== *)
(** * One tunnel with both its ends

    The client's tunnel ([Pool]) and the server's ([Server]) joined by the two
    directions of their carrier, which keeps the order of the frames
    ([Tunnel.session_tunnel_delivers]).  Either side takes its steps in any order;
    a frame that one side's writer took is read by the other side, or not yet.
    The theorem says what the mux protocol promises to its users end to end. *)
From S2P Require Import Prelude Errors Mux Addr Tunnel KeyConfig Config Server Pool.

Record Pair := Pr {
  pr_client : Pool.Tunnel;
  pr_up : list OutFrame;       (** what the client's writer took *)
  pr_up_read : nat;            (** how much of it the server's reader took *)
  pr_server : TunnelState;     (** with [tn_wire], what the server's writer took *)
  pr_down_read : nat           (** how much of it the client's reader took *)
}.

Definition pair_new : Pair := Pr spawn_tunnel [] 0 tunnel_new 0.

Inductive pair_step (rt : ServerRuntime) : Pair -> Pair -> Prop :=
| pair_client t t' up n s m :
    client_local t t' -> pair_step rt (Pr t up n s m) (Pr t' up n s m)
| pair_client_writes t f q up n s m :
    ct_closed t = false -> ct_queue t = f :: q -> pair_step rt (Pr t up n s m) (Pr (with_out q t) (up ++ [f]) n s m)
| pair_client_reads t f d up n s m :
    ct_reader t = true -> tn_wire s !! m = Some f ->
    pair_step rt (Pr t up n s m) (Pr (reader_frame (message f) d t) up n s (S m))
| pair_server t up n s s' m :
    tunnel_local s s' -> pair_step rt (Pr t up n s m) (Pr t up n s' m)
| pair_server_reads t up n f s m :
    tn_demux s = DIdle -> up !! n = Some f -> wf_bytes (message f) ->
    pair_step rt (Pr t up n s m) (Pr t up (S n) (demux_frame rt (message f) s) m).

(** ** What a log of frames says of a stream *)

(** The event a frame is for a stream, if any. *)
Definition frame_event (sid : Z) (f : OutFrame) : list StreamEvent :=
  match parse_frame (message f) with
  | Ok (Data, s, p) => if s =? sid then [SData p] else []
  | Ok (Eof, s, _) => if s =? sid then [SEof] else []
  | _ => []
  end.

Definition events (sid : Z) (l : list OutFrame) : list StreamEvent := l ≫= frame_event sid.

(** A frame of a kind for a stream. *)
Definition is_kind (k : FrameKind) (sid : Z) (f : OutFrame) : bool :=
  match parse_frame (message f) with Ok (k', s, _) => bool_decide (k' = k) && (s =? sid) | Err _ => false end.

Definition kinds (k : FrameKind) (sid : Z) (l : list OutFrame) : nat := count (fun f => is_kind k sid f = true) l.

(** The OPEN of a call. *)
Definition open_frame (c : OpenCall) : OutFrame := OutFrame_new Open (op_sid c) (addr_encode (op_addr c)).

(** Everything the client ever queued, in order. *)
Definition client_log (s : Pair) : list OutFrame := pr_up s ++ ct_queue (pr_client s).

(** What the server, and the client, have read. *)
Definition up_seen (s : Pair) : list OutFrame := take (pr_up_read s) (pr_up s).
Definition down_seen (s : Pair) : list OutFrame := take (pr_down_read s) (tn_wire (pr_server s)).

Lemma events_app sid a b : events sid (a ++ b) = events sid a ++ events sid b.
Proof. apply bind_app. Qed.

Lemma events_snoc sid l f : events sid (l ++ [f]) = events sid l ++ frame_event sid f.
Proof. rewrite events_app. f_equal. unfold events. cbn. apply app_nil_r. Qed.

Lemma kinds_app k sid a b : kinds k sid (a ++ b) = (kinds k sid a + kinds k sid b)%nat.
Proof. apply count_app. Qed.

Lemma kinds_prefix k sid a b : a `prefix_of` b -> (kinds k sid a ≤ kinds k sid b)%nat.
Proof. intros [c ->]. rewrite kinds_app. lia. Qed.

Lemma events_prefix sid a b : a `prefix_of` b -> events sid a `prefix_of` events sid b.
Proof. intros [c ->]. rewrite events_app. by eexists. Qed.

Section FrameNew.
Context (k : FrameKind) (s : Z) (p : bytes) (Hs : is_u32 s).
Implicit Types sid : Z.

Lemma frame_event_new sid : frame_event sid (OutFrame_new k s p) =
  if s =? sid then match k with Data => [SData p] | Eof => [SEof] | _ => [] end else [].
Proof.
  unfold frame_event, message. cbn [of_header of_payload OutFrame_new]. rewrite parse_frame_header by done.
  destruct k, (s =? sid); done.
Qed.

Lemma is_kind_new k' sid : is_kind k' sid (OutFrame_new k s p) = bool_decide (k = k') && (s =? sid).
Proof. unfold is_kind, message. cbn [of_header of_payload OutFrame_new]. by rewrite parse_frame_header by done. Qed.

Lemma kinds_new k' sid : kinds k' sid [OutFrame_new k s p] = if decide (k = k' /\ s = sid) then 1%nat else 0%nat.
Proof.
  unfold kinds, count. cbn. rewrite is_kind_new. destruct (decide (k = k' /\ s = sid)) as [[-> ->]|Hn].
  - by rewrite bool_decide_true, Z.eqb_refl by done.
  - destruct (bool_decide_reflect (k = k')), (Z.eqb_spec s sid); try done. by destruct Hn.
Qed.
End FrameNew.

(** ** What a step of the client does *)

(** Its OPEN is on the way, or answered, and the call still runs. *)
Definition opened (c : OpenCall) : bool := match op_phase c with OWaiting | OStreaming _ => true | _ => false end.

(** The frames one step queues, and the call whose OPEN it is. *)
Inductive may_queue (t : Pool.Tunnel) : option nat -> list OutFrame -> Prop :=
| mq_none : may_queue t None []
| mq_open i c : ct_calls t !! i = Some c -> op_phase c = OSending -> may_queue t (Some i) [open_frame c]
| mq_pump i c f : ct_calls t !! i = Some c -> opened c = true -> pump_frame (op_sid c) f = true -> may_queue t None [f]
| mq_close sid : is_u32 sid -> may_queue t None [OutFrame_bare Close sid].

(** A step queues [fs]; calls keep their identity and only move forward; a new one
    starts out with nothing. *)
Record client_effect (t t' : Pool.Tunnel) (who : option nat) (fs : list OutFrame) : Prop := {
  ce_queue : ct_queue t' = ct_queue t ++ fs;
  ce_fs : may_queue t who fs;
  ce_length : (length (ct_calls t) ≤ length (ct_calls t'))%nat;
  ce_calls : forall i c', ct_calls t' !! i = Some c' ->
    (exists c, ct_calls t !! i = Some c /\ op_sid c' = op_sid c /\ op_addr c' = op_addr c /\
       (op_phase c' = OSending -> op_phase c = OSending /\ who <> Some i) /\
       (opened c' = true -> opened c = true \/ who = Some i)) \/
    (ct_calls t !! i = None /\ op_phase c' = OSending)
}.

(** A step that reads nothing leaves what the calls received as it is. *)
Record client_quiet (t t' : Pool.Tunnel) : Prop := {
  cq_calls : forall i c', ct_calls t' !! i = Some c' ->
    (exists c, ct_calls t !! i = Some c /\ op_events c' = op_events c /\ op_reply c' = op_reply c) \/
    (ct_calls t !! i = None /\ op_events c' = [] /\ op_reply c' = None);
  cq_registry : forall sid i, ct_registry t' !! sid = Some i ->
    ct_registry t !! sid = Some i \/ ct_calls t !! i = None
}.

Lemma effect_same t t' : ct_queue t' = ct_queue t -> ct_calls t' = ct_calls t -> client_effect t t' None [].
Proof.
  intros Eq Ec. split; rewrite ?Ec; [by rewrite app_nil_r|constructor|done|]. intros i c Hl. left. exists c. by split_and!; auto.
Qed.

Lemma quiet_same t t' : ct_calls t' = ct_calls t -> (forall sid i, ct_registry t' !! sid = Some i -> ct_registry t !! sid = Some i) ->
  client_quiet t t'.
Proof. intros Ec Er. split; rewrite ?Ec; [|auto]. intros i c Hl. left. by exists c. Qed.

Lemma mark_dead_spec t : ct_calls (mark_dead t) = ct_calls t /\ ct_queue (mark_dead t) = ct_queue t /\
  (forall sid i, ct_registry (mark_dead t) !! sid = Some i -> ct_registry t !! sid = Some i).
Proof. unfold mark_dead. destruct (ct_alive t); split_and!; try done. Qed.

Lemma try_send_spec f t : ct_calls (tunnel_try_send f t) = ct_calls t /\ ct_registry (tunnel_try_send f t) = ct_registry t /\
  (ct_queue (tunnel_try_send f t) = ct_queue t \/ ct_queue (tunnel_try_send f t) = ct_queue t ++ [f]).
Proof. unfold tunnel_try_send. destruct (_ && _); split_and!; auto. Qed.

(** Every step of a call: its next phase, the frames, and nothing registered. *)
Lemma open_step_shape i c a t t' : ct_calls t !! i = Some c -> open_step i c a t = Some t' ->
  exists p fs, ct_calls t' = <[i := set_open_phase p c]> (ct_calls t) /\ ct_queue t' = ct_queue t ++ fs /\
    (forall sid j, ct_registry t' !! sid = Some j -> ct_registry t !! sid = Some j) /\
    ((op_phase c = OSending /\ p = OWaiting /\ fs = [open_frame c]) \/
     (p <> OSending /\ (p = OClosed \/ opened c = true) /\
        (fs = [] \/ (opened c = true /\ exists f, fs = [f] /\ pump_frame (op_sid c) f = true)))).
Proof.
  intros Hl E. unfold open_step in E. unfold opened.
  pose proof (pump_frame_close (op_sid c)) as Hclose.
  destruct (op_phase c) as [| |g|] eqn:Ep, a; try discriminate.
  - destruct (_ && _); [|discriminate]. injection E as <-. exists OWaiting. eexists. split_and!; [done|done|done|by left].
  - destruct (ct_closed t); [|discriminate]. injection E as <-. destruct (mark_dead_spec (unregister (op_sid c) t)) as (Hc & Hq & Hr).
    exists OClosed, []. rewrite app_nil_r. cbn [with_call ct_calls ct_queue ct_registry]. split_and!; [by rewrite Hc|done| |right; split_and!; [done|by auto|by auto]].
    intros s j Hs. apply Hr in Hs. cbn in Hs. by apply lookup_delete_Some in Hs as [_ ?].
  - destruct (decide _); [|discriminate]. injection E as <-. exists (OStreaming false), []. rewrite app_nil_r.
    split_and!; [done..|right; split_and!; [done|by auto|by auto]].
  - destruct (decide _); [|discriminate]. injection E as <-. exists OClosed, []. rewrite app_nil_r.
    split_and!; [done..| |right; split_and!; [done|by auto|by auto]]. intros s j Hs. cbn in Hs. by apply lookup_delete_Some in Hs as [_ ?].
  - destruct (decide _); [|discriminate]. injection E as <-. exists OClosed, []. rewrite app_nil_r.
    split_and!; [done..| |right; split_and!; [done|by auto|by auto]]. intros s j Hs. cbn in Hs. by apply lookup_delete_Some in Hs as [_ ?].
  - destruct (decide _); [|discriminate]. injection E as <-.
    destruct (try_send_spec (OutFrame_bare Close (op_sid c)) (unregister (op_sid c) t)) as (Hc & Hr & Hq).
    exists OClosed. cbn [with_call ct_calls ct_queue ct_registry]. rewrite Hc, Hr.
    destruct Hq as [->| ->]; [exists []|exists [OutFrame_bare Close (op_sid c)]]; cbn [unregister ct_calls ct_queue ct_registry];
      rewrite ?app_nil_r; (split_and!; [done..| |right; split_and!; eauto]);
      intros s j Hs; by apply lookup_delete_Some in Hs as [_ ?].
  - destruct (_ && _) eqn:Eq; [|discriminate]. injection E as <-. apply andb_prop in Eq as [Eq _]. apply andb_prop in Eq as [_ Eq].
    exists (OStreaming g), [f]. split_and!; [|done|done|right; split_and!; eauto].
    cbn. rewrite <- Ep. destruct c. by rewrite list_insert_id.
  - injection E as <-. exists (OStreaming true), []. rewrite app_nil_r. split_and!; [done..|right; split_and!; [done|by auto|by auto]].
  - injection E as <-. set (t1 := unregister (op_sid c) t). set (t2 := if g then t1 else _).
    assert (ct_calls t2 = ct_calls t /\ ct_registry t2 = delete (op_sid c) (ct_registry t) /\
      (ct_queue t2 = ct_queue t \/ ct_queue t2 = ct_queue t ++ [OutFrame_bare Close (op_sid c)])) as (Hc & Hr & Hq).
    { unfold t2. destruct g; [by auto|]. by destruct (try_send_spec (OutFrame_bare Close (op_sid c)) t1) as (-> & -> & ?). }
    clearbody t2. set (t3 := if dedicated then kill t2 else t2).
    assert (ct_calls t3 = ct_calls t2 /\ ct_queue t3 = ct_queue t2 /\
      (forall sid i, ct_registry t3 !! sid = Some i -> ct_registry t2 !! sid = Some i)) as (Hc3 & Hq3 & Hr3).
    { unfold t3. destruct dedicated; [|by auto]. unfold kill. cbn [ct_calls ct_queue ct_registry]. apply mark_dead_spec. }
    exists OClosed. destruct Hq as [Hq|Hq]; [exists []|exists [OutFrame_bare Close (op_sid c)]];
      cbn [with_call ct_calls ct_queue ct_registry]; rewrite ?app_nil_r, Hc3, Hq3, Hc, Hq;
      (split_and!; [done..| |right; split_and!; eauto]); intros s j Hs; apply Hr3 in Hs; rewrite Hr in Hs;
      by apply lookup_delete_Some in Hs as [_ ?].
Qed.

Lemma set_open_phase_spec p c : op_sid (set_open_phase p c) = op_sid c /\ op_addr (set_open_phase p c) = op_addr c /\
  op_phase (set_open_phase p c) = p /\ op_events (set_open_phase p c) = op_events c /\ op_reply (set_open_phase p c) = op_reply c.
Proof. done. Qed.

(** The calls after one of them was replaced. *)
Lemma insert_calls (cs : list OpenCall) i c c' j d : cs !! i = Some c -> <[i := c']> cs !! j = Some d ->
  (j = i /\ d = c') \/ (j <> i /\ cs !! j = Some d).
Proof. intros Hl Hd. apply list_lookup_insert_Some in Hd as [(-> & <- & _)|[? ?]]; auto. Qed.

Lemma open_step_effect i c a t t' : ct_calls t !! i = Some c -> open_step i c a t = Some t' ->
  (exists who fs, client_effect t t' who fs) /\ client_quiet t t'.
Proof.
  intros Hl E. destruct (open_step_shape i c a t t' Hl E) as (p & fs & Ec & Eq & Er & Hcase).
  assert (client_quiet t t') as Hquiet.
  { split; [|by auto]. rewrite Ec. intros j d Hd. left.
    destruct (insert_calls _ _ _ _ _ _ Hl Hd) as [[-> ->]|[_ Hd']]; [by exists c|by exists d]. }
  split; [|done]. destruct Hcase as [(Hp & -> & ->)|(Hp & Hp' & Hfs)].
  - exists (Some i), [open_frame c]. split; [done|by constructor|by rewrite Ec, length_insert|].
    rewrite Ec. intros j d Hd. left. destruct (insert_calls _ _ _ _ _ _ Hl Hd) as [[-> ->]|[Hne Hd']].
    + exists c. by split_and!; auto.
    + exists d. split_and!; auto. intros ?. split; [done|congruence].
  - exists None, fs. split; [done| |by rewrite Ec, length_insert|].
    + destruct Hfs as [->|(Ho & f & -> & Hf)]; [constructor|by eapply mq_pump].
    + rewrite Ec. intros j d Hd. left. destruct (insert_calls _ _ _ _ _ _ Hl Hd) as [[-> ->]|[Hne Hd']].
      * exists c. split_and!; [done..| |]; cbn [set_open_phase op_phase]; [by intros ->|].
        unfold opened at 1. cbn. destruct Hp' as [->|Ho]; [done|by auto].
      * exists d. by split_and!; auto.
Qed.

Lemma open_begin_effect addr t : client_inv t -> (exists who fs, client_effect t (open_begin addr t) who fs) /\ client_quiet t (open_begin addr t).
Proof.
  intros Hi. unfold open_begin, alloc_stream. set (c0 := Call _ _ _ _ _).
  assert (forall j d, (ct_calls t ++ [c0]) !! j = Some d -> ct_calls t !! j = Some d \/ (ct_calls t !! j = None /\ d = c0)) as Hj.
  { intros j d Hl. apply lookup_app_Some in Hl as [|[Hge Hl]]; [by left|]. right.
    apply list_lookup_singleton_Some in Hl as [Hz <-]. split; [|done]. apply lookup_ge_None. lia. }
  split; [exists None, []|]; split; cbn [ct_queue ct_calls ct_registry].
  - by rewrite app_nil_r.
  - constructor.
  - rewrite length_app. lia.
  - intros j d Hl. destruct (Hj j d Hl) as [Hd|[Hn ->]]; [left; exists d; by split_and!; auto|by right].
  - intros j d Hl. destruct (Hj j d Hl) as [Hd|[Hn ->]]; [left; by exists d|by right].
  - intros sid i Hl. destruct (decide (sid = u32 (ct_next t + 1))) as [->|Hne].
    + rewrite lookup_insert_eq in Hl. injection Hl as <-. right. by apply lookup_ge_None.
    + rewrite lookup_insert_ne in Hl by done. by left.
Qed.

(** A step of the client of its own accord. *)
Lemma client_local_effect t t' : client_inv t -> client_local t t' ->
  (exists who fs, client_effect t t' who fs) /\ client_quiet t t'.
Proof.
  intros Hi Hst. destruct (mark_dead_spec t) as (Hc & Hq & Hr).
  destruct Hst as [addr t|i c a t t' Hl E|t _|t|t]; [by apply open_begin_effect|by eapply open_step_effect|..];
    (split; [exists None, []; by apply effect_same|by apply quiet_same]).
Qed.

(** A frame read: the answer it may bounce. *)
Lemma route_event_effect sid ev d t : is_u32 sid -> client_inv t -> exists fs, client_effect t (route_event sid ev d t) None fs.
Proof.
  intros Hu Hi.
  assert (forall t1, ct_calls t1 = ct_calls t -> ct_queue t1 = ct_queue t ->
    exists fs, client_effect t (tunnel_try_send (OutFrame_bare Close sid) t1) None fs) as Hbounce.
  { intros t1 Ec1 Eq1. destruct (try_send_spec (OutFrame_bare Close sid) t1) as (Hc & _ & [Hq|Hq]).
    - exists []. apply effect_same; congruence.
    - exists [OutFrame_bare Close sid]. split; [congruence|by constructor|by rewrite Hc, Ec1|].
      rewrite Hc, Ec1. intros i c Hl. left. exists c. by split_and!; auto. }
  unfold route_event. destruct (ct_registry t !! sid) as [i|]; [|by apply Hbounce].
  destruct d; [|by apply Hbounce..]. destruct (ct_calls t !! i) as [c|] eqn:Hl; [|by apply Hbounce].
  exists []. split; cbn [with_call ct_queue ct_calls]; [by rewrite app_nil_r|constructor|by rewrite length_insert|].
  intros j e He. left. destruct (insert_calls _ _ _ _ _ _ Hl He) as [[-> ->]|[_ He']]; [exists c|exists e]; by split_and!; auto.
Qed.

Lemma reader_reply_effect sid payload t : client_effect t (reader_reply sid payload t) None [].
Proof.
  unfold reader_reply. destruct (ct_pending t !! sid) as [i|]; [|by apply effect_same].
  destruct (ct_calls t !! i) as [c|] eqn:Hl; [|by apply effect_same].
  split; cbn [with_call ct_queue ct_calls]; [by rewrite app_nil_r|constructor|by rewrite length_insert|].
  intros j e He. left. destruct (insert_calls _ _ _ _ _ _ Hl He) as [[-> ->]|[_ He']]; [exists c|exists e]; by split_and!; auto.
Qed.

Lemma reader_frame_effect msg d t k sid p : client_inv t -> parse_frame msg = Ok (k, sid, p) -> is_u32 sid -> k <> Open ->
  exists fs, client_effect t (reader_frame msg d t) None fs.
Proof.
  intros Hi E Hu Hk. unfold reader_frame. rewrite E. destruct k; [done|..].
  - exists []. apply reader_reply_effect.
  - by apply route_event_effect.
  - by apply route_event_effect.
  - exists []. by apply effect_same.
Qed.

(** ** What the client ever queued *)

Definition small (t : Pool.Tunnel) : Prop := Z.of_nat (length (ct_calls t)) < 2 ^ 32.

Lemma small_mono t t' who fs : client_effect t t' who fs -> small t' -> small t.
Proof. intros He. pose proof (ce_length _ _ _ _ He). unfold small. lia. Qed.

Lemma sid_inj t i j c d : client_inv t -> small t -> ct_calls t !! i = Some c -> ct_calls t !! j = Some d ->
  op_sid c = op_sid d -> i = j.
Proof. intros Hi Hs Hc Hd E. rewrite (client_sid_small t i c), (client_sid_small t j d) in E by done. lia. Qed.

Lemma sid_u32 t i c : client_inv t -> ct_calls t !! i = Some c -> is_u32 (op_sid c).
Proof. intros Hi Hl. rewrite (ci_sid _ Hi _ _ Hl). apply Z.mod_pos_bound. lia. Qed.

(** A frame the client may queue: its OPENs are those of calls past that point. *)
Definition client_frame_ok (t : Pool.Tunnel) (f : OutFrame) : Prop :=
  exists k sid p, f = OutFrame_new k sid p /\ is_u32 sid /\ k <> Reply /\
    (k = Open -> exists i c, ct_calls t !! i = Some c /\ f = open_frame c /\ op_phase c <> OSending).

Record log_ok (t : Pool.Tunnel) (log : list OutFrame) : Prop := {
  lo_frames : forall f, f ∈ log -> client_frame_ok t f;
  lo_once : forall sid, (kinds Open sid log ≤ 1)%nat;
  lo_first : forall sid l, l `prefix_of` log -> events sid l <> [] -> (0 < kinds Open sid l)%nat;
  lo_opened : forall i c, ct_calls t !! i = Some c -> opened c = true -> (0 < kinds Open (op_sid c) log)%nat
}.

Lemma log_ok_new : log_ok spawn_tunnel [].
Proof.
  split; [by intros f Hf%not_elem_of_nil|intros; by apply Nat.le_0_l| |done].
  intros sid l Hl%prefix_nil_inv. by rewrite Hl.
Qed.

Lemma kinds_elem k sid log : (0 < kinds k sid log)%nat -> exists f, f ∈ log /\ is_kind k sid f = true.
Proof.
  unfold kinds, count. intros Hpos. destruct (filter _ log) as [|f l] eqn:E; [simpl in Hpos; lia|]. exists f.
  assert (f ∈ filter (fun f => is_kind k sid f = true) log) as Hf by (rewrite E; by left).
  apply list_elem_of_filter in Hf as [? ?]. done.
Qed.

(** An OPEN in the log belongs to a call past its sending. *)
Lemma log_open_call t log sid : log_ok t log -> client_inv t -> (0 < kinds Open sid log)%nat ->
  exists i c, ct_calls t !! i = Some c /\ op_sid c = sid /\ op_phase c <> OSending.
Proof.
  intros Hok Hi (f & Hf & Hk)%kinds_elem. destruct (lo_frames _ _ Hok f Hf) as (k & s & p & E & Hu & _ & Hop).
  rewrite E, is_kind_new in Hk by done. apply andb_prop in Hk as [->%bool_decide_eq_true ->%Z.eqb_eq].
  destruct (Hop eq_refl) as (i & c & Hl & Ef & Hp). exists i, c. split_and!; [done| |done].
  rewrite E in Ef. assert (is_kind Open sid (open_frame c) = true) as Hk by (by rewrite <- Ef, is_kind_new, bool_decide_true, Z.eqb_refl).
  unfold open_frame in Hk. rewrite is_kind_new in Hk by (by eapply sid_u32). apply andb_prop in Hk as [_ Hk]. by apply Z.eqb_eq in Hk.
Qed.

Lemma client_frame_ok_mono t t' who fs f : client_effect t t' who fs -> client_frame_ok t f -> client_frame_ok t' f.
Proof.
  intros He (k & sid & p & E & Hu & Hk & Hop). exists k, sid, p. refine (conj E (conj Hu (conj Hk _))). intros Ek.
  destruct (Hop Ek) as (i & c & Hl & Ef & Hp). pose proof (ce_length _ _ _ _ He) as Hlen.
  destruct (ct_calls t' !! i) as [c'|] eqn:Hl'; [|apply lookup_lt_Some in Hl; apply lookup_ge_None in Hl'; lia].
  destruct (ce_calls _ _ _ _ He i c' Hl') as [(d & Hd & Es & Ea & Hs & _)|[Hn _]]; [|congruence].
  rewrite Hl in Hd. injection Hd as <-. exists i, c'. split_and!; [done| |].
  - rewrite Ef. unfold open_frame. by rewrite Es, Ea.
  - intros Hph. by destruct (Hs Hph) as [? _].
Qed.

(** The frames a step queues, by what they are. *)
Lemma may_queue_frame t who fs f : client_inv t -> may_queue t who fs -> fs = [f] ->
  (exists i c, who = Some i /\ ct_calls t !! i = Some c /\ op_phase c = OSending /\ f = open_frame c) \/
  (who = None /\ exists k sid p, f = OutFrame_new k sid p /\ is_u32 sid /\ k <> Reply /\ k <> Open /\
     (k <> Close -> exists i c, ct_calls t !! i = Some c /\ opened c = true /\ op_sid c = sid)).
Proof.
  intros Hi Hq. destruct Hq as [|i c Hl Hp|i c g Hl Ho Hf|sid Hu]; intros [= <-].
  - left. by exists i, c.
  - right. split; [done|]. apply pump_frame_new in Hf as (k & Hk & Hf). exists k, (op_sid c), (of_payload g).
    refine (conj Hf (conj (sid_u32 _ _ _ Hi Hl) _)). split_and!; [by destruct Hk as [->|[->| ->]]..|]. intros _. by exists i, c.
  - right. split; [done|]. exists Close, sid, []. by refine (conj eq_refl (conj Hu _)).
Qed.

Lemma kinds_snoc k sid log f : kinds k sid (log ++ [f]) = (kinds k sid log + (if is_kind k sid f then 1 else 0))%nat.
Proof.
  rewrite kinds_app. f_equal. unfold kinds. rewrite count_one. destruct (is_kind k sid f) eqn:E.
  - by rewrite decide_True.
  - by rewrite decide_False by congruence.
Qed.

(** A frame may follow a log when it opens no stream twice and carries none unopened. *)
Lemma log_ok_snoc t log f : (forall g, g ∈ log -> client_frame_ok t g) -> client_frame_ok t f ->
  (forall sid, (kinds Open sid log + (if is_kind Open sid f then 1 else 0) ≤ 1)%nat) ->
  (forall sid l, l `prefix_of` log -> events sid l <> [] -> (0 < kinds Open sid l)%nat) ->
  (forall sid, frame_event sid f <> [] -> (0 < kinds Open sid log)%nat) ->
  (forall i c, ct_calls t !! i = Some c -> opened c = true -> (0 < kinds Open (op_sid c) (log ++ [f]))%nat) ->
  log_ok t (log ++ [f]).
Proof.
  intros Hlog Hf Honce Hfirst Hev Hopen. split; [|intros sid; by rewrite kinds_snoc| |done].
  - intros g [Hg| ->%list_elem_of_singleton]%elem_of_app; auto.
  - intros sid l [m Hm] Hne. revert Hm. destruct m as [|x m _] using rev_ind; intros Hm.
    + rewrite app_nil_r in Hm. subst l. rewrite events_snoc in Hne. rewrite kinds_snoc.
      destruct (events sid log) as [|ev evs] eqn:E; [specialize (Hev sid Hne); lia|].
      specialize (Hfirst sid log ltac:(done) ltac:(by rewrite E)). lia.
    + rewrite app_assoc in Hm. apply app_inj_tail in Hm as [-> _]. apply Hfirst; [by eexists|done].
Qed.

Lemma log_ok_effect t t' who fs log : client_inv t -> client_inv t' -> small t' -> client_effect t t' who fs ->
  log_ok t log -> log_ok t' (log ++ fs).
Proof.
  intros Hi Hi' Hsm He Hok. pose proof (ce_fs _ _ _ _ He) as Hq.
  assert (forall j d, ct_calls t' !! j = Some d -> opened d = true ->
    (exists c, ct_calls t !! j = Some c /\ op_sid d = op_sid c /\ (opened c = true \/ who = Some j))) as Hopen.
  { intros j d Hd Ho. destruct (ce_calls _ _ _ _ He j d Hd) as [(c & Hc & Es & _ & _ & Hoc)|[_ Hp]].
    - exists c. by auto.
    - unfold opened in Ho. by rewrite Hp in Ho. }
  assert (forall g, g ∈ log -> client_frame_ok t' g) as Hlog by (intros g Hg; by eapply client_frame_ok_mono, lo_frames).
  destruct fs as [|f fs].
  { rewrite app_nil_r. split; [done|apply Hok|apply Hok|]. intros j d Hd Ho.
    destruct (Hopen j d Hd Ho) as (c & Hc & -> & [Hoc| ->]); [by eapply lo_opened|inversion Hq]. }
  assert (fs = []) as -> by (by inversion Hq).
  destruct (may_queue_frame t who [f] f Hi Hq eq_refl) as [(i & c & -> & Hl & Hp & Ef)|(-> & k & sid & p & Ef & Hu & Hk1 & Hk2 & Hstr)].
  - pose proof (sid_u32 _ _ _ Hi Hl) as Hu.
    assert (kinds Open (op_sid c) log = 0%nat) as Hz.
    { destruct (kinds Open (op_sid c) log) as [|n] eqn:Ez; [done|].
      destruct (log_open_call t log (op_sid c) Hok Hi ltac:(lia)) as (j & d & Hd & Es & Hpd).
      assert (j = i) as -> by (by eapply (sid_inj t j i d c); [|eapply small_mono|..]). congruence. }
    apply log_ok_snoc; [done| | |apply Hok| |].
    + exists Open, (op_sid c), (addr_encode (op_addr c)). refine (conj Ef (conj Hu (conj _ _))); [done|]. intros _.
      destruct (ct_calls t' !! i) as [c'|] eqn:Hl'; [|apply lookup_lt_Some in Hl; apply lookup_ge_None in Hl';
        pose proof (ce_length _ _ _ _ He); lia].
      destruct (ce_calls _ _ _ _ He i c' Hl') as [(d & Hd & Es & Ea & Hs & _)|[Hn _]]; [|congruence].
      rewrite Hl in Hd. injection Hd as <-. exists i, c'. split_and!; [done|by rewrite Ef; unfold open_frame; rewrite Es, Ea|].
      intros Hph. by destruct (Hs Hph) as [_ ?].
    + intros sid. rewrite Ef. unfold open_frame. rewrite is_kind_new, bool_decide_true by done. cbn [andb].
      destruct (Z.eqb_spec (op_sid c) sid) as [<-|]; [by rewrite Hz|]. pose proof (lo_once _ _ Hok sid). lia.
    + intros sid. rewrite Ef. unfold open_frame. rewrite frame_event_new by done. by destruct (_ =? _).
    + intros j d Hd Ho. destruct (Hopen j d Hd Ho) as (e & Hle & -> & [Hoe|[= ->]]); rewrite kinds_snoc.
      * pose proof (lo_opened _ _ Hok _ _ Hle Hoe). lia.
      * rewrite Hl in Hle. injection Hle as <-. rewrite Ef. unfold open_frame.
        rewrite is_kind_new, bool_decide_true, Z.eqb_refl by done. cbn. lia.
  - apply log_ok_snoc; [done| | |apply Hok| |].
    + exists k, sid, p. by refine (conj Ef (conj Hu (conj Hk1 _))).
    + intros s. rewrite Ef, is_kind_new, bool_decide_false by done. cbn [andb]. pose proof (lo_once _ _ Hok s). lia.
    + intros s. rewrite Ef, frame_event_new by done. destruct (Z.eqb_spec sid s) as [<-|]; [|done].
      destruct (decide (k = Close)) as [->|Hk3]; [done|]. intros _. destruct (Hstr Hk3) as (i & c & Hl & Ho & <-).
      by eapply lo_opened.
    + intros j d Hd Ho. destruct (Hopen j d Hd Ho) as (e & Hle & -> & [Hoe|?]); [|done]. rewrite kinds_snoc.
      pose proof (lo_opened _ _ Hok _ _ Hle Hoe). lia.
Qed.

(** At the OPEN of a stream nothing of it has gone before. *)
Lemma log_ok_open_first t log l f sid : log_ok t log -> l ++ [f] `prefix_of` log -> is_kind Open sid f = true ->
  kinds Open sid l = 0%nat /\ events sid l = [].
Proof.
  intros Hok Hl Hk. pose proof (kinds_prefix Open sid _ _ Hl) as Hc. rewrite kinds_snoc, Hk in Hc.
  pose proof (lo_once _ _ Hok sid). assert (kinds Open sid l = 0%nat) as Hz by lia. split; [done|].
  destruct (events sid l) as [|ev evs] eqn:E; [done|].
  pose proof (lo_first _ _ Hok sid l ltac:(by eapply prefix_app_l) ltac:(by rewrite E)). lia.
Qed.

(** ** What a step of the server does *)

Definition unreplied (p : TaskPhase) : bool := match p with TConnecting | TReplying _ => true | _ => false end.

(** The phases of a task whose REPLY was [ok]. *)
Definition answered (ok : bool) (p : TaskPhase) : bool :=
  match p with TPumping _ | TRemoving false => ok | TRemoving true => negb ok | TGone => true | _ => false end.

(** The frames one step queues, and the task whose REPLY it is. *)
Inductive may_answer (s : TunnelState) : option (nat * bool) -> list OutFrame -> Prop :=
| ma_none : may_answer s None []
| ma_reply i t ok : tn_tasks s !! i = Some t -> tk_phase t = TReplying ok -> may_answer s (Some (i, ok)) [reply_frame (tk_stream t) ok]
| ma_pump i t f rx : tn_tasks s !! i = Some t -> tk_phase t = TPumping rx -> pump_frame (tk_stream t) f = true -> may_answer s None [f]
| ma_close sid : is_u32 sid -> may_answer s None [OutFrame_bare Close sid].

(** A step of its own queues [fs], deregisters at most, and moves tasks forward. *)
Record server_effect (s s' : TunnelState) (who : option (nat * bool)) (fs : list OutFrame) : Prop := {
  se_log : out_log s' = out_log s ++ fs;
  se_fs : may_answer s who fs;
  se_length : length (tn_tasks s') = length (tn_tasks s);
  se_registry : forall sid i, tn_registry s' !! sid = Some i -> tn_registry s !! sid = Some i;
  se_tasks : forall i t', tn_tasks s' !! i = Some t' -> exists t, tn_tasks s !! i = Some t /\
    tk_stream t' = tk_stream t /\ tk_addr t' = tk_addr t /\ tk_routed t' = tk_routed t /\
    (unreplied (tk_phase t') = true -> unreplied (tk_phase t) = true /\ forall ok, who <> Some (i, ok)) /\
    (forall ok, answered ok (tk_phase t) = true \/ who = Some (i, ok) -> answered ok (tk_phase t') = true)
}.

Lemma seffect_same s s' : out_log s' = out_log s -> tn_tasks s' = tn_tasks s ->
  (forall sid i, tn_registry s' !! sid = Some i -> tn_registry s !! sid = Some i) -> server_effect s s' None [].
Proof.
  intros El Et Er. split; rewrite ?Et; [by rewrite app_nil_r|constructor|done|done|]. intros i t Ht. exists t.
  split_and!; [done..|]. by intros ok [|].
Qed.

(** One task replaced by a later version of itself. *)
Lemma seffect_task s i t t' who fs s' : tn_tasks s !! i = Some t -> tn_tasks s' = <[i := t']> (tn_tasks s) ->
  out_log s' = out_log s ++ fs -> may_answer s who fs ->
  (forall sid j, tn_registry s' !! sid = Some j -> tn_registry s !! sid = Some j) ->
  tk_stream t' = tk_stream t -> tk_addr t' = tk_addr t -> tk_routed t' = tk_routed t ->
  (unreplied (tk_phase t') = true -> unreplied (tk_phase t) = true /\ who = None) ->
  (forall ok, answered ok (tk_phase t) = true \/ who = Some (i, ok) -> answered ok (tk_phase t') = true) ->
  (forall j ok, who = Some (j, ok) -> j = i) ->
  server_effect s s' who fs.
Proof.
  intros Hl Et El Hf Hr Es Ea Ero Hu Ha Hw. split; [done|done|by rewrite Et, length_insert|done|]. rewrite Et. intros j u Hu'.
  apply list_lookup_insert_Some in Hu' as [(-> & <- & _)|[Hne Hu']].
  - exists t. split_and!; [done..| |done]. intros Hun. destruct (Hu Hun) as [? ->]. split; [done|]. by intros ok.
  - exists u. split_and!; [done..| |].
    + intros ?. split; [done|]. intros ok Ew. by apply Hw in Ew as ->.
    + intros ok [?|Ew]; [done|]. by apply Hw in Ew as ->.
Qed.

Lemma out_try_send_spec f s : tn_tasks (out_try_send f s) = tn_tasks s /\ tn_registry (out_try_send f s) = tn_registry s /\
  tn_demux (out_try_send f s) = tn_demux s /\ (out_log (out_try_send f s) = out_log s \/ out_log (out_try_send f s) = out_log s ++ [f]).
Proof.
  unfold out_try_send, out_log. destruct (_ && _); split_and!; auto. cbn [enqueue tn_wire tn_queue]. right. by rewrite app_assoc.
Qed.

Lemma seffect_close s s' sid : is_u32 sid -> tn_tasks s' = tn_tasks s ->
  (forall sid i, tn_registry s' !! sid = Some i -> tn_registry s !! sid = Some i) ->
  out_log s' = out_log s \/ out_log s' = out_log s ++ [OutFrame_bare Close sid] -> exists fs, server_effect s s' None fs.
Proof.
  intros Hu Et Er [El|El]; [exists []; by apply seffect_same|]. exists [OutFrame_bare Close sid].
  split; rewrite ?Et; [done|by constructor|done|done|]. intros i t Ht. exists t. split_and!; [done..|]. by intros ok [|].
Qed.

Lemma pump_sends_effect s i t f rx s' : tn_tasks s !! i = Some t -> tk_phase t = TPumping rx ->
  (if pump_frame (tk_stream t) f && (length (tn_queue s) <? OUTBOUND_BOUND)%nat && negb (tn_closed s) then Some (enqueue f s) else None) = Some s' ->
  exists who fs, server_effect s s' who fs.
Proof.
  intros Hl Ep E. destruct (_ && _) eqn:Eq; [|discriminate]. injection E as <-. apply andb_prop in Eq as [Eq _]. apply andb_prop in Eq as [Eq _].
  exists None, [f]. split; cbn [enqueue tn_tasks tn_registry]; [|by eapply ma_pump|done|done|].
  - unfold out_log. cbn [enqueue tn_wire tn_queue]. by rewrite app_assoc.
  - intros j u Hu. exists u. split_and!; [done..|]. by intros ok [|].
Qed.

Lemma task_step_effect rt s i t a s' : tunnel_inv rt s -> tn_tasks s !! i = Some t -> task_step i t a s = Some s' ->
  exists who fs, server_effect s s' who fs.
Proof.
  intros Hi Hl E. unfold task_step in E. destruct (tk_phase t) as [|ok|[]|r|] eqn:Ep, a; try discriminate.
  - injection E as <-. exists None, []. eapply seffect_task; try done; [by rewrite app_nil_r|constructor|by rewrite Ep|].
    intros ok' [Ha|?]; [|done]. by rewrite Ep in Ha.
  - destruct (tn_closed s).
    + injection E as <-. exists None, []. eapply seffect_task; try done; [by rewrite app_nil_r|constructor|].
      intros ok' [Ha|?]; [|done]. by rewrite Ep in Ha.
    + destruct (_ <? _)%nat; [|discriminate]. injection E as <-. exists (Some (i, ok)), [reply_frame (tk_stream t) ok].
      eapply seffect_task; try done.
      * unfold out_log. cbn [with_task enqueue tn_wire tn_queue]. by rewrite app_assoc.
      * by constructor.
      * by destruct ok.
      * intros ok' [Ha|[= <-]]; [by rewrite Ep in Ha|by destruct ok].
      * by intros j ok' [= -> _].
  - destruct (tk_queue t); [discriminate|]. destruct (pump_over t); [discriminate|]. injection E as <-. exists None, [].
    eapply seffect_task; try done; [by rewrite app_nil_r|constructor|]. intros ok' [Ha|?]; [|done]. by rewrite Ep in Ha.
  - injection E as <-. exists None, []. eapply seffect_task; try done; [by rewrite app_nil_r|constructor|].
    intros ok' [Ha|?]; [|done]. by rewrite Ep in Ha.
  - by eapply pump_sends_effect.
  - by eapply pump_sends_effect.
  - injection E as <-. exists None, []. eapply seffect_task; try done; [by rewrite app_nil_r|constructor|].
    intros ok' [Ha|?]; [|done]. by rewrite Ep in Ha.
  - injection E as <-. exists None, []. eapply seffect_task; try done; [by rewrite app_nil_r|constructor|].
    intros sid j Hs. cbn in Hs. by apply lookup_delete_Some in Hs as [_ ?].
Qed.

Lemma tunnel_local_effect rt s s' : tunnel_inv rt s -> tunnel_local s s' -> exists who fs, server_effect s s' who fs.
Proof.
  intros Hi Hst.
  assert (forall stream ev i, tn_demux s = DRouting stream ev i -> exists who fs, server_effect s (route_drop stream s) who fs) as Hdrop.
  { intros stream ev i Hd. destruct (inv_route _ _ Hi _ _ _ Hd) as (t & Ht & <- & _).
    set (s1 := with_registry (delete (tk_stream t) (tn_registry s)) s).
    destruct (out_try_send_spec (OutFrame_bare Close (tk_stream t)) s1) as (Et & Er & _ & El). exists None.
    apply (seffect_close s (route_drop (tk_stream t) s) (tk_stream t)); [by eapply task_u32, inv_tasks|exact Et| |exact El].
    intros sid j Hs. unfold route_drop in Hs. cbn [with_demux tn_registry] in Hs. fold s1 in Hs. rewrite Er in Hs. unfold s1 in Hs. cbn in Hs.
    by apply lookup_delete_Some in Hs as [_ ?]. }
  destruct Hst as [s stream ev i t Hd Ht Hrc Hroom|s stream ev i t Hd Ht Hrc|s stream ev i t Hd Ht Hfull
    |s i t a s' Ht Hts|s f q Hc Hq|s Hd|s Hc].
  - exists None, []. eapply seffect_task; try done; [by rewrite app_nil_r|constructor|by intros ok [|]].
  - by eapply Hdrop.
  - by eapply Hdrop.
  - by eapply task_step_effect.
  - exists None, []. apply seffect_same; [|done..]. unfold out_log. cbn [tn_wire tn_queue]. by rewrite Hq, <- app_assoc.
  - exists None, []. by apply seffect_same.
  - exists None, []. by apply seffect_same.
Qed.

(** ** What the server knows of what it read *)

(** A frame the server may queue: a stream's own, after its OPEN; a REPLY that of its task. *)
Definition server_frame_ok (s : TunnelState) (f : OutFrame) : Prop :=
  exists k sid p, f = OutFrame_new k sid p /\ is_u32 sid /\ k <> Open /\
    (k <> Close -> exists i t, tn_tasks s !! i = Some t /\ tk_stream t = sid /\
       (k = Reply -> exists ok, f = reply_frame sid ok /\ answered ok (tk_phase t) = true)).

Record server_view (s : TunnelState) (seen : list OutFrame) : Prop := {
  sv_count : forall sid, (count (fun t => tk_stream t = sid) (tn_tasks s) ≤ kinds Open sid seen)%nat;
  sv_addr : forall i t, tn_tasks s !! i = Some t ->
    exists p, OutFrame_new Open (tk_stream t) p ∈ seen /\ addr_decode p = Ok (tk_addr t);
  sv_prefix : forall i t, tn_tasks s !! i = Some t -> tk_routed t `prefix_of` events (tk_stream t) seen;
  sv_exact : forall i t, tn_tasks s !! i = Some t -> tn_registry s !! tk_stream t = Some i ->
    tk_routed t = events (tk_stream t) seen;
  sv_frames : forall f, f ∈ out_log s -> server_frame_ok s f;
  sv_once : forall sid, (kinds Reply sid (out_log s) ≤ 1)%nat;
  sv_unreplied : forall i t, tn_tasks s !! i = Some t -> unreplied (tk_phase t) = true -> kinds Reply (tk_stream t) (out_log s) = 0%nat
}.

Lemma server_view_new : server_view tunnel_new [].
Proof. split; try done; try (intros; apply Nat.le_0_l). by intros f Hf%not_elem_of_nil. Qed.

(** One task for each stream, the log having one OPEN for it. *)
Lemma task_unique s seen log t i j u u' : server_view s seen -> log_ok t log -> seen `prefix_of` log ->
  tn_tasks s !! i = Some u -> tn_tasks s !! j = Some u' -> tk_stream u = tk_stream u' -> i = j.
Proof.
  intros Hv Hok Hl Hu Hu' E. apply (count_unique (fun t => tk_stream t = tk_stream u) (tn_tasks s) i j u u'); try done.
  pose proof (sv_count _ _ Hv (tk_stream u)). pose proof (lo_once _ _ Hok (tk_stream u)).
  pose proof (kinds_prefix Open (tk_stream u) _ _ Hl). lia.
Qed.

(** The tasks' numbers of streams survive a step that keeps them. *)
Lemma count_streams (ts ts' : list Task) sid : length ts' = length ts ->
  (forall i t', ts' !! i = Some t' -> exists t, ts !! i = Some t /\ tk_stream t' = tk_stream t) ->
  count (fun t => tk_stream t = sid) ts' = count (fun t => tk_stream t = sid) ts.
Proof.
  revert ts'. induction ts as [|t ts IH]; intros [|t' ts'] Hlen Hts; try done.
  change (t' :: ts') with ([t'] ++ ts'). change (t :: ts) with ([t] ++ ts). rewrite !count_app, !count_one.
  destruct (Hts 0%nat t' eq_refl) as (t0 & [= <-] & ->). f_equal. apply IH; [by injection Hlen|].
  intros i u Hu. exact (Hts (S i) u Hu).
Qed.

(** The frames it queued stay justified as tasks move forward. *)
Lemma server_frame_ok_mono s s' f : (forall i t, tn_tasks s !! i = Some t -> exists t', tn_tasks s' !! i = Some t' /\
    tk_stream t' = tk_stream t /\ (forall ok, answered ok (tk_phase t) = true -> answered ok (tk_phase t') = true)) ->
  server_frame_ok s f -> server_frame_ok s' f.
Proof.
  intros Hts (k & sid & p & E & Hu & Hk & Hc). exists k, sid, p. refine (conj E (conj Hu (conj Hk _))). intros Hk'.
  destruct (Hc Hk') as (i & t & Ht & Es & Hr). destruct (Hts i t Ht) as (t' & Ht' & Es' & Ha).
  exists i, t'. split_and!; [done|congruence|]. intros Er. destruct (Hr Er) as (ok & Ef & Hok). exists ok. by auto.
Qed.

Lemma seffect_old s s' who fs i t : server_effect s s' who fs -> tn_tasks s !! i = Some t -> exists t', tn_tasks s' !! i = Some t' /\
  tk_stream t' = tk_stream t /\ (forall ok, answered ok (tk_phase t) = true \/ who = Some (i, ok) -> answered ok (tk_phase t') = true).
Proof.
  intros He Hl. pose proof (se_length _ _ _ _ He) as Hlen.
  destruct (tn_tasks s' !! i) as [t'|] eqn:E; [|apply lookup_lt_Some in Hl; apply lookup_ge_None in E; lia].
  destruct (se_tasks _ _ _ _ He i t' E) as (t0 & Ht0 & Es & _ & _ & _ & Ha). rewrite Hl in Ht0. injection Ht0 as <-. by exists t'.
Qed.

(** The frames of a step, by what they are. *)
Lemma may_answer_frame rt s who f : tunnel_inv rt s -> may_answer s who [f] ->
  (exists i t ok, who = Some (i, ok) /\ tn_tasks s !! i = Some t /\ tk_phase t = TReplying ok /\ f = reply_frame (tk_stream t) ok) \/
  (who = None /\ exists k sid p, f = OutFrame_new k sid p /\ is_u32 sid /\ k <> Open /\ k <> Reply /\
     (k <> Close -> exists i t, tn_tasks s !! i = Some t /\ tk_stream t = sid)).
Proof.
  intros Hi Hq. inversion Hq as [|i t ok Hl Hp|i t g rx Hl Hp Hf|sid Hu]; subst.
  - left. by exists i, t, ok.
  - right. split; [done|]. apply pump_frame_new in Hf as (k & Hk & Hf). exists k, (tk_stream t), (of_payload f).
    refine (conj Hf (conj _ _)); [by eapply task_u32, inv_tasks|]. split_and!; [by destruct Hk as [->|[->| ->]]..|].
    intros _. by exists i, t.
  - right. split; [done|]. exists Close, sid, []. by refine (conj eq_refl (conj Hu _)).
Qed.

Section ServerView.
Context (rt : ServerRuntime) (t : Pool.Tunnel) (log : list OutFrame) (Hok : log_ok t log).
Implicit Types (s : TunnelState) (seen : list OutFrame).

(** The frames of a step are justified, and no stream gets a second REPLY. *)
Lemma new_frames_ok s s' who fs seen : tunnel_inv rt s -> server_effect s s' who fs -> seen `prefix_of` log -> server_view s seen ->
  (forall f, f ∈ fs -> server_frame_ok s' f) /\ (forall sid, kinds Reply sid (out_log s ++ fs) ≤ 1)%nat /\
  (forall i u, tn_tasks s !! i = Some u -> unreplied (tk_phase u) = true -> (forall ok, who <> Some (i, ok)) ->
     kinds Reply (tk_stream u) (out_log s ++ fs) = 0%nat).
Proof.
  intros Hi He Hl Hv. pose proof (sv_once _ _ Hv) as Honce. pose proof (sv_unreplied _ _ Hv) as Hunrep.
  pose proof (se_fs _ _ _ _ He) as Hq.
  destruct fs as [|f fs].
  { rewrite app_nil_r. split_and!; [by intros f Hf%not_elem_of_nil|done|by eauto]. }
  assert (fs = []) as -> by (by inversion Hq).
  destruct (may_answer_frame rt s who f Hi Hq) as [(i & u & ok & -> & Hu & Hp & Ef)|(-> & k & sid & p & Ef & Hsid & Hk1 & Hk2 & Hc)].
  - assert (is_u32 (tk_stream u)) as Hsid by (by eapply task_u32, inv_tasks).
    assert (forall sid, is_kind Reply sid f = (tk_stream u =? sid)) as Hkind.
    { intros sid. rewrite Ef. unfold reply_frame. by rewrite is_kind_new, bool_decide_true by done. }
    split_and!.
    + intros g ->%list_elem_of_singleton. exists Reply, (tk_stream u), [if ok then REPLY_OK else REPLY_REFUSED].
      refine (conj Ef (conj Hsid (conj _ _))); [done|]. intros _. destruct (seffect_old _ _ _ _ _ _ He Hu) as (u' & Hu' & Es & Ha).
      exists i, u'. split_and!; [done..|]. intros _. exists ok. by auto.
    + intros sid. rewrite kinds_snoc, Hkind. destruct (Z.eqb_spec (tk_stream u) sid) as [<-|].
      * rewrite (Hunrep i u Hu); [done|by rewrite Hp].
      * specialize (Honce sid). lia.
    + intros j u' Hu' Hun Hne. rewrite kinds_snoc, Hkind, (Hunrep j u' Hu' Hun).
      destruct (Z.eqb_spec (tk_stream u) (tk_stream u')) as [E|]; [|done].
      assert (i = j) as <- by (by eapply (task_unique s seen log t)). by destruct (Hne ok).
  - assert (forall sid', is_kind Reply sid' f = false) as Hkind by (intros; by rewrite Ef, is_kind_new, bool_decide_false).
    split_and!.
    + intros g ->%list_elem_of_singleton. exists k, sid, p. refine (conj Ef (conj Hsid (conj _ _))); [done|]. intros Hk.
      destruct (Hc Hk) as (i & u & Hu & Es). destruct (seffect_old _ _ _ _ _ _ He Hu) as (u' & Hu' & Es' & _).
      exists i, u'. split_and!; [done|congruence|done].
    + intros sid'. rewrite kinds_snoc, Hkind. specialize (Honce sid'). lia.
    + intros j u' Hu' Hun _. rewrite kinds_snoc, Hkind. by rewrite (Hunrep j u' Hu' Hun).
Qed.

Lemma server_view_effect s s' who fs seen : tunnel_inv rt s -> server_effect s s' who fs -> seen `prefix_of` log ->
  server_view s seen -> server_view s' seen.
Proof.
  intros Hi He Hl Hv. pose proof Hv as [Hcount Haddr Hprefix Hexact Hframes _ _].
  assert (forall f, f ∈ out_log s -> server_frame_ok s' f) as Hold.
  { intros f Hf. apply (server_frame_ok_mono s); [|by apply Hframes]. intros i u Hu.
    destruct (seffect_old _ _ _ _ _ _ He Hu) as (u' & Hu' & Es & Ha). exists u'. by split_and!; auto. }
  destruct (new_frames_ok s s' who fs seen Hi He Hl Hv) as (Hnew & Honce' & Hunrep').
  split.
  - intros sid. rewrite (count_streams (tn_tasks s)); [done|by eapply se_length|]. intros i u' Hu'.
    destruct (se_tasks _ _ _ _ He i u' Hu') as (u & Hu & Es & _). by exists u.
  - intros i u' Hu'. destruct (se_tasks _ _ _ _ He i u' Hu') as (u & Hu & -> & -> & _). by apply (Haddr i).
  - intros i u' Hu'. destruct (se_tasks _ _ _ _ He i u' Hu') as (u & Hu & -> & _ & -> & _). by apply (Hprefix i).
  - intros i u' Hu' Hr. apply (se_registry _ _ _ _ He) in Hr.
    destruct (se_tasks _ _ _ _ He i u' Hu') as (u & Hu & Es & _ & -> & _). rewrite Es in *. by apply (Hexact i).
  - rewrite (se_log _ _ _ _ He). intros f [Hf|Hf]%elem_of_app; auto.
  - by rewrite (se_log _ _ _ _ He).
  - intros i u' Hu' Hun. destruct (se_tasks _ _ _ _ He i u' Hu') as (u & Hu & Es & _ & _ & Hph & _).
    destruct (Hph Hun) as [Hun' Hne]. rewrite (se_log _ _ _ _ He), Es. by eapply Hunrep'.
Qed.

(** A frame read that routes nothing. *)
Lemma server_view_skip s seen f : server_view s seen ->
  (forall i u, tn_tasks s !! i = Some u -> tn_registry s !! tk_stream u = Some i -> frame_event (tk_stream u) f = []) ->
  server_view s (seen ++ [f]).
Proof.
  intros [Hcount Haddr Hprefix Hexact Hframes Honce Hunrep] Hev. split; try done.
  - intros sid. rewrite kinds_app. specialize (Hcount sid). lia.
  - intros i u Hu. destruct (Haddr i u Hu) as (p & Hp & ?). exists p. split; [|done]. apply elem_of_app. by left.
  - intros i u Hu. rewrite events_app. apply prefix_app_r. by eapply Hprefix.
  - intros i u Hu Hr. rewrite events_snoc, (Hev i u Hu Hr), app_nil_r. by eapply Hexact.
Qed.

(** Nothing a stream that has no task can have been the subject of. *)
Lemma no_reply_without_task s seen sid : server_view s seen -> (forall i u, tn_tasks s !! i = Some u -> tk_stream u <> sid) ->
  kinds Reply sid (out_log s) = 0%nat.
Proof.
  intros Hv Hno. destruct (kinds Reply sid (out_log s)) eqn:E; [done|].
  destruct (kinds_elem Reply sid (out_log s) ltac:(lia)) as (f & Hf & Hk).
  destruct (sv_frames _ _ Hv f Hf) as (k & sid' & p & Ef & Hu & _ & Hc). rewrite Ef, is_kind_new in Hk by done.
  apply andb_prop in Hk as [->%bool_decide_eq_true ->%Z.eqb_eq]. destruct Hc as (i & u & Hu' & Es & _); [done|]. by destruct (Hno i u Hu').
Qed.

(** An OPEN accepted: its task begins with nothing routed, and nothing was sent before it. *)
Lemma server_view_spawn s seen sid p addr reg : is_u32 sid -> server_view s seen ->
  seen ++ [OutFrame_new Open sid p] `prefix_of` log -> addr_decode p = Ok addr ->
  (forall sid' i, reg !! sid' = Some i -> tn_registry s !! sid' = Some i \/ (sid' = sid /\ i = length (tn_tasks s))) ->
  server_view (Tun reg (tn_tasks s ++ [Tk sid addr TConnecting [] [] []]) (tn_queue s) (tn_wire s) (tn_closed s) (tn_demux s))
    (seen ++ [OutFrame_new Open sid p]).
Proof.
  intros Hu Hv Hl Hp Hreg. set (f := OutFrame_new Open sid p) in *. set (u0 := Tk sid addr TConnecting [] [] []).
  assert (is_kind Open sid f = true) as Hk by (by unfold f; rewrite is_kind_new, bool_decide_true, Z.eqb_refl).
  destruct (log_ok_open_first t log seen f sid Hok Hl Hk) as [Hz Hev].
  assert (forall i u, tn_tasks s !! i = Some u -> tk_stream u <> sid) as Hno.
  { intros i u Hu' E. pose proof (sv_count _ _ Hv sid). rewrite Hz in *.
    pose proof (count_pos (fun t => tk_stream t = sid) (tn_tasks s) i u Hu' E). lia. }
  pose proof (no_reply_without_task s seen sid Hv Hno) as Hnr. pose proof Hv as [Hcount Haddr Hprefix Hexact Hframes Honce Hunrep].
  assert (forall sid', frame_event sid' f = []) as Hfe by (intros; unfold f; rewrite frame_event_new by done; by destruct (_ =? _)).
  assert (forall i u, (tn_tasks s ++ [u0]) !! i = Some u -> tn_tasks s !! i = Some u \/ (i = length (tn_tasks s) /\ u = u0)) as Hi.
  { intros i u Hl'. apply lookup_app_Some in Hl' as [|[Hge Hl']]; [by left|]. right.
    apply list_lookup_singleton_Some in Hl' as [E <-]. split; [lia|done]. }
  split; cbn [tn_tasks tn_registry]; try done.
  - intros sid'. rewrite count_app, kinds_app, count_one. unfold f. rewrite kinds_new by done. specialize (Hcount sid').
    destruct (decide (tk_stream u0 = sid')) as [<-|]; [rewrite decide_True by done; lia|lia].
  - intros i u Hl'. destruct (Hi i u Hl') as [Hu'|[-> ->]].
    + destruct (Haddr i u Hu') as (q & Hq & ?). exists q. split; [|done]. apply elem_of_app. by left.
    + exists p. split; [|done]. apply elem_of_app. right. by left.
  - intros i u Hl'. rewrite events_snoc, Hfe, app_nil_r. destruct (Hi i u Hl') as [Hu'|[-> ->]]; [by eapply Hprefix|apply prefix_nil].
  - intros i u Hl' Hr. rewrite events_snoc, Hfe, app_nil_r. destruct (Hi i u Hl') as [Hu'|[-> ->]]; [|by cbn [u0 tk_stream tk_routed]; rewrite Hev].
    destruct (Hreg _ _ Hr) as [?|[E _]]; [by apply (Hexact i)|by destruct (Hno i u Hu')].
  - intros g Hg. apply (server_frame_ok_mono s); [|by apply Hframes]. intros i u Hu'. exists u. cbn [tn_tasks]. by rewrite (lookup_app_l_Some _ _ _ _ Hu').
  - intros i u Hl' Hun. destruct (Hi i u Hl') as [Hu'|[-> ->]]; [by apply (Hunrep i)|exact Hnr].
Qed.

(** An event read for a registered stream is routed to its task. *)
Lemma server_view_routed s seen f sid ev i u : frame_event sid f = [ev] -> (forall sid', sid' <> sid -> frame_event sid' f = []) ->
  server_view s seen -> tn_registry s !! sid = Some i -> tn_tasks s !! i = Some u -> tk_stream u = sid ->
  server_view (with_demux (DRouting sid ev i)
    (with_task i (Tk (tk_stream u) (tk_addr u) (tk_phase u) (tk_queue u) (tk_routed u ++ [ev]) (tk_taken u)) s)) (seen ++ [f]).
Proof.
  intros Hf Hother [Hcount Haddr Hprefix Hexact Hframes Honce Hunrep] Hr Hu Es. set (u' := Tk _ _ _ _ _ _).
  assert (forall j v, <[i := u']> (tn_tasks s) !! j = Some v -> (j = i /\ v = u') \/ (j <> i /\ tn_tasks s !! j = Some v)) as Hj.
  { intros j v Hv. apply list_lookup_insert_Some in Hv as [(-> & <- & _)|[? ?]]; auto. }
  assert (tk_routed u = events sid seen) as Hex by (rewrite <- Es; apply (Hexact i u Hu); by rewrite Es).
  split; cbn [with_demux with_task tn_tasks tn_registry]; try done.
  - intros sid'. rewrite kinds_app, (count_streams (tn_tasks s)); [specialize (Hcount sid'); lia|by rewrite length_insert|].
    intros j v Hv. destruct (Hj j v Hv) as [[-> ->]|[_ Hv']]; [by exists u|by exists v].
  - intros j v Hv. assert (exists v', tn_tasks s !! j = Some v' /\ tk_stream v = tk_stream v' /\ tk_addr v = tk_addr v') as (v' & Hv' & -> & ->).
    { destruct (Hj j v Hv) as [[-> ->]|[_ Hv']]; [by exists u|by exists v]. }
    destruct (Haddr j v' Hv') as (q & Hq & ?). exists q. split; [|done]. apply elem_of_app. by left.
  - intros j v Hv. rewrite events_snoc. destruct (Hj j v Hv) as [[-> ->]|[_ Hv']].
    + cbn [u' tk_stream tk_routed]. rewrite Es, Hf, Hex. done.
    + apply prefix_app_r. by eapply Hprefix.
  - intros j v Hv Hr'. rewrite events_snoc. destruct (Hj j v Hv) as [[-> ->]|[Hne Hv']].
    + cbn [u' tk_stream tk_routed]. by rewrite Es, Hf, Hex.
    + rewrite (Hother (tk_stream v)); [by rewrite app_nil_r; apply (Hexact j)|]. intros E. rewrite E in Hr'. congruence.
  - intros g Hg. apply (server_frame_ok_mono s); [|by apply Hframes]. intros j v Hv. destruct (decide (j = i)) as [->|Hne].
    + rewrite Hu in Hv. injection Hv as <-. exists u'. split_and!; [|done|done]. apply list_lookup_insert_eq. by eapply lookup_lt_Some.
    + exists v. cbn [with_demux with_task tn_tasks]. by rewrite list_lookup_insert_ne.
  - intros j v Hv Hun. destruct (Hj j v Hv) as [[-> ->]|[_ Hv']]; [by apply (Hunrep i u)|by apply (Hunrep j)].
Qed.

(** A frame of the client read by the server: never one that ends the tunnel. *)
Lemma server_view_read s seen f : tunnel_inv rt s -> tn_demux s = DIdle -> seen ++ [f] `prefix_of` log -> server_view s seen ->
  server_view (demux_frame rt (message f) s) (seen ++ [f]) /\ tn_demux (demux_frame rt (message f) s) <> DEnded.
Proof.
  intros Hi Hd Hl Hv.
  destruct (lo_frames _ _ Hok f) as (k & sid & p & Ef & Hu & Hk & _).
  { destruct Hl as [m ->]. rewrite !elem_of_app. left. right. by left. }
  assert (parse_frame (message f) = Ok (k, sid, p)) as Ep by (rewrite Ef; apply parse_frame_header; done).
  assert (forall s', tn_tasks s' = tn_tasks s -> (forall sid i, tn_registry s' !! sid = Some i -> tn_registry s !! sid = Some i) ->
    out_log s' = out_log s \/ out_log s' = out_log s ++ [OutFrame_bare Close sid] ->
    (forall i u, tn_tasks s !! i = Some u -> tn_registry s' !! tk_stream u = Some i -> frame_event (tk_stream u) f = []) ->
    server_view s' (seen ++ [f])) as Hkeep.
  { intros s' Et Er Elog Hev.
    assert (exists fs, server_effect s s' None fs) as [fs He] by (by eapply seffect_close).
    apply server_view_skip; [eapply (server_view_effect s); try done; by eapply prefix_app_l|].
    intros i u Hl' Hr. rewrite Et in Hl'. by apply (Hev i). }
  assert (forall sid', sid' <> sid -> frame_event sid' f = []) as Hother.
  { intros sid' Hne. rewrite Ef, frame_event_new by done. by destruct (Z.eqb_spec sid sid') as [<-|]. }
  pose proof (out_try_send_spec (OutFrame_bare Close sid) s) as (Et & Er & Ed & Elog).
  assert (frame_event sid f = [] -> server_view (out_try_send (OutFrame_bare Close sid) s) (seen ++ [f]) /\
    tn_demux (out_try_send (OutFrame_bare Close sid) s) <> DEnded) as Hbounce.
  { intros Hev. split; [|by rewrite Ed, Hd]. apply Hkeep; [done|by rewrite Er|done|]. intros i u _ _.
    destruct (decide (tk_stream u = sid)) as [->|]; auto. }
  assert (forall ev, frame_event sid f = [ev] -> server_view (route sid ev s) (seen ++ [f]) /\ tn_demux (route sid ev s) <> DEnded) as Hroute.
  { intros ev Hev. unfold route. destruct (tn_registry s !! sid) as [i|] eqn:Hr.
    - destruct (inv_registry _ _ Hi _ _ Hr) as (u & Hu' & Es & _). rewrite Hu'. split; [by eapply server_view_routed|done].
    - split; [|by rewrite Ed, Hd]. apply Hkeep; [done|by rewrite Er|done|]. intros i u _ Hr'. apply Hother. rewrite Er in Hr'. congruence. }
  rewrite Ef, frame_event_new, Z.eqb_refl in Hbounce, Hroute by done. rewrite <- Ef in Hbounce, Hroute.
  unfold demux_frame. rewrite Ep. destruct k; [|done|by apply Hroute|by apply Hroute|].
  - unfold handle_open. cbv zeta. destruct (bool_decide _) eqn:Edup; [by apply Hbounce|]. apply bool_decide_eq_false in Edup.
    destruct (match rt_max_streams_per_conn rt with Some _ => _ | None => _ end); [by apply Hbounce|].
    destruct (addr_decode p) as [addr|e] eqn:Ea; [|by apply Hbounce]. split; [|by cbn; rewrite Hd]. rewrite Ef.
    rewrite Ef in Hl. apply server_view_spawn; try done. intros sid' i Hr. destruct (decide (sid' = sid)) as [->|].
    + rewrite lookup_insert_eq in Hr. injection Hr as <-. by right.
    + rewrite lookup_insert_ne in Hr by done. by left.
  - split; [|by cbn; rewrite Hd]. apply Hkeep; [done| |by left|].
    + intros sid' i Hr. cbn in Hr. by apply lookup_delete_Some in Hr as [_ ?].
    + intros i u _ _. rewrite Ef, frame_event_new by done. by destruct (_ =? _).
Qed.
End ServerView.

(** ** What the client knows of what it read *)

Record client_view (t : Pool.Tunnel) (seen : list OutFrame) : Prop := {
  cv_prefix : forall i c, ct_calls t !! i = Some c -> op_events c `prefix_of` events (op_sid c) seen;
  cv_exact : forall i c, ct_calls t !! i = Some c -> ct_registry t !! op_sid c = Some i -> op_events c = events (op_sid c) seen;
  cv_reply : forall i c ok, ct_calls t !! i = Some c -> op_reply c = Some ok -> reply_frame (op_sid c) ok ∈ seen
}.

Lemma client_view_new : client_view spawn_tunnel [].
Proof. by split. Qed.

Lemma client_view_local t t' who fs seen : client_inv t' -> small t' -> client_effect t t' who fs -> client_quiet t t' ->
  (forall sid, events sid seen <> [] -> exists i c, ct_calls t !! i = Some c /\ op_sid c = sid) ->
  client_view t seen -> client_view t' seen.
Proof.
  intros Hi' Hsm He Hq Hknown [Hprefix Hexact Hreply].
  assert (forall i c', ct_calls t' !! i = Some c' ->
    (exists c, ct_calls t !! i = Some c /\ op_sid c' = op_sid c /\ op_events c' = op_events c /\ op_reply c' = op_reply c) \/
    (ct_calls t !! i = None /\ op_events c' = [] /\ op_reply c' = None)) as Hcalls.
  { intros i c' Hl. destruct (cq_calls _ _ Hq i c' Hl) as [(c & Hc & Hev & Hr)|?]; [|by right]. left. exists c.
    destruct (ce_calls _ _ _ _ He i c' Hl) as [(d & Hd & Es & _)|[? _]]; [|congruence]. rewrite Hc in Hd. by injection Hd as <-. }
  assert (forall i c', ct_calls t' !! i = Some c' -> ct_calls t !! i = None -> events (op_sid c') seen = []) as Hfresh.
  { intros i c' Hl Hn. destruct (events (op_sid c') seen) as [|ev evs] eqn:E; [done|]. exfalso.
    destruct (Hknown (op_sid c') ltac:(by rewrite E)) as (j & d & Hd & Es). pose proof (ce_length _ _ _ _ He) as Hlen.
    destruct (ct_calls t' !! j) as [d'|] eqn:Hd'; [|apply lookup_lt_Some in Hd; apply lookup_ge_None in Hd'; lia].
    destruct (ce_calls _ _ _ _ He j d' Hd') as [(d0 & Hd0 & Es' & _)|[? _]]; [|congruence].
    assert (i = j) by (eapply (sid_inj t' i j c' d'); try done; congruence). congruence. }
  split.
  - intros i c' Hl. destruct (Hcalls i c' Hl) as [(c & Hc & -> & -> & _)|(_ & -> & _)]; [by eapply Hprefix|apply prefix_nil].
  - intros i c' Hl Hr. destruct (cq_registry _ _ Hq _ _ Hr) as [Hr'|Hn];
      (destruct (Hcalls i c' Hl) as [(c & Hc & Es & -> & _)|(Hn' & -> & _)]; [try congruence|]).
    + rewrite Es in *. by apply (Hexact i).
    + by rewrite (Hfresh i).
    + by rewrite (Hfresh i).
  - intros i c' ok Hl Hr. destruct (Hcalls i c' Hl) as [(c & Hc & -> & _ & Er)|(_ & _ & Er)]; [|congruence].
    apply (Hreply i c ok Hc). congruence.
Qed.

(** A frame read that leaves every call as it is. *)
Lemma client_view_skip t t' seen f : ct_calls t' = ct_calls t ->
  (forall sid i, ct_registry t' !! sid = Some i -> ct_registry t !! sid = Some i /\ frame_event sid f = []) ->
  client_view t seen -> client_view t' (seen ++ [f]).
Proof.
  intros Ec Er [Hprefix Hexact Hreply]. split; rewrite Ec.
  - intros i c Hl. rewrite events_app. apply prefix_app_r. by eapply Hprefix.
  - intros i c Hl Hr. destruct (Er _ _ Hr) as [Hr' Hf]. rewrite events_snoc, Hf, app_nil_r. by eapply Hexact.
  - intros i c ok Hl Ho. apply elem_of_app. left. by eapply Hreply.
Qed.

(** One call takes what was read, the others nothing. *)
Lemma client_view_insert t seen f i c c' : client_inv t -> small t -> ct_calls t !! i = Some c ->
  op_sid c' = op_sid c -> op_events c' = op_events c ++ frame_event (op_sid c) f ->
  (forall ok, op_reply c' = Some ok -> op_reply c = Some ok \/ f = reply_frame (op_sid c) ok) ->
  (forall sid, sid <> op_sid c -> frame_event sid f = []) ->
  ct_registry t !! op_sid c = Some i \/ frame_event (op_sid c) f = [] ->
  client_view t seen ->
  forall t', ct_calls t' = <[i := c']> (ct_calls t) -> ct_registry t' = ct_registry t -> client_view t' (seen ++ [f]).
Proof.
  intros Hi Hsm Hl Es Eev Hrep Hother Hreg [Hprefix Hexact Hreply] t' Ec Er. split; rewrite Ec, ?Er.
  - intros j d Hd. rewrite events_snoc. destruct (insert_calls _ _ _ _ _ _ Hl Hd) as [[-> ->]|[_ Hd']].
    + rewrite Es, Eev. destruct Hreg as [Hr|Hn]; [rewrite (Hexact _ _ Hl Hr); done|]. rewrite Hn, !app_nil_r. by eapply Hprefix.
    + apply prefix_app_r. by eapply Hprefix.
  - intros j d Hd Hr. rewrite events_snoc. destruct (insert_calls _ _ _ _ _ _ Hl Hd) as [[-> ->]|[Hne Hd']].
    + rewrite Es in *. by rewrite Eev, (Hexact _ _ Hl Hr).
    + rewrite (Hother (op_sid d)); [by rewrite app_nil_r; apply (Hexact j)|]. intros E.
      apply Hne. by eapply (sid_inj t j i d c).
  - intros j d ok Hd Ho. apply elem_of_app. destruct (insert_calls _ _ _ _ _ _ Hl Hd) as [[-> ->]|[_ Hd']]; [|left; by eapply Hreply].
    rewrite Es. destruct (Hrep ok Ho) as [Ho'|Ef]; [left; by eapply Hreply|right; rewrite Ef; by left].
Qed.

Lemma client_view_read t seen f d k sid p : client_inv t -> small t -> f = OutFrame_new k sid p -> is_u32 sid -> k <> Open ->
  (k = Reply -> exists ok, f = reply_frame sid ok) -> client_view t seen ->
  client_view (reader_frame (message f) d t) (seen ++ [f]).
Proof.
  intros Hi Hsm Ef Hu Hk Hreply Hv.
  assert (parse_frame (message f) = Ok (k, sid, p)) as Ep by (rewrite Ef; by apply parse_frame_header).
  assert (forall sid', sid' <> sid -> frame_event sid' f = []) as Hother.
  { intros sid' Hne. rewrite Ef, frame_event_new by done. by destruct (Z.eqb_spec sid sid') as [<-|]. }
  pose proof (frame_event_new k sid p Hu sid) as Hself. rewrite <- Ef, Z.eqb_refl in Hself.
  assert (forall ev, frame_event sid f = [ev] -> client_view (route_event sid ev d t) (seen ++ [f])) as Hroute.
  { intros ev Hev. unfold route_event. destruct (ct_registry t !! sid) as [i|] eqn:Hr.
    - destruct (ci_registry _ Hi _ _ Hr) as (c & Hc & Es & _).
      assert (forall t1, ct_calls t1 = ct_calls t -> ct_registry t1 = delete sid (ct_registry t) ->
        client_view (tunnel_try_send (OutFrame_bare Close sid) t1) (seen ++ [f])) as Hdrop.
      { intros t1 Ec1 Er1. destruct (try_send_spec (OutFrame_bare Close sid) t1) as (Ec & Er & _).
        apply (client_view_skip t); [congruence| |done]. rewrite Er, Er1. intros s j Hs.
        apply lookup_delete_Some in Hs as [Hne ?]. by auto. }
      destruct d; rewrite ?Hc; [|by apply Hdrop..].
      set (c' := Call _ _ _ _ _).
      apply (client_view_insert t seen f i c c'); try done; [by rewrite Es, Hev|by auto|by rewrite Es|left; by rewrite Es].
    - destruct (try_send_spec (OutFrame_bare Close sid) t) as (Ec & Er & _). apply (client_view_skip t); [done| |done].
      rewrite Er. intros s j Hs. split; [done|]. apply Hother. congruence. }
  unfold reader_frame. rewrite Ep. destruct k; [done| |by apply Hroute|by apply Hroute|].
  - destruct (Hreply eq_refl) as [ok Er]. assert (p = [if ok then REPLY_OK else REPLY_REFUSED]) as Hp.
    { rewrite Ef in Er. unfold reply_frame, OutFrame_new in Er. by injection Er as ->. }
    unfold reader_reply. rewrite Hp. cbn [head].
    assert (bool_decide (Some (if ok then REPLY_OK else REPLY_REFUSED) = Some REPLY_OK) = ok) as -> by (by destruct ok).
    destruct (ct_pending t !! sid) as [i|] eqn:Epd.
    + destruct (ci_pending _ Hi _ _ Epd) as (c & Hc & Es & _). rewrite Hc.
      set (c' := Call _ _ _ _ _). apply (client_view_insert t seen f i c c'); try done.
      * by rewrite Es, Hself, app_nil_r.
      * intros ok' [= <-]. right. by rewrite Es.
      * by rewrite Es.
      * right. by rewrite Es.
    + apply (client_view_skip t); [done| |done]. intros s j Hs. split; [done|].
      destruct (decide (s = sid)) as [->|]; [done|by apply Hother].
  - apply (client_view_skip t); [done| |done]. cbn. intros s j Hs. apply lookup_delete_Some in Hs as [Hne ?]. by auto.
Qed.

(** ** The invariant of the pair *)

Record pair_inv (rt : ServerRuntime) (s : Pair) : Prop := {
  pi_client : client_inv (pr_client s);
  pi_server : tunnel_inv rt (pr_server s);
  pi_log : log_ok (pr_client s) (client_log s);
  pi_up : server_view (pr_server s) (up_seen s);
  pi_down : client_view (pr_client s) (down_seen s);
  pi_up_read : (pr_up_read s ≤ length (pr_up s))%nat;
  pi_down_read : (pr_down_read s ≤ length (tn_wire (pr_server s)))%nat
}.

Lemma pair_inv_new rt : pair_inv rt pair_new.
Proof.
  split; cbn [pr_client pr_server pr_up pr_up_read pr_down_read pair_new]; try apply Nat.le_0_l.
  - apply client_inv_new.
  - apply inv_new.
  - apply log_ok_new.
  - apply server_view_new.
  - apply client_view_new.
Qed.

(** What was written stays written. *)
Lemma local_wire s s' : tunnel_local s s' -> tn_wire s `prefix_of` tn_wire s'.
Proof.
  assert (forall f s, tn_wire (out_try_send f s) = tn_wire s) as Hsend by (intros; unfold out_try_send; by destruct (_ && _)).
  intros Hst. destruct Hst as [| | |s i t a s' _ E| | |]; try done.
  - unfold route_drop. cbn [with_demux tn_wire]. by rewrite Hsend.
  - unfold route_drop. cbn [with_demux tn_wire]. by rewrite Hsend.
  - unfold task_step in E. destruct (tk_phase t), a; try done; repeat (case_match; try done); by injection E as <-.
  - by eexists.
Qed.

Lemma demux_wire rt msg s : tn_wire (demux_frame rt msg s) = tn_wire s.
Proof.
  assert (forall f s, tn_wire (out_try_send f s) = tn_wire s) as Hsend by (intros; unfold out_try_send; by destruct (_ && _)).
  unfold demux_frame, handle_open, route. repeat (case_match; try done); by rewrite ?Hsend.
Qed.

Lemma up_seen_prefix s : up_seen s `prefix_of` client_log s.
Proof. unfold up_seen, client_log. apply prefix_app_r. by exists (drop (pr_up_read s) (pr_up s)); rewrite take_drop. Qed.

Lemma down_seen_prefix s : down_seen s `prefix_of` out_log (pr_server s).
Proof. unfold down_seen, out_log. apply prefix_app_r. by exists (drop (pr_down_read s) (tn_wire (pr_server s))); rewrite take_drop. Qed.

Lemma down_seen_log s f : f ∈ down_seen s -> f ∈ out_log (pr_server s).
Proof. intros Hf. destruct (down_seen_prefix s) as [m ->]. apply elem_of_app. by left. Qed.

Lemma take_of_prefix {A} (a b : list A) n : a `prefix_of` b -> (n ≤ length a)%nat -> take n b = take n a.
Proof. intros [c ->] Hn. by apply take_app_le. Qed.

(** A stream the client has read something of was opened by a call. *)
Lemma down_seen_known rt s sid : pair_inv rt s -> events sid (down_seen s) <> [] ->
  exists i c, ct_calls (pr_client s) !! i = Some c /\ op_sid c = sid.
Proof.
  intros [Hic His Hlog Hup Hdown Hn Hm] Hne.
  assert (exists f, f ∈ down_seen s /\ frame_event sid f <> []) as (f & Hf & Hev).
  { clear - Hne. induction (down_seen s) as [|f l IH]; [done|]. destruct (frame_event sid f) as [|ev evs] eqn:E.
    - destruct IH as (g & Hg & ?); [|exists g; split; [by right|done]]. intros El. apply Hne. unfold events in *. cbn. by rewrite E, El.
    - exists f. split; [by left|by rewrite E]. }
  destruct (sv_frames _ _ Hup f (down_seen_log s f Hf)) as (k & sid' & p & Ef & Hu & _ & Hc).
  rewrite Ef, frame_event_new in Hev by done. destruct (Z.eqb_spec sid' sid) as [->|]; [|done].
  destruct Hc as (i & u & Hu' & Es & _); [by intros ->|]. destruct (sv_addr _ _ Hup i u Hu') as (q & Hq & _).
  assert (0 < kinds Open sid (client_log s))%nat as Hpos.
  { eapply Nat.lt_le_trans; [|apply kinds_prefix, up_seen_prefix]. unfold kinds.
    apply list_elem_of_lookup_1 in Hq as [j Hj]. eapply (count_pos _ _ j _ Hj). by rewrite is_kind_new, bool_decide_true, Es, Z.eqb_refl by (rewrite ?Es; done). }
  destruct (log_open_call _ _ _ Hlog Hic Hpos) as (j & c & Hl & ? & _). by exists j, c.
Qed.

Lemma pair_step_inv rt s s' : pair_step rt s s' -> small (pr_client s') -> pair_inv rt s -> pair_inv rt s'.
Proof.
  intros Hst Hsm Hinv. pose proof (down_seen_known rt s) as Hknown.
  destruct Hst as [t t' up n s m Hloc|t f q up n s m Hc Hq|t f d up n s m Hrd Hf|t up n s s' m Hloc|t up n f s m Hd Hf Hw];
    pose proof Hinv as [Hic His Hlog Hup Hdown Hn Hm]; unfold client_log, up_seen, down_seen in *;
    cbn [pr_client pr_server pr_up pr_up_read pr_down_read] in *.
  - assert (client_inv t') as Hic' by (by eapply client_step_inv; [apply client_own|]).
    destruct (client_local_effect t t' Hic Hloc) as [(who & fs & He) Hquiet].
    split; unfold client_log, up_seen, down_seen; cbn [pr_client pr_server pr_up pr_up_read pr_down_read]; try done.
    + rewrite (ce_queue _ _ _ _ He), app_assoc. by apply (log_ok_effect t t' who fs).
    + apply (client_view_local t t' who fs); try done. intros sid Hev. by apply Hknown.
  - assert (client_inv (with_out q t)) as Hic' by (by eapply client_step_inv; [eapply client_writes|]).
    split; unfold client_log, up_seen, down_seen; cbn [pr_client pr_server pr_up pr_up_read pr_down_read with_out ct_queue]; try done.
    + rewrite Hq in Hlog. rewrite <- app_assoc. cbn [app]. by destruct Hlog.
    + by rewrite take_app_le.
    + by destruct Hdown.
    + rewrite length_app. lia.
  - assert (f ∈ out_log s) as Hfl by (unfold out_log; apply elem_of_app; left; by eapply list_elem_of_lookup_2).
    destruct (sv_frames _ _ Hup f Hfl) as (k & sid & p & Ef & Hu & Hk & Hrep).
    assert (parse_frame (message f) = Ok (k, sid, p)) as Ep by (rewrite Ef; by apply parse_frame_header).
    destruct (reader_frame_effect (message f) d t k sid p Hic Ep Hu Hk) as [fs He].
    split; unfold client_log, up_seen, down_seen; cbn [pr_client pr_server pr_up pr_up_read pr_down_read]; try done.
    + by apply reader_frame_inv.
    + rewrite (ce_queue _ _ _ _ He), app_assoc. apply (log_ok_effect t _ None fs); try done. by apply reader_frame_inv.
    + rewrite (take_S_r _ _ f Hf). apply (client_view_read t _ f d k sid p); try done; [by eapply small_mono|].
      intros ->. destruct Hrep as (i & u & _ & _ & Hr); [done|]. destruct (Hr eq_refl) as (ok & -> & _). by exists ok.
    + apply lookup_lt_Some in Hf. lia.
  - destruct (tunnel_local_effect rt s s' His Hloc) as (who & fs & He). pose proof (local_wire s s' Hloc) as Hwire.
    split; unfold client_log, up_seen, down_seen; cbn [pr_client pr_server pr_up pr_up_read pr_down_read]; try done.
    + by eapply tunnel_step_inv; [|apply tunnel_own].
    + apply (server_view_effect rt t (up ++ ct_queue t) Hlog s s' who fs); try done. exact (up_seen_prefix (Pr t up n s m)).
    + by rewrite (take_of_prefix _ _ _ Hwire Hm).
    + apply prefix_length in Hwire. lia.
  - assert (take n up ++ [f] `prefix_of` up ++ ct_queue t) as Hpre.
    { rewrite <- (take_S_r _ _ f Hf). apply prefix_app_r. by exists (drop (S n) up); rewrite take_drop. }
    destruct (server_view_read rt t (up ++ ct_queue t) Hlog s (take n up) f His Hd Hpre Hup) as [Hv _].
    split; unfold client_log, up_seen, down_seen; cbn [pr_client pr_server pr_up pr_up_read pr_down_read]; rewrite ?demux_wire; try done.
    + by apply inv_demux_frame.
    + by rewrite (take_S_r _ _ f Hf).
    + apply lookup_lt_Some in Hf. lia.
Qed.

(** The number of calls only grows. *)
Lemma client_step_length t t' : client_step t t' -> (length (ct_calls t) ≤ length (ct_calls t'))%nat.
Proof.
  assert (forall f t, ct_calls (tunnel_try_send f t) = ct_calls t) as Hsend by (intros; unfold tunnel_try_send; by destruct (_ && _)).
  assert (forall t, ct_calls (mark_dead t) = ct_calls t) as Hdead by (intros; unfold mark_dead; by destruct (ct_alive _)).
  intros Hst. destruct Hst as [t t' Hl|msg d t _|t f q _ _]; [destruct Hl as [addr t|i c a t t' Hl E|t _|t|t]| |done].
  - cbn. rewrite length_app. lia.
  - destruct (open_step_shape i c a t t' Hl E) as (p & fs & -> & _). by rewrite length_insert.
  - cbn. by rewrite Hdead.
  - cbn. by rewrite Hdead.
  - done.
  - unfold reader_frame, reader_reply, route_event, reader_end, with_call.
    repeat (case_match; try done); cbn; by rewrite ?length_insert, ?Hdead, ?Hsend.
Qed.

Lemma pair_step_length rt s s' : pair_step rt s s' ->
  (length (ct_calls (pr_client s)) ≤ length (ct_calls (pr_client s')))%nat.
Proof.
  intros Hst. destruct Hst; cbn [pr_client]; try done; apply client_step_length; by econstructor.
Qed.

(** A pair still below the bound always was. *)
Lemma pair_reachable_inv rt s : rtc (pair_step rt) pair_new s -> small (pr_client s) -> pair_inv rt s.
Proof.
  intros Hr. revert s Hr. apply (rtc_ind_r (fun s => small (pr_client s) -> pair_inv rt s)); [intros _; apply pair_inv_new|].
  intros s s' _ Hst IH Hsm. eapply pair_step_inv; [done|done|]. apply IH. pose proof (pair_step_length rt s s' Hst). unfold small in *. lia.
Qed.

Lemma OutFrame_new_inj k s p k' s' p' : is_u32 s -> is_u32 s' -> OutFrame_new k s p = OutFrame_new k' s' p' ->
  k = k' /\ s = s' /\ p = p'.
Proof.
  intros Hs Hs' E. assert (Ok (E := MuxError) (k, s, p) = Ok (k', s', p')) as E'.
  { rewrite <- (parse_frame_header k s p Hs), <- (parse_frame_header k' s' p' Hs'). exact (f_equal (fun f => parse_frame (message f)) E). }
  by injection E' as -> -> ->.
Qed.

(** The call a task serves. *)
Lemma task_call rt s i t : pair_inv rt s -> tn_tasks (pr_server s) !! i = Some t ->
  exists j c, ct_calls (pr_client s) !! j = Some c /\ op_sid c = tk_stream t /\ addr_decode (addr_encode (op_addr c)) = Ok (tk_addr t).
Proof.
  intros [Hic His Hlog Hup _ _ _] Ht. destruct (sv_addr _ _ Hup i t Ht) as (p & Hp & Ha).
  assert (is_u32 (tk_stream t)) as Hu by (by eapply task_u32, inv_tasks).
  assert (OutFrame_new Open (tk_stream t) p ∈ client_log s) as Hf.
  { destruct (up_seen_prefix s) as [m ->]. apply elem_of_app. by left. }
  destruct (lo_frames _ _ Hlog _ Hf) as (k & sid & q & Ef & Hu' & _ & Hop).
  apply OutFrame_new_inj in Ef as (<- & <- & <-); [|done..]. destruct (Hop eq_refl) as (j & c & Hc & Ec & _).
  apply OutFrame_new_inj in Ec as (_ & Es & ->); [|done|by eapply sid_u32]. by exists j, c.
Qed.

(** The task a REPLY comes from. *)
Lemma reply_task s seen sid ok : server_view s seen -> is_u32 sid -> reply_frame sid ok ∈ out_log s ->
  kinds Reply sid (out_log s) = 1%nat /\ exists i t, tn_tasks s !! i = Some t /\ tk_stream t = sid /\ answered ok (tk_phase t) = true.
Proof.
  intros Hv Hu Hf. split.
  - pose proof (sv_once _ _ Hv sid). apply list_elem_of_lookup_1 in Hf as [i Hi].
    pose proof (count_pos (fun f => is_kind Reply sid f = true) _ i _ Hi) as Hc.
    unfold reply_frame in Hc at 1. rewrite is_kind_new, bool_decide_true, Z.eqb_refl in Hc by done. specialize (Hc eq_refl). unfold kinds in *. lia.
  - destruct (sv_frames _ _ Hv _ Hf) as (k & s' & p & Ef & Hu' & _ & Hc).
    apply OutFrame_new_inj in Ef as (<- & <- & _); [|done..]. destruct Hc as (i & t & Ht & Es & Hr); [done|].
    destruct (Hr eq_refl) as (ok' & Ef & Ha). apply OutFrame_new_inj in Ef as (_ & _ & Ef); [|done..].
    exists i, t. split_and!; [done..|]. by destruct ok, ok'.
Qed.

(** ** Properties *)

(** C5: the mux protocol keeps its promises end to end.  When a client's tunnel and a
    server's are joined by their carrier, then however OPEN calls, timeouts,
    pumps, stream tasks, writers, readers and their ends interleave, before the
    client's 2^32nd stream: every task of the server serves exactly one call of
    the client, for the address that call asked for, and no two tasks the same
    stream; what the task's pump took or has waiting is a prefix of what that
    call's side sent, in order, without gaps or frames of other streams; what a
    call receives is such a prefix of what its task sent; an answer a call gets is
    the only REPLY of the server for that stream, given by its task; and no frame
    either side queues is one that ends the other's loop. *)
Theorem tunnel_end_to_end rt s :
  rtc (pair_step rt) pair_new s -> Z.of_nat (length (ct_calls (pr_client s))) < 2 ^ 32 ->
  (forall i t, tn_tasks (pr_server s) !! i = Some t -> exists j c,
     ct_calls (pr_client s) !! j = Some c /\ op_sid c = tk_stream t /\ addr_decode (addr_encode (op_addr c)) = Ok (tk_addr t) /\
     tk_taken t ++ tk_queue t `prefix_of` events (op_sid c) (client_log s)) /\
  (forall i j t t', tn_tasks (pr_server s) !! i = Some t -> tn_tasks (pr_server s) !! j = Some t' -> tk_stream t = tk_stream t' -> i = j) /\
  (forall j c, ct_calls (pr_client s) !! j = Some c ->
     op_events c `prefix_of` events (op_sid c) (out_log (pr_server s)) /\
     (forall ok, op_reply c = Some ok ->
        reply_frame (op_sid c) ok ∈ out_log (pr_server s) /\ kinds Reply (op_sid c) (out_log (pr_server s)) = 1%nat /\
        exists i t, tn_tasks (pr_server s) !! i = Some t /\ tk_stream t = op_sid c /\ answered ok (tk_phase t) = true)) /\
  (forall f, f ∈ client_log s -> exists k sid p, parse_frame (message f) = Ok (k, sid, p) /\ k <> Reply) /\
  (forall f, f ∈ out_log (pr_server s) -> exists k sid p, parse_frame (message f) = Ok (k, sid, p) /\ k <> Open).
Proof.
  intros Hr Hsm. pose proof (pair_reachable_inv rt s Hr Hsm) as Hinv. pose proof Hinv as [Hic His Hlog Hup Hdown Hn Hm].
  pose proof (up_seen_prefix s) as Hpre. split_and!.
  - intros i t Ht. destruct (task_call rt s i t Hinv Ht) as (j & c & Hc & Es & Ha).
    exists j, c. split_and!; [done..|]. rewrite Es. etransitivity; [by eapply task_prefix, inv_tasks|].
    etransitivity; [by eapply sv_prefix|]. by apply events_prefix.
  - intros i j t t' Ht Ht'. by eapply task_unique.
  - intros j c Hc. split.
    + etransitivity; [by eapply cv_prefix|]. apply events_prefix, down_seen_prefix.
    + intros ok Ho. pose proof (down_seen_log s _ (cv_reply _ _ Hdown _ _ _ Hc Ho)) as Hf. split; [done|].
      eapply reply_task; [done|by eapply sid_u32|done].
  - intros f Hf. destruct (lo_frames _ _ Hlog f Hf) as (k & sid & p & -> & Hu & Hk & _). exists k, sid, p.
    split; [by apply parse_frame_header|done].
  - intros f Hf. destruct (sv_frames _ _ Hup f Hf) as (k & sid & p & -> & Hu & Hk & _). exists k, sid, p.
    split; [by apply parse_frame_header|done].
Qed.

(** ** Runs

    Some of the steps as a function, to compute runs with. *)

Inductive Move :=
| MOpen (addr : ProxyAddr) | MCall (i : nat) (a : OpenAct) | MClientWrites | MClientReads (d : Delivery)
| MTask (i : nat) (a : TaskAct) | MRouted | MServerWrites | MServerReads.

Definition move (rt : ServerRuntime) (m : Move) (p : Pair) : option Pair :=
  let '(Pr t up n s k) := p in
  match m with
  | MOpen addr => Some (Pr (open_begin addr t) up n s k)
  | MCall i a => c ← ct_calls t !! i; t' ← open_step i c a t; Some (Pr t' up n s k)
  | MClientWrites =>
      match ct_closed t, ct_queue t with false, f :: q => Some (Pr (with_out q t) (up ++ [f]) n s k) | _, _ => None end
  | MClientReads d => f ← tn_wire s !! k; if ct_reader t then Some (Pr (reader_frame (message f) d t) up n s (S k)) else None
  | MTask i a => u ← tn_tasks s !! i; s' ← task_step i u a s; Some (Pr t up n s' k)
  | MRouted =>
      match tn_demux s with
      | DRouting stream ev i =>
          u ← tn_tasks s !! i;
          if receiving u && (length (tk_queue u) <? Server.STREAM_BOUND)%nat
          then Some (Pr t up n (with_demux DIdle
                 (with_task i (Tk (tk_stream u) (tk_addr u) (tk_phase u) (tk_queue u ++ [ev]) (tk_routed u) (tk_taken u)) s)) k)
          else None
      | _ => None
      end
  | MServerWrites =>
      match tn_closed s, tn_queue s with
      | false, f :: q => Some (Pr t up n (Tun (tn_registry s) (tn_tasks s) q (tn_wire s ++ [f]) false (tn_demux s)) k)
      | _, _ => None
      end
  | MServerReads =>
      f ← up !! n;
      match tn_demux s with
      | DIdle => if wf_bytesb (message f) then Some (Pr t up (S n) (demux_frame rt (message f) s) k) else None
      | _ => None
      end
  end.

Fixpoint run (rt : ServerRuntime) (ms : list Move) (p : Pair) : option Pair :=
  match ms with [] => Some p | m :: ms => p ← move rt m p; run rt ms p end.

Lemma move_sound rt m p p' : move rt m p = Some p' -> pair_step rt p p'.
Proof.
  destruct p as [t up n s k], m as [addr|i a| |d|i a| | |]; cbn [move]; intros E.
  - injection E as <-. by constructor; constructor.
  - destruct (ct_calls t !! i) as [c|] eqn:Hc; [|done]. cbn in E. destruct (open_step i c a t) as [t'|] eqn:Ho; [|done].
    injection E as <-. constructor. by econstructor.
  - destruct (ct_closed t) eqn:Hc, (ct_queue t) as [|f q] eqn:Hq; try done. injection E as <-. by constructor.
  - destruct (tn_wire s !! k) as [f|] eqn:Hf; [|done]. cbn in E. destruct (ct_reader t) eqn:Hr; [|done]. injection E as <-. by constructor.
  - destruct (tn_tasks s !! i) as [u|] eqn:Hu; [|done]. cbn in E. destruct (task_step i u a s) as [s'|] eqn:Ho; [|done].
    injection E as <-. constructor. by econstructor.
  - destruct (tn_demux s) as [|stream ev i|] eqn:Hd; try done. destruct (tn_tasks s !! i) as [u|] eqn:Hu; [|done]. cbn in E.
    destruct (_ && _) eqn:Eb; [|done]. injection E as <-. apply andb_prop in Eb as [Hr Hl].
    assert (length (tk_queue u) < Server.STREAM_BOUND)%nat by (by apply Nat.ltb_lt). constructor. by econstructor.
  - destruct (tn_closed s) eqn:Hc, (tn_queue s) as [|f q] eqn:Hq; try done. injection E as <-. constructor. by constructor.
  - destruct (up !! n) as [f|] eqn:Hf; [|done]. cbn in E. destruct (tn_demux s) eqn:Hd; try done.
    destruct (wf_bytesb _) eqn:Ew; [|done]. injection E as <-. constructor; [done..|by apply wf_bytes_eval].
Qed.

Lemma run_sound rt ms p p' : run rt ms p = Some p' -> rtc (pair_step rt) p p'.
Proof.
  revert p. induction ms as [|m ms IH]; intros p E; cbn [run] in E; [injection E as <-; apply rtc_refl|].
  destruct (move rt m p) as [q|] eqn:Em; [|done]. eapply rtc_l; [by eapply move_sound|by apply IH].
Qed.

(** One call opened, answered and used in both directions. *)
Definition sample_run : list Move :=
  [MOpen (PAddr (Ip (V4 [127; 0; 0; 1])) 80); MCall 0 OSend; MClientWrites; MServerReads;
   MTask 0 (AConnected true); MTask 0 AReply; MServerWrites; MClientReads Delivered; MCall 0 OAccepted;
   MCall 0 (OPump (OutFrame_new Data 1 [1; 2; 3])); MClientWrites; MServerReads; MRouted; MTask 0 ATake;
   MTask 0 (APump (OutFrame_new Data 1 [4; 5])); MServerWrites; MClientReads Delivered].

Definition sample_pair : Pair := default pair_new (run (small_runtime 1) sample_run pair_new).

Lemma sample_pair_reached : rtc (pair_step (small_runtime 1)) pair_new sample_pair /\
  match ct_calls (pr_client sample_pair), tn_tasks (pr_server sample_pair) with
  | [c], [t] => op_sid c = 1 /\ op_reply c = Some true /\ op_events c = [SData [4; 5]] /\ tk_taken t = [SData [1; 2; 3]]
  | _, _ => False
  end.
Proof.
  assert (is_Some (run (small_runtime 1) sample_run pair_new)) as [p Ep].
  { destruct (run (small_runtime 1) sample_run pair_new) eqn:E; [by eexists|]. exfalso.
    assert (match run (small_runtime 1) sample_run pair_new with Some _ => true | None => false end = true) as Hs by (vm_compute; reflexivity).
    by rewrite E in Hs. }
  split; [|vm_compute; auto]. unfold sample_pair. rewrite Ep. by apply (run_sound _ sample_run).
Qed.

Lemma tunnel_end_to_end_witness : rtc (pair_step (small_runtime 1)) pair_new sample_pair /\
  [SData [1; 2; 3]] `prefix_of` events 1 (client_log sample_pair) /\ [SData [4; 5]] `prefix_of` events 1 (out_log (pr_server sample_pair)) /\
  reply_frame 1 true ∈ out_log (pr_server sample_pair).
Proof.
  destruct sample_pair_reached as (Hr & Hs). split; [exact Hr|]. revert Hr Hs. generalize sample_pair as s. intros s Hr Hs.
  destruct (ct_calls (pr_client s)) as [|c [|]] eqn:Ec; [done| |done].
  destruct (tn_tasks (pr_server s)) as [|t [|]] eqn:Et; [done| |done]. destruct Hs as (Es & Er & Ee & Ek).
  destruct (tunnel_end_to_end (small_runtime 1) s Hr) as (Ht & _ & Hc & _); [rewrite Ec; reflexivity|].
  rewrite Ec in Ht, Hc. rewrite Et in Ht.
  destruct (Ht 0%nat t eq_refl) as (j & d & Hd & _ & _ & Hp). destruct j; [|done]. injection Hd as <-.
  destruct (Hc 0%nat c eq_refl) as [Hpc Hrc]. rewrite Es, Ek in Hp. rewrite Es, Ee in Hpc. rewrite Es in Hrc. split_and!.
  - etransitivity; [|exact Hp]. by apply prefix_app_r.
  - exact Hpc.
  - by destruct (Hrc true Er) as [? _].
Defined.
