(* ===== verification/TunnelPool.v ===== *)
(** * The pool at work ([Pool] of [crates/client/src/pool.rs])

    The pool over its tunnels themselves: the tunnels ever spawned, pooled or
    dedicated, as [Pool.Tunnel]s, the pool's list of them, the maintainer and its
    dial tasks, and the calls of [open_stream] with the streams they obtained.
    The pool of liveness flags and counters in [Pool] is an abstraction of this
    one, and what a tunnel counts as its load is who uses it. *)
From S2P Require Import Prelude Errors Mux Pump Addr Tunnel KeyConfig Config Server Pool TunnelPair.

(** A tunnel and whether it has a back-reference to the pool. *)
Record Spawned := Sp { sp_tunnel : Pool.Tunnel; sp_pooled : bool }.

(** Where a call of [open_stream] is. *)
Inductive Where :=
| AtLoop                        (** at the top of its loop *)
| AtPicked (i : nat)            (** holds tunnel [i], about to call [open] on it *)
| AtNoPick                      (** [pick] gave nothing; [any_live] is next *)
| AtDialing                     (** [open_dedicated] is dialing *)
| AtOpening (i j : nat)         (** inside [open] on tunnel [i], as its call [j] *)
| AtErred (i : nat)             (** [open] failed on tunnel [i] *)
| AtStream (i j : nat)          (** holds the [Stream] *)
| AtFailed                      (** returned an error *)
| AtDone (i j : nat).           (** the [Stream] is dropped *)

Record Caller := Clr { cl_addr : ProxyAddr; cl_at : Where }.

Record Serving := Srv {
  sg_tunnels : list Spawned;      (** every tunnel spawned *)
  sg_list : list nat;             (** [tunnels]: the pool's own, by index *)
  sg_dialing : Z;                 (** [dialing] *)
  sg_dials : nat;                 (** dial tasks that have not finished dialing *)
  sg_pushed : nat;                (** dial tasks that pushed their tunnel and still hold the guard *)
  sg_maintainer : Maintainer;
  sg_callers : list Caller
}.

Definition serving_new : Serving := Srv [] [] 0 0 0 MIdle [].

Definition with_tunnels (ts : list Spawned) (s : Serving) : Serving :=
  Srv ts (sg_list s) (sg_dialing s) (sg_dials s) (sg_pushed s) (sg_maintainer s) (sg_callers s).
Definition with_list (l : list nat) (s : Serving) : Serving :=
  Srv (sg_tunnels s) l (sg_dialing s) (sg_dials s) (sg_pushed s) (sg_maintainer s) (sg_callers s).
Definition with_tasks (dialing : Z) (dials pushed : nat) (s : Serving) : Serving :=
  Srv (sg_tunnels s) (sg_list s) dialing dials pushed (sg_maintainer s) (sg_callers s).
Definition with_maintainer (m : Maintainer) (s : Serving) : Serving :=
  Srv (sg_tunnels s) (sg_list s) (sg_dialing s) (sg_dials s) (sg_pushed s) m (sg_callers s).
Definition set_tunnel (i : nat) (t : Pool.Tunnel) (s : Serving) : Serving :=
  with_tunnels (alter (fun sp => Sp t (sp_pooled sp)) i (sg_tunnels s)) s.
Definition set_at (k : nat) (w : Where) (s : Serving) : Serving :=
  Srv (sg_tunnels s) (sg_list s) (sg_dialing s) (sg_dials s) (sg_pushed s) (sg_maintainer s)
    (alter (fun c => Clr (cl_addr c) w) k (sg_callers s)).

(** A tunnel as [pick] and [any_live] read it. *)
Definition view (ts : list Spawned) (i : nat) : PoolTunnel :=
  match ts !! i with
  | Some sp => PTun (ct_alive (sp_tunnel sp)) (ct_streams (sp_tunnel sp))
  | None => PTun false 0
  end.
Definition views (s : Serving) : list PoolTunnel := view (sg_tunnels s) <$> sg_list s.

(** [pick] with its [cloned]. *)
Definition pick_tunnel (max_streams : Z) (s : Serving) : option nat := n ← pick max_streams (views s); sg_list s !! n.

(** [tunnels.retain(|t| t.alive())] and [retain(|t| !Arc::ptr_eq(t, &tunnel))]. *)
Definition retain_alive (s : Serving) : list nat := filter (fun i => pt_alive (view (sg_tunnels s) i) = true) (sg_list s).
Definition retain_others (i : nat) (s : Serving) : list nat := filter (fun j => j <> i) (sg_list s).

(** A step of a tunnel's reader or writer, or of its carrier. *)
Inductive tunnel_moves : Pool.Tunnel -> Pool.Tunnel -> Prop :=
| moves_frame msg d t : ct_reader t = true -> tunnel_moves t (reader_frame msg d t)
| moves_reader_ends t : ct_reader t = true -> tunnel_moves t (reader_end t)
| moves_writer_ends t : tunnel_moves t (writer_gone t)
| moves_writes t f q : ct_closed t = false -> ct_queue t = f :: q -> tunnel_moves t (with_out q t).

(** Between two awaits: nobody else moves on a runtime of one worker. *)
Definition busy (w : Where) : bool := match w with AtPicked _ | AtNoPick | AtErred _ => true | _ => false end.
Definition quiet (me : option nat) (s : Serving) : Prop :=
  forall k c, sg_callers s !! k = Some c -> busy (cl_at c) = true -> me = Some k.
Definition may_move (multi : bool) (me : option nat) (s : Serving) : Prop :=
  multi = true \/ (sg_maintainer s = MIdle /\ quiet me s).
Definition maintainer_may (multi : bool) (s : Serving) : Prop := multi = true \/ quiet None s.

(** Where a caller is after a step of its call: [p] is the call's phase then. *)
Definition after_call (i j : nat) (w : Where) (p : OpenPhase) : Where :=
  match w, p with
  | AtOpening _ _, OClosed => AtErred i
  | AtOpening _ _, OStreaming _ => AtStream i j
  | AtStream _ _, OClosed => AtDone i j
  | _, _ => w
  end.

(** The call a caller holds. *)
Definition holds (w : Where) : option (nat * nat) := match w with AtOpening i j | AtStream i j => Some (i, j) | _ => None end.

(** The call a caller holds or held a stream of. *)
Definition owns (w : Where) : option (nat * nat) :=
  match w with AtOpening i j | AtStream i j | AtDone i j => Some (i, j) | _ => None end.

(** [Drop for Stream] kills a tunnel without a back-reference, and no other. *)
Definition drop_ok (sp : Spawned) (a : OpenAct) : Prop :=
  match a with ODrop dedicated => dedicated = negb (sp_pooled sp) | _ => True end.

(** Changing what is there. *)
Lemma alter_insert {A} (f : A -> A) (l : list A) (i : nat) x : l !! i = Some x -> alter f i l = <[i := f x]> l.
Proof.
  intros Hx. apply list_eq. intros j. destruct (decide (i = j)) as [<-|Hne].
  - rewrite list_lookup_alter_eq, Hx, list_lookup_insert_eq by (by eapply lookup_lt_Some). done.
  - by rewrite list_lookup_alter_ne, list_lookup_insert_ne.
Qed.

Lemma set_tunnel_eq i sp t s : sg_tunnels s !! i = Some sp -> set_tunnel i t s = with_tunnels (<[i := Sp t (sp_pooled sp)]> (sg_tunnels s)) s.
Proof. intros E. unfold set_tunnel. by rewrite (alter_insert _ _ _ _ E). Qed.

Section Serving.
Context (multi : bool) (pool_size max_streams : Z).

(** Where [open_stream] begins. *)
Definition at_entry : Where := if pool_size =? 0 then AtDialing else AtLoop.

Inductive serving_step : Serving -> Serving -> Prop :=
(* the maintainer; there is none without pooling *)
| sv_count s : 0 < pool_size -> maintainer_may multi s -> sg_maintainer s = MIdle ->
    serving_step s (with_maintainer (MCounted (Z.of_nat (length (retain_alive s)))) (with_list (retain_alive s) s))
| sv_short s live : maintainer_may multi s -> sg_maintainer s = MCounted live ->
    serving_step s (with_maintainer (MSpawning (shortage pool_size live (sg_dialing s))) s)
| sv_spawn s n : maintainer_may multi s -> sg_maintainer s = MSpawning (S n) ->
    serving_step s (with_maintainer (MSpawning n) (with_tasks (sg_dialing s + 1) (S (sg_dials s)) (sg_pushed s) s))
| sv_round s : maintainer_may multi s -> sg_maintainer s = MSpawning 0 -> serving_step s (with_maintainer MIdle s)
(* its dial tasks *)
| sv_dialed s n : may_move multi None s -> sg_dials s = S n ->
    serving_step s (with_tasks (sg_dialing s) n (S (sg_pushed s))
      (with_list (sg_list s ++ [length (sg_tunnels s)]) (with_tunnels (sg_tunnels s ++ [Sp spawn_tunnel true]) s)))
| sv_guard_drop s n : may_move multi None s -> sg_pushed s = S n ->
    serving_step s (with_tasks (sg_dialing s - 1) (sg_dials s) n s)
| sv_dial_failed s n : may_move multi None s -> sg_dials s = S n ->
    serving_step s (with_tasks (sg_dialing s - 1) n (sg_pushed s) s)
(* the tunnels *)
| sv_moves s i sp t : may_move multi None s -> sg_tunnels s !! i = Some sp -> tunnel_moves (sp_tunnel sp) t ->
    serving_step s (set_tunnel i t s)
(* calls of [open_stream] *)
| sv_enters s addr : may_move multi None s ->
    serving_step s (Srv (sg_tunnels s) (sg_list s) (sg_dialing s) (sg_dials s) (sg_pushed s) (sg_maintainer s)
      (sg_callers s ++ [Clr addr at_entry]))
| sv_picks s k addr : may_move multi (Some k) s -> sg_callers s !! k = Some (Clr addr AtLoop) ->
    serving_step s (set_at k (match pick_tunnel max_streams s with Some i => AtPicked i | None => AtNoPick end) s)
| sv_saturated s k addr : may_move multi (Some k) s -> sg_callers s !! k = Some (Clr addr AtNoPick) ->
    any_live (views s) = true -> serving_step s (set_at k AtDialing s)
| sv_empty s k addr w : may_move multi (Some k) s -> sg_callers s !! k = Some (Clr addr AtNoPick) ->
    any_live (views s) = false -> w = AtLoop \/ w = AtFailed -> serving_step s (set_at k w s)
| sv_dedicated s k addr : may_move multi (Some k) s -> sg_callers s !! k = Some (Clr addr AtDialing) ->
    serving_step s (set_at k (AtPicked (length (sg_tunnels s))) (with_tunnels (sg_tunnels s ++ [Sp spawn_tunnel false]) s))
| sv_undialed s k addr : may_move multi (Some k) s -> sg_callers s !! k = Some (Clr addr AtDialing) ->
    serving_step s (set_at k AtFailed s)
| sv_opens s k addr i sp : may_move multi (Some k) s -> sg_callers s !! k = Some (Clr addr (AtPicked i)) ->
    sg_tunnels s !! i = Some sp ->
    serving_step s (set_at k (AtOpening i (length (ct_calls (sp_tunnel sp)))) (set_tunnel i (open_begin addr (sp_tunnel sp)) s))
| sv_acts s k addr w i j sp c a t c' : may_move multi (Some k) s -> sg_callers s !! k = Some (Clr addr w) ->
    holds w = Some (i, j) -> sg_tunnels s !! i = Some sp -> ct_calls (sp_tunnel sp) !! j = Some c ->
    open_step j c a (sp_tunnel sp) = Some t -> drop_ok sp a -> ct_calls t !! j = Some c' ->
    serving_step s (set_at k (after_call i j w (op_phase c')) (set_tunnel i t s))
| sv_refused s k addr i sp : may_move multi (Some k) s -> sg_callers s !! k = Some (Clr addr (AtErred i)) ->
    sg_tunnels s !! i = Some sp -> sp_pooled sp = true -> ct_alive (sp_tunnel sp) = true ->
    serving_step s (set_at k AtFailed s)
| sv_died s k addr i sp : may_move multi (Some k) s -> sg_callers s !! k = Some (Clr addr (AtErred i)) ->
    sg_tunnels s !! i = Some sp -> sp_pooled sp = true -> ct_alive (sp_tunnel sp) = false ->
    serving_step s (set_at k AtLoop (with_list (retain_others i s) s))
| sv_torn_down s k addr i sp : may_move multi (Some k) s -> sg_callers s !! k = Some (Clr addr (AtErred i)) ->
    sg_tunnels s !! i = Some sp -> sp_pooled sp = false ->
    serving_step s (set_at k AtFailed (set_tunnel i (kill (sp_tunnel sp)) s)).

(** ** Who uses a tunnel *)

Definition on (i : nat) (c : Caller) : Prop := exists j, holds (cl_at c) = Some (i, j).
Definition picked (i : nat) (c : Caller) : Prop := cl_at c = AtPicked i.
Definition erred (i : nat) (c : Caller) : Prop := cl_at c = AtErred i.

#[export] Instance on_dec i c : Decision (on i c).
Proof.
  destruct (holds (cl_at c)) as [[i' j]|] eqn:E; [destruct (decide (i' = i)) as [->|Hne]|].
  - left. by exists j.
  - right. intros (j' & E'). congruence.
  - right. intros (j' & E'). congruence.
Defined.
#[export] Instance Where_eq_dec : EqDecision Where.
Proof. solve_decision. Defined.
#[export] Instance picked_dec i c : Decision (picked i c) := decide (cl_at c = AtPicked i).
#[export] Instance erred_dec i c : Decision (erred i c) := decide (cl_at c = AtErred i).

(** The calls of a tunnel are those of its callers, for the addresses they asked for;
    the pool's own is not loaded past the cap by one worker; a dedicated one has
    one caller at most and is torn down when it has none. *)
Record tunnel_ok (cs : list Caller) (i : nat) (sp : Spawned) : Prop := {
  to_inv : client_inv (sp_tunnel sp);
  to_load : open_count (ct_calls (sp_tunnel sp)) = count (on i) cs;
  to_cap : multi = false -> sp_pooled sp = true ->
    Z.of_nat (open_count (ct_calls (sp_tunnel sp)) + count (picked i) cs) <= Z.max 0 max_streams;
  to_single : sp_pooled sp = false -> (length (ct_calls (sp_tunnel sp)) + count (picked i) cs ≤ 1)%nat;
  to_torn : sp_pooled sp = false -> (count (on i) cs + count (picked i) cs + count (erred i) cs = 0)%nat ->
    ct_alive (sp_tunnel sp) = false /\ ct_reader (sp_tunnel sp) = false
}.

(** A caller's call is its own and in the phase its position says. *)
Definition caller_ok (ts : list Spawned) (c : Caller) : Prop :=
  match cl_at c with
  | AtPicked i | AtErred i => is_Some (ts !! i)
  | AtOpening i j => exists sp d, ts !! i = Some sp /\ ct_calls (sp_tunnel sp) !! j = Some d /\ op_addr d = cl_addr c /\ awaiting d = true
  | AtStream i j => exists sp d g, ts !! i = Some sp /\ ct_calls (sp_tunnel sp) !! j = Some d /\ op_addr d = cl_addr c /\ op_phase d = OStreaming g
  | AtDone i j => exists sp d, ts !! i = Some sp /\ ct_calls (sp_tunnel sp) !! j = Some d /\ op_addr d = cl_addr c /\ op_phase d = OClosed
  | _ => True
  end.

Record serving_inv (s : Serving) : Prop := {
  si_nodup : NoDup (sg_list s);
  si_listed : forall i, i ∈ sg_list s -> exists t, sg_tunnels s !! i = Some (Sp t true);
  si_tunnels : forall i sp, sg_tunnels s !! i = Some sp -> tunnel_ok (sg_callers s) i sp;
  si_callers : forall k c, sg_callers s !! k = Some c -> caller_ok (sg_tunnels s) c;
  si_owner : forall k k' c c' h, sg_callers s !! k = Some c -> sg_callers s !! k' = Some c' ->
    owns (cl_at c) = Some h -> owns (cl_at c') = Some h -> k = k';
  si_held : forall i sp j d, sg_tunnels s !! i = Some sp -> ct_calls (sp_tunnel sp) !! j = Some d -> is_open d = true ->
    exists k c, sg_callers s !! k = Some c /\ holds (cl_at c) = Some (i, j)
}.

Lemma holds_owns w h : holds w = Some h -> owns w = Some h.
Proof. by destruct w. Qed.

Lemma serving_inv_new : serving_inv serving_new.
Proof. split; cbn; try done; [by apply NoDup_nil|by intros i ?%not_elem_of_nil]. Qed.

(** *** Steps of a tunnel alone *)

(** Nothing a caller can see of its calls is changed. *)
Definition same_calls (t t' : Pool.Tunnel) : Prop :=
  (fun d => (op_addr d, op_phase d)) <$> ct_calls t' = (fun d => (op_addr d, op_phase d)) <$> ct_calls t.

Lemma same_calls_at t t' j d : same_calls t t' -> ct_calls t !! j = Some d ->
  exists d', ct_calls t' !! j = Some d' /\ op_addr d' = op_addr d /\ op_phase d' = op_phase d.
Proof.
  intros E Hd. assert (((fun d => (op_addr d, op_phase d)) <$> ct_calls t') !! j = Some (op_addr d, op_phase d)) as H by (by rewrite E, list_lookup_fmap, Hd).
  rewrite list_lookup_fmap in H. destruct (ct_calls t' !! j) as [d'|]; [|done]. injection H as ? ?. by exists d'.
Qed.

Lemma same_calls_at' t t' j d' : same_calls t t' -> ct_calls t' !! j = Some d' ->
  exists d, ct_calls t !! j = Some d /\ op_phase d' = op_phase d.
Proof. intros E Hd. destruct (same_calls_at t' t j d') as (d & ? & _ & ?); [done..|]. by exists d. Qed.

Lemma open_count_phases ds ds' : op_phase <$> ds' = op_phase <$> ds -> open_count ds' = open_count ds.
Proof.
  revert ds'. induction ds as [|d ds IH]; intros [|d' ds'] E; try done. injection E as E1 E2.
  change (d' :: ds') with ([d'] ++ ds'). change (d :: ds) with ([d] ++ ds). rewrite !open_count_app, (IH ds' E2). f_equal.
  unfold open_count. rewrite !count_one. unfold is_open. by rewrite E1.
Qed.

Lemma same_calls_count t t' : same_calls t t' -> open_count (ct_calls t') = open_count (ct_calls t) /\ length (ct_calls t') = length (ct_calls t).
Proof.
  intros E. split.
  - apply open_count_phases. apply (f_equal (fmap snd)) in E. by rewrite <- !list_fmap_compose in E.
  - apply (f_equal length) in E. by rewrite !length_fmap in E.
Qed.

Lemma inv_moves s i sp t : serving_inv s -> sg_tunnels s !! i = Some sp -> client_inv t -> same_calls (sp_tunnel sp) t ->
  (ct_alive (sp_tunnel sp) = false /\ ct_reader (sp_tunnel sp) = false -> ct_alive t = false /\ ct_reader t = false) ->
  serving_inv (set_tunnel i t s).
Proof.
  intros [Hnd Hl Ht Hc Ho Hheld] Hi Hinv Hsame Hdead. rewrite (set_tunnel_eq _ _ _ _ Hi).
  destruct (same_calls_count _ _ Hsame) as [Ecount Elen].
  split; cbn [sg_list sg_tunnels sg_callers with_tunnels]; [done| | | |done|].
  - intros j Hj. destruct (Hl j Hj) as [u Hu]. destruct (decide (j = i)) as [->|Hne].
    + rewrite Hu in Hi. injection Hi as <-. exists t. apply list_lookup_insert_eq. by eapply lookup_lt_Some.
    + exists u. by rewrite list_lookup_insert_ne.
  - intros j sp' [(-> & <- & _)|[_ Hj]]%list_lookup_insert_Some; [|by apply Ht].
    destruct (Ht _ _ Hi) as [_ H2 H3 H4 H5]. split; cbn [sp_tunnel sp_pooled]; rewrite ?Ecount, ?Elen; auto.
  - intros k c Hk. specialize (Hc k c Hk). unfold caller_ok in *.
    assert (forall j sp', sg_tunnels s !! j = Some sp' -> exists sp'', <[i := Sp t (sp_pooled sp)]> (sg_tunnels s) !! j = Some sp'' /\
      same_calls (sp_tunnel sp') (sp_tunnel sp'')) as Hget.
    { intros j sp' Hj. destruct (decide (j = i)) as [->|Hne].
      - rewrite Hi in Hj. injection Hj as <-. eexists. split; [apply list_lookup_insert_eq; by eapply lookup_lt_Some|done].
      - exists sp'. by rewrite list_lookup_insert_ne. }
    destruct (cl_at c) as [|a| | |a b|a|a b| |a b]; try done.
    + destruct Hc as [sp' Hs]. destruct (Hget _ _ Hs) as (sp'' & -> & _). done.
    + destruct Hc as (sp' & d & Hs & Hd & Ea & Hp). destruct (Hget _ _ Hs) as (sp'' & Hs' & Hsm).
      destruct (same_calls_at _ _ _ _ Hsm Hd) as (d' & Hd' & Ea' & Ep). exists sp'', d'. unfold awaiting in *. by rewrite Ep, Ea'.
    + destruct Hc as [sp' Hs]. destruct (Hget _ _ Hs) as (sp'' & -> & _). done.
    + destruct Hc as (sp' & d & g & Hs & Hd & Ea & Hp). destruct (Hget _ _ Hs) as (sp'' & Hs' & Hsm).
      destruct (same_calls_at _ _ _ _ Hsm Hd) as (d' & Hd' & Ea' & Ep). exists sp'', d', g. by rewrite Ep, Ea'.
    + destruct Hc as (sp' & d & Hs & Hd & Ea & Hp). destruct (Hget _ _ Hs) as (sp'' & Hs' & Hsm).
      destruct (same_calls_at _ _ _ _ Hsm Hd) as (d' & Hd' & Ea' & Ep). exists sp'', d'. by rewrite Ep, Ea'.
  - intros j sq a d [(-> & <- & _)|[_ Hj]]%list_lookup_insert_Some Hd Hop; [|by apply (Hheld j sq a d)].
    destruct (same_calls_at' _ _ _ _ Hsame Hd) as (d0 & Hd0 & Ep). apply (Hheld j sp a d0); [done..|]. unfold is_open in *. by rewrite <- Ep.
Qed.

(** *** Steps of a caller *)

(** The tunnel a position is about. *)
Definition place (w : Where) : option nat :=
  match w with AtPicked i | AtErred i | AtOpening i _ | AtStream i _ => Some i | _ => None end.

Lemma elsewhere_at i c : place (cl_at c) <> Some i -> ~ on i c /\ ~ picked i c /\ ~ erred i c.
Proof.
  unfold on, picked, erred. intros Hp. split_and!; [intros (j & E)|intros E|intros E]; destruct (cl_at c); cbn in *; congruence.
Qed.

Lemma count_moved {A} (Q : A -> Prop) `{forall x, Decision (Q x)} l k x y : l !! k = Some x -> (Q x <-> Q y) ->
  count Q (<[k := y]> l) = count Q l.
Proof.
  intros Hk Hq. pose proof (count_insert Q l k x y Hk) as Hc. destruct (decide (Q x)), (decide (Q y)); try lia; tauto.
Qed.

Lemma count_put {A} (Q : A -> Prop) `{forall x, Decision (Q x)} l k x y : l !! k = Some x -> Q y -> (1 ≤ count Q (<[k := y]> l))%nat.
Proof. intros Hk. apply count_pos with k. apply list_lookup_insert_eq. by eapply lookup_lt_Some. Qed.

Lemma tunnel_ok_callers cs i sp k c c' : cs !! k = Some c -> place (cl_at c) <> Some i -> place (cl_at c') <> Some i ->
  tunnel_ok cs i sp -> tunnel_ok (<[k := c']> cs) i sp.
Proof.
  intros Hk (H1 & H2 & H3)%elsewhere_at (H1' & H2' & H3')%elsewhere_at [T1 T2 T3 T4 T5].
  split; rewrite ?(count_moved (on i) cs k c c'), ?(count_moved (picked i) cs k c c'), ?(count_moved (erred i) cs k c c') by tauto; done.
Qed.

Lemma set_at_eq k addr w w' s : sg_callers s !! k = Some (Clr addr w) ->
  set_at k w' s = Srv (sg_tunnels s) (sg_list s) (sg_dialing s) (sg_dials s) (sg_pushed s) (sg_maintainer s)
    (<[k := Clr addr w']> (sg_callers s)).
Proof. intros E. unfold set_at. by rewrite (alter_insert _ _ _ _ E). Qed.

(** A caller moves and with it tunnel [i], whose other calls stay. *)
Lemma inv_both s k addr w w' i sp t : serving_inv s -> sg_callers s !! k = Some (Clr addr w) -> sg_tunnels s !! i = Some sp ->
  (forall i', i' <> i -> place w <> Some i' /\ place w' <> Some i') ->
  (forall j d, holds w <> Some (i, j) -> ct_calls (sp_tunnel sp) !! j = Some d ->
     exists d', ct_calls t !! j = Some d' /\ op_addr d' = op_addr d /\ op_phase d' = op_phase d) ->
  tunnel_ok (<[k := Clr addr w']> (sg_callers s)) i (Sp t (sp_pooled sp)) ->
  caller_ok (<[i := Sp t (sp_pooled sp)]> (sg_tunnels s)) (Clr addr w') ->
  (forall h, owns w' = Some h -> owns w = Some h \/ (forall k' c', sg_callers s !! k' = Some c' -> owns (cl_at c') <> Some h)) ->
  (forall j d', ct_calls t !! j = Some d' -> is_open d' = true -> holds w' <> Some (i, j) ->
     exists d, ct_calls (sp_tunnel sp) !! j = Some d /\ is_open d = true /\ holds w <> Some (i, j)) ->
  serving_inv (set_at k w' (set_tunnel i t s)).
Proof.
  intros [Hnd Hl Ht Hc Ho Hheld] Hk Hi Hplace Hcalls Hok Hcok Hown Hopen. rewrite (set_tunnel_eq _ _ _ _ Hi), (set_at_eq k addr w) by done.
  cbn [sg_list sg_tunnels sg_callers with_tunnels sg_dialing sg_dials sg_pushed sg_maintainer].
  set (sp' := Sp t (sp_pooled sp)) in *. set (c0 := Clr addr w') in *.
  assert (<[i := sp']> (sg_tunnels s) !! i = Some sp') as Hself by (apply list_lookup_insert_eq; by eapply lookup_lt_Some).
  split; cbn [sg_list sg_tunnels sg_callers]; [done| | | | |].
  - intros j Hj. destruct (Hl j Hj) as [u Hu]. destruct (decide (j = i)) as [->|Hne].
    + rewrite Hu in Hi. injection Hi as <-. by exists t.
    + exists u. by rewrite list_lookup_insert_ne.
  - intros j sq [(-> & <- & _)|[Hne Hj]]%list_lookup_insert_Some; [done|].
    destruct (Hplace j) as [P1 P2]; [done|]. eapply tunnel_ok_callers; [exact Hk|exact P1|exact P2|by apply Ht].
  - intros k' c [(-> & <- & _)|[Hne Hk']]%list_lookup_insert_Some; [done|]. specialize (Hc k' c Hk'). unfold caller_ok in *.
    assert (forall j a q, owns (cl_at c) = Some (j, a) -> sg_tunnels s !! j = Some q -> exists q', <[i := sp']> (sg_tunnels s) !! j = Some q' /\
      forall d, ct_calls (sp_tunnel q) !! a = Some d ->
        exists d', ct_calls (sp_tunnel q') !! a = Some d' /\ op_addr d' = op_addr d /\ op_phase d' = op_phase d) as Hget.
    { intros j a q Hh Hj. destruct (decide (j = i)) as [->|Hne'].
      - rewrite Hi in Hj. injection Hj as <-. exists sp'. split; [done|]. intros d Hd. apply Hcalls; [|done].
        intros Hw%holds_owns. apply Hne. by apply (Ho k k' (Clr addr w) c (i, a)).
      - exists q. rewrite list_lookup_insert_ne by done. split; [done|]. intros d Hd. by exists d. }
    assert (forall j, is_Some (sg_tunnels s !! j) -> is_Some (<[i := sp']> (sg_tunnels s) !! j)) as Hsome.
    { intros j Hj. apply lookup_lt_is_Some in Hj. apply lookup_lt_is_Some. by rewrite length_insert. }
    destruct (cl_at c) as [|j| | |j a|j|j a| |j a]; try done; [by apply Hsome| |by apply Hsome| |].
    + destruct Hc as (q & d & Hq & Hd & Ea & Hp). destruct (Hget j a q eq_refl Hq) as (q' & Hq' & Hd').
      destruct (Hd' d Hd) as (d' & Hl' & Ea' & Ep). exists q', d'. unfold awaiting in *. by rewrite Ep, Ea'.
    + destruct Hc as (q & d & g & Hq & Hd & Ea & Hp). destruct (Hget j a q eq_refl Hq) as (q' & Hq' & Hd').
      destruct (Hd' d Hd) as (d' & Hl' & Ea' & Ep). exists q', d', g. by rewrite Ep, Ea'.
    + destruct Hc as (q & d & Hq & Hd & Ea & Hp). destruct (Hget j a q eq_refl Hq) as (q' & Hq' & Hd').
      destruct (Hd' d Hd) as (d' & Hl' & Ea' & Ep). exists q', d'. by rewrite Ep, Ea'.
  - assert (forall k' c' h, sg_callers s !! k' = Some c' -> k' <> k -> owns w' = Some h -> owns (cl_at c') <> Some h) as Hfresh.
    { intros k' c' h Hk' Hne Hh Hh'. destruct (Hown h Hh) as [Hw|Hno]; [|by apply (Hno k' c')].
      apply Hne. by apply (Ho k' k c' (Clr addr w) h). }
    intros k1 k2 c1 c2 h [(-> & <- & _)|[Hn1 H1]]%list_lookup_insert_Some [(<- & <- & _)|[Hn2 H2]]%list_lookup_insert_Some Hh1 Hh2; [done|..].
    + by destruct (Hfresh k2 c2 h H2).
    + by destruct (Hfresh k1 c1 h H1).
    + by eapply (Ho k1 k2 c1 c2 h).
  - assert (forall i' j', (exists k2 c2, sg_callers s !! k2 = Some c2 /\ holds (cl_at c2) = Some (i', j')) -> holds w <> Some (i', j') ->
      exists k2 c2, <[k := c0]> (sg_callers s) !! k2 = Some c2 /\ holds (cl_at c2) = Some (i', j')) as Hkeep.
    { intros i' j' (k2 & c2 & H2 & Hh2) Hne. exists k2, c2. rewrite list_lookup_insert_ne; [done|]. intros <-. rewrite Hk in H2. by injection H2 as <-. }
    intros i' sq j' d' [(<- & <- & _)|[Hne Hi']]%list_lookup_insert_Some Hd' Hop.
    + destruct (decide (holds w' = Some (i, j'))) as [Hh|Hh].
      * exists k, c0. split; [|done]. apply list_lookup_insert_eq. by eapply lookup_lt_Some.
      * destruct (Hopen j' d' Hd' Hop Hh) as (d & Hd & Hod & Hnw). by apply Hkeep; [apply (Hheld i sp j' d)|].
    + apply Hkeep; [by apply (Hheld i' sq j' d')|]. intros Hw. destruct (Hplace i') as [Hp _]; [done|]. apply Hp.
      by destruct w; cbn in Hw |- *; try done; injection Hw as -> ->.
Qed.

(** Positions about no tunnel, and what the callers do not see. *)
Lemma inv_at s k addr w w' : serving_inv s -> sg_callers s !! k = Some (Clr addr w) -> place w = None -> place w' = None ->
  owns w' = None -> serving_inv (set_at k w' s).
Proof.
  intros [Hnd Hl Ht Hc Ho Hheld] Hk Hw Hw' Hown. rewrite (set_at_eq k addr w) by done. assert (holds w = None) as Hh0 by (by destruct w).
  split; cbn [sg_list sg_tunnels sg_callers]; [done|done| | | |].
  - intros i sp Hi. eapply tunnel_ok_callers; [exact Hk|cbn; congruence|cbn; congruence|by apply Ht].
  - intros k' c [(-> & <- & _)|[_ Hk']]%list_lookup_insert_Some; [|by apply (Hc k')]. unfold caller_ok. by destruct w'.
  - intros k1 k2 c1 c2 h [(-> & <- & _)|[_ H1]]%list_lookup_insert_Some [(<- & <- & _)|[_ H2]]%list_lookup_insert_Some Hh1 Hh2;
      cbn [cl_at] in *; [done|congruence|congruence|]. by apply (Ho k1 k2 c1 c2 h).
  - intros i sp j d Hi Hd Hop. destruct (Hheld i sp j d Hi Hd Hop) as (k2 & c2 & H2 & Hh2). exists k2, c2.
    rewrite list_lookup_insert_ne; [done|]. intros <-. rewrite Hk in H2. injection H2 as <-. cbn in Hh2. congruence.
Qed.

Lemma inv_same s s' : sg_tunnels s' = sg_tunnels s -> sg_callers s' = sg_callers s -> NoDup (sg_list s') ->
  (forall i, i ∈ sg_list s' -> i ∈ sg_list s) -> serving_inv s -> serving_inv s'.
Proof. intros Et Ec Hnd' Hsub [Hnd Hl Ht Hc Ho Hheld]. split; rewrite ?Et, ?Ec; auto. Qed.

Lemma count_snoc_not {A} (Q : A -> Prop) `{forall x, Decision (Q x)} l x : ~ Q x -> count Q (l ++ [x]) = count Q l.
Proof. intros Hx. rewrite count_app, count_one, decide_False by done. lia. Qed.

Lemma inv_enter s addr w : place w = None -> owns w = None -> serving_inv s ->
  serving_inv (Srv (sg_tunnels s) (sg_list s) (sg_dialing s) (sg_dials s) (sg_pushed s) (sg_maintainer s) (sg_callers s ++ [Clr addr w])).
Proof.
  intros Hw Hown [Hnd Hl Ht Hc Ho Hheld].
  split; cbn [sg_list sg_tunnels sg_callers]; [done|done| | | |].
  - intros i sp Hi. destruct (elsewhere_at i (Clr addr w)) as (H1 & H2 & H3); [cbn; congruence|].
    destruct (Ht i sp Hi) as [T1 T2 T3 T4 T5].
    split; rewrite ?(count_snoc_not (on i)), ?(count_snoc_not (picked i)), ?(count_snoc_not (erred i)) by done; done.
  - intros k c [Hk|[_ Hk]]%lookup_app_Some; [by apply (Hc k)|]. apply list_lookup_singleton_Some in Hk as [_ <-].
    unfold caller_ok. by destruct w.
  - intros k1 k2 c1 c2 h [H1|[_ H1]]%lookup_app_Some [H2|[_ H2]]%lookup_app_Some Hh1 Hh2; [by apply (Ho k1 k2 c1 c2 h)|..];
      repeat match goal with H : [_] !! _ = Some _ |- _ => apply list_lookup_singleton_Some in H as [? <-] end; cbn [cl_at] in *; congruence.
  - intros i sp j d Hi Hd Hop. destruct (Hheld i sp j d Hi Hd Hop) as (k & c & Hk & Hh'). exists k, c. split; [by apply lookup_app_l_Some|done].
Qed.

(** *** New tunnels *)

Lemma count_none {A} (Q : A -> Prop) `{forall x, Decision (Q x)} l : (forall k x, l !! k = Some x -> ~ Q x) -> count Q l = 0%nat.
Proof.
  induction l as [|x l IH]; intros Hl; [done|]. change (x :: l) with ([x] ++ l). rewrite count_app, count_one, IH.
  - rewrite decide_False; [done|]. by apply (Hl 0%nat).
  - intros k y Hy. by apply (Hl (S k)).
Qed.

Lemma fresh_place s k c : serving_inv s -> sg_callers s !! k = Some c -> place (cl_at c) <> Some (length (sg_tunnels s)).
Proof.
  intros Hi Hk Hp. pose proof (si_callers _ Hi k c Hk) as Hc. unfold caller_ok in Hc.
  assert (is_Some (sg_tunnels s !! length (sg_tunnels s))) as Hs.
  { destruct (cl_at c); cbn in Hp; try done; injection Hp as ->; try done;
      [destruct Hc as (q & _ & Hq & _)|destruct Hc as (q & _ & _ & Hq & _)]; by exists q. }
  apply lookup_lt_is_Some in Hs. lia.
Qed.

Lemma fresh_counts s : serving_inv s -> let n := length (sg_tunnels s) in
  count (on n) (sg_callers s) = 0%nat /\ count (picked n) (sg_callers s) = 0%nat /\ count (erred n) (sg_callers s) = 0%nat.
Proof.
  intros Hi. split_and!; apply count_none; intros k c Hk; by destruct (elsewhere_at _ _ (fresh_place s k c Hi Hk)) as (? & ? & ?).
Qed.

Lemma caller_ok_app ts sp c : caller_ok ts c -> caller_ok (ts ++ [sp]) c.
Proof.
  assert (forall i q, ts !! i = Some q -> (ts ++ [sp]) !! i = Some q) as Happ by (intros; by apply lookup_app_l_Some).
  unfold caller_ok. destruct (cl_at c); try done.
  - intros [q Hq]. by rewrite (Happ _ _ Hq).
  - intros (q & d & Hq & H). exists q, d. by rewrite (Happ _ _ Hq).
  - intros [q Hq]. by rewrite (Happ _ _ Hq).
  - intros (q & d & g & Hq & H). exists q, d, g. by rewrite (Happ _ _ Hq).
  - intros (q & d & Hq & H). exists q, d. by rewrite (Happ _ _ Hq).
Qed.

Lemma inv_dialed s : serving_inv s ->
  serving_inv (with_list (sg_list s ++ [length (sg_tunnels s)]) (with_tunnels (sg_tunnels s ++ [Sp spawn_tunnel true]) s)).
Proof.
  intros Hi. pose proof (fresh_counts s Hi) as (F1 & F2 & _). destruct Hi as [Hnd Hl Ht Hc Ho Hheld].
  split; cbn [sg_list sg_tunnels sg_callers with_list with_tunnels]; [| | | |done|].
  - apply NoDup_app. split; [done|]. split; [|apply NoDup_singleton]. intros i Hin ->%list_elem_of_singleton.
    destruct (Hl _ Hin) as [t E]. apply lookup_lt_Some in E. lia.
  - intros i [Hin| ->%list_elem_of_singleton]%elem_of_app; [|exists spawn_tunnel; by apply list_lookup_middle].
    destruct (Hl i Hin) as [t E]. exists t. by apply lookup_app_l_Some.
  - intros i sp [Hi|[Hge Hi]]%lookup_app_Some; [by apply Ht|]. apply list_lookup_singleton_Some in Hi as [Hz <-].
    assert (i = length (sg_tunnels s)) as -> by lia.
    split; cbn [sp_tunnel sp_pooled]; [apply client_inv_new|by rewrite F1| |done|done]. intros _ _. rewrite F2. cbn. lia.
  - intros k c Hk. by apply caller_ok_app, (Hc k).
  - intros i sp j d [Hi|[_ Hi]]%lookup_app_Some Hd; [by apply (Hheld i sp)|]. by apply list_lookup_singleton_Some in Hi as [_ <-].
Qed.

Lemma inv_dedicated s k addr : serving_inv s -> sg_callers s !! k = Some (Clr addr AtDialing) ->
  serving_inv (set_at k (AtPicked (length (sg_tunnels s))) (with_tunnels (sg_tunnels s ++ [Sp spawn_tunnel false]) s)).
Proof.
  intros Hi Hk. pose proof (fresh_counts s Hi) as (F1 & F2 & F3). pose proof (fun k c => fresh_place s k c Hi) as Hfresh.
  destruct Hi as [Hnd Hl Ht Hc Ho Hheld]. set (n := length (sg_tunnels s)) in *.
  rewrite (set_at_eq k addr AtDialing) by done. set (c' := Clr addr (AtPicked n)).
  split; cbn [sg_list sg_tunnels sg_callers with_tunnels]; [done| | | | |].
  - intros i Hin. destruct (Hl i Hin) as [t E]. exists t. by apply lookup_app_l_Some.
  - intros i sp [Hi|[Hge Hi]]%lookup_app_Some.
    + apply (tunnel_ok_callers _ _ _ k (Clr addr AtDialing)); [done|done| |by apply Ht]. cbn. intros [= <-]. apply lookup_lt_Some in Hi. lia.
    + apply list_lookup_singleton_Some in Hi as [Hz <-]. assert (i = n) as -> by (unfold n; lia).
      assert (~ on n (Clr addr AtDialing)) as N1 by (by intros (j & E)).
      assert (~ on n c') as N2 by (by intros (j & E)).
      pose proof (count_insert (picked n) _ k _ c' Hk) as P1. rewrite (decide_False (P := picked n _)), decide_True in P1 by done.
      split; cbn [sp_tunnel sp_pooled]; [apply client_inv_new| |done| |].
      * rewrite (count_moved (on n) _ k (Clr addr AtDialing)) by (done || tauto). by rewrite F1.
      * intros _. cbn. lia.
      * intros _ Hz'. lia.
  - intros k' c [(-> & <- & _)|[_ Hk']]%list_lookup_insert_Some; [|by apply caller_ok_app, (Hc k')].
    unfold caller_ok. cbn. exists (Sp spawn_tunnel false). by apply list_lookup_middle.
  - intros k1 k2 c1 c2 h [(-> & <- & _)|[_ H1]]%list_lookup_insert_Some [(<- & <- & _)|[_ H2]]%list_lookup_insert_Some Hh1 Hh2;
      cbn [cl_at c' holds] in *; [done..|]. by apply (Ho k1 k2 c1 c2 h).
  - intros i sp j d [Hi|[_ Hi]]%lookup_app_Some Hd Hop; [|by apply list_lookup_singleton_Some in Hi as [_ <-]].
    destruct (Hheld i sp j d Hi Hd Hop) as (k2 & c2 & H2 & Hh2). exists k2, c2.
    rewrite list_lookup_insert_ne; [done|]. intros <-. rewrite Hk in H2. by injection H2 as <-.
Qed.

(** *** What the tunnels' own functions do *)

Lemma same_calls_with j c c' t u : ct_calls t !! j = Some c -> ct_calls u = <[j := c']> (ct_calls t) ->
  op_addr c' = op_addr c -> op_phase c' = op_phase c -> same_calls t u.
Proof.
  intros Hj Eu Ea Ep. unfold same_calls. rewrite Eu, list_fmap_insert, Ea, Ep. apply list_insert_id.
  by rewrite list_lookup_fmap, Hj.
Qed.

Lemma moves_spec t t' : client_inv t -> tunnel_moves t t' -> client_inv t' /\ same_calls t t' /\
  (ct_alive t = false /\ ct_reader t = false -> ct_alive t' = false /\ ct_reader t' = false).
Proof.
  intros Hi Hm. split.
  { destruct Hm as [msg d t Hr|t Hr|t|t f q Hc Hq]; [by apply reader_frame_inv|by apply client_inv_end|by apply (client_inv_frame t)|].
    apply client_inv_out; [|done]. pose proof (ci_queue _ Hi) as Hl. rewrite Hq in Hl. cbn in Hl. lia. }
  assert (forall f u, ct_calls (tunnel_try_send f u) = ct_calls u) as Hsend by (intros; by destruct (try_send_spec f u) as (? & _)).
  destruct Hm as [msg d t Hr|t Hr|t|t f q Hc Hq]; [split; [|intros [_ H]; congruence]|split; [|intros [_ H]; congruence]|by split..].
  - assert (forall u, ct_calls u = ct_calls t -> same_calls t u) as Hsame by (intros u E; unfold same_calls; by rewrite E).
    unfold reader_frame, reader_reply, route_event, reader_end.
    destruct (parse_frame msg) as [[[[] sid] x]|e]; try (apply Hsame; by destruct (mark_dead_spec t) as (E & _)).
    + destruct (ct_pending t !! sid) as [i|]; [|by apply Hsame].
      destruct (ct_calls t !! i) as [c|] eqn:Hl; [by eapply (same_calls_with i c)|by apply Hsame].
    + destruct (ct_registry t !! sid) as [i|]; [|apply Hsame, Hsend].
      destruct d, (ct_calls t !! i) as [c|] eqn:Hl; try (apply Hsame; by rewrite Hsend). by eapply (same_calls_with i c).
    + destruct (ct_registry t !! sid) as [i|]; [|apply Hsame, Hsend].
      destruct d, (ct_calls t !! i) as [c|] eqn:Hl; try (apply Hsame; by rewrite Hsend). by eapply (same_calls_with i c).
  - unfold same_calls, reader_end. cbn. by destruct (mark_dead_spec t) as (-> & _).
Qed.

Lemma kill_spec t : ct_calls (kill t) = ct_calls t /\ ct_alive (kill t) = false /\ ct_reader (kill t) = false.
Proof. unfold kill, mark_dead. by destruct (ct_alive t) eqn:E. Qed.

(** The next phase of a call; a stream is only left by its drop. *)
Definition next_phase (p p' : OpenPhase) : bool :=
  match p, p' with
  | OSending, (OWaiting | OClosed) | OWaiting, (OStreaming _ | OClosed) | OStreaming _, (OStreaming _ | OClosed) => true
  | _, _ => false
  end.

Lemma open_step_next j c a t t' c' : ct_calls t !! j = Some c -> open_step j c a t = Some t' -> ct_calls t' !! j = Some c' ->
  ct_calls t' = <[j := c']> (ct_calls t) /\ op_addr c' = op_addr c /\ next_phase (op_phase c) (op_phase c') = true /\
  (op_phase c' = OClosed -> awaiting c = true \/ exists d, a = ODrop d /\ (d = true -> ct_alive t' = false /\ ct_reader t' = false)).
Proof.
  intros Hj E Hj'. destruct (open_step_shape j c a t t' Hj E) as (p & fs & Ec & _). rewrite Ec, list_lookup_insert_eq in Hj' by (by eapply lookup_lt_Some).
  injection Hj' as <-. cbn [set_open_phase op_addr op_phase]. split; [done|]. split; [done|].
  assert (ct_calls t' !! j = Some (set_open_phase p c)) as Hj' by (rewrite Ec; apply list_lookup_insert_eq; by eapply lookup_lt_Some).
  assert (forall u q, ct_calls u !! j = Some c -> ct_calls (with_call j (set_open_phase q c) u) !! j = Some (set_open_phase p c) -> p = q) as Hphase.
  { intros u q Hu H. cbn [with_call ct_calls] in H. rewrite list_lookup_insert_eq in H by (by eapply lookup_lt_Some). by injection H as <-. }
  unfold open_step in E. unfold awaiting. destruct (op_phase c) as [| |g|] eqn:Ep, a as [| | | | | |f| |d]; try done.
  - destruct (_ && _); [|done]. injection E as <-. apply Hphase in Hj' as ->; [|done]. split; [done|by left].
  - destruct (ct_closed t); [|done]. injection E as <-. apply Hphase in Hj' as ->; [split; [done|by left]|].
    by destruct (mark_dead_spec (unregister (op_sid c) t)) as (-> & _).
  - case_decide; [|done]. injection E as <-. apply Hphase in Hj' as ->; [|done]. split; [done|by left].
  - case_decide; [|done]. injection E as <-. apply Hphase in Hj' as ->; [|done]. split; [done|by left].
  - case_decide; [|done]. injection E as <-. apply Hphase in Hj' as ->; [|done]. split; [done|by left].
  - case_decide; [|done]. injection E as <-. apply Hphase in Hj' as ->; [split; [done|by left]|].
    by destruct (try_send_spec (OutFrame_bare Close (op_sid c)) (unregister (op_sid c) t)) as (-> & _).
  - destruct (_ && _); [|done]. injection E as <-. cbn [with_out ct_calls] in Hj'. rewrite Hj in Hj'. injection Hj' as Hj'.
    assert (p = OStreaming g) as -> by (rewrite <- Ep; by rewrite Hj'). split; [done|]. by intros.
  - injection E as <-. apply Hphase in Hj' as ->; [|done]. split; [done|by intros].
  - injection E as <-. apply Hphase in Hj' as ->.
    + split; [done|]. intros _. right. exists d. split; [done|]. intros ->. cbn [with_call ct_alive ct_reader]. by apply kill_spec.
    + destruct d; rewrite ?(proj1 (kill_spec _)); destruct g; try done;
        by destruct (try_send_spec (OutFrame_bare Close (op_sid c)) (unregister (op_sid c) t)) as (-> & _).
Qed.

(** *** The callers' steps *)

Lemma on_at i j addr w : holds w = Some (i, j) -> on i (Clr addr w).
Proof. intros E. by exists j. Qed.
Lemma not_on i addr w : holds w = None -> ~ on i (Clr addr w).
Proof. intros E (j & E'). cbn in E'. congruence. Qed.

Lemma set_tunnel_same i sp s : sg_tunnels s !! i = Some sp -> set_tunnel i (sp_tunnel sp) s = s.
Proof.
  intros Hi. rewrite (set_tunnel_eq _ _ _ _ Hi), list_insert_id by (rewrite Hi; by destruct sp). by destruct s.
Qed.

Lemma other_calls_same t i (w : Where) : forall j d, holds w <> Some (i, j) -> ct_calls t !! j = Some d ->
  exists d', ct_calls t !! j = Some d' /\ op_addr d' = op_addr d /\ op_phase d' = op_phase d.
Proof. intros j d _ Hd. by exists d. Qed.

(** A caller leaves a pooled tunnel that failed it. *)
Lemma inv_leaves s k addr i sp w' : serving_inv s -> sg_callers s !! k = Some (Clr addr (AtErred i)) -> sg_tunnels s !! i = Some sp ->
  sp_pooled sp = true -> place w' = None -> owns w' = None -> serving_inv (set_at k w' s).
Proof.
  intros Hinv Hk Hi Hp Hw' Hown. rewrite <- (set_tunnel_same i sp s Hi).
  assert (holds w' = None) as Hh by (by destruct w').
  apply (inv_both s k addr (AtErred i) w' i sp); try done.
  - intros i' Hne. cbn. split; congruence.
  - apply other_calls_same.
  - destruct (si_tunnels _ Hinv _ _ Hi) as [T1 T2 T3 T4 T5]. split; cbn [sp_tunnel sp_pooled]; [done| | |congruence|congruence].
    + rewrite (count_moved (on i) _ k _ (Clr addr w') Hk); [done|]. pose proof (not_on i addr w' Hh). split; [by intros (? & ?)|done].
    + rewrite (count_moved (picked i) _ k _ (Clr addr w') Hk); [done|]. split; [done|]. unfold picked. cbn. by intros ->.
  - unfold caller_ok. by destruct w'.
  - intros h Eh. congruence.
  - intros j d Hd Hop _. by exists d.
Qed.

Lemma inv_torn_down s k addr i sp : serving_inv s -> sg_callers s !! k = Some (Clr addr (AtErred i)) -> sg_tunnels s !! i = Some sp ->
  sp_pooled sp = false -> serving_inv (set_at k AtFailed (set_tunnel i (kill (sp_tunnel sp)) s)).
Proof.
  intros Hinv Hk Hi Hp. destruct (kill_spec (sp_tunnel sp)) as (Ec & Ea & Er).
  apply (inv_both s k addr (AtErred i) AtFailed i sp); try done.
  - intros i' Hne. cbn. split; congruence.
  - rewrite Ec. apply other_calls_same.
  - destruct (si_tunnels _ Hinv _ _ Hi) as [T1 T2 T3 T4 T5].
    assert (count (on i) (<[k := Clr addr AtFailed]> (sg_callers s)) = count (on i) (sg_callers s)) as E1.
    { apply (count_moved (on i) _ k _ (Clr addr AtFailed) Hk). split; by intros (? & ?). }
    assert (count (picked i) (<[k := Clr addr AtFailed]> (sg_callers s)) = count (picked i) (sg_callers s)) as E2.
    { by apply (count_moved (picked i) _ k _ (Clr addr AtFailed) Hk). }
    split; cbn [sp_tunnel sp_pooled]; rewrite ?Ec, ?E1, ?E2; auto using client_inv_kill.
  - rewrite Ec. intros j d Hd Hop _. by exists d.
Qed.

(** [open] registers the stream. *)
Lemma inv_opens s k addr i sp : serving_inv s -> sg_callers s !! k = Some (Clr addr (AtPicked i)) -> sg_tunnels s !! i = Some sp ->
  serving_inv (set_at k (AtOpening i (length (ct_calls (sp_tunnel sp)))) (set_tunnel i (open_begin addr (sp_tunnel sp)) s)).
Proof.
  intros Hinv Hk Hi. set (t := sp_tunnel sp). set (n := length (ct_calls t)).
  set (d0 := Call (u32 (ct_next t + 1)) addr OSending None []).
  assert (ct_calls (open_begin addr t) = ct_calls t ++ [d0]) as Ec by done.
  destruct (si_tunnels _ Hinv _ _ Hi) as [T1 T2 T3 T4 T5].
  apply (inv_both s k addr (AtPicked i) (AtOpening i n) i sp); try done.
  - intros i' Hne. cbn. split; congruence.
  - intros j d _ Hd. exists d. rewrite Ec. split; [by apply lookup_app_l_Some|done].
  - pose proof (count_insert (on i) _ k _ (Clr addr (AtOpening i n)) Hk) as C1.
    rewrite decide_False, decide_True in C1 by ((by apply not_on) || (by apply (on_at i n))).
    pose proof (count_insert (picked i) _ k _ (Clr addr (AtOpening i n)) Hk) as C2.
    rewrite decide_True, decide_False in C2 by done.
    assert (open_count (ct_calls (open_begin addr t)) = S (open_count (ct_calls t))) as Eo.
    { rewrite Ec, open_count_app. change (open_count [d0]) with 1%nat. lia. }
    split; cbn [sp_tunnel sp_pooled]; fold t in T1, T2, T3, T4, T5.
    + by apply client_inv_open.
    + rewrite Eo. lia.
    + intros Hm Hp. specialize (T3 Hm Hp). rewrite Eo. lia.
    + intros Hp. specialize (T4 Hp). rewrite Ec, length_app. cbn [length]. lia.
    + intros Hp Hz. lia.
  - exists (Sp (open_begin addr t) (sp_pooled sp)), d0. split; [apply list_lookup_insert_eq; by eapply lookup_lt_Some|].
    split; [cbn [sp_tunnel]; rewrite Ec; by apply list_lookup_middle|done].
  - intros h [= <-]. right. intros k' c' Hk' Hh.
    pose proof (si_callers _ Hinv k' c' Hk') as Hc. unfold caller_ok in Hc.
    assert (exists q d, sg_tunnels s !! i = Some q /\ ct_calls (sp_tunnel q) !! n = Some d) as (q & d & Hq & Hd).
    { destruct (cl_at c'); cbn in Hh; try done; injection Hh as -> ->;
        [destruct Hc as (q & d & ? & ? & _)|destruct Hc as (q & d & g & ? & ? & _)|destruct Hc as (q & d & ? & ? & _)]; by exists q, d. }
    rewrite Hi in Hq. injection Hq as <-. apply lookup_lt_Some in Hd. unfold n in Hd. fold t in Hd. lia.
  - intros j d Hd Hop Hne. rewrite Ec in Hd. apply lookup_app_Some in Hd as [Hd|[Hge Hd]]; [by exists d|].
    apply list_lookup_singleton_Some in Hd as [Hz _]. destruct Hne. cbn. do 2 f_equal. unfold n. lia.
Qed.

Lemma after_call_cases i j w p p' : next_phase p p' = true ->
  (w = AtOpening i j /\ (p = OSending \/ p = OWaiting) \/ w = AtStream i j /\ exists g, p = OStreaming g) ->
  (p' = OClosed /\ (after_call i j w p' = AtErred i \/ after_call i j w p' = AtDone i j /\ w = AtStream i j)) \/
  (p' = OWaiting /\ after_call i j w p' = AtOpening i j) \/
  ((exists g, p' = OStreaming g) /\ after_call i j w p' = AtStream i j).
Proof.
  intros Hn [[-> [-> | ->]]|[-> (g & ->)]]; destruct p' as [| |g'|]; try discriminate Hn; cbn; eauto 6.
Qed.

(** A step of a caller's own call. *)
Lemma inv_acts s k addr w i j sp c a t c' : serving_inv s -> sg_callers s !! k = Some (Clr addr w) ->
  holds w = Some (i, j) -> sg_tunnels s !! i = Some sp -> ct_calls (sp_tunnel sp) !! j = Some c ->
  open_step j c a (sp_tunnel sp) = Some t -> drop_ok sp a -> ct_calls t !! j = Some c' ->
  serving_inv (set_at k (after_call i j w (op_phase c')) (set_tunnel i t s)).
Proof.
  intros Hinv Hk Hh Hi Hj E Hdrop Hj'. destruct (open_step_next _ _ _ _ _ _ Hj E Hj') as (Ec & Ea & Hnext & Hend).
  pose proof (si_callers _ Hinv k _ Hk) as Hcok. unfold caller_ok in Hcok. cbn [cl_at cl_addr] in Hcok.
  set (w' := after_call i j w (op_phase c')).
  assert (is_open c = true /\ op_addr c = addr /\
    (w = AtOpening i j /\ (op_phase c = OSending \/ op_phase c = OWaiting) \/ w = AtStream i j /\ exists g, op_phase c = OStreaming g)) as (Ho & Haddr & Hw).
  { destruct w; try done; injection Hh as -> ->; cbn in Hcok; unfold is_open.
    - destruct Hcok as (q & d & Hq & Hd & <- & Hp). rewrite Hi in Hq. injection Hq as <-. rewrite Hj in Hd. injection Hd as <-.
      unfold awaiting in Hp. destruct (op_phase c); try discriminate Hp; (split; [done|]); auto 8.
    - destruct Hcok as (q & d & g & Hq & Hd & <- & Hp). rewrite Hi in Hq. injection Hq as <-. rewrite Hj in Hd. injection Hd as <-.
      rewrite Hp. eauto 6. }
  pose proof (after_call_cases i j w _ _ Hnext Hw) as Hcases. fold w' in Hcases.
  assert ((op_phase c' = OClosed /\ holds w' = None /\ (w' = AtErred i \/ w' = AtDone i j /\ w = AtStream i j)) \/
    (is_open c' = true /\ holds w' = Some (i, j) /\ (w' = AtOpening i j /\ awaiting c' = true \/ w' = AtStream i j /\ exists g, op_phase c' = OStreaming g)))
    as Hw'.
  { unfold is_open, awaiting. destruct Hcases as [(-> & [->|[-> ->]])|[(-> & ->)|((g & ->) & ->)]]; cbn; eauto 8. }
  clearbody w'. clear Hcases Hcok.
  assert (client_inv t) as Hct by (eapply open_step_inv; [by apply (si_tunnels _ Hinv _ _ Hi)|exact Hj|exact E]).
  destruct (si_tunnels _ Hinv _ _ Hi) as [T1 T2 T3 T4 T5].
  assert (place w = Some i) as Hpw by (by destruct Hw as [[-> _]|[-> _]]).
  pose proof (open_count_insert _ _ _ c' Hj) as Co. rewrite <- Ec, Ho in Co.
  pose proof (count_insert (on i) _ k _ (Clr addr w') Hk) as C1. rewrite decide_True in C1 by (by apply (on_at i j)).
  assert (count (picked i) (<[k := Clr addr w']> (sg_callers s)) = count (picked i) (sg_callers s)) as C2.
  { apply (count_moved (picked i) _ k _ _ Hk). unfold picked. cbn. destruct Hw as [[-> _]|[-> _]], Hw' as [(_ & _ & [->|[-> _]])|(_ & _ & [[-> _]|[-> _]])]; done. }
  assert (open_count (ct_calls t) = count (on i) (<[k := Clr addr w']> (sg_callers s))) as Eload.
  { destruct Hw' as [(Ep & Hn & _)|(Eo & Hs & _)].
    - rewrite decide_False in C1 by (by apply not_on). unfold is_open in Co. rewrite Ep in Co. lia.
    - rewrite decide_True in C1 by (by apply (on_at i j)). rewrite Eo in Co. lia. }
  apply (inv_both s k addr w w' i sp); try done.
  - intros i' Hne. rewrite Hpw. split; [by intros [= <-]|].
    destruct Hw' as [(_ & _ & [->|[-> _]])|(_ & _ & [[-> _]|[-> _]])]; cbn; by intros [= <-].
  - intros j' d Hne Hd. exists d. rewrite Ec, list_lookup_insert_ne; [done|]. intros <-. congruence.
  - split; cbn [sp_tunnel sp_pooled]; rewrite ?C2; [done|done| | |].
    + intros Hm Hp. specialize (T3 Hm Hp). destruct (is_open c'); lia.
    + intros Hp. specialize (T4 Hp). by rewrite Ec, length_insert.
    + intros Hp Hz. destruct Hw' as [(Ep & Hn & [Ew|[Ew Hst]])|(_ & Hs & _)].
      * pose proof (count_put (erred i) _ _ _ (Clr addr w') Hk Ew). lia.
      * destruct (Hend Ep) as [Haw|(d & -> & Hk')].
        -- destruct Hw as [[-> _]|[_ (g & Hp')]]; [done|]. unfold awaiting in Haw. by rewrite Hp' in Haw.
        -- apply Hk'. cbn in Hdrop. by rewrite Hdrop, Hp.
      * pose proof (count_put (on i) _ _ _ (Clr addr w') Hk (on_at i j addr w' Hs)). lia.
  - assert (<[i := Sp t (sp_pooled sp)]> (sg_tunnels s) !! i = Some (Sp t (sp_pooled sp))) as Hself
      by (apply list_lookup_insert_eq; by eapply lookup_lt_Some).
    unfold caller_ok. cbn [cl_at cl_addr]. destruct Hw' as [(Hp & _ & [->|[-> _]])|(_ & _ & [[-> Haw]|[-> (g & Hp)]])]; [by eexists| | |].
    + eexists _, c'. split; [done|]. by rewrite Ea.
    + eexists _, c'. split; [done|]. by rewrite Ea.
    + eexists _, c', g. split; [done|]. by rewrite Ea.
  - intros h Eh. left. rewrite (holds_owns _ _ Hh), <- Eh.
    by destruct Hw' as [(_ & _ & [->|[-> _]])|(_ & _ & [[-> _]|[-> _]])].
  - intros j' d Hd Hop Hne. rewrite Ec in Hd. apply list_lookup_insert_Some in Hd as [(<- & <- & _)|[Hj2 Hd]].
    + destruct Hw' as [(Ep & _)|(_ & Hs & _)]; [|done]. unfold is_open in Hop. by rewrite Ep in Hop.
    + exists d. split; [done|]. split; [done|]. rewrite Hh. by intros [= <-].
Qed.

(** A tunnel is picked. *)
Lemma inv_picks s k addr i : is_u32 max_streams -> serving_inv s -> may_move multi (Some k) s -> sg_callers s !! k = Some (Clr addr AtLoop) ->
  pick_tunnel max_streams s = Some i -> serving_inv (set_at k (AtPicked i) s).
Proof.
  intros HM Hinv Hmay Hk Hp. unfold pick_tunnel in Hp. pose proof (pick_spec max_streams (views s)) as Hspec.
  destruct (pick max_streams (views s)) as [n|]; [|done]. cbn in Hp. destruct Hspec as (v & Hv & Hel & _).
  destruct (si_listed _ Hinv i) as [t Hi]; [by eapply list_elem_of_lookup_2|].
  assert (v = PTun (ct_alive t) (ct_streams t)) as ->.
  { unfold views in Hv. rewrite list_lookup_fmap, Hp in Hv. injection Hv as <-. unfold view. by rewrite Hi. }
  apply andb_prop in Hel as [_ Hlt%Z.ltb_lt]. cbn [pt_streams] in Hlt.
  rewrite <- (set_tunnel_same i (Sp t true) s Hi). cbn [sp_tunnel].
  apply (inv_both s k addr AtLoop (AtPicked i) i (Sp t true)); try done.
  - intros i' Hne. cbn. split; congruence.
  - apply other_calls_same.
  - destruct (si_tunnels _ Hinv _ _ Hi) as [T1 T2 T3 T4 T5]. cbn [sp_tunnel sp_pooled] in *. split; cbn [sp_tunnel sp_pooled]; [done| | |done|done].
    + rewrite (count_moved (on i) _ k _ (Clr addr (AtPicked i)) Hk); [done|]. split; by intros (? & ?).
    + intros Hm _. specialize (T3 Hm eq_refl). pose proof (count_insert (picked i) _ k _ (Clr addr (AtPicked i)) Hk) as C2.
      rewrite decide_False, decide_True in C2 by done.
      assert (count (picked i) (sg_callers s) = 0%nat) as Hz.
      { apply count_none. intros k' c Hk' Hpk. destruct Hmay as [|[_ Hq]]; [congruence|]. unfold picked in Hpk.
        specialize (Hq k' c Hk'). rewrite Hpk in Hq. specialize (Hq eq_refl). injection Hq as <-. rewrite Hk in Hk'. by injection Hk' as <-. }
      rewrite (ci_streams _ T1) in Hlt. unfold u32 in Hlt. rewrite Z.mod_small in Hlt by lia. lia.
  - exists (Sp t true). apply list_lookup_insert_eq. by eapply lookup_lt_Some.
  - intros j d Hd Hop _. by exists d.
Qed.

Lemma serving_step_inv s s' : is_u32 max_streams -> serving_step s s' -> serving_inv s -> serving_inv s'.
Proof.
  intros HM Hst Hinv. pose proof (si_nodup _ Hinv) as Hnd. destruct Hst.
  - apply (inv_same s); try done; [by apply NoDup_filter|]. intros i Hi. by apply list_elem_of_filter in Hi as [_ ?].
  - by apply (inv_same s).
  - by apply (inv_same s).
  - by apply (inv_same s).
  - eapply (inv_same (with_list _ (with_tunnels _ s))), inv_dialed, Hinv; try done. by destruct (inv_dialed s Hinv).
  - by apply (inv_same s).
  - by apply (inv_same s).
  - destruct (moves_spec (sp_tunnel sp) t) as (Hi & Hs & Hd); [by apply (si_tunnels _ Hinv i)|done|]. by eapply inv_moves.
  - apply inv_enter; [..|done]; unfold at_entry; by destruct (_ =? _).
  - destruct (pick_tunnel max_streams s) as [i|] eqn:Ep; [by eapply inv_picks|by eapply inv_at].
  - by eapply inv_at.
  - eapply inv_at; [done|done|done|..]; by destruct H2 as [-> | ->].
  - by eapply inv_dedicated.
  - by eapply inv_at.
  - by apply inv_opens.
  - by eapply inv_acts.
  - by eapply inv_leaves.
  - eapply (inv_leaves (with_list (retain_others i s) s)); try done. apply (inv_same s); try done; [by apply NoDup_filter|].
    intros j Hj. by apply list_elem_of_filter in Hj as [_ ?].
  - by eapply inv_torn_down.
Qed.

Lemma serving_reachable_inv s : is_u32 max_streams -> rtc serving_step serving_new s -> serving_inv s.
Proof.
  intros HM Hr. revert s Hr. apply (rtc_ind_r serving_inv); [apply serving_inv_new|]. intros s s' _ Hst IH. by eapply serving_step_inv.
Qed.

(** *** What becomes of a caller *)

(** A stream is left by its drop only. *)
Definition follows (w w' : Where) : Prop :=
  match w with
  | AtStream i j => w' = AtStream i j \/ w' = AtDone i j
  | AtDone i j => w' = AtDone i j
  | _ => True
  end.

Lemma follows_refl w : follows w w.
Proof. destruct w; cbn; auto. Qed.

Lemma step_callers s s' k c : serving_inv s -> serving_step s s' -> sg_callers s !! k = Some c ->
  exists c', sg_callers s' !! k = Some c' /\ cl_addr c' = cl_addr c /\ follows (cl_at c) (cl_at c').
Proof.
  intros Hinv Hst Hk.
  assert (forall k0 addr w w' s1, sg_callers s1 = sg_callers s -> sg_callers s !! k0 = Some (Clr addr w) -> follows w w' ->
    exists c', sg_callers (set_at k0 w' s1) !! k = Some c' /\ cl_addr c' = cl_addr c /\ follows (cl_at c) (cl_at c')) as Hset.
  { intros k0 addr w w' s1 E Hk0 Hf. rewrite (set_at_eq k0 addr w) by (by rewrite E). cbn [sg_callers]. rewrite E.
    destruct (decide (k = k0)) as [->|Hne].
    - rewrite list_lookup_insert_eq by (by eapply lookup_lt_Some). rewrite Hk0 in Hk. injection Hk as <-. by eexists.
    - rewrite list_lookup_insert_ne by done. exists c. split_and!; [done..|apply follows_refl]. }
  destruct Hst; try (exists c; split_and!; [done..|apply follows_refl]); try (by eapply Hset).
  - exists c. split_and!; [by apply lookup_app_l_Some|done|apply follows_refl].
  - eapply Hset; [done..|]. pose proof (si_callers _ Hinv k0 _ H0) as Hcok. unfold caller_ok in Hcok. cbn [cl_at] in Hcok.
    destruct (open_step_next _ _ _ _ _ _ H3 H4 H6) as (_ & _ & Hnext & _). destruct w; try done. injection H1 as -> ->.
    destruct Hcok as (q & d & g & Hq & Hd & _ & Hp). rewrite H2 in Hq. injection Hq as <-. rewrite H3 in Hd. injection Hd as <-.
    rewrite Hp in Hnext. cbn. destruct (op_phase c'); auto; discriminate.
Qed.

(** ** The pool of flags and counters as an abstraction *)

Definition abs (s : Serving) : PoolInner :=
  Pl (pt_alive <$> views s) (sg_dialing s) (sg_dials s) (sg_pushed s) (sg_maintainer s).

Lemma views_flags s : pt_alive <$> views s = (fun i => pt_alive (view (sg_tunnels s) i)) <$> sg_list s.
Proof. unfold views. by rewrite <- list_fmap_compose. Qed.

(** A tunnel dies at most. *)
Lemma abs_tunnel s i sp t : serving_inv s -> multi = true \/ sg_maintainer s = MIdle -> sg_tunnels s !! i = Some sp ->
  (ct_alive (sp_tunnel sp) = false -> ct_alive t = false) -> rtc (pool_step multi pool_size) (abs s) (abs (set_tunnel i t s)).
Proof.
  intros Hinv Hmay Hi Hdead. rewrite (set_tunnel_eq _ _ _ _ Hi).
  set (ts' := <[i := Sp t (sp_pooled sp)]> (sg_tunnels s)).
  assert (view ts' i = PTun (ct_alive t) (ct_streams t)) as Evi.
  { unfold view, ts'. by rewrite list_lookup_insert_eq by (by eapply lookup_lt_Some). }
  assert (forall j, j <> i -> view ts' j = view (sg_tunnels s) j) as Evj.
  { intros j Hne. unfold view, ts'. by rewrite list_lookup_insert_ne. }
  assert (pt_alive (view (sg_tunnels s) i) = ct_alive (sp_tunnel sp)) as Eold by (unfold view; by rewrite Hi).
  assert (pt_alive (view ts' i) = pt_alive (view (sg_tunnels s) i) \/ i ∉ sg_list s ->
    abs (with_tunnels ts' s) = abs s) as Hsame.
  { intros Hor. unfold abs. rewrite !views_flags. cbn [with_tunnels sg_tunnels sg_list sg_dialing sg_dials sg_pushed sg_maintainer]. f_equal.
    apply list_fmap_ext. intros n j Hj. destruct (decide (j = i)) as [->|Hne]; [|by rewrite Evj]. destruct Hor as [E|Hno]; [done|].
    destruct Hno. by eapply list_elem_of_lookup_2. }
  destruct (decide (i ∈ sg_list s)) as [Hin|Hno]; [|rewrite Hsame by (by right); apply rtc_refl].
  destruct (decide (pt_alive (view ts' i) = pt_alive (view (sg_tunnels s) i))) as [E|Hne]; [rewrite Hsame by (by left); apply rtc_refl|].
  rewrite Eold, Evi in Hne. cbn [pt_alive] in Hne.
  assert (ct_alive (sp_tunnel sp) = true /\ ct_alive t = false) as [Et Ef] by (destruct (ct_alive (sp_tunnel sp)), (ct_alive t); try done; by specialize (Hdead eq_refl)).
  apply list_elem_of_lookup_1 in Hin as [n Hn]. apply rtc_once.
  assert (abs (with_tunnels ts' s) = Pl (<[n := false]> (pl_tunnels (abs s))) (pl_dialing (abs s)) (pl_dials (abs s)) (pl_pushed (abs s)) (pl_maintainer (abs s))) as ->.
  { unfold abs. cbn [pl_tunnels pl_dialing pl_dials pl_pushed pl_maintainer]. rewrite !views_flags.
    cbn [with_tunnels sg_tunnels sg_list sg_dialing sg_dials sg_pushed sg_maintainer]. f_equal. apply list_eq. intros m.
    rewrite list_lookup_fmap. destruct (decide (m = n)) as [->|Hm].
    - rewrite Hn, list_lookup_insert_eq by (rewrite length_fmap; by eapply lookup_lt_Some). cbn. by rewrite Evi, <- Ef.
    - rewrite list_lookup_insert_ne, list_lookup_fmap by done. destruct (sg_list s !! m) as [j|] eqn:Hj; [|done]. cbn. rewrite Evj; [done|].
      intros ->. apply Hm. by apply (NoDup_lookup _ m n i (si_nodup _ Hinv)). }
  apply pool_died; [exact Hmay|]. cbn [abs pl_tunnels]. by rewrite views_flags, list_lookup_fmap, Hn, <- Et, <- Eold.
Qed.

Lemma moves_dead t t' : tunnel_moves t t' -> ct_alive t = false -> ct_alive t' = false.
Proof.
  assert (forall f u, ct_alive (tunnel_try_send f u) = ct_alive u) as Hsend by (intros; unfold tunnel_try_send; by destruct (_ && _)).
  assert (forall u, ct_alive u = false -> ct_alive (mark_dead u) = false) as Hdead by (intros u E; unfold mark_dead; by rewrite E).
  intros Hm Ha. destruct Hm; cbn; auto. unfold reader_frame, reader_reply, route_event, reader_end.
  repeat case_match; cbn; rewrite ?Hsend; cbn; auto.
Qed.

Lemma open_step_dead i c a t t' : open_step i c a t = Some t' -> ct_alive t = false -> ct_alive t' = false.
Proof.
  assert (forall f u, ct_alive (tunnel_try_send f u) = ct_alive u) as Hsend by (intros; unfold tunnel_try_send; by destruct (_ && _)).
  assert (forall u, ct_alive u = false -> ct_alive (mark_dead u) = false) as Hdead by (intros u E; unfold mark_dead; by rewrite E).
  intros E Ha. unfold open_step in E. destruct (op_phase c) as [| |g|], a as [| | | | | |f| |d]; try done;
    try (case_match; [|done]); injection E as <-; cbn; rewrite ?Hsend; cbn; auto.
  destruct d, g; cbn; rewrite ?Hsend; auto. apply Hdead. by rewrite Hsend.
Qed.

Lemma filter_true {A} (Q : A -> Prop) `{forall x, Decision (Q x)} (l : list A) : Forall Q l -> filter Q l = l.
Proof. induction 1 as [|x l Hx Hl IH]; [done|]. by rewrite filter_cons, decide_True, IH. Qed.

(** [retain] of all but one. *)
Lemma retain_one (l : list nat) n i : NoDup l -> l !! n = Some i -> filter (fun j => j <> i) l = delete n l.
Proof.
  intros Hnd Hn. rewrite delete_take_drop. rewrite <- (take_drop_middle l n i Hn) at 1. rewrite <- (take_drop_middle l n i Hn) in Hnd.
  apply NoDup_app in Hnd as (_ & Hni & [Hni2 _]%NoDup_cons).
  rewrite filter_app, filter_cons, decide_False by (intros H; by apply H). f_equal.
  - apply filter_true, Forall_forall. intros j Hj ->. apply (Hni i Hj). by left.
  - apply filter_true, Forall_forall. by intros j Hj ->.
Qed.

Lemma abs_pushed s sp : serving_inv s ->
  (fun i => pt_alive (view (sg_tunnels s ++ [sp]) i)) <$> sg_list s = pt_alive <$> views s.
Proof.
  intros Hinv. rewrite views_flags. apply list_fmap_ext. intros n i Hi. f_equal. unfold view.
  destruct (si_listed _ Hinv i) as [t Ht]; [by eapply list_elem_of_lookup_2|]. by rewrite (lookup_app_l_Some _ _ _ _ Ht), Ht.
Qed.

Lemma count_map {A B} (f : A -> B) (Q : B -> Prop) `{forall x, Decision (Q x)} (l : list A) : filter Q (f <$> l) = f <$> filter (fun x => Q (f x)) l.
Proof. induction l as [|x l IH]; [done|]. rewrite fmap_cons, !filter_cons. case_decide; by rewrite IH. Qed.

(** A step of the pool is a step of its abstraction, or none. *)
Lemma abs_step s s' : serving_inv s -> serving_step s s' -> rtc (pool_step multi pool_size) (abs s) (abs s').
Proof.
  intros Hinv Hst. assert (forall me, may_move multi me s -> multi = true \/ sg_maintainer s = MIdle) as Hmay by (intros me [|[? _]]; auto).
  assert (forall p p', p' = p -> rtc (pool_step multi pool_size) p p') as Hrefl by (intros p p' ->; apply rtc_refl).
  destruct Hst as [s _ _ Em|s live _ Em|s n _ Em|s _ Em|s n Hm En|s n Hm En|s n Hm En|s i sp t Hm Hi Hmv|s addr Hm|s k addr Hm Hk|s k addr Hm Hk
    |s k addr w Hm Hk|s k addr Hm Hk|s k addr Hm Hk|s k addr i sp Hm Hk Hi|s k addr w i j sp c a t c' Hm Hk Hh Hi Hj E|s k addr i sp Hm Hk Hi
    |s k addr i sp Hm Hk Hi Hp Ha|s k addr i sp Hm Hk Hi Hp]; try (by apply Hrefl).
  - apply rtc_once. assert (abs (with_maintainer (MCounted (Z.of_nat (length (retain_alive s)))) (with_list (retain_alive s) s)) = maintain_count (abs s)) as ->;
      [|by apply pool_count]. unfold abs, maintain_count. rewrite !views_flags. cbn. unfold retain_alive. by rewrite !count_map, length_fmap.
  - apply rtc_once. by apply (pool_short multi pool_size (abs s)).
  - apply rtc_once. by apply (pool_spawn multi pool_size (abs s)).
  - apply rtc_once. by apply (pool_round multi pool_size (abs s)).
  - apply rtc_once. pose proof (pool_dialed multi pool_size (abs s) n (Hmay _ Hm) En) as Hd.
    unfold abs in *. rewrite !views_flags in *. cbn in *. rewrite fmap_app, abs_pushed, views_flags by done.
    assert (view (sg_tunnels s ++ [Sp spawn_tunnel true]) (length (sg_tunnels s)) = PTun true 0) as Ev by (unfold view; by rewrite list_lookup_middle).
    cbn [fmap list_fmap]. by rewrite Ev.
  - apply rtc_once. by apply (pool_guard_drop multi pool_size (abs s)); [apply (Hmay _ Hm)|].
  - apply rtc_once. by apply (pool_dial_failed multi pool_size (abs s)); [apply (Hmay _ Hm)|].
  - apply (abs_tunnel s i sp); eauto using moves_dead.
  - apply Hrefl. unfold abs. rewrite !views_flags. cbn. by rewrite abs_pushed, views_flags.
  - by apply (abs_tunnel s i sp); eauto.
  - apply (abs_tunnel s i sp); eauto using open_step_dead.
  - destruct (decide (i ∈ sg_list s)) as [Hin|Hno].
    + apply list_elem_of_lookup_1 in Hin as [n Hn]. apply rtc_once.
      pose proof (pool_retain multi pool_size (abs s) n (Hmay _ Hm)) as Hr. unfold abs in *. rewrite !views_flags in *. cbn in *.
      unfold retain_others. rewrite (retain_one _ n i) by (apply Hinv || done). rewrite list_fmap_delete. apply Hr.
      rewrite list_lookup_fmap, Hn. cbn. unfold view. by rewrite Hi, <- Ha.
    + apply Hrefl. unfold abs. rewrite !views_flags. cbn. unfold retain_others. rewrite filter_true; [done|].
      apply Forall_forall. by intros j Hj ->.
  - apply (abs_tunnel s i sp); eauto. intros _. by apply kill_spec.
Qed.

Lemma abs_reachable s : is_u32 max_streams -> rtc serving_step serving_new s -> rtc (pool_step multi pool_size) pool_new (abs s).
Proof.
  intros HM Hr. revert s Hr. apply (rtc_ind_r (fun s => rtc (pool_step multi pool_size) pool_new (abs s))); [apply rtc_refl|].
  intros s s' Hr Hst IH. etransitivity; [exact IH|]. apply abs_step; [by apply serving_reachable_inv|done].
Qed.
End Serving.

(** A stream opened behind a tunnel's death is woken by nobody: the tables were cleared
    before it registered, so while its OPEN finds room all it can do is wait out its
    budget. *)
Lemma late_open_waits t addr i c : client_inv t -> ct_alive t = false ->
  let t' := open_begin addr t in
  i = length (ct_calls t) -> ct_calls t' !! i = Some c ->
  ct_pending t' !! op_sid c = Some i /\ mark_dead t' = t' /\
  (forall u, ct_calls u !! i = Some (set_open_phase OWaiting c) -> ct_pending u = ct_pending t' ->
     forall a u', open_step i (set_open_phase OWaiting c) a u = Some u' -> a = OTimedOut).
Proof.
  intros Hi Ha t' -> Hc. unfold t', open_begin, alloc_stream in *. cbn [ct_calls ct_pending ct_alive] in *.
  rewrite list_lookup_middle in Hc by done. injection Hc as <-. cbn [op_sid].
  assert (forall m : gmap Z nat, <[u32 (ct_next t + 1) := length (ct_calls t)]> m !! u32 (ct_next t + 1) = Some (length (ct_calls t))) as Hm
    by (intros; apply lookup_insert_eq).
  split; [apply Hm|]. split; [unfold mark_dead; cbn; by rewrite Ha|].
  intros u Hu Hp a u' E. unfold open_step in E. cbn in E. destruct a; try done; case_decide as Hd; try done.
  destruct Hd as [_ Hd]. rewrite Hp, Hm in Hd. done.
Qed.

(** A run: the pool fills with its one tunnel, a first caller takes it, a second finds
    it at its cap and is given a dedicated one. *)
Definition sample_addr : ProxyAddr := PAddr (Ip (V4 [127; 0; 0; 1])) 80.
Definition sample_first : Spawned := Sp (open_begin sample_addr spawn_tunnel) true.
Definition sample_second : Spawned := Sp (open_begin sample_addr spawn_tunnel) false.

Definition sample_filled : Serving := Srv [Sp spawn_tunnel true] [0%nat] 0 0 0 MIdle [Clr sample_addr AtLoop].
Definition sample_serving : Serving :=
  Srv [sample_first; sample_second] [0%nat] 0 0 0 MIdle [Clr sample_addr (AtOpening 0 0); Clr sample_addr (AtOpening 1 0)].

Lemma sample_filled_reached : rtc (serving_step true 1 1) serving_new sample_filled.
Proof.
  set (cs := [Clr sample_addr AtLoop]).
  apply (rtc_l _ _ (Srv [] [] 0 0 0 MIdle cs)); [apply (sv_enters true 1 1 serving_new sample_addr); by left|].
  apply (rtc_l _ _ (Srv [] [] 0 0 0 (MCounted 0) cs)); [apply (sv_count true 1 1 (Srv [] [] 0 0 0 MIdle cs)); [lia|by left|done]|].
  apply (rtc_l _ _ (Srv [] [] 0 0 0 (MSpawning 1) cs)); [apply (sv_short true 1 1 (Srv [] [] 0 0 0 (MCounted 0) cs) 0); [by left|done]|].
  apply (rtc_l _ _ (Srv [] [] 1 1 0 (MSpawning 0) cs)); [apply (sv_spawn true 1 1 (Srv [] [] 0 0 0 (MSpawning 1) cs) 0); [by left|done]|].
  apply (rtc_l _ _ (Srv [] [] 1 1 0 MIdle cs)); [apply (sv_round true 1 1 (Srv [] [] 1 1 0 (MSpawning 0) cs)); [by left|done]|].
  apply (rtc_l _ _ (Srv [Sp spawn_tunnel true] [0%nat] 1 0 1 MIdle cs));
    [apply (sv_dialed true 1 1 (Srv [] [] 1 1 0 MIdle cs) 0); [by left|done]|].
  apply rtc_once, (sv_guard_drop true 1 1 (Srv [Sp spawn_tunnel true] [0%nat] 1 0 1 MIdle cs) 0); [by left|done].
Qed.

Lemma sample_serving_reached : rtc (serving_step true 1 1) serving_new sample_serving.
Proof.
  etransitivity; [apply sample_filled_reached|]. set (st := fun ts cs => Srv ts [0%nat] 0 0 0 MIdle cs).
  set (c0 := Clr sample_addr (AtOpening 0 0)). set (c1 := fun w => Clr sample_addr w).
  apply (rtc_l _ _ (st [Sp spawn_tunnel true] [Clr sample_addr (AtPicked 0)]));
    [apply (sv_picks true 1 1 sample_filled 0 sample_addr); [by left|done]|].
  apply (rtc_l _ _ (st [sample_first] [c0]));
    [apply (sv_opens true 1 1 (st [Sp spawn_tunnel true] [Clr sample_addr (AtPicked 0)]) 0 sample_addr 0 (Sp spawn_tunnel true)); [by left|done|done]|].
  apply (rtc_l _ _ (st [sample_first] [c0; c1 AtLoop])); [apply (sv_enters true 1 1 (st [sample_first] [c0]) sample_addr); by left|].
  apply (rtc_l _ _ (st [sample_first] [c0; c1 AtNoPick]));
    [apply (sv_picks true 1 1 (st [sample_first] [c0; c1 AtLoop]) 1 sample_addr); [by left|done]|].
  apply (rtc_l _ _ (st [sample_first] [c0; c1 AtDialing]));
    [apply (sv_saturated true 1 1 (st [sample_first] [c0; c1 AtNoPick]) 1 sample_addr); [by left|done|done]|].
  apply (rtc_l _ _ (st [sample_first; Sp spawn_tunnel false] [c0; c1 (AtPicked 1)]));
    [apply (sv_dedicated true 1 1 (st [sample_first] [c0; c1 AtDialing]) 1 sample_addr); [by left|done]|].
  apply rtc_once, (sv_opens true 1 1 (st [sample_first; Sp spawn_tunnel false] [c0; c1 (AtPicked 1)]) 1 sample_addr 1 (Sp spawn_tunnel false));
    [by left|done|done].
Qed.

(** ** Properties *)

(** C28: the pool of tunnels is the pool of flags and counters.  With [pool_size] below
    2^30, so that the sums of the code do not wrap, and whatever the
    maintainer, its dial tasks, the tunnels' readers and writers and the callers of
    [open_stream] do, in any interleaving, the pool seen as its tunnels' liveness and
    its counters makes steps of the abstract pool, whose counts it therefore
    inherits: the in-flight counter is the number of dials and of tunnels whose task
    still holds its guard, and never exceeds [pool_size]; the live tunnels in the
    pool and the dials in flight are together at most [pool_size] on a runtime of
    one worker, where the count and the counter are read with nothing in between,
    and at most twice that on any. *)
Theorem pool_of_tunnels multi P M s :
  0 <= P < 2 ^ 30 -> is_u32 M -> rtc (serving_step multi P M) serving_new s ->
  rtc (pool_step multi P) pool_new (abs s) /\
  sg_dialing s = Z.of_nat (sg_dials s) + Z.of_nat (sg_pushed s) /\ sg_dialing s <= P /\
  Z.of_nat (pool_live (abs s)) + Z.of_nat (sg_dials s) <= if multi then 2 * P else P.
Proof.
  intros HP HM Hr. pose proof (abs_reachable multi P M s HM Hr) as Ha. split; [done|].
  destruct (pool_reach_inv multi P (abs s) HP Ha) as [Hd Hc Ht _]. cbn [abs pl_dials pl_dialing pl_pushed] in *.
  assert (0 <= spawning (abs s)) by (unfold spawning; destruct (pl_maintainer (abs s)); lia). split_and!; [done|lia|destruct multi; lia].
Qed.

Lemma pool_of_tunnels_witness : rtc (serving_step true 1 1) serving_new sample_serving /\
  rtc (pool_step true 1) pool_new (abs sample_serving) /\ Z.of_nat (pool_live (abs sample_serving)) + 0 <= 2.
Proof.
  split; [exact sample_serving_reached|].
  destruct (pool_of_tunnels true 1 1 sample_serving ltac:(lia) ltac:(lia) sample_serving_reached) as (Ha & _ & _ & Hb).
  split; [exact Ha|exact Hb].
Defined.

(** C29: what a tunnel counts as its load is who uses it.  However the pool's parties
    interleave, before a tunnel's 2^32nd stream: the counter that assignment reads
    is the number of callers of [open_stream] inside [open] or holding a stream on
    that tunnel, every such caller with a call of its own, for the address it asked
    for; [pick] gives a live pooled tunnel with fewer users than [max_streams] and
    no more than any other live one in the pool; on a runtime of one worker no
    pooled tunnel is ever loaded past [max_streams]; and a dedicated tunnel has one
    call at most and is torn down once its caller is through with it. *)
Theorem load_is_use multi P M s :
  is_u32 M -> rtc (serving_step multi P M) serving_new s ->
  (forall i sp, sg_tunnels s !! i = Some sp -> Z.of_nat (length (ct_calls (sp_tunnel sp))) < 2 ^ 32) ->
  (forall i sp, sg_tunnels s !! i = Some sp ->
     ct_streams (sp_tunnel sp) = Z.of_nat (count (on i) (sg_callers s)) /\
     (multi = false -> sp_pooled sp = true -> ct_streams (sp_tunnel sp) <= M) /\
     (sp_pooled sp = false -> (length (ct_calls (sp_tunnel sp)) ≤ 1)%nat /\
        ((forall k c, sg_callers s !! k = Some c -> place (cl_at c) <> Some i) ->
           ct_alive (sp_tunnel sp) = false /\ ct_reader (sp_tunnel sp) = false))) /\
  (forall k c i j, sg_callers s !! k = Some c -> holds (cl_at c) = Some (i, j) ->
     (exists sp d, sg_tunnels s !! i = Some sp /\ ct_calls (sp_tunnel sp) !! j = Some d /\ op_addr d = cl_addr c /\ is_open d = true) /\
     (forall k' c', sg_callers s !! k' = Some c' -> holds (cl_at c') = Some (i, j) -> k' = k)) /\
  (forall i, pick_tunnel M s = Some i -> exists sp, sg_tunnels s !! i = Some sp /\ sp_pooled sp = true /\
     ct_alive (sp_tunnel sp) = true /\ Z.of_nat (count (on i) (sg_callers s)) < M /\
     forall j sq, j ∈ sg_list s -> sg_tunnels s !! j = Some sq -> ct_alive (sp_tunnel sq) = true ->
       (count (on i) (sg_callers s) ≤ count (on j) (sg_callers s))%nat).
Proof.
  intros HM Hr Hsmall. pose proof (serving_reachable_inv multi P M s HM Hr) as [Hnd Hl Ht Hc Ho _].
  assert (forall i sp, sg_tunnels s !! i = Some sp -> ct_streams (sp_tunnel sp) = Z.of_nat (count (on i) (sg_callers s))) as Hload.
  { intros i sp Hi. destruct (Ht i sp Hi) as [T1 T2 _ _ _]. rewrite (ci_streams _ T1), T2. unfold u32. apply Z.mod_small.
    pose proof (open_count_le (ct_calls (sp_tunnel sp))). specialize (Hsmall i sp Hi). lia. }
  split; [|split].
  - intros i sp Hi. specialize (Hload i sp Hi). destruct (Ht i sp Hi) as [T1 T2 T3 T4 T5]. split; [done|]. split.
    + intros Hm Hp. specialize (T3 Hm Hp). lia.
    + intros Hp. split; [specialize (T4 Hp); lia|]. intros Hno. apply T5; [done|].
      rewrite !count_none; [done|intros k c Hk; by destruct (elsewhere_at i c (Hno k c Hk)) as (? & ? & ?)..].
  - intros k c i j Hk Hh. split; [|intros k' c' Hk' Hh'; by eapply (Ho k' k c' c), holds_owns, Hh; [done|done|apply holds_owns]].
    specialize (Hc k c Hk). unfold caller_ok in Hc. unfold awaiting, is_open in *.
    destruct (cl_at c) as [| | | |a b| |a b| |a b]; try done; injection Hh as -> ->.
    + destruct Hc as (sp & d & Hi & Hd & Ea & Hp). exists sp, d. split_and!; try done. by destruct (op_phase d).
    + destruct Hc as (sp & d & g & Hi & Hd & Ea & Hp). exists sp, d. by rewrite Hp.
  - intros i Hp. unfold pick_tunnel in Hp. pose proof (pick_spec M (views s)) as Hspec.
    destruct (pick M (views s)) as [n|]; [|done]. cbn in Hp. destruct Hspec as (v & Hv & Hel & Hmin).
    assert (forall m j sq, sg_list s !! m = Some j -> sg_tunnels s !! j = Some sq ->
      views s !! m = Some (PTun (ct_alive (sp_tunnel sq)) (ct_streams (sp_tunnel sq)))) as Hview.
    { intros m j sq Hm Hj. unfold views. rewrite list_lookup_fmap, Hm. cbn. unfold view. by rewrite Hj. }
    destruct (Hl i) as [t Hi]; [by eapply list_elem_of_lookup_2|]. rewrite (Hview _ _ _ Hp Hi) in Hv. injection Hv as <-.
    apply andb_prop in Hel as [Ha Hlt%Z.ltb_lt]. cbn [pt_alive pt_streams sp_tunnel] in *.
    pose proof (Hload _ _ Hi) as Eload. cbn [sp_tunnel] in Eload. rewrite Eload in *. exists (Sp t true). split_and!; try done.
    intros j sq [m Hm]%list_elem_of_lookup_1 Hj Hja. pose proof (Hload _ _ Hj) as Ej.
    destruct (Z.lt_ge_cases (ct_streams (sp_tunnel sq)) M) as [Hlt'|]; [|lia].
    destruct (Hmin m _ (Hview _ _ _ Hm Hj)) as [Hle _]; [unfold eligible; cbn; by rewrite Hja, (proj2 (Z.ltb_lt _ _) Hlt')|]. cbn in Hle. lia.
Qed.

Lemma load_is_use_witness : rtc (serving_step true 1 1) serving_new sample_serving /\
  ct_streams (sp_tunnel sample_first) = 1 /\ (length (ct_calls (sp_tunnel sample_second)) ≤ 1)%nat.
Proof.
  split; [exact sample_serving_reached|].
  destruct (load_is_use true 1 1 sample_serving ltac:(lia) sample_serving_reached) as [H _].
  - intros [|[|i]] sp Hi; cbn in Hi; [injection Hi as <-; reflexivity..|discriminate].
  - split; [apply (H 0%nat sample_first eq_refl)|]. apply (H 1%nat sample_second eq_refl). reflexivity.
Defined.
