(* ===== verification/PumpStream.v ===== *)
(** * Pumping one stream ([pump_stream] of [crates/common/src/tunnel.rs])

    The two direction tasks of a stream and the [select!] that joins them, as they
    interleave: reads, channel sends and writes are the awaits where the other task
    runs and where an abort takes effect.  At the end, what one side's socket
    writes is what the other side's socket gave. *)
From S2P Require Import Prelude Errors Mux Pump Tunnel TunnelPair.

(** ** The tasks *)

(** [pump_up]: at the read, at the send of what was read, at the send of the EOF. *)
Inductive UpTask := UReading | USending (d : bytes) | UFinishing | UEnded (d : DirEnd) | UAborted.

(** [pump_down]: at the receive, inside [write_all] with [n] bytes written, at the
    shutdown of the socket. *)
Inductive DownTask := WWaiting | WWriting (d : bytes) (n : nat) | WShutting | WEnded (d : DirEnd) | WAborted.

Record Up := Up_ { u_task : UpTask; u_read : bytes; u_bytes : Z }.
Record Down := Down_ { w_task : DownTask; w_taken : list StreamEvent; w_written : bytes; w_shut : bool; w_bytes : Z }.

(** The body of [pump_stream]: at its [select!], at the join of the other task, which
    it may have aborted, or returned. *)
Inductive Parent := PSelecting | PJoinDown (up_end : DirEnd) (aborted : bool) | PJoinUp (down_end : DirEnd) (aborted : bool)
| PDone (o : PumpOutcome).

Record Pumps := Pmp { pm_up : Up; pm_down : Down; pm_sent : list OutFrame; pm_parent : Parent }.

Definition pump_new : Pumps := Pmp (Up_ UReading [] 0) (Down_ WWaiting [] [] false 0) [] PSelecting.

(** [pump_down] still holds the receiver of the stream's event channel. *)
Definition listening (t : DownTask) : bool := match t with WEnded _ | WAborted => false | _ => true end.

(** A best-effort CLOSE. *)
Definition bounce (room : bool) (stream : Z) : list OutFrame := if room then [OutFrame_bare Close stream] else [].

(** A step of [pump_up] and the frames it queues. *)
Inductive up_step (stream : Z) : Up -> list OutFrame -> Up -> Prop :=
| up_reads d r b : d <> [] -> Z.of_nat (length d) <= STREAM_CHUNK -> wf_bytes d ->
    up_step stream (Up_ UReading r b) [] (Up_ (USending d) (r ++ d) b)
| up_reads_eof r b : up_step stream (Up_ UReading r b) [] (Up_ UFinishing r b)
| up_read_fails e room r b : up_step stream (Up_ UReading r b) (bounce room stream) (Up_ (UEnded (classify_io_end e)) r b)
| up_sends d r b :
    up_step stream (Up_ (USending d) r b) [OutFrame_new Data stream d] (Up_ UReading r (u64 (b + Z.of_nat (length d))))
| up_send_fails d r b : up_step stream (Up_ (USending d) r b) [] (Up_ (UEnded (DClosed "tunnel closed")) r b)
| up_finishes r b : up_step stream (Up_ UFinishing r b) [OutFrame_bare Eof stream] (Up_ (UEnded DEof) r b)
| up_finish_fails r b : up_step stream (Up_ UFinishing r b) [] (Up_ (UEnded (DClosed "tunnel closed")) r b).

(** A step of [pump_down]. *)
Inductive down_step (stream : Z) : Down -> list OutFrame -> Down -> Prop :=
| down_data d t w s b : d <> [] -> down_step stream (Down_ WWaiting t w s b) [] (Down_ (WWriting d 0) (t ++ [SData d]) w s b)
| down_empty t w s b : down_step stream (Down_ WWaiting t w s b) [] (Down_ WWaiting (t ++ [SData []]) w s b)
| down_eof t w s b : down_step stream (Down_ WWaiting t w s b) [] (Down_ WShutting (t ++ [SEof]) w s b)
| down_reset t w s b : down_step stream (Down_ WWaiting t w s b) [] (Down_ (WEnded (DClosed "peer reset")) (t ++ [SClose]) w s b)
| down_closed t w s b : down_step stream (Down_ WWaiting t w s b) [] (Down_ (WEnded (DClosed "tunnel closed")) t w s b)
| down_writes d n k t w s b : (0 < k)%nat -> (n + k < length d)%nat ->
    down_step stream (Down_ (WWriting d n) t w s b) [] (Down_ (WWriting d (n + k)) t (w ++ take k (drop n d)) s b)
| down_wrote d n t w s b : (n < length d)%nat ->
    down_step stream (Down_ (WWriting d n) t w s b) [] (Down_ WWaiting t (w ++ drop n d) s (u64 (b + Z.of_nat (length d))))
| down_write_fails d n e room t w s b :
    down_step stream (Down_ (WWriting d n) t w s b) (bounce room stream) (Down_ (WEnded (classify_io_end e)) t w s b)
| down_shuts t w s b : down_step stream (Down_ WShutting t w s b) [] (Down_ (WEnded DEof) t w true b).

(** What joining a task gives, once it is over. *)
Definition up_result (t : UpTask) : option Join := match t with UEnded d => Some (Finished d) | UAborted => Some Cancelled | _ => None end.
Definition down_result (t : DownTask) : option Join := match t with WEnded d => Some (Finished d) | WAborted => Some Cancelled | _ => None end.

Definition abort_up (u : Up) : Up := Up_ UAborted (u_read u) (u_bytes u).
Definition abort_down (w : Down) : Down := Down_ WAborted (w_taken w) (w_written w) (w_shut w) (w_bytes w).

Inductive pump_step (stream : Z) : Pumps -> Pumps -> Prop :=
| pump_up_moves u fs u' w sent p : up_step stream u fs u' -> pump_step stream (Pmp u w sent p) (Pmp u' w (sent ++ fs) p)
| pump_down_moves u w fs w' sent p : down_step stream w fs w' -> pump_step stream (Pmp u w sent p) (Pmp u w' (sent ++ fs) p)
| pump_up_first u w sent a : u_task u = UEnded a ->
    pump_step stream (Pmp u w sent PSelecting) (Pmp u w sent (PJoinDown a (negb (dir_graceful a))))
| pump_down_first u w sent b : w_task w = WEnded b ->
    pump_step stream (Pmp u w sent PSelecting) (Pmp u w sent (PJoinUp b (negb (dir_graceful b))))
| pump_aborts_down u w sent a : down_result (w_task w) = None ->
    pump_step stream (Pmp u w sent (PJoinDown a true)) (Pmp u (abort_down w) sent (PJoinDown a true))
| pump_aborts_up u w sent b : up_result (u_task u) = None ->
    pump_step stream (Pmp u w sent (PJoinUp b true)) (Pmp (abort_up u) w sent (PJoinUp b true))
| pump_joins_down u w sent a ab r : down_result (w_task w) = Some r ->
    pump_step stream (Pmp u w sent (PJoinDown a ab)) (Pmp u w sent (PDone (POut (u_bytes u) (w_bytes w) (stream_end a (join_dir r)))))
| pump_joins_up u w sent b ab r : up_result (u_task u) = Some r ->
    pump_step stream (Pmp u w sent (PJoinUp b ab)) (Pmp u w sent (PDone (POut (u_bytes u) (w_bytes w) (stream_end (join_dir r) b)))).

(** A pump that dropped the receiver has dropped it for good. *)
Lemma deaf_stays stream a b : pump_step stream a b -> listening (w_task (pm_down a)) = false -> listening (w_task (pm_down b)) = false.
Proof. intros [u fs u' w sent p _|u w fs w' sent p []| | | | | |]; by cbn. Qed.

(** ** What is kept *)

(** The bytes of DATA events. *)
Definition data_of (evs : list StreamEvent) : bytes := evs ≫= (fun ev => match ev with SData d => d | _ => [] end).

Lemma data_of_app a b : data_of (a ++ b) = data_of a ++ data_of b.
Proof. apply bind_app. Qed.

Lemma data_of_chunks ds : data_of (map SData ds) = concat ds.
Proof. induction ds as [|d ds IH]; [done|]. cbn. by rewrite <- IH. Qed.

Section Invariant.
Context (stream : Z) (Hstream : is_u32 stream).

(** The EOF has been sent. *)
Definition up_eof (t : UpTask) : bool := match t with UEnded DEof => true | _ => false end.

(** The socket has been shut down for writing. *)
Definition down_shut (t : DownTask) : bool := match t with WEnded DEof => true | _ => false end.

(** The frames sent so far carry the chunks read so far, in order, and an EOF behind
    the last one. *)
Definition up_inv (u : Up) (sent : list OutFrame) : Prop :=
  exists chunks, events stream sent = map SData chunks ++ (if up_eof (u_task u) then [SEof] else []) /\
    u_bytes u = u64 (Z.of_nat (length (concat chunks))) /\
    match u_task u with
    | UReading | UFinishing | UEnded DEof => u_read u = concat chunks
    | USending d => u_read u = concat chunks ++ d /\ d <> [] /\ Z.of_nat (length d) <= STREAM_CHUNK /\ wf_bytes d
    | _ => concat chunks `prefix_of` u_read u
    end.

(** The bytes written so far are those of the events taken so far, up to the chunk
    being written; the count holds the chunks written whole; nothing is taken after
    an EOF. *)
Definition down_inv (w : Down) : Prop :=
  (exists whole, whole `prefix_of` w_written w /\ w_bytes w = u64 (Z.of_nat (length whole)) /\
     match w_task w with
     | WWaiting | WShutting | WEnded DEof => whole = w_written w /\ w_written w = data_of (w_taken w)
     | WWriting d n => (n < length d)%nat /\ w_written w = whole ++ take n d /\ data_of (w_taken w) = whole ++ d
     | _ => w_written w `prefix_of` data_of (w_taken w)
     end) /\
  match w_task w with
  | WWaiting | WWriting _ _ => SEof ∉ w_taken w
  | WShutting | WEnded DEof => exists t, w_taken w = t ++ [SEof]
  | _ => True
  end /\ w_shut w = down_shut (w_task w).

Definition up_failed (t : UpTask) : Prop := match t with UEnded d => d <> DEof | _ => False end.
Definition down_failed (t : DownTask) : Prop := match t with WEnded d => d <> DEof | _ => False end.

Definition parent_inv (s : Pumps) : Prop :=
  match pm_parent s with
  | PSelecting => u_task (pm_up s) <> UAborted /\ w_task (pm_down s) <> WAborted
  | PJoinDown a ab => u_task (pm_up s) = UEnded a /\ ab = negb (dir_graceful a) /\ (w_task (pm_down s) = WAborted -> ab = true)
  | PJoinUp b ab => w_task (pm_down s) = WEnded b /\ ab = negb (dir_graceful b) /\ (u_task (pm_up s) = UAborted -> ab = true)
  | PDone o => exists r1 r2, up_result (u_task (pm_up s)) = Some r1 /\ down_result (w_task (pm_down s)) = Some r2 /\
      o = POut (u_bytes (pm_up s)) (w_bytes (pm_down s)) (stream_end (join_dir r1) (join_dir r2))
  end.

Record pump_inv (s : Pumps) : Prop := {
  pv_up : up_inv (pm_up s) (pm_sent s);
  pv_down : down_inv (pm_down s);
  pv_frames : Forall (fun f => pump_frame stream f = true) (pm_sent s);
  pv_close : OutFrame_bare Close stream ∈ pm_sent s -> up_failed (u_task (pm_up s)) \/ down_failed (w_task (pm_down s));
  pv_parent : parent_inv s
}.

Lemma classify_not_eof e : classify_io_end e <> DEof.
Proof. unfold classify_io_end. by destruct (routine_cause _). Qed.

Lemma bounce_events room : events stream (bounce room stream) = [].
Proof.
  destruct room; [|done]. change (bounce true stream) with ([] ++ [OutFrame_bare Close stream]). rewrite events_snoc.
  unfold OutFrame_bare. rewrite frame_event_new by done. by rewrite Z.eqb_refl.
Qed.

Lemma bounce_frames room : Forall (fun f => pump_frame stream f = true) (bounce room stream).
Proof. destruct room; [|by apply Forall_nil]. apply Forall_cons. split; [apply pump_frame_close|by apply Forall_nil]. Qed.

Lemma pump_inv_new : pump_inv pump_new.
Proof.
  split; cbn.
  - exists []. by split_and!.
  - split; [exists []; by split_and!|]. split; [apply not_elem_of_nil|done].
  - by apply Forall_nil.
  - by intros ?%not_elem_of_nil.
  - by split.
Qed.

Lemma u64_add a b : u64 (u64 a + b) = u64 (a + b).
Proof. apply Z.add_mod_idemp_l. done. Qed.

(** Who else sends leaves the invariant of [pump_up] alone. *)
Lemma up_inv_bounce u sent room : up_inv u sent -> up_inv u (sent ++ bounce room stream).
Proof. intros (chunks & E & ?). exists chunks. by rewrite events_app, bounce_events, app_nil_r. Qed.

Lemma up_step_inv u fs u' sent : up_step stream u fs u' -> up_inv u sent ->
  up_inv u' (sent ++ fs) /\ Forall (fun f => pump_frame stream f = true) fs /\
  (OutFrame_bare Close stream ∈ fs -> up_failed (u_task u')) /\ up_result (u_task u) = None /\ u_task u' <> UAborted.
Proof.
  assert (forall k p ev, events stream [OutFrame_new k stream p] = ev -> k <> Close -> OutFrame_bare Close stream ∉ [OutFrame_new k stream p]) as Hnc.
  { intros k p ev _ Hk E%list_elem_of_singleton. by apply OutFrame_new_inj in E as (<- & _). }
  intros Hst (chunks & E & Eb & Hr). destruct Hst as [d r b Hd Hl Hw|r b|e room r b|d r b|d r b|r b|r b]; cbn [u_task u_read u_bytes up_eof] in *;
    rewrite app_nil_r in E.
  - split; [|split_and!; [by apply Forall_nil|by intros ?%not_elem_of_nil|done|done]]. exists chunks. cbn [u_task u_read u_bytes up_eof].
    rewrite !app_nil_r. by rewrite Hr.
  - split; [|split_and!; [by apply Forall_nil|by intros ?%not_elem_of_nil|done|done]]. exists chunks. cbn [u_task u_read u_bytes up_eof].
    by rewrite !app_nil_r.
  - pose proof (classify_not_eof e) as He.
    split; [|split_and!; [apply bounce_frames|by intros _|done|done]]. exists chunks. cbn [u_task u_read u_bytes up_eof].
    rewrite events_app, bounce_events, app_nil_r, Hr, E. destruct (classify_io_end e); [done|..]; by rewrite app_nil_r.
  - destruct Hr as (-> & Hd & Hl & Hw). assert (events stream [OutFrame_new Data stream d] = [SData d]) as Hev.
    { unfold events. cbn. rewrite frame_event_new, Z.eqb_refl by done. done. }
    split; [|split_and!; [|by intros ?%(Hnc Data d _ Hev)|done|done]].
    + exists (chunks ++ [d]). cbn [u_task u_read u_bytes up_eof]. rewrite events_app, E, Hev, app_nil_r.
      rewrite map_app, concat_app. cbn [map concat]. rewrite app_nil_r. split_and!; [done| |done].
      rewrite Eb, u64_add, length_app. f_equal. lia.
    + apply Forall_cons. split; [|by apply Forall_nil]. unfold pump_frame. cbn [OutFrame_new of_header of_payload].
      rewrite bool_decide_true, (proj2 (wf_bytesb_spec d) Hw), (proj2 (Z.leb_le _ _) Hl) by done.
      rewrite (proj2 (Z.leb_le 1 _)); [done|]. destruct d; [done|cbn [length]; lia].
  - destruct Hr as (-> & _). split; [|split_and!; [by apply Forall_nil|by intros ?%not_elem_of_nil|done|done]].
    exists chunks. cbn [u_task u_read u_bytes up_eof]. rewrite !app_nil_r. split_and!; [done|done|by eexists].
  - assert (events stream [OutFrame_bare Eof stream] = [SEof]) as Hev.
    { unfold events, OutFrame_bare. cbn. rewrite frame_event_new, Z.eqb_refl by done. done. }
    split; [|split_and!; [|by intros ?%(Hnc Eof [] _ Hev)|done|done]].
    + exists chunks. cbn [u_task u_read u_bytes up_eof]. by rewrite events_app, E, Hev.
    + apply Forall_cons. split; [|by apply Forall_nil]. unfold pump_frame. apply orb_true_intro. right.
      apply andb_true_intro. split; [|done]. apply existsb_exists. exists Eof. split; [by left|by apply bool_decide_eq_true].
  - split; [|split_and!; [by apply Forall_nil|by intros ?%not_elem_of_nil|done|done]]. exists chunks. cbn [u_task u_read u_bytes up_eof].
    rewrite !app_nil_r, Hr. by split_and!.
Qed.

Lemma no_eof_snoc (t : list StreamEvent) d : SEof ∉ t -> SEof ∉ t ++ [SData d].
Proof. by intros Ht [?| ?%list_elem_of_singleton]%elem_of_app. Qed.

Lemma down_step_inv w fs w' : down_step stream w fs w' -> down_inv w ->
  down_inv w' /\ (fs = [] \/ down_failed (w_task w')) /\ (exists room, fs = bounce room stream) /\
  down_result (w_task w) = None /\ w_task w' <> WAborted.
Proof.
  intros Hst [(whole & Hp & Eb & Hr) [Hlast Hs]]. unfold down_inv.
  destruct Hst as [d t w s b Hd|t w s b|t w s b|t w s b|t w s b|d n k t w s b Hk Hn|d n t w s b Hn|d n e room t w s b|t w s b];
    cbn [w_task w_taken w_written w_shut w_bytes down_shut] in *.
  - destruct Hr as [-> ->]. split; [|split_and!; [by left|by exists false|done|done]]. split; [|split; [by apply no_eof_snoc|done]]. exists (data_of t).
    split_and!; [done|done|destruct d; [done|cbn [length]; lia]|by rewrite app_nil_r|]. rewrite data_of_app. cbn. by rewrite app_nil_r.
  - destruct Hr as [-> ->]. split; [|split_and!; [by left|by exists false|done|done]]. split; [|split; [by apply no_eof_snoc|done]]. exists (data_of t).
    split_and!; [done..|]. rewrite data_of_app. cbn. by rewrite !app_nil_r.
  - destruct Hr as [-> ->]. split; [|split_and!; [by left|by exists false|done|done]]. split; [|split; [by eexists|done]]. exists (data_of t).
    split_and!; [done..|]. rewrite data_of_app. cbn. by rewrite !app_nil_r.
  - destruct Hr as [-> ->]. split; [|split_and!; [by left|by exists false|done|done]]. split; [|done]. exists (data_of t).
    split_and!; [done..|]. rewrite data_of_app. by apply prefix_app_r.
  - destruct Hr as [-> ->]. split; [|split_and!; [by left|by exists false|done|done]]. split; [|done]. by exists (data_of t).
  - destruct Hr as (Hnd & -> & Ht). split; [|split_and!; [by left|by exists false|done|done]]. split; [|done]. exists whole.
    split_and!; [by apply prefix_app_r, prefix_app_r|done|lia| |done]. rewrite <- app_assoc. f_equal. by rewrite take_take_drop.
  - destruct Hr as (Hnd & -> & Ht). split; [|split_and!; [by left|by exists false|done|done]]. split; [|done]. exists (whole ++ d).
    rewrite <- app_assoc, take_drop. split_and!; [done| |done|done]. rewrite Eb, u64_add, length_app. f_equal. lia.
  - destruct Hr as (Hnd & -> & Ht). pose proof (classify_not_eof e) as He.
    split; [|split_and!; [by right|by exists room|done|done]]. split; [|split; [by destruct (classify_io_end e)|]].
    + exists whole. split_and!; [by apply prefix_app_r|done|]. rewrite Ht. destruct (classify_io_end e); [done|..]; apply prefix_app, prefix_take.
    + rewrite Hs. by destruct (classify_io_end e).
  - destruct Hr as [-> ->]. split; [|split_and!; [by left|by exists false|done|done]]. split; [|done]. by exists (data_of t).
Qed.

Lemma pump_step_inv s s' : pump_step stream s s' -> pump_inv s -> pump_inv s'.
Proof.
  intros Hst [Hu Hd Hf Hc Hp]. unfold parent_inv in Hp.
  destruct Hst as [u fs u' w sent p Hs|u w fs w' sent p Hs|u w sent a E|u w sent b E|u w sent a E|u w sent b E|u w sent a ab r E|u w sent b ab r E];
    cbn [pm_up pm_down pm_sent pm_parent] in *.
  - destruct (up_step_inv _ _ _ _ Hs Hu) as (Hu' & Hfs & Hcl & Hnone & Hna).
    split; cbn [pm_up pm_down pm_sent pm_parent]; [done|done|by apply Forall_app| |].
    + intros [Hin|Hin]%elem_of_app; [|by left; auto]. destruct (Hc Hin) as [Hx|Hx]; [|by right].
      unfold up_failed, up_result in *. by destruct (u_task u).
    + unfold parent_inv. cbn [pm_up pm_down pm_parent]. destruct p as [|a ab|b ab|o].
      * by destruct Hp.
      * destruct Hp as (E & _). by rewrite E in Hnone.
      * destruct Hp as (? & ? & _). by split_and!.
      * destruct Hp as (r1 & r2 & E & _). congruence.
  - destruct (down_step_inv _ _ _ Hs Hd) as (Hd' & Hfs & (room & ->) & Hnone & Hna).
    split; cbn [pm_up pm_down pm_sent pm_parent]; [by apply up_inv_bounce|done|apply Forall_app; split; [done|apply bounce_frames]| |].
    + intros [Hin|Hin]%elem_of_app.
      * destruct (Hc Hin) as [Hx|Hx]; [by left|]. unfold down_failed, down_result in *. by destruct (w_task w).
      * destruct Hfs as [E|Hfs]; [by rewrite E in Hin; apply not_elem_of_nil in Hin|by right].
    + unfold parent_inv. cbn [pm_up pm_down pm_parent]. destruct p as [|a ab|b ab|o].
      * by destruct Hp.
      * destruct Hp as (? & ? & _). by split_and!.
      * destruct Hp as (E & _). by rewrite E in Hnone.
      * destruct Hp as (r1 & r2 & _ & E & _). congruence.
  - split; try done. unfold parent_inv. cbn. destruct Hp as [_ Hw]. by split_and!.
  - split; try done. unfold parent_inv. cbn. destruct Hp as [Hw _]. by split_and!.
  - destruct Hp as (Eu & Eab & _). split; cbn [pm_up pm_down pm_sent pm_parent]; try done.
    + destruct Hd as [(whole & Hpre & Eb & Hr) [_ Hsh]]. split; [|split; [done|]].
      * exists whole. split_and!; [done|done|]. cbn [abort_down w_task w_written w_taken]. destruct (w_task w) as [|d n| |d|]; try done.
        -- by destruct Hr as [_ ->].
        -- destruct Hr as (_ & -> & ->). apply prefix_app, prefix_take.
        -- by destruct Hr as [_ ->].
      * cbn. rewrite Hsh. unfold down_result in E. by destruct (w_task w).
    + intros Hin. destruct (Hc Hin) as [?|Hx]; [by left|]. unfold down_failed, down_result in *. by destruct (w_task w).
  - destruct Hp as (Ew & Eab & _). split; cbn [pm_up pm_down pm_sent pm_parent]; try done.
    + destruct Hu as (chunks & Es & Eb & Hr). exists chunks. cbn. rewrite Es. split_and!; [|done|].
      * by destruct (u_task u) as [| | |[]|].
      * destruct (u_task u) as [|d| |d|]; try done; [by rewrite Hr|by destruct Hr as [-> _]; eexists|by rewrite Hr].
    + intros Hin. destruct (Hc Hin) as [Hx|?]; [|by right]. unfold up_failed, up_result in *. by destruct (u_task u).
  - destruct Hp as (Eu & Eab & _). split; cbn [pm_up pm_down pm_sent pm_parent]; try done.
    unfold parent_inv. cbn. exists (Finished a), r. rewrite Eu. by split_and!.
  - destruct Hp as (Ew & Eab & _). split; cbn [pm_up pm_down pm_sent pm_parent]; try done.
    unfold parent_inv. cbn. exists r, (Finished b). rewrite Ew. by split_and!.
Qed.

Lemma pump_reachable_inv s : rtc (pump_step stream) pump_new s -> pump_inv s.
Proof.
  intros Hr. revert s Hr. apply (rtc_ind_r pump_inv); [apply pump_inv_new|]. intros s s' _ Hst IH. by eapply pump_step_inv.
Qed.
End Invariant.

(** ** What the invariant says *)

Lemma data_of_prefix a b : a `prefix_of` b -> data_of a `prefix_of` data_of b.
Proof. intros [c ->]. rewrite data_of_app. by eexists. Qed.

Lemma up_inv_data stream u sent : up_inv stream u sent ->
  data_of (events stream sent) `prefix_of` u_read u /\ u_bytes u = u64 (Z.of_nat (length (data_of (events stream sent)))) /\
  (u_task u = UEnded DEof -> data_of (events stream sent) = u_read u /\ last (events stream sent) = Some SEof).
Proof.
  intros (chunks & E & Eb & Hr).
  assert (data_of (events stream sent) = concat chunks) as Ed.
  { rewrite E, data_of_app, data_of_chunks. destruct (up_eof _); cbn; by rewrite app_nil_r. }
  rewrite Ed. split; [|split; [done|]].
  - destruct (u_task u) as [|d| |[]|]; try done; try by rewrite Hr. destruct Hr as [-> _]. by eexists.
  - intros Et. rewrite Et in *. split; [done|]. rewrite E. apply last_snoc.
Qed.

Lemma down_inv_data w : down_inv w -> w_written w `prefix_of` data_of (w_taken w).
Proof.
  intros [(whole & _ & _ & Hr) _]. destruct (w_task w) as [|d n| |[]|]; try done; try by destruct Hr as [_ ->].
  destruct Hr as (_ & -> & ->). apply prefix_app, prefix_take.
Qed.

Lemma stream_end_graceful a b : stream_end a b = Graceful -> a = DEof /\ b = DEof.
Proof. by destruct a, b. Qed.

Lemma up_result_eof t r : up_result t = Some r -> join_dir r = DEof -> t = UEnded DEof.
Proof. destruct t as [| | |d|]; try done; intros [= <-] E; cbn in E; by subst. Qed.

Lemma down_result_eof t r : down_result t = Some r -> join_dir r = DEof -> t = WEnded DEof.
Proof. destruct t as [| | |d|]; try done; intros [= <-] E; cbn in E; by subst. Qed.

(** An abort is over in two steps, whatever the other task waits for. *)
Lemma abort_ends stream s : pump_inv stream s ->
  (exists d, pm_parent s = PJoinDown d true \/ pm_parent s = PJoinUp d true) ->
  exists n s' o, (n ≤ 2)%nat /\ nsteps (pump_step stream) n s s' /\ pm_parent s' = PDone o.
Proof.
  intros Hi (d & Hp). destruct s as [u w sent p]. cbn in Hp. destruct Hp as [-> | ->].
  - destruct (down_result (w_task w)) as [r|] eqn:E.
    + eexists 1%nat, _, _. split; [lia|]. split; [by eapply nsteps_once, pump_joins_down|done].
    + eexists 2%nat, _, _. split; [lia|]. split; [eapply nsteps_l; [by apply pump_aborts_down|by apply nsteps_once, (pump_joins_down stream u (abort_down w) sent d true Cancelled)]|done].
  - destruct (up_result (u_task u)) as [r|] eqn:E.
    + eexists 1%nat, _, _. split; [lia|]. split; [by eapply nsteps_once, pump_joins_up|done].
    + eexists 2%nat, _, _. split; [lia|]. split; [eapply nsteps_l; [by apply pump_aborts_up|by apply nsteps_once, (pump_joins_up stream (abort_up u) w sent d true Cancelled)]|done].
Qed.

(** The receiver of an EOF has received everything. *)
Lemma eof_is_last chunks (t : list StreamEvent) (eof : bool) : t ++ [SEof] `prefix_of` map SData chunks ++ (if eof then [SEof] else []) ->
  eof = true /\ t = map SData chunks.
Proof.
  assert (SEof ∉ map SData chunks) as Hno by (intros (d & ? & _)%list_elem_of_fmap; done).
  intros [m E]. destruct eof.
  - split; [done|]. destruct m as [|x m _] using rev_ind; [rewrite app_nil_r in E; by apply app_inj_tail in E as [-> _]|].
    rewrite app_assoc in E. apply app_inj_tail in E as [E _]. destruct Hno. rewrite E, !elem_of_app. left. right. by left.
  - rewrite app_nil_r in E. destruct Hno. rewrite E, !elem_of_app. left. right. by left.
Qed.

(** A run: two bytes and an EOF each way, the write in two pieces. *)
Definition sample_pumps : Pumps :=
  Pmp (Up_ (UEnded DEof) [1; 2] 2) (Down_ (WEnded DEof) [SData [1; 2]; SEof] [1; 2] true 2)
    [OutFrame_new Data 7 [1; 2]; OutFrame_bare Eof 7] (PDone (POut 2 2 Graceful)).

Lemma sample_pumps_reached : rtc (pump_step 7) pump_new sample_pumps.
Proof.
  unfold pump_new. set (u0 := Up_ UReading [] 0). set (w0 := Down_ WWaiting [] [] false 0).
  set (w1 := Down_ (WWriting [1; 2] 0) [SData [1; 2]] [] false 0). set (w2 := Down_ (WWriting [1; 2] 1) [SData [1; 2]] [1] false 0).
  set (w3 := Down_ WWaiting [SData [1; 2]] [1; 2] false 2). set (w4 := Down_ WShutting [SData [1; 2]; SEof] [1; 2] false 2).
  set (u1 := Up_ (USending [1; 2]) [1; 2] 0). set (u2 := Up_ UReading [1; 2] 2). set (u3 := Up_ UFinishing [1; 2] 2).
  eapply rtc_l; [apply (pump_up_moves 7 u0 [] u1); apply (up_reads 7 [1; 2] [] 0); [done|unfold STREAM_CHUNK; cbn; lia|by apply wf_bytes_eval]|].
  eapply rtc_l; [apply (pump_down_moves 7 _ w0 [] w1); by apply (down_data 7 [1; 2])|].
  eapply rtc_l; [apply (pump_down_moves 7 _ w1 [] w2); apply (down_writes 7 [1; 2] 0 1); cbn; lia|].
  eapply rtc_l; [apply (pump_up_moves 7 u1 [OutFrame_new Data 7 [1; 2]] u2), (up_sends 7 [1; 2] [1; 2] 0)|].
  eapply rtc_l; [apply (pump_down_moves 7 _ w2 [] w3); apply (down_wrote 7 [1; 2] 1); cbn; lia|].
  eapply rtc_l; [apply (pump_up_moves 7 u2 [] u3), up_reads_eof|].
  eapply rtc_l; [apply (pump_up_moves 7 u3 [OutFrame_bare Eof 7] (Up_ (UEnded DEof) [1; 2] 2)), up_finishes|].
  eapply rtc_l; [by apply (pump_up_first 7 _ _ _ DEof)|].
  eapply rtc_l; [apply (pump_down_moves 7 _ w3 [] w4), (down_eof 7 [SData [1; 2]])|].
  eapply rtc_l; [apply (pump_down_moves 7 _ w4 [] (Down_ (WEnded DEof) [SData [1; 2]; SEof] [1; 2] true 2)), down_shuts|].
  eapply rtc_l; [by eapply (pump_joins_down 7 _ _ _ DEof false (Finished DEof))|]. apply rtc_refl.
Qed.

(** What one end's socket is given, the other end's socket gives: when one pump has
    taken, in order, events of the frames the other queued, its socket was written a
    prefix of what the other's was read; and it was shut down only after every byte
    up to the end of file. *)
Lemma sockets_agree stream a b : pump_inv stream a -> pump_inv stream b ->
  w_taken (pm_down b) `prefix_of` events stream (pm_sent a) ->
  w_written (pm_down b) `prefix_of` u_read (pm_up a) /\
  (w_shut (pm_down b) = true -> w_written (pm_down b) = u_read (pm_up a) /\ u_task (pm_up a) = UEnded DEof).
Proof.
  intros [Hup _ _ _ _] [_ Hdown _ _ _] Hpre. destruct (up_inv_data _ _ _ Hup) as (H1 & _ & H3). split.
  - etransitivity; [by apply down_inv_data|]. etransitivity; [by apply data_of_prefix|exact H1].
  - destruct Hdown as [(whole & _ & _ & Hw) [Hlast Hsh]]. rewrite Hsh. unfold down_shut.
    destruct (w_task (pm_down b)) as [| | |[]|] eqn:E; try done. intros _. destruct Hw as [_ ->]. destruct Hlast as [t Ht].
    destruct Hup as (chunks & Es & _ & Hr). rewrite Ht, Es in Hpre. destruct (eof_is_last _ _ _ Hpre) as [He ->].
    destruct (u_task (pm_up a)) as [| | |[]|] eqn:Eu; try done. split; [|done].
    rewrite Hr, Ht, data_of_app, data_of_chunks. apply app_nil_r.
Qed.

(** ** Properties *)

(** C15: [pump_stream] relays faithfully however its two tasks interleave with each
    other, with the sockets and with an abort.  Every frame it queues is DATA, EOF
    or CLOSE of its stream and fits; the DATA frames carry, in order, what was read
    from the local socket, and the local socket was written a prefix of what
    arrived.  When it returns, [up] counts exactly the bytes of the DATA frames, an
    aborted task's included, and [down] those of chunks written whole; a graceful
    end means that everything read was sent and followed by one EOF, that
    everything that arrived was written before the socket was shut down, and that
    no CLOSE was sent.  Once one direction ended otherwise, the other is aborted and
    the pump returns within two steps, whatever that other one was waiting for. *)
Theorem pump_stream_exact stream s : is_u32 stream -> rtc (pump_step stream) pump_new s ->
  let sent := pm_sent s in let taken := w_taken (pm_down s) in let written := w_written (pm_down s) in
  Forall (fun f => pump_frame stream f = true) sent /\
  data_of (events stream sent) `prefix_of` u_read (pm_up s) /\
  written `prefix_of` data_of taken /\
  (forall o, pm_parent s = PDone o ->
     po_up o = u64 (Z.of_nat (length (data_of (events stream sent)))) /\
     (exists whole, whole `prefix_of` written /\ po_down o = u64 (Z.of_nat (length whole))) /\
     (po_end o = Graceful ->
        data_of (events stream sent) = u_read (pm_up s) /\ last (events stream sent) = Some SEof /\
        written = data_of taken /\ last taken = Some SEof /\ w_shut (pm_down s) = true /\
        po_down o = u64 (Z.of_nat (length written)) /\ OutFrame_bare Close stream ∉ sent)) /\
  ((exists d, pm_parent s = PJoinDown d true \/ pm_parent s = PJoinUp d true) ->
     exists n s' o, (n ≤ 2)%nat /\ nsteps (pump_step stream) n s s' /\ pm_parent s' = PDone o).
Proof.
  intros Hu Hr. pose proof (pump_reachable_inv stream Hu s Hr) as Hi. pose proof Hi as [Hup Hdown Hf Hc Hp].
  destruct (up_inv_data _ _ _ Hup) as (H1 & H2 & H3). cbn zeta. split; [exact Hf|]. split; [exact H1|].
  split; [by apply down_inv_data|]. split; [|by apply abort_ends].
  intros o Ho. unfold parent_inv in Hp. rewrite Ho in Hp. destruct Hp as (r1 & r2 & E1 & E2 & ->). cbn [po_up po_down po_end].
  destruct Hdown as [(whole & Hpre & Eb & Hw) [Hlast Hsh]]. split; [exact H2|]. split; [by exists whole|].
  intros [Ea%(up_result_eof _ _ E1) Eb'%(down_result_eof _ _ E2)]%stream_end_graceful. destruct (H3 Ea) as [H4 H5].
  rewrite Eb' in *. destruct Hw as [-> Hw]. destruct Hlast as [t Ht]. split_and!; try done.
  - by rewrite Ht, last_snoc.
  - intros Hin. destruct (Hc Hin) as [Hx|Hx]; [|done]. unfold up_failed in Hx. by rewrite Ea in Hx.
Qed.

Lemma pump_stream_exact_witness : rtc (pump_step 7) pump_new sample_pumps /\
  data_of (events 7 (pm_sent sample_pumps)) = [1; 2] /\ w_written (pm_down sample_pumps) = data_of (w_taken (pm_down sample_pumps)).
Proof.
  pose proof (pump_stream_exact 7 sample_pumps ltac:(lia) sample_pumps_reached) as (_ & _ & _ & H & _).
  destruct (H _ eq_refl) as (_ & _ & Hg). destruct (Hg eq_refl) as (E & _ & Ew & _).
  split; [exact sample_pumps_reached|]. split; [exact E|exact Ew].
Defined.
