(* ===== verification/Relay.v ===== *)
(** * A whole relay: sockets, pumps and the tunnel between them

    The pair of tunnels of [TunnelPair] with a run of [pump_stream] ([PumpStream]) for
    every stream at both of its ends.  A pump queues its frames into its side's
    outbound channel and takes its events from the stream's channel; everything
    else the two sides do goes on meanwhile.  The theorem follows the bytes from
    the socket at one end to the socket at the other. *)
From S2P Require Import Prelude Errors Mux Addr Tunnel KeyConfig Config Server Pool TunnelPair PumpStream.

Record Relay := Rly {
  rl_pair : Pair;
  rl_client : nat -> Pumps;     (** by call *)
  rl_server : nat -> Pumps      (** by stream task *)
}.

Definition relay_new : Relay := Rly pair_new (fun _ => pump_new) (fun _ => pump_new).

Definition upd (f : nat -> Pumps) (i : nat) (x : Pumps) : nat -> Pumps := fun j => if decide (j = i) then x else f j.

Definition with_client (t : Pool.Tunnel) (p : Pair) : Pair := Pr t (pr_up p) (pr_up_read p) (pr_server p) (pr_down_read p).
Definition with_server (s : TunnelState) (p : Pair) : Pair := Pr (pr_client p) (pr_up p) (pr_up_read p) s (pr_down_read p).

(** The pump queued [fs] in a step that took no event, or took [ev] and queued nothing. *)
Definition emits (a a' : Pumps) (fs : list OutFrame) : Prop :=
  pm_sent a' = pm_sent a ++ fs /\ w_taken (pm_down a') = w_taken (pm_down a).
Definition takes (a a' : Pumps) (ev : StreamEvent) : Prop :=
  pm_sent a' = pm_sent a /\ w_taken (pm_down a') = w_taken (pm_down a) ++ [ev].

(** A task takes no event, and does not lose its receiver to the end of a [pump_down]. *)
Definition task_kept (u u' : Task) : Prop :=
  tk_stream u' = tk_stream u /\ tk_taken u' = tk_taken u /\ (tk_phase u' = TPumping false -> tk_phase u = TPumping false).

#[export] Instance task_kept_refl : Reflexive task_kept.
Proof. by intros u. Qed.

(** What is not a pump's: no DATA or EOF is queued, no task takes an event, no receiver
    of a running pump is dropped. *)
Record elsewhere (p p' : Pair) : Prop := {
  el_client : forall sid, events sid (client_log p') = events sid (client_log p);
  el_server : forall sid, events sid (out_log (pr_server p')) = events sid (out_log (pr_server p));
  el_tasks : forall i u, tn_tasks (pr_server p) !! i = Some u ->
    exists u', tn_tasks (pr_server p') !! i = Some u' /\ task_kept u u'
}.

(** What adds nothing to either log and leaves the tasks alone. *)
Lemma elsewhere_same p p' : client_log p' = client_log p -> out_log (pr_server p') = out_log (pr_server p) ->
  tn_tasks (pr_server p') = tn_tasks (pr_server p) -> elsewhere p p'.
Proof. intros Ec Es Et. split; [by rewrite Ec|by rewrite Es|]. intros i u Hu. exists u. by rewrite Et. Qed.

(** A step of a pump between its socket and its side of the tunnel: one of its own, a
    frame queued in the side's outbound channel, an event taken from the stream's
    channel, and at the server the receiver of that channel dropped once [pump_down]
    is over. *)
Inductive pumps_step (t : Pool.Tunnel) (s : TunnelState) (A B : nat -> Pumps) :
  Pool.Tunnel -> TunnelState -> (nat -> Pumps) -> (nat -> Pumps) -> Prop :=
| pumps_client_moves i c a :
    ct_calls t !! i = Some c -> op_phase c = OStreaming false -> pump_step (op_sid c) (A i) a -> emits (A i) a [] ->
    pumps_step t s A B t s (upd A i a) B
| pumps_client_sends i c a f t' :
    ct_calls t !! i = Some c -> pump_step (op_sid c) (A i) a -> emits (A i) a [f] -> open_step i c (OPump f) t = Some t' ->
    pumps_step t s A B t' s (upd A i a) B
| pumps_client_takes i c a ev :
    ct_calls t !! i = Some c -> op_phase c = OStreaming false -> pump_step (op_sid c) (A i) a -> takes (A i) a ev ->
    op_events c !! length (w_taken (pm_down (A i))) = Some ev ->
    pumps_step t s A B t s (upd A i a) B
| pumps_server_moves i u rx b :
    tn_tasks s !! i = Some u -> tk_phase u = TPumping rx -> pump_step (tk_stream u) (B i) b -> emits (B i) b [] ->
    pumps_step t s A B t s A (upd B i b)
| pumps_server_sends i u b f s' :
    tn_tasks s !! i = Some u -> pump_step (tk_stream u) (B i) b -> emits (B i) b [f] -> task_step i u (APump f) s = Some s' ->
    pumps_step t s A B t s' A (upd B i b)
| pumps_server_takes i u b ev q s' :
    tn_tasks s !! i = Some u -> tk_queue u = ev :: q -> pump_step (tk_stream u) (B i) b -> takes (B i) b ev ->
    task_step i u ATake s = Some s' ->
    pumps_step t s A B t s' A (upd B i b)
| pumps_server_drops i u s' :
    tn_tasks s !! i = Some u -> listening (w_task (pm_down (B i))) = false -> task_step i u ADownEnds s = Some s' ->
    pumps_step t s A B t s' A B.

Inductive relay_step (rt : ServerRuntime) : Relay -> Relay -> Prop :=
| relay_pair p p' A B : pair_step rt p p' -> elsewhere p p' -> relay_step rt (Rly p A B) (Rly p' A B)
| relay_pumps p t s A' B' A B : pumps_step (pr_client p) (pr_server p) A B t s A' B' ->
    relay_step rt (Rly p A B) (Rly (with_client t (with_server s p)) A' B').

(** ** What a step leaves to calls and tasks *)

Lemma pair_calls rt p p' i c' : pair_step rt p p' -> pair_inv rt p -> ct_calls (pr_client p') !! i = Some c' ->
  (exists c, ct_calls (pr_client p) !! i = Some c /\ op_sid c' = op_sid c /\ op_addr c' = op_addr c) \/
  (ct_calls (pr_client p) !! i = None /\ op_phase c' = OSending).
Proof.
  intros Hst Hinv Hc'. pose proof Hinv as [Hic His _ Hup _ _ _].
  assert (forall t t' who fs, client_effect t t' who fs -> ct_calls t' !! i = Some c' ->
    (exists c, ct_calls t !! i = Some c /\ op_sid c' = op_sid c /\ op_addr c' = op_addr c) \/ (ct_calls t !! i = None /\ op_phase c' = OSending)) as Heff.
  { intros t t' who fs He Hl. destruct (ce_calls _ _ _ _ He i c' Hl) as [(c & ? & ? & ? & _)|?]; [left; by exists c|by right]. }
  destruct Hst as [t t' up n s m Hloc|t f q up n s m Ho Hq|t f d up n s m Hrd Hf|t up n s s' m Hloc|t up n f s m Hd Hf Hw];
    cbn [pr_client pr_server] in *; try (left; by exists c').
  - destruct (client_local_effect t t' Hic Hloc) as [(who & fs & He) _]. by eapply Heff.
  - assert (f ∈ out_log s) as Hfl by (unfold out_log; apply elem_of_app; left; by eapply list_elem_of_lookup_2).
    destruct (sv_frames _ _ Hup f Hfl) as (k & sid & x & Ef & Hu & Hk & _).
    assert (parse_frame (message f) = Ok (k, sid, x)) as Ep by (rewrite Ef; by apply parse_frame_header).
    destruct (reader_frame_effect (message f) d t k sid x Hic Ep Hu Hk) as [fs He]. by eapply Heff.
Qed.

(** A frame read by the server adds a task at most, and one that is only connecting. *)
Lemma demux_tasks rt msg s i t' : tn_tasks (demux_frame rt msg s) !! i = Some t' ->
  (exists t, tn_tasks s !! i = Some t /\ tk_stream t' = tk_stream t) \/ (tn_tasks s !! i = None /\ tk_taken t' = [] /\ tk_phase t' = TConnecting).
Proof.
  assert (forall f s, tn_tasks (out_try_send f s) = tn_tasks s) as Hsend by (intros; unfold out_try_send; by destruct (_ && _)).
  assert (tn_tasks s !! i = Some t' -> (exists t, tn_tasks s !! i = Some t /\ tk_stream t' = tk_stream t) \/
    (tn_tasks s !! i = None /\ tk_taken t' = [] /\ tk_phase t' = TConnecting)) as Hsame by (intros; left; by exists t').
  unfold demux_frame. destruct (parse_frame msg) as [[[k sid] x]|e]; [|exact Hsame].
  assert (forall ev, tn_tasks (route sid ev s) !! i = Some t' -> (exists t, tn_tasks s !! i = Some t /\ tk_stream t' = tk_stream t) \/
    (tn_tasks s !! i = None /\ tk_taken t' = [] /\ tk_phase t' = TConnecting)) as Hroute.
  { intros ev. unfold route. destruct (tn_registry s !! sid) as [j|]; [|by rewrite Hsend].
    destruct (tn_tasks s !! j) as [u|] eqn:Hj; [|by rewrite ?Hsend]. cbn [with_demux with_task tn_tasks].
    intros [(-> & <- & _)|[_ ?]]%list_lookup_insert_Some; [left; by exists u|auto]. }
  destruct k; [|exact Hsame|by apply Hroute|by apply Hroute|exact Hsame].
  unfold handle_open. cbv zeta. destruct (bool_decide _); [by rewrite Hsend|].
  destruct (match rt_max_streams_per_conn rt with Some _ => _ | None => _ end); [by rewrite Hsend|].
  destruct (addr_decode x); [|by rewrite Hsend]. cbn [tn_tasks].
  intros [?|[Hge Hl]]%lookup_app_Some; [auto|right]. apply list_lookup_singleton_Some in Hl as [_ <-].
  split; [by apply lookup_ge_None|done].
Qed.

Lemma pair_tasks rt p p' i t' : pair_step rt p p' -> pair_inv rt p -> tn_tasks (pr_server p') !! i = Some t' ->
  (exists t, tn_tasks (pr_server p) !! i = Some t /\ tk_stream t' = tk_stream t) \/
  (tn_tasks (pr_server p) !! i = None /\ tk_taken t' = [] /\ tk_phase t' = TConnecting).
Proof.
  intros Hst Hinv Ht'. destruct Hinv as [_ His _ _ _ _ _].
  destruct Hst as [| | |t up n s s' m Hloc|t up n f s m Hd Hf Hw]; cbn [pr_server] in *; try (left; by exists t').
  - destruct (tunnel_local_effect rt s s' His Hloc) as (who & fs & He).
    destruct (se_tasks _ _ _ _ He i t' Ht') as (t0 & ? & ? & _). left. by exists t0.
  - by eapply demux_tasks.
Qed.

(** ** Beginnings: a call that has not opened its stream, a task of a new one *)

Lemma sending_no_events rt p i c : pair_inv rt p -> small (pr_client p) -> ct_calls (pr_client p) !! i = Some c ->
  op_phase c = OSending -> events (op_sid c) (client_log p) = [].
Proof.
  intros [Hic _ Hlog _ _ _ _] Hsm Hc Hp. destruct (events (op_sid c) (client_log p)) as [|ev evs] eqn:E; [done|].
  assert (0 < kinds Open (op_sid c) (client_log p))%nat as Hk by (eapply lo_first; [exact Hlog|done|by rewrite E]).
  destruct (log_open_call _ _ _ Hlog Hic Hk) as (j & d & Hd & Es & Hpd).
  assert (j = i) as -> by (by eapply sid_inj). congruence.
Qed.

Lemma no_task_no_events s seen sid : server_view s seen -> (forall i u, tn_tasks s !! i = Some u -> tk_stream u <> sid) ->
  events sid (out_log s) = [].
Proof.
  intros Hv Hno. destruct (events sid (out_log s)) as [|ev evs] eqn:E; [done|].
  assert (exists f, f ∈ out_log s /\ frame_event sid f <> []) as (f & Hf & Hev).
  { revert E. generalize (out_log s) as l. induction l as [|f l IH]; intros E; [done|].
    destruct (frame_event sid f) as [|x xs] eqn:Ef.
    - unfold events in *. cbn in E. rewrite Ef in E. destruct (IH E) as (g & Hg & ?). exists g. split; [by right|done].
    - exists f. split; [by left|by rewrite Ef]. }
  destruct (sv_frames _ _ Hv f Hf) as (k & sid' & x & Ef & Hu & _ & Hc). rewrite Ef, frame_event_new in Hev by done.
  destruct (Z.eqb_spec sid' sid) as [->|]; [|done]. destruct Hc as (i & u & Hu' & Es & _); [by intros ->|]. by destruct (Hno i u Hu').
Qed.

(** A frame of one stream's pump says nothing of another. *)
Lemma pump_frame_other sid sid' f : is_u32 sid -> pump_frame sid f = true -> sid' <> sid -> events sid' [f] = [].
Proof.
  intros Hu (k & _ & ->)%pump_frame_new Hne. unfold events. cbn. rewrite frame_event_new by done.
  by destruct (Z.eqb_spec sid sid') as [->|].
Qed.

(** ** The invariant *)

Record relay_inv (rt : ServerRuntime) (r : Relay) : Prop := {
  ri_pair : pair_inv rt (rl_pair r);
  ri_client : forall i c, ct_calls (pr_client (rl_pair r)) !! i = Some c ->
    pump_inv (op_sid c) (rl_client r i) /\ events (op_sid c) (client_log (rl_pair r)) = events (op_sid c) (pm_sent (rl_client r i)) /\
    w_taken (pm_down (rl_client r i)) `prefix_of` events (op_sid c) (out_log (pr_server (rl_pair r)));
  ri_fresh : forall i, ct_calls (pr_client (rl_pair r)) !! i = None -> rl_client r i = pump_new;
  ri_server : forall i u, tn_tasks (pr_server (rl_pair r)) !! i = Some u ->
    pump_inv (tk_stream u) (rl_server r i) /\
    events (tk_stream u) (out_log (pr_server (rl_pair r))) = events (tk_stream u) (pm_sent (rl_server r i)) /\
    w_taken (pm_down (rl_server r i)) = tk_taken u /\
    (tk_phase u = TPumping false -> listening (w_task (pm_down (rl_server r i))) = false);
  ri_fresh_task : forall i, tn_tasks (pr_server (rl_pair r)) !! i = None -> rl_server r i = pump_new
}.

Lemma relay_inv_new rt : relay_inv rt relay_new.
Proof. split; cbn; try done. apply pair_inv_new. Qed.

Lemma upd_same f i x : upd f i x i = x.
Proof. unfold upd. by rewrite decide_True. Qed.
Lemma upd_other f i x j : j <> i -> upd f i x j = f j.
Proof. intros. unfold upd. by rewrite decide_False. Qed.

(** What the two sides do apart from the pumps. *)
Lemma elsewhere_inv rt p p' A B : pair_step rt p p' -> elsewhere p p' -> small (pr_client p') -> relay_inv rt (Rly p A B) ->
  relay_inv rt (Rly p' A B).
Proof.
  intros Hst [Hec Hes Het] Hsm [Hp Hc Hf Hs Hft]. cbn [rl_pair rl_client rl_server] in *.
  pose proof (pair_step_inv rt p p' Hst Hsm Hp) as Hp'. pose proof Hp' as [Hic' His' Hlog' Hup' _ _ _].
  split; cbn [rl_pair rl_client rl_server]; [done| | | |].
  - intros i c' Hc'. rewrite Hec, Hes. destruct (pair_calls rt p p' i c' Hst Hp Hc') as [(c & Hl & -> & _)|[Hn Hph]]; [by apply Hc|].
    rewrite (Hf i Hn), <- Hec, (sending_no_events rt p' i c') by done.
    split; [apply pump_inv_new|]. split; [done|apply prefix_nil].
  - intros i Hn. apply Hf. destruct (ct_calls (pr_client p) !! i) eqn:E; [|done]. apply lookup_ge_None in Hn.
    apply lookup_lt_Some in E. pose proof (pair_step_length rt p p' Hst). lia.
  - intros i u' Hu'. destruct (pair_tasks rt p p' i u' Hst Hp Hu') as [(u & Hu & _)|(Hn & Ht & Hph)].
    + destruct (Het i u Hu) as (u1 & Hu1 & Es & Et & Eph). rewrite Hu' in Hu1. injection Hu1 as <-. rewrite Hes, Es, Et.
      destruct (Hs i u Hu) as (? & ? & ? & Hdeaf). by split_and!; auto.
    + rewrite (Hft i Hn), Ht, Hes, Hph. split; [apply pump_inv_new|]. split; [|done].
      apply (no_task_no_events _ _ _ (pi_up _ _ Hp)). intros k u Hu Ek. destruct (Het k u Hu) as (u1 & Hu1 & Es1 & _).
      assert (k = i) as ->; [|congruence].
      eapply (task_unique _ _ _ _ k i u1 u' Hup' Hlog'); [apply up_seen_prefix|done|done|congruence].
  - intros i Hn. apply Hft. destruct (tn_tasks (pr_server p) !! i) eqn:E; [|done]. destruct (Het i _ E) as (u & Hu & _). congruence.
Qed.

(** A step of a client's pump, after which the pair is [p'] with the same calls. *)
Lemma client_pump_inv rt p p' A B i c a fs : small (pr_client p') -> pair_inv rt p' -> relay_inv rt (Rly p A B) ->
  ct_calls (pr_client p) !! i = Some c -> pump_step (op_sid c) (A i) a -> pm_sent a = pm_sent (A i) ++ fs ->
  ct_calls (pr_client p') = ct_calls (pr_client p) -> pr_server p' = pr_server p -> client_log p' = client_log p ++ fs ->
  (fs = [] \/ exists f, fs = [f] /\ pump_frame (op_sid c) f = true) ->
  w_taken (pm_down a) `prefix_of` events (op_sid c) (out_log (pr_server p)) ->
  relay_inv rt (Rly p' (upd A i a) B).
Proof.
  intros Hsm Hp' [Hp Hc Hf Hs Hft] Hl Hst Hsent Ecalls Esrv Elog Hfs Htk. cbn [rl_pair rl_client rl_server] in *.
  assert (is_u32 (op_sid c)) as Hu by (by eapply sid_u32, Hl; apply Hp).
  split; cbn [rl_pair rl_client rl_server]; rewrite ?Ecalls, ?Esrv; [done| | |done|done].
  - intros j d Hd. destruct (Hc j d Hd) as (Hi & Hev & Hpre). rewrite Elog, events_app. destruct (decide (j = i)) as [->|Hne].
    + rewrite Hl in Hd. injection Hd as <-. rewrite upd_same. split; [by eapply pump_step_inv|]. split; [|done].
      by rewrite Hsent, events_app, Hev.
    + rewrite upd_other by done. split; [done|]. split; [|done]. rewrite <- Hev.
      destruct Hfs as [->|(f & -> & Hpf)]; [by rewrite app_nil_r|]. rewrite (pump_frame_other (op_sid c)); [by rewrite app_nil_r|done|done|].
      intros E. apply Hne. eapply (sid_inj (pr_client p') j i d c); [by apply Hp'|done|by rewrite Ecalls..|done].
  - intros j Hn. destruct (decide (j = i)) as [->|Hne]; [congruence|]. rewrite upd_other by done. by apply Hf.
Qed.

(** A step of a task's pump; the task is [u'] after it. *)
Lemma server_pump_inv rt p s' A B i u u' b fs : pair_inv rt (with_server s' p) -> relay_inv rt (Rly p A B) ->
  tn_tasks (pr_server p) !! i = Some u -> pump_step (tk_stream u) (B i) b -> pm_sent b = pm_sent (B i) ++ fs ->
  tn_tasks s' = <[i := u']> (tn_tasks (pr_server p)) -> tk_stream u' = tk_stream u -> out_log s' = out_log (pr_server p) ++ fs ->
  (fs = [] \/ exists f, fs = [f] /\ pump_frame (tk_stream u) f = true) -> w_taken (pm_down b) = tk_taken u' ->
  (tk_phase u' = TPumping false -> tk_phase u = TPumping false) ->
  relay_inv rt (Rly (with_server s' p) A (upd B i b)).
Proof.
  intros Hp' [Hp Hc Hf Hs Hft] Hl Hst Hsent Etasks Estr Elog Hfs Htk Hrx. cbn [rl_pair rl_client rl_server] in *.
  assert (is_u32 (tk_stream u)) as Hu by (by eapply task_u32, inv_tasks, Hl; apply Hp).
  split; cbn [rl_pair rl_client rl_server with_server pr_client pr_server]; [done| |done| |].
  - intros j d Hd. destruct (Hc j d Hd) as (Hi & Hev & Hpre). split; [done|]. split; [exact Hev|]. rewrite Elog, events_app. by apply prefix_app_r.
  - rewrite Etasks. intros j v Hv. rewrite Elog, events_app.
    apply list_lookup_insert_Some in Hv as [(-> & <- & _)|[Hne Hv]].
    + destruct (Hs j u Hl) as (Hi & Hev & _ & Hdeaf). rewrite upd_same, Estr. split; [by eapply pump_step_inv|].
      split; [by rewrite Hsent, events_app, Hev|]. split; [done|]. intros Hph. by eapply deaf_stays, Hdeaf, Hrx.
    + destruct (Hs j v Hv) as (Hi & Hev & Ht). rewrite upd_other by done. split; [done|]. split; [|done]. rewrite <- Hev.
      destruct Hfs as [->|(f & -> & Hpf)]; [by rewrite app_nil_r|]. rewrite (pump_frame_other (tk_stream u)); [by rewrite app_nil_r|done|done|].
      intros E. apply Hne. symmetry. eapply (task_unique _ _ _ _ j i v u (pi_up _ _ Hp) (pi_log _ _ Hp)); [apply up_seen_prefix|done|done|done].
  - rewrite Etasks. intros j Hn. destruct (decide (j = i)) as [->|Hne].
    + apply lookup_ge_None in Hn. rewrite length_insert in Hn. apply lookup_lt_Some in Hl. lia.
    + rewrite upd_other by done. apply Hft. by rewrite list_lookup_insert_ne in Hn.
Qed.

(** A task whose [pump_down] is over drops its receiver. *)
Lemma server_drop_inv rt p s' A B i u : pair_inv rt (with_server s' p) -> relay_inv rt (Rly p A B) ->
  tn_tasks (pr_server p) !! i = Some u -> listening (w_task (pm_down (B i))) = false -> task_step i u ADownEnds (pr_server p) = Some s' ->
  relay_inv rt (Rly (with_server s' p) A B).
Proof.
  intros Hp' [Hp Hc Hf Hs Hft] Hl Hdeaf Ho. cbn [rl_pair rl_client rl_server] in *.
  unfold task_step in Ho. destruct (tk_phase u) as [| |[]| |]; try done. injection Ho as <-.
  split; cbn [rl_pair rl_client rl_server with_server pr_client pr_server with_task tn_tasks]; [done|exact Hc|done| |].
  - intros j v [(-> & <- & _)|[Hne Hv]]%list_lookup_insert_Some; [|by apply Hs].
    destruct (Hs j u Hl) as (H1 & H2 & H3 & _). by split_and!.
  - intros j Hn. apply Hft. apply lookup_ge_None in Hn. rewrite length_insert in Hn. by apply lookup_ge_None.
Qed.

(** A lookup past a prefix extends it. *)
Lemma prefix_snoc_lookup {A} (l k m : list A) x : l `prefix_of` m -> k `prefix_of` m -> k !! length l = Some x -> l ++ [x] `prefix_of` m.
Proof.
  intros [r ->] Hk Hx. pose proof (prefix_lookup_Some _ _ _ _ Hx Hk) as H. rewrite lookup_app_r, Nat.sub_diag in H by done.
  destruct r as [|y r]; [done|]. injection H as ->. apply prefix_app, prefix_cons, prefix_nil.
Qed.

(** A pump queues at most a frame of its own stream. *)
Lemma client_queues i c f t t' : open_step i c (OPump f) t = Some t' ->
  t' = with_out (ct_queue t ++ [f]) t /\ pump_frame (op_sid c) f = true.
Proof.
  intros E. unfold open_step in E. destruct (op_phase c) as [| |g|]; try done.
  destruct (_ && _) eqn:Eb; [|done]. injection E as <-. apply andb_prop in Eb as [[_ Hf]%andb_prop _]. done.
Qed.

Lemma server_queues i u f s s' : tn_tasks s !! i = Some u -> task_step i u (APump f) s = Some s' ->
  tn_tasks s' = <[i := u]> (tn_tasks s) /\ out_log s' = out_log s ++ [f] /\ pump_frame (tk_stream u) f = true.
Proof.
  intros Hl E. unfold task_step in E. destruct (tk_phase u) as [| |[]| |]; try done;
    (destruct (_ && _) eqn:Eb; [|done]); injection E as <-; apply andb_prop in Eb as [[Hf _]%andb_prop _];
    unfold out_log; cbn; by rewrite app_assoc, list_insert_id.
Qed.

(** A step of a pump is one of the pair, or none. *)
Lemma pumps_pair rt p A B t s A' B' : pumps_step (pr_client p) (pr_server p) A B t s A' B' ->
  with_client t (with_server s p) = p \/ pair_step rt p (with_client t (with_server s p)).
Proof.
  destruct p as [t0 up n s0 m]. cbn. intros Hst. inversion Hst; subst; try by left.
  - right. apply pair_client. by eapply client_call.
  - right. apply pair_server. by eapply tunnel_task.
  - right. apply pair_server. by eapply tunnel_task.
  - right. apply pair_server. by eapply tunnel_task.
Qed.

Lemma pumps_step_inv rt p A B t s A' B' : pumps_step (pr_client p) (pr_server p) A B t s A' B' ->
  let p' := with_client t (with_server s p) in small (pr_client p') -> relay_inv rt (Rly p A B) -> relay_inv rt (Rly p' A' B').
Proof.
  intros Hst p' Hsm Hr. pose proof Hr as [Hp Hc _ Hs _]. cbn [rl_pair rl_client rl_server] in *. pose proof (pi_down _ _ Hp) as Hdown.
  assert (pair_inv rt p') as Hp'.
  { destruct (pumps_pair rt p A B t s A' B' Hst) as [E|Hps]; [unfold p'; by rewrite E|by eapply pair_step_inv]. }
  destruct p as [t0 up n s0 m]. unfold p' in *. clear p'. cbn [with_client with_server pr_client pr_server pr_up pr_up_read pr_down_read] in *.
  destruct Hst as [i c a Hl Ho Hst [Es Et]|i c a f t' Hl Hst [Es Et] Ho|i c a ev Hl Ho Hst [Es Et] Hev
    |i u rx b Hl Ho Hst [Es Et]|i u b f s' Hl Hst [Es Et] Ho|i u b ev q s' Hl Hq Hst [Es Et] Ho|i u s' Hl Hd Ho].
  - eapply (client_pump_inv rt _ _ A B i c a []); rewrite ?app_nil_r in *; try done; [by left|]. rewrite Et. by apply (Hc i c).
  - destruct (client_queues _ _ _ _ _ Ho) as [-> Hf].
    eapply (client_pump_inv rt _ _ A B i c a [f]); try done; [by unfold client_log; cbn; rewrite app_assoc|by eauto|].
    rewrite Et. by apply (Hc i c).
  - eapply (client_pump_inv rt _ _ A B i c a []); rewrite ?app_nil_r in *; try done; [by left|]. rewrite Et.
    eapply prefix_snoc_lookup, Hev; [by apply (Hc i c)|].
    etransitivity; [by eapply cv_prefix|]. apply (events_prefix _ (down_seen _)), down_seen_prefix.
  - eapply (server_pump_inv rt (Pr t0 up n s0 m) s0 A B i u u b []); rewrite ?app_nil_r in *; try done;
      [by rewrite list_insert_id|by left|]. rewrite Et. by apply (Hs i u).
  - destruct (server_queues _ _ _ _ _ Hl Ho) as (Ets & El & Hf).
    eapply (server_pump_inv rt (Pr t0 up n s0 m) s' A B i u u b [f]); try done; [by eauto|]. rewrite Et. by apply (Hs i u).
  - unfold task_step in Ho. rewrite Hq in Ho. destruct (tk_phase u) as [| |[]| |] eqn:Eph; try done.
    destruct (pump_over u); [done|]. injection Ho as <-.
    eapply (server_pump_inv rt (Pr t0 up n s0 m) _ A B i u _ b []); rewrite ?app_nil_r in *; try done; [by left|]. rewrite Et. cbn. f_equal. by apply (Hs i u).
  - by apply (server_drop_inv rt (Pr t0 up n s0 m) s' A B i u).
Qed.

Lemma relay_step_inv rt r r' : relay_step rt r r' -> small (pr_client (rl_pair r')) -> relay_inv rt r -> relay_inv rt r'.
Proof. intros [p p' A B Hst He|p t s A' B' A B Hst]; [by apply elsewhere_inv|by apply pumps_step_inv]. Qed.

(** The pair inside takes the step, or none. *)
Lemma relay_step_pair rt r r' : relay_step rt r r' -> rl_pair r' = rl_pair r \/ pair_step rt (rl_pair r) (rl_pair r').
Proof. intros [p p' A B Hst He|p t s A' B' A B Hst]; [by right|by eapply pumps_pair]. Qed.

(** Calls are only added. *)
Lemma relay_step_length rt r r' : relay_step rt r r' ->
  (length (ct_calls (pr_client (rl_pair r))) ≤ length (ct_calls (pr_client (rl_pair r'))))%nat.
Proof. intros [->|Hst]%relay_step_pair; [done|by eapply pair_step_length]. Qed.

Lemma relay_reachable_inv rt r : rtc (relay_step rt) relay_new r -> small (pr_client (rl_pair r)) -> relay_inv rt r.
Proof.
  intros Hr. revert r Hr. apply (rtc_ind_r (fun r => small (pr_client (rl_pair r)) -> relay_inv rt r)); [intros _; apply relay_inv_new|].
  intros r r' _ Hst IH Hsm. eapply relay_step_inv; [done|done|]. apply IH.
  pose proof (relay_step_length rt r r' Hst). unfold small in *. lia.
Qed.

Lemma relay_pair_reached rt r : rtc (relay_step rt) relay_new r -> rtc (pair_step rt) pair_new (rl_pair r).
Proof.
  intros Hr. revert r Hr. apply (rtc_ind_r (fun r => rtc (pair_step rt) pair_new (rl_pair r))); [apply rtc_refl|].
  intros r r' _ [->|Hst]%relay_step_pair IH; [done|]. by eapply rtc_r.
Qed.

(** ** Runs

    Moves of the pair that are not a pump's, checked one by one. *)

#[export] Instance StreamEvent_eq_dec : EqDecision StreamEvent.
Proof. solve_decision. Defined.

Definition tagged (l : list OutFrame) : list (Z * StreamEvent) :=
  l ≫= (fun f => match parse_frame (message f) with
                 | Ok (Data, s, p) => [(s, SData p)]
                 | Ok (Eof, s, _) => [(s, SEof)]
                 | _ => []
                 end).

Lemma events_tagged sid l : events sid l = (filter (fun x => x.1 = sid) (tagged l)).*2.
Proof.
  induction l as [|f l IH]; [done|]. unfold events, tagged in *. cbn [mbind list_bind]. rewrite IH, filter_app, fmap_app. f_equal.
  unfold frame_event. destruct (parse_frame _) as [[[[] s] p]|]; try done; rewrite filter_cons; cbn [fst];
    destruct (decide (s = sid)) as [->|]; rewrite ?Z.eqb_refl; try done; by destruct (Z.eqb_spec s sid).
Qed.

#[export] Instance task_kept_dec : RelDecision task_kept.
Proof. unfold task_kept. intros u u'. apply _. Defined.

(** Tasks are only added, take nothing and keep their receivers. *)
Definition tasks_keptb (s s' : TunnelState) : bool :=
  bool_decide (Forall2 task_kept (tn_tasks s) (take (length (tn_tasks s)) (tn_tasks s'))).

Lemma tasks_keptb_sound s s' i u : tasks_keptb s s' = true -> tn_tasks s !! i = Some u ->
  exists u', tn_tasks s' !! i = Some u' /\ task_kept u u'.
Proof.
  intros H%bool_decide_eq_true Hu. destruct (Forall2_lookup_l _ _ _ _ _ H Hu) as (u' & Hu' & Hk).
  rewrite lookup_take in Hu'. case_decide; [|done]. by exists u'.
Qed.

Definition elsewhereb (p p' : Pair) : bool :=
  bool_decide (tagged (client_log p') = tagged (client_log p)) &&
  bool_decide (tagged (out_log (pr_server p')) = tagged (out_log (pr_server p))) && tasks_keptb (pr_server p) (pr_server p').

Lemma elsewhereb_sound p p' : elsewhereb p p' = true -> elsewhere p p'.
Proof.
  intros [[H1%bool_decide_eq_true H2%bool_decide_eq_true]%andb_prop H3]%andb_prop.
  split; [intros sid; by rewrite !events_tagged, ?H1, ?H2..|]. intros i u. by apply tasks_keptb_sound.
Qed.

Fixpoint run_elsewhere (rt : ServerRuntime) (ms : list Move) (p : Pair) : option Pair :=
  match ms with
  | [] => Some p
  | m :: ms => p' ← move rt m p; if elsewhereb p p' then run_elsewhere rt ms p' else None
  end.

Lemma run_elsewhere_cons rt m ms p q : run_elsewhere rt (m :: ms) p = Some q ->
  exists p', move rt m p = Some p' /\ elsewhereb p p' = true /\ run_elsewhere rt ms p' = Some q.
Proof.
  cbn [run_elsewhere]. destruct (move rt m p) as [p'|]; [|done]. cbn. destruct (elsewhereb p p') eqn:E; [|done]. intros H. by exists p'.
Qed.

Lemma move_elsewhere rt m p p' A B : move rt m p = Some p' -> elsewhereb p p' = true -> relay_step rt (Rly p A B) (Rly p' A B).
Proof. intros Em Ee. apply relay_pair; [by eapply move_sound|by apply elsewhereb_sound]. Qed.

Lemma run_elsewhere_sound rt ms p q A B : run_elsewhere rt ms p = Some q -> rtc (relay_step rt) (Rly p A B) (Rly q A B).
Proof.
  revert p. induction ms as [|m ms IH]; intros p E; [injection E as <-; apply rtc_refl|].
  apply run_elsewhere_cons in E as (p' & Em & Ee & Er). eapply rtc_l; [by eapply move_elsewhere|by apply IH].
Qed.

(** A pump of each side and its stream, of the run below. *)
Lemma default_some {A} (d : A) (o : option A) : (match o with Some _ => true | None => false end) = true -> o = Some (default d o).
Proof. by destruct o. Qed.

Definition sample_open : Pair := default pair_new (run_elsewhere (small_runtime 1) (take 9 sample_run) pair_new).
Definition sample_call : OpenCall := default (Call 0 (PAddr (Ip (V4 [])) 0) OSending None []) (ct_calls (pr_client sample_open) !! 0%nat).
Definition sample_data : OutFrame := OutFrame_new Data 1 [1; 2; 3].
Definition sample_sent : Pair :=
  with_client (default spawn_tunnel (open_step 0 sample_call (OPump sample_data) (pr_client sample_open))) sample_open.
Definition sample_arrived : Pair := default pair_new (run_elsewhere (small_runtime 1) [MClientWrites; MServerReads; MRouted] sample_sent).
Definition sample_task : Task := default (Tk 0 (PAddr (Ip (V4 [])) 0) TGone [] [] []) (tn_tasks (pr_server sample_arrived) !! 0%nat).
Definition sample_taken : Pair := with_server (default tunnel_new (task_step 0 sample_task ATake (pr_server sample_arrived))) sample_arrived.

Definition sample_up : Pumps := Pmp (Up_ UReading [1; 2; 3] 3) (Down_ WWaiting [] [] false 0) [sample_data] PSelecting.
Definition sample_down : Pumps := Pmp (Up_ UReading [] 0) (Down_ WWaiting [SData [1; 2; 3]] [1; 2; 3] false 3) [] PSelecting.

Definition sample_u1 : Up := Up_ (USending [1; 2; 3]) [1; 2; 3] 0.
Definition sample_w0 : Down := Down_ WWaiting [] [] false 0.
Definition sample_w1 : Down := Down_ (WWriting [1; 2; 3] 0) [SData [1; 2; 3]] [] false 0.
Definition sample_A1 : nat -> Pumps := upd (fun _ => pump_new) 0 (Pmp sample_u1 sample_w0 [] PSelecting).
Definition sample_A2 : nat -> Pumps := upd sample_A1 0 sample_up.
Definition sample_B1 : nat -> Pumps := upd (fun _ => pump_new) 0 (Pmp (Up_ UReading [] 0) sample_w1 [] PSelecting).
Definition sample_B2 : nat -> Pumps := upd sample_B1 0 sample_down.
Definition sample_relay : Relay := Rly sample_taken sample_A2 sample_B2.

Lemma sample_run_open : run_elsewhere (small_runtime 1) (take 9 sample_run) pair_new = Some sample_open.
Proof. apply default_some. vm_compute. reflexivity. Qed.

Lemma sample_run_sent : run_elsewhere (small_runtime 1) [MClientWrites; MServerReads; MRouted] sample_sent = Some sample_arrived.
Proof. apply default_some. vm_compute. reflexivity. Qed.

Lemma sample_call_at : ct_calls (pr_client sample_open) !! 0%nat = Some sample_call.
Proof. apply default_some. vm_compute. reflexivity. Qed.

Lemma sample_task_at : tn_tasks (pr_server sample_arrived) !! 0%nat = Some sample_task.
Proof. apply default_some. vm_compute. reflexivity. Qed.

Lemma sample_sends : exists t', open_step 0 sample_call (OPump sample_data) (pr_client sample_open) = Some t' /\ sample_sent = with_client t' sample_open.
Proof. eexists. split; [|reflexivity]. apply default_some. vm_compute. reflexivity. Qed.

Lemma sample_takes : exists s', task_step 0 sample_task ATake (pr_server sample_arrived) = Some s' /\ sample_taken = with_server s' sample_arrived.
Proof. eexists. split; [|reflexivity]. apply default_some. vm_compute. reflexivity. Qed.

Lemma sample_pumping : exists u, tn_tasks (pr_server sample_taken) !! 0%nat = Some u /\ tk_phase u = TPumping true /\ tk_stream u = 1.
Proof.
  exists (default sample_task (tn_tasks (pr_server sample_taken) !! 0%nat)).
  split; [apply default_some; vm_compute; reflexivity|]. split; vm_compute; reflexivity.
Qed.

Lemma sample_facts : op_phase sample_call = OStreaming false /\ op_sid sample_call = 1 /\ tk_stream sample_task = 1 /\
  tk_queue sample_task = [SData [1; 2; 3]].
Proof. split_and!; vm_compute; reflexivity. Qed.
#[local] Opaque sample_open sample_call sample_sent sample_arrived sample_task sample_taken.

(** A pump that leaves the other end of the tunnel as it is, or both. *)
Lemma relay_pumps_client rt p t A B A' B' : pumps_step (pr_client p) (pr_server p) A B t (pr_server p) A' B' ->
  relay_step rt (Rly p A B) (Rly (with_client t p) A' B').
Proof. destruct p. apply relay_pumps. Qed.

Lemma relay_pumps_server rt p s A B A' B' : pumps_step (pr_client p) (pr_server p) A B (pr_client p) s A' B' ->
  relay_step rt (Rly p A B) (Rly (with_server s p) A' B').
Proof. destruct p. apply relay_pumps. Qed.

Lemma relay_pumps_own rt p A B A' B' : pumps_step (pr_client p) (pr_server p) A B (pr_client p) (pr_server p) A' B' ->
  relay_step rt (Rly p A B) (Rly p A' B').
Proof. destruct p. apply relay_pumps. Qed.

(** The steps of the two pumps in this run. *)
Definition sample_A0 : nat -> Pumps := fun _ => pump_new.

Lemma sample_step_reads : relay_step (small_runtime 1) (Rly sample_open sample_A0 sample_A0) (Rly sample_open sample_A1 sample_A0).
Proof.
  destruct sample_facts as (Hph & _).
  apply relay_pumps_own, (pumps_client_moves _ _ _ _ 0 sample_call (Pmp sample_u1 sample_w0 [] PSelecting)); [exact sample_call_at|exact Hph| |by split].
  apply (pump_up_moves _ (Up_ UReading [] 0) [] sample_u1), (up_reads _ [1; 2; 3] [] 0); [done|unfold STREAM_CHUNK; cbn; lia|by apply wf_bytes_eval].
Qed.

Lemma sample_step_sends : relay_step (small_runtime 1) (Rly sample_open sample_A1 sample_A0) (Rly sample_sent sample_A2 sample_A0).
Proof.
  destruct sample_facts as (_ & Hsid & _), sample_sends as (t' & Ht & ->).
  apply relay_pumps_client, (pumps_client_sends _ _ _ _ 0 sample_call sample_up sample_data); [exact sample_call_at| |by split|exact Ht].
  rewrite Hsid. apply (pump_up_moves _ sample_u1 [sample_data] (Up_ UReading [1; 2; 3] 3)), (up_sends 1 [1; 2; 3] [1; 2; 3] 0).
Qed.

Lemma sample_step_takes : relay_step (small_runtime 1) (Rly sample_arrived sample_A2 sample_A0) (Rly sample_taken sample_A2 sample_B1).
Proof.
  destruct sample_facts as (_ & _ & Hts & Htq), sample_takes as (s' & Hs & ->).
  apply relay_pumps_server, (pumps_server_takes _ _ _ _ 0 sample_task (Pmp (Up_ UReading [] 0) sample_w1 [] PSelecting) (SData [1; 2; 3]) []);
    [exact sample_task_at|exact Htq| |by split|exact Hs].
  rewrite Hts. by apply (pump_down_moves _ _ sample_w0 [] sample_w1), (down_data _ [1; 2; 3]).
Qed.

Lemma sample_step_writes : relay_step (small_runtime 1) (Rly sample_taken sample_A2 sample_B1) sample_relay.
Proof.
  destruct sample_pumping as (u & Hu & Hup & Hus).
  apply relay_pumps_own, (pumps_server_moves _ _ _ _ 0 u true sample_down); [exact Hu|exact Hup| |by split].
  rewrite Hus. apply (pump_down_moves _ _ sample_w1 [] (Down_ WWaiting [SData [1; 2; 3]] [1; 2; 3] false 3)).
  apply (down_wrote _ [1; 2; 3] 0). cbn. lia.
Qed.

(** ** From socket to socket *)

(** What one end's socket is given is what the other end's gave: a prefix of it, and
    all of it up to an end of file once the socket was shut down for writing. *)
Definition delivers (a b : Pumps) : Prop :=
  w_written (pm_down b) `prefix_of` u_read (pm_up a) /\
  (w_shut (pm_down b) = true -> w_written (pm_down b) = u_read (pm_up a) /\ u_task (pm_up a) = UEnded DEof).

(** A pump that no frame of its stream reached has written nothing. *)
Lemma nothing_delivered stream b : pump_inv stream b -> w_taken (pm_down b) = [] ->
  w_written (pm_down b) = [] /\ w_shut (pm_down b) = false.
Proof.
  intros [_ Hd _ _ _] Et. pose proof (down_inv_data _ Hd) as Hp. rewrite Et in Hp. split; [by apply prefix_nil_inv in Hp|].
  destruct Hd as [_ [Hlast ->]]. rewrite Et in Hlast.
  destruct (w_task (pm_down b)) as [| | |[]|]; try done; destruct Hlast as [t Ht]; by destruct t.
Qed.

(** Every stream task serves a call of the same stream, for the address that call
    asked for.  The socket of the task was written a prefix of the bytes read from
    the socket of that call, and was shut down for writing only when that is
    everything up to its end of file; and the other way round.  A call that no task
    serves has had nothing written to its socket. *)
Lemma relay_delivers rt r : relay_inv rt r ->
  (forall i u, tn_tasks (pr_server (rl_pair r)) !! i = Some u -> exists j c,
     ct_calls (pr_client (rl_pair r)) !! j = Some c /\ op_sid c = tk_stream u /\
     addr_decode (addr_encode (op_addr c)) = Ok (tk_addr u) /\
     delivers (rl_client r j) (rl_server r i) /\ delivers (rl_server r i) (rl_client r j)) /\
  (forall j c, ct_calls (pr_client (rl_pair r)) !! j = Some c ->
     (forall i u, tn_tasks (pr_server (rl_pair r)) !! i = Some u -> tk_stream u <> op_sid c) ->
     w_written (pm_down (rl_client r j)) = [] /\ w_shut (pm_down (rl_client r j)) = false).
Proof.
  intros [Hp Hc _ Hs _].
  pose proof (pi_up _ _ Hp) as Hup. pose proof (up_seen_prefix (rl_pair r)) as Hpre. split.
  - intros i u Hu. destruct (task_call rt _ i u Hp Hu) as (j & c & Hl & Es & Ha). exists j, c. split_and!; [done..| |].
    + destruct (Hc j c Hl) as (Hpj & Hev & _), (Hs i u Hu) as (Hpi & _ & Ht & _). rewrite <- Es in Hpi.
      eapply sockets_agree; [exact Hpj|exact Hpi|]. rewrite Ht, <- Hev, Es.
      transitivity (tk_taken u ++ tk_queue u); [by apply prefix_app_r|].
      etransitivity; [by eapply task_prefix, inv_tasks, Hu; apply Hp|]. etransitivity; [by eapply sv_prefix|]. by apply events_prefix.
    + destruct (Hc j c Hl) as (Hpj & _ & Ht), (Hs i u Hu) as (Hpi & Hev & _). rewrite Es in Hpj, Ht.
      eapply sockets_agree; [exact Hpi|exact Hpj|]. by rewrite <- Hev.
  - intros j c Hl Hno. destruct (Hc j c Hl) as (Hpj & _ & Ht). apply (nothing_delivered _ _ Hpj).
    rewrite (no_task_no_events _ _ _ Hup Hno) in Ht. by apply prefix_nil_inv.
Qed.
