(* ===== verification/Proxy.v ===== *)
(** * The proxy's end of a stream

    What an application asks for and sends ([read_connect] of
    [crates/client/src/socks5.rs]), what the pump of its stream reads of it, and
    what its connection is made of once the stream is over. *)
From S2P Require Import Prelude Errors Env Mux Pump Addr Tunnel KeyConfig Config Server Pool Socks5 TunnelPair PumpStream Relay.

(** The inbound connection of an application that sends [w]. *)
Definition inbound (w : bytes) : duplex := Duplex (Reader w None) (Writer [] None).

(** What its request asks for, and what it sent behind the request. *)
Definition asked (w : bytes) : option ProxyAddr := match read_connect (inbound w) with (Ok a, _) => Some a | _ => None end.
Definition unread (w : bytes) : bytes := match read_connect (inbound w) with (Ok _, io) => rd_data (io_rd io) | _ => [] end.

(** Has the pump read the end of its socket? *)
Definition at_eof (t : UpTask) : bool := match t with UFinishing | UEnded DEof => true | _ => false end.

(** A pump reads its application's bytes in order, and their end behind the last. *)
Definition reads_app (a : Pumps) (w : bytes) : Prop :=
  u_read (pm_up a) `prefix_of` unread w /\ (at_eof (u_task (pm_up a)) = true -> u_read (pm_up a) = unread w).

Definition calls (r : Relay) : list OpenCall := ct_calls (pr_client (rl_pair r)).

(** What [negotiate_and_forward] makes of the connection of a call that got its stream,
    its pump having come as far as [a] with outcome [o]. *)
Definition forwarded (w : bytes) (c : OpenCall) (a : Pumps) (o : PumpOutcome) (st : ClientStats) :=
  negotiate_and_forward false (fun _ => Ok (op_sid c))
    (fun _ io => (o, Duplex (Reader (drop (length (u_read (pm_up a))) (rd_data (io_rd io))) (rd_end (io_rd io)))
                       (Writer (wr_out (io_wr io) ++ w_written (pm_down a)) (wr_err (io_wr io)))))
    (inbound w) st.

Lemma asked_spec w a : wf_bytes w -> asked w = Some a ->
  exists ms, w = connect_request ms a ++ unread w /\ METHOD_NO_AUTH ∈ ms /\ addr_ok a /\
    read_connect (inbound w) = (Ok a, Duplex (Reader (unread w) None) (Writer [VER; METHOD_NO_AUTH] None)).
Proof.
  intros Hw. unfold asked, unread, inbound. destruct (read_connect_inv None w [] Hw) as [(ms & a' & rest & -> & Hin & Ha & E)|(err & rest & s & E & _)];
    rewrite E; [|done]. cbn [io_rd rd_data]. intros [= ->]. by exists ms.
Qed.

Lemma connects_step rt p A B addr : relay_step rt (Rly p A B) (Rly (with_client (open_begin addr (pr_client p)) p) A B).
Proof.
  apply relay_pair.
  - destruct p as [t up n s m]. apply pair_client, client_open.
  - split; try done. intros i u Hu. by exists u.
Qed.

(** A pump that ended gracefully read its socket to the end and shut it down. *)
Lemma done_graceful stream a o : pump_inv stream a -> pm_parent a = PDone o -> is_graceful (po_end o) = true ->
  u_task (pm_up a) = UEnded DEof /\ w_shut (pm_down a) = true.
Proof.
  intros [_ Hd _ _ Hp] Ho Hg. unfold parent_inv in Hp. rewrite Ho in Hp. destruct Hp as (r1 & r2 & E1 & E2 & ->). cbn [po_end] in Hg.
  destruct (stream_end _ _) eqn:Es; try done. apply stream_end_graceful in Es as [Ea Eb].
  split; [by eapply up_result_eof|]. destruct Hd as [_ [_ ->]]. by rewrite (down_result_eof _ _ E2 Eb).
Qed.

(** The connection of a call that got its stream. *)
Lemma forwarded_spec w c a o st : wf_bytes w -> asked w = Some (op_addr c) ->
  let '(r, (io, st', opened)) := forwarded w c a o st in
  r = Ok tt /\ opened = Some (op_sid c, is_graceful (po_end o)) /\
  wr_out (io_wr io) = [VER; METHOD_NO_AUTH] ++ reply_bytes REP_SUCCEEDED ++ w_written (pm_down a) /\
  rd_data (io_rd io) = drop (length (u_read (pm_up a))) (unread w).
Proof.
  intros Hw Ha. destruct (asked_spec w _ Hw Ha) as (ms & _ & _ & _ & E). unfold forwarded, negotiate_and_forward. by rewrite E.
Qed.

(** An application that asks for 127.0.0.1:80 and sends three bytes. *)
Definition sample_app : bytes := [5; 1; 0; 5; 1; 0; 1; 127; 0; 0; 1; 0; 80; 1; 2; 3].
