(* ===== verification/Net.v ===== *)
(** * The whole system: every tunnel of the pool with both its ends

    The pool of [TunnelPool] with a relay of [Relay] for each tunnel it ever dialed, all
    of them to the same server, and for each caller of [open_stream] the SOCKS5
    connection it was made for, as in [Proxy].  A step is one of the pool, one of a
    relay, or both at once where they are two views of one: the client's end of a
    relay is the pool's tunnel. *)
From S2P Require Import Prelude Errors Env Mux Pump Addr Tunnel KeyConfig Config Server Pool Socks5 TunnelPair PumpStream TunnelPool Relay Proxy.

Record Net := Nt {
  nt_pool : Serving;
  nt_relays : list Relay;    (** by tunnel *)
  nt_apps : list bytes       (** by caller: what its application sends *)
}.

Definition net_new : Net := Nt serving_new [] [].

(** One relay moves, or one is added with its tunnel. *)
Inductive relays_move (rt : ServerRuntime) : list Relay -> list Relay -> Prop :=
| relays_rest rs : relays_move rt rs rs
| relays_one rs i r r' : rs !! i = Some r -> relay_step rt r r' -> relays_move rt rs (<[i := r']> rs)
| relays_spawn rs : relays_move rt rs (rs ++ [relay_new]).

(** The client's ends are the pool's tunnels. *)
Definition synced (P : Serving) (ts : list Pool.Tunnel) : Prop := ts = sp_tunnel <$> sg_tunnels P.
Definition client_ends (rs : list Relay) : list Pool.Tunnel := (fun r => pr_client (rl_pair r)) <$> rs.

(** A call is made for an application that asked for its address. *)
Definition asks (c : Caller) (w : bytes) : Prop := wf_bytes w /\ asked w = Some (cl_addr c).

(** The call whose stream a caller holds, or held. *)
Definition streams (w : Where) : option (nat * nat) := match w with AtStream i j | AtDone i j => Some (i, j) | _ => None end.

(** The pump of a stream, of those of each tunnel, reads the application its caller
    serves. *)
Definition reads_streams (P : Serving) (As : list (nat -> Pumps)) (apps : list bytes) : Prop :=
  forall k c i j w A, sg_callers P !! k = Some c -> streams (cl_at c) = Some (i, j) -> apps !! k = Some w -> As !! i = Some A ->
    reads_app (A j) w.

Section Net.
Context (multi : bool) (pool_size max_streams : Z) (rt : ServerRuntime).

Inductive net_step : Net -> Net -> Prop :=
| net_moves P P' rs rs' apps apps' :
    P' = P \/ serving_step multi pool_size max_streams P P' -> relays_move rt rs rs' -> synced P' (client_ends rs') ->
    apps `prefix_of` apps' -> Forall2 asks (sg_callers P') apps' -> reads_streams P' (rl_client <$> rs') apps' ->
    net_step (Nt P rs apps) (Nt P' rs' apps').

(** Before any tunnel's 2^32nd stream. *)
Definition all_small (rs : list Relay) : Prop := forall i r, rs !! i = Some r -> small (pr_client (rl_pair r)).

(** ** What a step leaves to each relay *)

Lemma relays_move_back rs rs' i r' : relays_move rt rs rs' -> rs' !! i = Some r' ->
  (exists r, rs !! i = Some r /\ (r' = r \/ relay_step rt r r')) \/ (rs !! i = None /\ r' = relay_new).
Proof.
  intros [rs1|rs1 k r r1 Hk Hst|rs1]; [left; by eauto|..].
  - intros [(-> & <- & _)|[_ Hi]]%list_lookup_insert_Some; left; eauto.
  - intros [Hi|[Hge Hi]]%lookup_app_Some; [left; by eauto|right]. apply list_lookup_singleton_Some in Hi as [_ <-].
    split; [by apply lookup_ge_None|done].
Qed.

Lemma relays_move_on rs rs' i r : relays_move rt rs rs' -> rs !! i = Some r ->
  exists r', rs' !! i = Some r' /\ (r' = r \/ relay_step rt r r').
Proof.
  intros Hm Hi. assert (is_Some (rs' !! i)) as [r' Hi'].
  { apply lookup_lt_Some in Hi. apply lookup_lt_is_Some. destruct Hm; rewrite ?length_insert, ?length_app; lia. }
  exists r'. split; [done|]. destruct (relays_move_back _ _ _ _ Hm Hi') as [(r0 & E & H)|[E _]]; rewrite Hi in E; [|done].
  by injection E as <-.
Qed.

Lemma relays_small rs rs' : relays_move rt rs rs' -> all_small rs' -> all_small rs.
Proof.
  intros Hm Hs i r Hi. destruct (relays_move_on _ _ _ _ Hm Hi) as (r' & Hi' & Hst). specialize (Hs i r' Hi').
  destruct Hst as [->|Hst%relay_step_length]; [done|]. unfold small in *. lia.
Qed.

(** A call keeps its address; a new one is being sent. *)
Lemma relay_calls_back r r' j d' : relay_step rt r r' -> relay_inv rt r -> calls r' !! j = Some d' ->
  (exists d, calls r !! j = Some d /\ op_addr d' = op_addr d) \/ op_phase d' = OSending.
Proof.
  intros [E|Hst]%relay_step_pair Hinv Hd'; unfold calls in *; [left; exists d'; by rewrite <- E|].
  destruct (pair_calls rt _ _ j d' Hst (ri_pair _ _ Hinv) Hd') as [(d & Hd & _ & Ea)|[_ Hn]]; [left; by exists d|by right].
Qed.

(** Only the pump of a streaming call moves. *)
Lemma relay_pumps_move r r' j : relay_step rt r r' ->
  rl_client r' j = rl_client r j \/ exists d g, calls r !! j = Some d /\ op_phase d = OStreaming g.
Proof.
  intros Hst. unfold calls. destruct Hst as [p p' A B _ _|p t s A' B' A B Hst]; [by left|]. cbn [rl_client rl_pair].
  destruct Hst as [i c a Hl Hp _ _|i c a f t' Hl _ _ Ho|i c a ev Hl Hp _ _ _| | | |];
    try (by left); (destruct (decide (j = i)) as [->|Hne]; [right|left; by apply upd_other]).
  - by exists c, false.
  - unfold open_step in Ho. destruct (op_phase c) as [| |g|] eqn:Ep; try done. by exists c, g.
  - by exists c, false.
Qed.

(** ** The invariant *)

Record net_inv (x : Net) : Prop := {
  ni_pool : serving_inv multi max_streams (nt_pool x);
  ni_synced : synced (nt_pool x) (client_ends (nt_relays x));
  ni_relays : forall i r, nt_relays x !! i = Some r -> relay_inv rt r;
  ni_apps : Forall2 asks (sg_callers (nt_pool x)) (nt_apps x);
  ni_calls : forall i r j d, nt_relays x !! i = Some r -> calls r !! j = Some d ->
    exists k c, sg_callers (nt_pool x) !! k = Some c /\ cl_addr c = op_addr d;
  ni_moved : forall i r j, nt_relays x !! i = Some r -> rl_client r j <> pump_new ->
    exists k c, sg_callers (nt_pool x) !! k = Some c /\ streams (cl_at c) = Some (i, j);
  ni_reads : reads_streams (nt_pool x) (rl_client <$> nt_relays x) (nt_apps x)
}.

Lemma net_inv_new : net_inv net_new.
Proof. split; cbn; try done. apply serving_inv_new. Qed.

Lemma synced_at P rs i r : synced P (client_ends rs) -> rs !! i = Some r -> exists sp, sg_tunnels P !! i = Some sp /\ sp_tunnel sp = pr_client (rl_pair r).
Proof.
  intros Hs Hi. apply (f_equal (fun l => l !! i)) in Hs. unfold client_ends in Hs. rewrite !list_lookup_fmap, Hi in Hs.
  destruct (sg_tunnels P !! i) as [sp|]; [|done]. injection Hs as ->. by exists sp.
Qed.

(** The holder of an open call asked for its address, and streams if the call does. *)
Lemma open_call_held P rs i r j d : serving_inv multi max_streams P -> synced P (client_ends rs) -> rs !! i = Some r -> calls r !! j = Some d ->
  is_open d = true -> exists k c, sg_callers P !! k = Some c /\ cl_addr c = op_addr d /\
    ((exists g, op_phase d = OStreaming g) -> cl_at c = AtStream i j).
Proof.
  intros Hinv Hs Hi Hj Ho. destruct (synced_at _ _ _ _ Hs Hi) as (sp & Hsp & E). unfold calls in Hj. rewrite <- E in Hj.
  destruct (si_held _ _ _ Hinv i sp j d Hsp Hj Ho) as (k & c & Hk & Hh). exists k, c. split; [done|].
  pose proof (si_callers _ _ _ Hinv k c Hk) as Hc. unfold caller_ok in Hc.
  destruct (cl_at c) as [| | | |a b| |a b| |a b]; try done; injection Hh as -> ->.
  - destruct Hc as (q & e & Hq & He & <- & Hp). rewrite Hsp in Hq. injection Hq as <-. rewrite Hj in He. injection He as <-.
    split; [done|]. intros (g & Hg). unfold awaiting in Hp. by rewrite Hg in Hp.
  - destruct Hc as (q & e & g & Hq & He & <- & Hp). rewrite Hsp in Hq. injection Hq as <-. rewrite Hj in He. by injection He as <-.
Qed.

(** Callers stay, and so do their streams. *)
Lemma pool_callers P P' k c : serving_inv multi max_streams P -> P' = P \/ serving_step multi pool_size max_streams P P' ->
  sg_callers P !! k = Some c -> exists c', sg_callers P' !! k = Some c' /\ cl_addr c' = cl_addr c /\
    forall h, streams (cl_at c) = Some h -> streams (cl_at c') = Some h.
Proof.
  intros Hinv [->|Hst] Hk; [by exists c|]. destruct (step_callers _ _ _ _ _ _ _ Hinv Hst Hk) as (c' & Hk' & Ha & Hf).
  exists c'. split_and!; [done..|]. intros h. unfold follows in Hf. destruct (cl_at c); try done; [by destruct Hf as [-> | ->]|by rewrite Hf].
Qed.

Lemma net_step_inv x x' : is_u32 max_streams -> net_step x x' -> all_small (nt_relays x') -> net_inv x -> net_inv x'.
Proof.
  intros HM Hst Hsm Hinv. destruct Hst as [P P' rs rs' apps apps' HP Hrs Hsync _ Hasks Hreads].
  destruct Hinv as [I1 I2 I3 _ I5 I6 _]. cbn [nt_pool nt_relays nt_apps] in *.
  assert (serving_inv multi max_streams P') as I1' by (destruct HP as [->|HP]; [done|by eapply serving_step_inv]).
  split; cbn [nt_pool nt_relays nt_apps]; [done|done| |done| | |done].
  - intros i r' Hi'. destruct (relays_move_back _ _ _ _ Hrs Hi') as [(r & Hi & [->|Hst])|[_ ->]]; [by apply (I3 i)| |apply relay_inv_new].
    eapply relay_step_inv; [done|by apply (Hsm i)|by apply (I3 i)].
  - intros i r' j d' Hi' Hd'. destruct (relays_move_back _ _ _ _ Hrs Hi') as [(r & Hi & Hst)|[_ ->]]; [|done].
    assert ((exists d, calls r !! j = Some d /\ op_addr d' = op_addr d) \/ op_phase d' = OSending) as [(d & Hd & ->)|Hnew].
    { destruct Hst as [->|Hst]; [left; by exists d'|]. eapply relay_calls_back; [done|by apply (I3 i)|done]. }
    + destruct (I5 i r j d Hi Hd) as (k & c & Hk & <-). destruct (pool_callers P P' k c I1 HP Hk) as (c' & Hk' & Ha & _). by exists k, c'.
    + destruct (open_call_held P' rs' i r' j d') as (k & c & Hk & Ha & _); [done..| |by exists k, c]. unfold is_open. by rewrite Hnew.
  - intros i r' j Hi' Hne. destruct (relays_move_back _ _ _ _ Hrs Hi') as [(r & Hi & Hst)|[_ ->]]; [|done].
    assert (exists k c, sg_callers P !! k = Some c /\ streams (cl_at c) = Some (i, j)) as (k & c & Hk & Hs).
    { assert (rl_client r' j = rl_client r j \/ exists d g, calls r !! j = Some d /\ op_phase d = OStreaming g) as [E|(d & g & Hd & Hg)].
      { destruct Hst as [->|Hst]; [by left|by apply relay_pumps_move]. }
      - apply (I6 i r j Hi). by rewrite <- E.
      - destruct (open_call_held P rs i r j d) as (k & c & Hk & _ & Hat); [done..|unfold is_open; by rewrite Hg|].
        exists k, c. split; [done|]. by rewrite Hat by eauto. }
    destruct (pool_callers P P' k c I1 HP Hk) as (c' & Hk' & _ & Hs'). exists k, c'. auto.
Qed.

Lemma net_reachable_inv x : is_u32 max_streams -> rtc net_step net_new x -> all_small (nt_relays x) -> net_inv x.
Proof.
  intros HM Hr. revert x Hr. apply (rtc_ind_r (fun x => all_small (nt_relays x) -> net_inv x)); [intros _; apply net_inv_new|].
  intros x x' _ Hst IH Hsm. eapply net_step_inv; [done|done|done|]. apply IH. destruct Hst. by eapply relays_small.
Qed.

(** ** Who is served by which task *)

(** Task [n] of tunnel [i] is the other end of the stream of application [k]. *)
Definition serves (x : Net) (k i n : nat) : Prop :=
  exists c r j d u, sg_callers (nt_pool x) !! k = Some c /\ streams (cl_at c) = Some (i, j) /\ nt_relays x !! i = Some r /\
    calls r !! j = Some d /\ tn_tasks (pr_server (rl_pair r)) !! n = Some u /\ op_sid d = tk_stream u.

Lemma streams_owns w h : streams w = Some h -> owns w = Some h.
Proof. by destruct w. Qed.

Lemma serves_unique x k i n k' i' n' : net_inv x -> all_small (nt_relays x) -> serves x k i n -> serves x k' i' n' ->
  (k = k' <-> i = i' /\ n = n').
Proof.
  intros Hx Hsm (c & r & j & d & u & Hk & Hs & Hi & Hj & Hn & E) (c' & r' & j' & d' & u' & Hk' & Hs' & Hi' & Hj' & Hn' & E'). split.
  - intros <-. rewrite Hk in Hk'. injection Hk' as <-. rewrite Hs in Hs'. injection Hs' as <- <-. split; [done|].
    rewrite Hi in Hi'. injection Hi' as <-. rewrite Hj in Hj'. injection Hj' as <-.
    pose proof (ri_pair _ _ (ni_relays _ Hx i r Hi)) as Hp.
    eapply (task_unique _ _ _ _ n n' u u' (pi_up _ _ Hp) (pi_log _ _ Hp)); [apply up_seen_prefix|done|done|congruence].
  - intros [<- <-]. rewrite Hi in Hi'. injection Hi' as <-. rewrite Hn in Hn'. injection Hn' as <-.
    assert (j = j') as <- by (eapply (sid_inj (pr_client (rl_pair r)));
      [apply (ri_pair _ _ (ni_relays _ Hx i r Hi))|by apply (Hsm i)|exact Hj|exact Hj'|congruence]).
    by eapply (si_owner _ _ _ (ni_pool _ Hx) k k' c c' (i, j)); auto using streams_owns.
Qed.

(** The application of a caller. *)
Lemma caller_app x k c : net_inv x -> sg_callers (nt_pool x) !! k = Some c -> exists w, nt_apps x !! k = Some w /\ asks c w.
Proof. intros Hx Hk. by apply (Forall2_lookup_l _ _ _ _ _ (ni_apps _ Hx) Hk). Qed.

Lemma owned_call x i r j k c d : net_inv x -> nt_relays x !! i = Some r -> sg_callers (nt_pool x) !! k = Some c ->
  streams (cl_at c) = Some (i, j) -> calls r !! j = Some d -> op_addr d = cl_addr c.
Proof.
  intros Hx Hi Hk Hs Hj. destruct (synced_at _ _ _ _ (ni_synced _ Hx) Hi) as (sp & Hsp & E). unfold calls in Hj. rewrite <- E in Hj.
  pose proof (si_callers _ _ _ (ni_pool _ Hx) k c Hk) as Hc. unfold caller_ok in Hc.
  destruct (cl_at c) as [| | | | | |a b| |a b]; try done; injection Hs as -> ->;
    [destruct Hc as (q & e & g & Hq & He & <- & _)|destruct Hc as (q & e & Hq & He & <- & _)];
    rewrite Hsp in Hq; injection Hq as <-; rewrite Hj in He; by injection He as <-.
Qed.

(** A pump that read nothing, not even the end. *)
Definition idle (a : Pumps) : bool := bool_decide (u_read (pm_up a) = []) && negb (at_eof (u_task (pm_up a))).

Lemma idle_new a : idle a = false -> a <> pump_new.
Proof. by intros Hi ->. Qed.

(** What an idle pump's other end was given. *)
Lemma idle_delivers a b w : idle a = true -> delivers a b ->
  w_written (pm_down b) `prefix_of` w /\ ~ (w_written (pm_down b) <> [] \/ w_shut (pm_down b) = true).
Proof.
  intros [He%bool_decide_eq_true Ht]%andb_prop [Hp Hs]. rewrite He in Hp. apply prefix_nil_inv in Hp. rewrite Hp.
  split; [apply prefix_nil|]. intros [|Hsh]; [done|]. destruct (Hs Hsh) as [_ E]. by rewrite E in Ht.
Qed.

(** The application behind a call: the one its stream was given to, if its pump read anything. *)
Lemma call_app x i r j d : net_inv x -> nt_relays x !! i = Some r -> calls r !! j = Some d -> exists k c w,
  sg_callers (nt_pool x) !! k = Some c /\ nt_apps x !! k = Some w /\ wf_bytes w /\ asked w = Some (op_addr d) /\
  (idle (rl_client r j) = false -> streams (cl_at c) = Some (i, j) /\ reads_app (rl_client r j) w).
Proof.
  intros Hx Hi Hj. destruct (idle (rl_client r j)) eqn:Eid.
  - destruct (ni_calls _ Hx i r j d Hi Hj) as (k & c & Hk & <-). destruct (caller_app x k c Hx Hk) as (w & Hw & Hwf & Ha). by exists k, c, w.
  - destruct (ni_moved _ Hx i r j Hi (idle_new _ Eid)) as (k & c & Hk & Hs). destruct (caller_app x k c Hx Hk) as (w & Hw & Hwf & Ha).
    exists k, c, w. rewrite (owned_call x i r j k c d) by done. split_and!; [done..|]. intros _. split; [done|]. apply (ni_reads _ Hx k c i j w _ Hk Hs Hw). by rewrite list_lookup_fmap, Hi.
Qed.

(** What comes back to an application that got a stream. *)
Lemma stream_answered x k c i j w r d o : net_inv x -> all_small (nt_relays x) -> sg_callers (nt_pool x) !! k = Some c ->
  streams (cl_at c) = Some (i, j) -> nt_apps x !! k = Some w -> nt_relays x !! i = Some r -> calls r !! j = Some d ->
  pm_parent (rl_client r j) = PDone o ->
  let back := w_written (pm_down (rl_client r j)) in
  (back = [] /\ is_graceful (po_end o) = false) \/ exists n, serves x k i n /\ back `prefix_of` u_read (pm_up (rl_server r n)) /\
    (is_graceful (po_end o) = true -> back = u_read (pm_up (rl_server r n)) /\ drop (length (u_read (pm_up (rl_client r j)))) (unread w) = []).
Proof.
  intros Hx Hsm Hk Hs Hw Hi Hj Ho back. pose proof (ni_relays _ Hx i r Hi) as Hri. destruct (relay_delivers rt r Hri) as [Hd Hnone].
  destruct (ri_client _ _ Hri j d Hj) as (Hpi & _). pose proof (done_graceful _ _ _ Hpi Ho) as Hg.
  destruct (decide (Exists (fun u => tk_stream u = op_sid d) (tn_tasks (pr_server (rl_pair r))))) as [He|Hno].
  - right. apply Exists_exists in He as (u & [n Hn]%list_elem_of_lookup_1 & Es). destruct (Hd n u Hn) as (j' & d' & Hj' & Es' & _ & _ & [Hb1 Hb2]).
    assert (j' = j) as -> by (eapply (sid_inj (pr_client (rl_pair r))); [apply Hri|by apply (Hsm i)|exact Hj'|exact Hj|congruence]).
    exists n. split; [by exists c, r, j, d, u|]. split; [done|]. intros Hgr. destruct (Hg Hgr) as [Eu Hsh]. split; [by apply Hb2|].
    destruct (ni_reads _ Hx k c i j w (rl_client r) Hk Hs Hw) as [_ Hall]; [by rewrite list_lookup_fmap, Hi|]. rewrite Hall by (by rewrite Eu). apply drop_all.
  - left. destruct (Hnone j d Hj) as [E Hsh]; [|split; [done|]].
    + intros n u Hn Es. apply Hno, Exists_exists. exists u. split; [by eapply list_elem_of_lookup_2|done].
    + destruct (is_graceful (po_end o)); [|done]. destruct (Hg eq_refl). congruence.
Qed.
End Net.

(** ** A run

    Without pooling: an application connects, its own tunnel is dialed, and the run of
    [Relay] goes on over it. *)
Definition sample_pool (t : Pool.Tunnel) (w : Where) : Serving := Srv [Sp t false] [] 0 0 0 MIdle [Clr sample_addr w].
Definition sample_net (p : Pair) (A B : nat -> Pumps) (w : Where) : Net := Nt (sample_pool (pr_client p) w) [Rly p A B] [sample_app].

(** Where the caller is after a move of its tunnel. *)
Definition next_where (m : Move) (p' : Pair) (w : Where) : Where :=
  match m, ct_calls (pr_client p') !! 0%nat with MCall _ _, Some c' => after_call 0 0 w (op_phase c') | _, _ => w end.

Definition net_ok (m : Move) (w : Where) : bool :=
  match m with MOpen _ => false | MCall i a => (i =? 0)%nat && bool_decide (holds w = Some (0%nat, 0%nat)) && (match a with ODrop _ => false | _ => true end)
             | _ => true end.

Fixpoint run_net (rt : ServerRuntime) (ms : list Move) (p : Pair) (w : Where) : option (Pair * Where) :=
  match ms with
  | [] => Some (p, w)
  | m :: ms => p' ← move rt m p; if net_ok m w && elsewhereb p p' then run_net rt ms p' (next_where m p' w) else None
  end.

Section Run.
Context (rt : ServerRuntime).

Lemma sample_asks w : Forall2 asks [Clr sample_addr w] [sample_app].
Proof. constructor; [|constructor]. split; [by apply wf_bytes_eval|vm_compute; reflexivity]. Qed.

Lemma sample_reads_net t A w : reads_app (A 0%nat) sample_app -> (streams w = None \/ streams w = Some (0%nat, 0%nat)) ->
  reads_streams (sample_pool t w) [A] [sample_app].
Proof.
  intros Hr Hw k c i j v r Hk Hs Hv Hi. apply list_lookup_singleton_Some in Hk as [-> <-], Hv as [_ <-], Hi as [-> <-]. cbn [cl_at] in *.
  destruct Hw as [Hw|Hw]; rewrite Hw in Hs; [done|]. by injection Hs as <-.
Qed.

(** A relay step that its pool makes too, or does not see. *)
Lemma sample_net_step p p' A B A' B' w w' :
  sample_pool (pr_client p') w' = sample_pool (pr_client p) w \/
    serving_step true 0 1 (sample_pool (pr_client p) w) (sample_pool (pr_client p') w') ->
  relay_step rt (Rly p A B) (Rly p' A' B') -> reads_app (A' 0%nat) sample_app -> (streams w' = None \/ streams w' = Some (0%nat, 0%nat)) ->
  net_step true 0 1 rt (sample_net p A B w) (sample_net p' A' B' w').
Proof.
  intros HP Hr Hreads Hw. apply net_moves; [done|by eapply (relays_one rt [Rly p A B] 0)|done|done|apply sample_asks|by apply sample_reads_net].
Qed.

Lemma next_where_streams m p' w : (streams w = None \/ streams w = Some (0%nat, 0%nat)) ->
  streams (next_where m p' w) = None \/ streams (next_where m p' w) = Some (0%nat, 0%nat).
Proof. intros Hw. unfold next_where. destruct m; try done. destruct (_ !! _) as [c|]; [|done]. unfold after_call. destruct w, (op_phase c); auto. Qed.

(** A move of the pair as a step of the pool. *)
Lemma move_serving m p p' w : move rt m p = Some p' -> net_ok m w = true ->
  let w' := next_where m p' w in
  sample_pool (pr_client p') w' = sample_pool (pr_client p) w \/
    serving_step true 0 1 (sample_pool (pr_client p) w) (sample_pool (pr_client p') w').
Proof.
  assert (forall t t', tunnel_moves t t' -> serving_step true 0 1 (sample_pool t w) (sample_pool t' w)) as Hmoves.
  { intros t t' Ht. apply (sv_moves true 0 1 (sample_pool t w) 0 (Sp t false) t'); [by left|done|done]. }
  destruct p as [t up n s k], m as [addr|i a| |d|i a| | |]; cbn [move net_ok]; intros E Hok; try done.
  - apply andb_prop in Hok as [[->%Nat.eqb_eq Hh%bool_decide_eq_true]%andb_prop Ha].
    destruct (ct_calls t !! 0%nat) as [c|] eqn:Hc; [|done]. cbn in E. destruct (open_step 0 c a t) as [t'|] eqn:Ho; [|done]. injection E as <-.
    right. unfold next_where. cbn [pr_client]. destruct (open_step_shape 0 c a t t' Hc Ho) as (q & fs & Ec & _).
    assert (ct_calls t' !! 0%nat = Some (set_open_phase q c)) as Hc' by (rewrite Ec; apply list_lookup_insert_eq; by eapply lookup_lt_Some).
    rewrite Hc'. apply (sv_acts true 0 1 (sample_pool t w) 0 sample_addr w 0 0 (Sp t false) c a t'); try done; [by left|by destruct a].
  - right. destruct (ct_closed t) eqn:Hc, (ct_queue t) as [|f q] eqn:Hq; try done. injection E as <-. apply Hmoves. by apply (moves_writes t f q).
  - right. destruct (tn_wire s !! k) as [f|]; [|done]. cbn in E. destruct (ct_reader t) eqn:Hr; [|done]. injection E as <-. by apply Hmoves, moves_frame.
  - left. destruct (tn_tasks s !! i) as [u|]; [|done]. cbn in E. destruct (task_step i u a s); [|done]. by injection E as <-.
  - left. destruct (tn_demux s) as [|stream ev i|]; try done. destruct (tn_tasks s !! i); [|done]. cbn in E. destruct (_ && _); [|done]. by injection E as <-.
  - left. destruct (tn_closed s), (tn_queue s); try done. by injection E as <-.
  - left. destruct (up !! n) as [f|]; [|done]. cbn in E. destruct (tn_demux s); try done. destruct (wf_bytesb _); [|done]. by injection E as <-.
Qed.

Lemma run_net_sound ms p q w w' A B : reads_app (A 0%nat) sample_app -> (streams w = None \/ streams w = Some (0%nat, 0%nat)) ->
  run_net rt ms p w = Some (q, w') -> rtc (net_step true 0 1 rt) (sample_net p A B w) (sample_net q A B w').
Proof.
  intros Hr. revert p w. induction ms as [|m ms IH]; intros p w Hw E; cbn [run_net] in E; [injection E as <- <-; apply rtc_refl|].
  destruct (move rt m p) as [p'|] eqn:Em; [|done]. cbn in E. destruct (_ && _) eqn:Eb; [|done]. apply andb_prop in Eb as [Hok He].
  eapply rtc_l; [|apply IH, E; by apply next_where_streams].
  apply sample_net_step; [by apply move_serving|by eapply move_elsewhere|done|by apply next_where_streams].
Qed.
End Run.

Lemma run_net_elsewhere rt ms p q w w' : run_net rt ms p w = Some (q, w') -> run_elsewhere rt ms p = Some q.
Proof.
  revert p w. induction ms as [|m ms IH]; intros p w E; cbn [run_net run_elsewhere] in *; [by injection E as -> _|].
  destruct (move rt m p) as [p'|]; [|done]. cbn in *. destruct (net_ok m w); [|done]. cbn in E. destruct (elsewhereb p p'); [by eapply IH|done].
Qed.

(** A run of the relay with a caller beside it. *)
Lemma sample_net_run rt ms p q w w' : run_elsewhere rt ms p = Some q -> snd <$> run_net rt ms p w = Some w' ->
  run_net rt ms p w = Some (q, w').
Proof.
  intros E. destruct (run_net rt ms p w) as [[q' w0]|] eqn:En; [|done]. cbn. intros [= ->].
  rewrite (run_net_elsewhere _ _ _ _ _ _ En) in E. by injection E as ->.
Qed.

Definition sample_opening : Pair := with_client (open_begin sample_addr spawn_tunnel) pair_new.

Lemma sample_reads_app a : u_read (pm_up a) `prefix_of` [1; 2; 3] -> at_eof (u_task (pm_up a)) = false -> reads_app a sample_app.
Proof. intros Hp He. split; [exact Hp|congruence]. Qed.

Lemma sample_net_opens : rtc (net_step true 0 1 (small_runtime 1)) net_new (sample_net sample_opening sample_A0 sample_A0 (AtOpening 0 0)).
Proof.
  assert (forall P c, sg_callers P = [c] -> streams (cl_at c) = None -> forall rs apps, reads_streams P rs apps) as Hno.
  { intros P c E Hs rs apps k d i j v r Hk Hsd. rewrite E in Hk. apply list_lookup_singleton_Some in Hk as [_ <-]. congruence. }
  apply (rtc_l _ _ (Nt (Srv [] [] 0 0 0 MIdle [Clr sample_addr AtDialing]) [] [sample_app])).
  { apply net_moves; [right; apply (sv_enters true 0 1 serving_new sample_addr); by left|constructor|done|apply prefix_nil|apply sample_asks|by eapply Hno]. }
  apply (rtc_l _ _ (sample_net pair_new sample_A0 sample_A0 (AtPicked 0))).
  { apply net_moves; [right|apply (relays_spawn _ [])|done|done|apply sample_asks|by eapply Hno].
    apply (sv_dedicated true 0 1 (Srv [] [] 0 0 0 MIdle [Clr sample_addr AtDialing]) 0 sample_addr); [by left|done]. }
  apply rtc_once. apply sample_net_step; [right|apply connects_step|by apply sample_reads_app; [apply prefix_nil|]|by left].
  apply (sv_opens true 0 1 (sample_pool spawn_tunnel (AtPicked 0)) 0 sample_addr 0 (Sp spawn_tunnel false)); [by left|done|done].
Qed.

(** The pumps of the run: a step of one of them, the pool's beside it. *)
Lemma sample_reads_all : reads_app (sample_A0 0%nat) sample_app /\ reads_app (sample_A1 0%nat) sample_app /\ reads_app (sample_A2 0%nat) sample_app.
Proof. split; [by apply sample_reads_app; [apply prefix_nil|]|]. split; by apply sample_reads_app. Qed.

Lemma sample_streaming_step p q A B A' B' : relay_step (small_runtime 1) (Rly p A B) (Rly q A' B') -> reads_app (A' 0%nat) sample_app ->
  sample_pool (pr_client q) (AtStream 0 0) = sample_pool (pr_client p) (AtStream 0 0) \/
    serving_step true 0 1 (sample_pool (pr_client p) (AtStream 0 0)) (sample_pool (pr_client q) (AtStream 0 0)) ->
  net_step true 0 1 (small_runtime 1) (sample_net p A B (AtStream 0 0)) (sample_net q A' B' (AtStream 0 0)).
Proof. intros Hr Hread HP. apply sample_net_step; [exact HP|exact Hr|exact Hread|by right]. Qed.

Lemma sample_net_sending : rtc (net_step true 0 1 (small_runtime 1)) net_new (sample_net sample_sent sample_A2 sample_A0 (AtStream 0 0)).
Proof.
  destruct sample_reads_all as (R0 & R1 & R2). etransitivity; [exact sample_net_opens|].
  destruct (run_elsewhere_cons _ _ _ _ _ sample_run_open) as (p1 & Em & _ & Erun). injection Em as <-.
  etransitivity; [eapply run_net_sound; [exact R0|by left|eapply sample_net_run; [exact Erun|vm_compute; reflexivity]]|].
  eapply rtc_l; [apply sample_net_step; [by left|exact sample_step_reads|exact R1|by right]|].
  apply rtc_once, (sample_streaming_step _ _ _ _ _ _ sample_step_sends R2).
  right. destruct sample_facts as (Hph & _), sample_sends as (t' & Ht & ->). destruct (client_queues _ _ _ _ _ Ht) as [E _].
  assert (after_call 0 0 (AtStream 0 0) (op_phase sample_call) = AtStream 0 0) as Ew by (by rewrite Hph).
  pose proof (sv_acts true 0 1 (sample_pool (pr_client sample_open) (AtStream 0 0)) 0 sample_addr (AtStream 0 0) 0 0 (Sp (pr_client sample_open) false) sample_call
    (OPump sample_data) t' sample_call) as Hacts. rewrite Ew in Hacts. apply Hacts; [by left|exact eq_refl|exact eq_refl|exact eq_refl|exact sample_call_at|exact Ht|exact I|].
  rewrite E. exact sample_call_at.
Qed.

Lemma sample_net_reached : rtc (net_step true 0 1 (small_runtime 1)) net_new (sample_net sample_taken sample_A2 sample_B2 (AtStream 0 0)).
Proof.
  destruct sample_reads_all as (_ & _ & R2). etransitivity; [exact sample_net_sending|].
  etransitivity; [eapply run_net_sound; [exact R2|by right|eapply sample_net_run; [exact sample_run_sent|vm_compute; reflexivity]]|].
  assert (pr_client sample_taken = pr_client sample_arrived) as Etake by (by destruct sample_takes as (s' & _ & ->)).
  eapply rtc_l; [apply (sample_streaming_step _ _ _ _ _ _ sample_step_takes R2); left; by rewrite Etake|].
  apply rtc_once, (sample_streaming_step _ _ _ _ _ _ sample_step_writes R2). by left.
Qed.

(** ** Properties *)

(** C1: every application gets its own target, whatever tunnel it is put on.  Let
    applications connect to the SOCKS5 inbound, the pool dial, share and lose tunnels,
    and every tunnel's two ends and pumps run, all interleaved freely, before any
    tunnel's 2^32nd stream.  Each stream task of the server, on any tunnel, connects
    to the address named in the valid request of some application; what it sends the
    target is a prefix of what that application sent behind its request, and all of
    it when it shuts the connection down; once it sent anything, it is that
    application's own.  No task serves two applications, and no application is
    served by two tasks, be they on different tunnels.  An application that got a
    stream is answered with the method selection, one success reply and, from its own
    task alone, a prefix of what the target sent: all of it when the session ends
    gracefully. *)
Theorem net_end_to_end multi P M rt x :
  is_u32 M -> rtc (net_step multi P M rt) net_new x -> all_small (nt_relays x) ->
  (forall i r n u, nt_relays x !! i = Some r -> tn_tasks (pr_server (rl_pair r)) !! n = Some u ->
     let b := pm_down (rl_server r n) in exists k w ms, nt_apps x !! k = Some w /\
     w = connect_request ms (tk_addr u) ++ unread w /\ METHOD_NO_AUTH ∈ ms /\
     w_written b `prefix_of` unread w /\ (w_shut b = true -> w_written b = unread w) /\
     (w_written b <> [] \/ w_shut b = true -> serves x k i n)) /\
  (forall k i n k' i' n', serves x k i n -> serves x k' i' n' -> (k = k' <-> i = i' /\ n = n')) /\
  (forall k c i j w r d o st, sg_callers (nt_pool x) !! k = Some c -> streams (cl_at c) = Some (i, j) -> nt_apps x !! k = Some w ->
     nt_relays x !! i = Some r -> calls r !! j = Some d -> pm_parent (rl_client r j) = PDone o ->
     let '(res, (io, _, opened)) := forwarded w d (rl_client r j) o st in
     res = Ok tt /\ opened = Some (op_sid d, is_graceful (po_end o)) /\
     exists back, wr_out (io_wr io) = [VER; METHOD_NO_AUTH] ++ reply_bytes REP_SUCCEEDED ++ back /\
       ((back = [] /\ is_graceful (po_end o) = false) \/ exists n, serves x k i n /\ back `prefix_of` u_read (pm_up (rl_server r n)) /\
         (is_graceful (po_end o) = true -> back = u_read (pm_up (rl_server r n)) /\ rd_data (io_rd io) = []))).
Proof.
  intros HM Hr Hsm. pose proof (net_reachable_inv multi P M rt x HM Hr Hsm) as Hx. split; [|split].
  - intros i r n u Hi Hu b. destruct (relay_delivers rt r (ni_relays _ _ _ _ Hx i r Hi)) as [Hd _].
    destruct (Hd n u Hu) as (j & d & Hj & Es & Ea & Hto & _). fold (calls r) in Hj.
    destruct (call_app _ _ _ x i r j d Hx Hi Hj) as (k & c & w & Hk & Hw & Hwf & Hasked & Hmv).
    destruct (asked_spec w _ Hwf Hasked) as (ms & Ew & Hms & Hok & _). rewrite (addr_decode_encode _ Hok) in Ea. injection Ea as Ea.
    exists k, w, ms. rewrite <- Ea. split; [done|]. split; [done|]. split; [done|]. unfold b. destruct (idle (rl_client r j)) eqn:Eid.
    + destruct (idle_delivers _ _ (unread w) Eid Hto) as [Hp Hno]. split; [done|]. split; [intros Hs; destruct Hno; by right|done].
    + destruct (Hmv eq_refl) as [Hs [Hr1 Hr2]], Hto as [Hw1 Hw2]. split; [by etransitivity|]. split.
      * intros Hsh. destruct (Hw2 Hsh) as [E Ht]. rewrite E. apply Hr2. by rewrite Ht.
      * intros _. by exists c, r, j, d, u.
  - intros k i n k' i' n'. by apply (serves_unique multi M rt).
  - intros k c i j w r d o st Hk Hs Hw Hi Hj Ho. destruct (caller_app multi M rt x k c Hx Hk) as (w' & Hw' & Hwf & Hask).
    rewrite Hw in Hw'. injection Hw' as <-. rewrite <- (owned_call multi M rt x i r j k c d) in Hask by done.
    pose proof (forwarded_spec w d (rl_client r j) o st Hwf Hask) as Hf. destruct (forwarded w d (rl_client r j) o st) as [res [[io st'] opened]].
    destruct Hf as (-> & -> & Eo & Ed). split; [done|]. split; [done|]. exists (w_written (pm_down (rl_client r j))). split; [done|].
    rewrite Ed. by apply (stream_answered multi M rt x k c i j w r d o).
Qed.

Lemma net_end_to_end_witness : let x := sample_net sample_taken sample_A2 sample_B2 (AtStream 0 0) in
  rtc (net_step true 0 1 (small_runtime 1)) net_new x /\ w_written (pm_down sample_down) = [1; 2; 3] /\
  exists k w, nt_apps x !! k = Some w /\ [1; 2; 3] `prefix_of` unread w /\ serves x k 0 0.
Proof.
  intros x. split; [exact sample_net_reached|]. split; [reflexivity|]. destruct sample_pumping as (u & Hu & _).
  destruct (net_end_to_end true 0 1 (small_runtime 1) x ltac:(lia) sample_net_reached) as [H _].
  - intros [|i] r Hi; [|discriminate Hi]. injection Hi as <-. vm_compute. reflexivity.
  - destruct (H 0%nat _ 0%nat u eq_refl Hu) as (k & w & ms & Hw & _ & _ & Hp & _ & Hs).
    exists k, w. split; [exact Hw|]. split; [exact Hp|]. apply Hs. left. discriminate.
Defined.
