(* ===== verification/FrameSize.v ===== *)
(** * Every mux frame fits ([crates/common/src/tunnel.rs], [crates/client/src/pool.rs],
      [crates/server/src/lib.rs])

    The writer of a tunnel ends at the first frame it cannot encode, and takes the
    tunnel with it.  No frame that either side ever queues is one: the DATA chunks
    leave room for the mux header, and so do addresses and answers. *)
From S2P Require Import Prelude Errors Base94Codec Base94 Mux Addr Tunnel KeyConfig Config Server Pool TunnelPair.

(** What a session frame can carry. *)
Definition frame_fits (f : OutFrame) : Prop := wf_bytes (message f) /\ 1 <= Z.of_nat (length (message f)) <= 65536.

Lemma new_fits k sid p : is_u32 sid -> wf_bytes p -> Z.of_nat (length p) <= STREAM_CHUNK -> frame_fits (OutFrame_new k sid p).
Proof.
  intros Hu Hw Hl. pose proof (header_length k sid Hu) as Hh. unfold frame_fits, message. cbn [OutFrame_new of_header of_payload].
  split; [by apply wf_bytes_app_2; [apply header_wf|]|]. rewrite length_app. unfold HEADER_MAX, STREAM_CHUNK in *. lia.
Qed.

Lemma pump_fits sid f : is_u32 sid -> pump_frame sid f = true -> frame_fits f.
Proof.
  intros Hu [(d & -> & Hl & Hw)|(k & _ & ->)]%pump_frame_cases; [apply new_fits; [done|done|lia]|].
  apply new_fits; [done|by apply Forall_nil|unfold STREAM_CHUNK; cbn; lia].
Qed.

Lemma addr_encode_fits a : addr_ok a -> wf_bytes (addr_encode a) /\ Z.of_nat (length (addr_encode a)) <= STREAM_CHUNK.
Proof.
  intros [Hp Hh]. unfold addr_encode, encode_into. cbn [app].
  assert (wf_bytes (host_bytes (pa_host a)) /\ Z.of_nat (length (host_bytes (pa_host a))) <= 257) as [Hw Hl].
  { destruct (pa_host a) as [d|[o|o]]; cbn [host_bytes host_ok] in *.
    - destruct Hh as [Hg Hd]. rewrite utf8_ascii by (by apply graphic_ascii). rewrite Nat.min_l, firstn_all by lia.
      split; [|rewrite length_app; cbn [length]; lia].
      apply wf_bytes_app_2; [repeat (apply Forall_cons; split; [unfold ATYP_DOMAIN; lia|]); by apply Forall_nil|].
      by apply graphic_wf.
    - destruct Hh as [Hw Hd]. split; [apply Forall_cons; split; [unfold ATYP_IPV4; lia|done]|cbn [length]; lia].
    - destruct Hh as [Hw Hd]. split; [apply Forall_cons; split; [unfold ATYP_IPV6; lia|done]|cbn [length]; lia]. }
  split; [apply wf_bytes_app_2; [done|apply be_bytes_wf]|]. rewrite length_app, be_bytes_length. unfold STREAM_CHUNK. lia.
Qed.

(** ** Over the steps of a tunnel *)

Definition asks_ok (t : Pool.Tunnel) : Prop := forall i c, ct_calls t !! i = Some c -> addr_ok (op_addr c).

(** Calls keep their address. *)
Lemma asks_ok_mono t t' who fs : client_effect t t' who fs -> asks_ok t' -> asks_ok t.
Proof.
  intros He Hok i c Hc. pose proof (ce_length _ _ _ _ He) as Hlen.
  destruct (ct_calls t' !! i) as [c'|] eqn:E; [|apply lookup_lt_Some in Hc; apply lookup_ge_None in E; lia].
  destruct (ce_calls _ _ _ _ He i c' E) as [(d & Hd & _ & Ea & _)|[Hn _]]; [|congruence].
  rewrite Hc in Hd. injection Hd as <-. rewrite <- Ea. by eapply Hok.
Qed.

Lemma may_queue_fits t who fs : client_inv t -> asks_ok t -> may_queue t who fs -> Forall frame_fits fs.
Proof.
  intros Hi Hok Hq. destruct Hq as [|i c Hc Hp|i c f Hc Ho Hf|sid Hu]; [by apply Forall_nil| | |];
    (apply Forall_cons; split; [|by apply Forall_nil]).
  - destruct (addr_encode_fits (op_addr c) (Hok i c Hc)). apply new_fits; [by eapply sid_u32|done|done].
  - eapply pump_fits; [|exact Hf]. by eapply sid_u32.
  - eapply pump_fits; [exact Hu|apply pump_frame_close].
Qed.

Lemma may_answer_fits rt s who fs : tunnel_inv rt s -> may_answer s who fs -> Forall frame_fits fs.
Proof.
  intros Hi Hq. destruct Hq as [|i t ok Ht Hp|i t f rx Ht Hp Hf|sid Hu]; [by apply Forall_nil| | |];
    (apply Forall_cons; split; [|by apply Forall_nil]).
  - apply new_fits; [by eapply task_u32, inv_tasks| |unfold STREAM_CHUNK; cbn; lia].
    apply Forall_cons; split; [|by apply Forall_nil]. unfold REPLY_OK, REPLY_REFUSED. destruct ok; lia.
  - eapply pump_fits; [|exact Hf]. by eapply task_u32, inv_tasks.
  - eapply pump_fits; [exact Hu|apply pump_frame_close].
Qed.

(** A frame read by the server makes it queue a CLOSE at most. *)
Lemma demux_log rt msg s : wf_bytes msg -> exists fs, out_log (demux_frame rt msg s) = out_log s ++ fs /\ Forall frame_fits fs.
Proof.
  intros Hw. assert (exists fs : list OutFrame, out_log s = out_log s ++ fs /\ Forall frame_fits fs) as Hsame
    by (exists []; by rewrite app_nil_r).
  unfold demux_frame. destruct (parse_frame msg) as [[[k sid] p]|e] eqn:Ep; [|exact Hsame].
  assert (is_u32 sid) as Hu by (by eapply parse_frame_u32).
  assert (exists fs, out_log (out_try_send (OutFrame_bare Close sid) s) = out_log s ++ fs /\ Forall frame_fits fs) as Hclose.
  { destruct (out_try_send_spec (OutFrame_bare Close sid) s) as (_ & _ & _ & [->| ->]); [exact Hsame|].
    eexists. split; [done|]. apply Forall_cons. split; [|by apply Forall_nil]. eapply pump_fits; [exact Hu|apply pump_frame_close]. }
  destruct k; [|exact Hsame| | |exact Hsame].
  - unfold handle_open. repeat (case_match; try exact Hclose); exact Hsame.
  - unfold route. repeat (case_match; try exact Hclose); exact Hsame.
  - unfold route. repeat (case_match; try exact Hclose); exact Hsame.
Qed.

Record sized (s : Pair) : Prop := {
  sz_client : asks_ok (pr_client s) -> Forall frame_fits (client_log s);
  sz_server : Forall frame_fits (out_log (pr_server s))
}.

Lemma sized_step rt s s' : pair_step rt s s' -> pair_inv rt s -> sized s -> sized s'.
Proof.
  intros Hst Hinv [Hc Hs]. pose proof Hinv as [Hic His _ Hup _ _ _].
  destruct Hst as [t t' up n s m Hloc|t f q up n s m Ho Hq|t f d up n s m Hrd Hf|t up n s s' m Hloc|t up n f s m Hd Hf Hw];
    unfold client_log in *; cbn [pr_client pr_server pr_up] in *.
  - destruct (client_local_effect t t' Hic Hloc) as [(who & fs & He) _]. split; [|exact Hs].
    unfold client_log. cbn [pr_client pr_up]. intros Hok. pose proof (asks_ok_mono _ _ _ _ He Hok) as Hok0.
    rewrite (ce_queue _ _ _ _ He), app_assoc. apply Forall_app. split; [auto|]. by eapply may_queue_fits; [| |apply (ce_fs _ _ _ _ He)].
  - split; [|exact Hs]. unfold client_log. cbn [pr_client pr_up with_out ct_queue]. rewrite Hq in Hc. rewrite <- app_assoc. exact Hc.
  - assert (f ∈ out_log s) as Hfl by (unfold out_log; apply elem_of_app; left; by eapply list_elem_of_lookup_2).
    destruct (sv_frames _ _ Hup f Hfl) as (k & sid & p & Ef & Hu & Hk & _).
    assert (parse_frame (message f) = Ok (k, sid, p)) as Ep by (rewrite Ef; by apply parse_frame_header).
    destruct (reader_frame_effect (message f) d t k sid p Hic Ep Hu Hk) as [fs He]. split; [|exact Hs].
    unfold client_log. cbn [pr_client pr_up]. intros Hok. pose proof (asks_ok_mono _ _ _ _ He Hok) as Hok0.
    rewrite (ce_queue _ _ _ _ He), app_assoc. apply Forall_app. split; [auto|]. by eapply may_queue_fits; [| |apply (ce_fs _ _ _ _ He)].
  - destruct (tunnel_local_effect rt s s' His Hloc) as (who & fs & He). split; [exact Hc|]. cbn [pr_server].
    rewrite (se_log _ _ _ _ He). apply Forall_app. split; [exact Hs|]. by eapply may_answer_fits; [|apply (se_fs _ _ _ _ He)].
  - split; [exact Hc|]. cbn [pr_server]. destruct (demux_log rt (message f) s Hw) as (fs & -> & Hfs). by apply Forall_app.
Qed.

Lemma sized_reachable rt s : rtc (pair_step rt) pair_new s -> small (pr_client s) -> sized s.
Proof.
  intros Hr. revert s Hr. apply (rtc_ind_r (fun s => small (pr_client s) -> sized s)); [intros _; split; [intros _|]; by apply Forall_nil|].
  intros s s' Hr Hst IH Hsm. assert (small (pr_client s)) as Hsm0 by (pose proof (pair_step_length rt s s' Hst); unfold small in *; lia).
  eapply sized_step; [done|by apply pair_reachable_inv|by apply IH].
Qed.

(** ** What a frame may be answered with

    Anything but a CLOSE may be bounced by one. *)
Definition bounces (f : OutFrame) : bool := match parse_frame (message f) with Ok (Close, _, _) => false | _ => true end.
Definition in_demux (d : Demux) : nat := match d with DRouting _ _ _ => 1 | _ => 0 end.

Lemma bounces_new k st p : is_u32 st -> bounces (OutFrame_new k st p) = negb (bool_decide (k = Close)).
Proof. intros Hu. unfold bounces, message. cbn [of_header of_payload OutFrame_new]. rewrite parse_frame_header by done. by destruct k. Qed.
