(* ===== verification/Answer.v ===== *)
(** * An OPEN is answered

    A call of [Tunnel::open] that waits ([client/pool.rs]), the server's task that
    connects for it ([server/lib.rs]), and everything between them: the frames of other
    streams, the demux loops, the writers.  As long as the tunnel lives, the budget is
    not over and the server has room for the stream, the answer comes. *)
From S2P Require Import Prelude Errors Mux Addr Tunnel KeyConfig Config Server Pool TunnelPair PumpStream Relay FrameSize.

(** ** Who waits, and for what *)

Section Waiting.
Implicit Types t : Pool.Tunnel.

(** The call has no answer yet. *)
Definition unanswered (c : OpenCall) : Prop := awaiting c = true /\ op_reply c = None.

(** A step of the client that leaves a call waiting left it with its waiter. *)
Record asks_on (t t' : Pool.Tunnel) (i : nat) (c' : OpenCall) (k : FrameKind) (st : Z) : Prop := {
  ao_alive : ct_alive t = true;
  ao_call : (exists c, ct_calls t !! i = Some c /\ op_sid c = op_sid c' /\ unanswered c /\
      (ct_pending t !! op_sid c' = Some i -> ct_pending t' !! op_sid c' = Some i /\ (k = Reply -> st <> op_sid c'))) \/
    (ct_calls t !! i = None /\ ct_pending t' !! op_sid c' = Some i)
}.

(** Every waiting call of a live tunnel. *)
Definition asks_kept t t' (k : FrameKind) (st : Z) : Prop :=
  forall i c', ct_calls t' !! i = Some c' -> unanswered c' -> ct_alive t' = true -> asks_on t t' i c' k st.

Lemma asks_kept_same t t' k st : k <> Reply -> ct_calls t' = ct_calls t -> ct_alive t' = ct_alive t -> ct_pending t' = ct_pending t -> asks_kept t t' k st.
Proof. intros Hk Ec Ea Ep i c Hc Hu Hal. split; [congruence|left]. exists c. rewrite <- Ec, Ep. split_and!; auto; apply Hu. Qed.

(** The tunnel is dead afterwards. *)
Lemma asks_kept_dead t t' k st : ct_alive t' = false -> asks_kept t t' k st.
Proof. intros E i c Hc Hu Hal. congruence. Qed.

Lemma mark_dead_alive t : ct_alive (mark_dead t) = false.
Proof. unfold mark_dead. by destruct (ct_alive t) eqn:E. Qed.

Lemma try_send_waiters f t : ct_alive (tunnel_try_send f t) = ct_alive t /\ ct_pending (tunnel_try_send f t) = ct_pending t.
Proof. unfold tunnel_try_send. by destruct (_ && _). Qed.

(** A call is closed and its waiter dropped. *)
Lemma asks_kept_closed t t' j c k st : client_inv t -> small t -> ct_calls t !! j = Some c -> k <> Reply ->
  ct_calls t' = <[j := set_open_phase OClosed c]> (ct_calls t) ->
  (ct_alive t' = true -> ct_alive t = true /\ ct_pending t' = delete (op_sid c) (ct_pending t)) -> asks_kept t t' k st.
Proof.
  intros Hi Hsm Hc Hk Ec Hal i d Hd Hu Ha. destruct (Hal Ha) as [Ha' Ep]. split; [done|left]. rewrite Ec in Hd.
  destruct (insert_calls _ _ _ _ _ _ Hc Hd) as [[-> ->]|[Hne Hd']]; [by destruct Hu|]. exists d. split_and!; auto; try apply Hu.
  rewrite Ep, lookup_delete_ne; [done|]. intros E. apply Hne. by eapply (sid_inj t i j d c).
Qed.

Lemma open_step_asks i c a t t' : client_inv t -> small t -> ct_calls t !! i = Some c -> open_step i c a t = Some t' -> asks_kept t t' Data 0.
Proof.
  intros Hi Hsm Hc E.
  assert (forall p t1, ct_calls t1 = <[i := set_open_phase p c]> (ct_calls t) -> awaiting c = true \/ awaiting (set_open_phase p c) = false ->
    ct_alive t1 = ct_alive t -> ct_pending t1 = ct_pending t -> asks_kept t t1 Data 0) as Hphase.
  { intros p t1 Ec Hp Ea Ep j d Hd Hu Hal. split; [congruence|left]. rewrite Ec in Hd.
    destruct (insert_calls _ _ _ _ _ _ Hc Hd) as [[-> ->]|[Hne Hd']]; [|exists d; rewrite Ep; split_and!; auto; apply Hu].
    destruct Hp as [Hp|Hp]; [|destruct Hu as [Hu _]; congruence]. exists c. rewrite Ep. split_and!; auto. split; [done|apply Hu]. }
  unfold open_step in E. unfold awaiting in Hphase. destruct (op_phase c) as [| |g|] eqn:Ep, a; try discriminate.
  - destruct (_ && _); [|discriminate]. injection E as <-. apply (Hphase OWaiting); auto.
  - destruct (ct_closed t); [|discriminate]. injection E as <-. apply asks_kept_dead, mark_dead_alive.
  - destruct (decide _); [|discriminate]. injection E as <-. apply (Hphase (OStreaming false)); auto.
  - destruct (decide _); [|discriminate]. injection E as <-. by apply (asks_kept_closed t _ i c).
  - destruct (decide _); [|discriminate]. injection E as <-. by apply (asks_kept_closed t _ i c).
  - destruct (decide _); [|discriminate]. injection E as <-.
    destruct (try_send_waiters (OutFrame_bare Close (op_sid c)) (unregister (op_sid c) t)) as [Ea Epd], (try_send_spec (OutFrame_bare Close (op_sid c)) (unregister (op_sid c) t)) as (Ec & _).
    apply (asks_kept_closed t _ i c); try done; cbn [with_call ct_calls ct_alive ct_pending]; [by rewrite Ec|by rewrite Ea, Epd].
  - destruct (_ && _); [|discriminate]. injection E as <-. by apply asks_kept_same.
  - injection E as <-. apply (Hphase (OStreaming true)); auto.
  - injection E as <-. set (t2 := if g then unregister (op_sid c) t else _).
    assert (ct_calls t2 = ct_calls t /\ ct_alive t2 = ct_alive t /\ ct_pending t2 = delete (op_sid c) (ct_pending t)) as (Ec & Ea & Epd).
    { unfold t2. destruct g; [done|]. destruct (try_send_waiters (OutFrame_bare Close (op_sid c)) (unregister (op_sid c) t)) as [-> ->].
      by destruct (try_send_spec (OutFrame_bare Close (op_sid c)) (unregister (op_sid c) t)) as (-> & _). }
    destruct dedicated; [apply asks_kept_dead, mark_dead_alive|].
    apply (asks_kept_closed t _ i c); try done; cbn [with_call ct_calls ct_alive ct_pending]; [by rewrite Ec|by rewrite Ea, Epd].
Qed.

Lemma client_local_asks t t' : client_inv t -> small t -> client_local t t' -> asks_kept t t' Data 0.
Proof.
  intros Hi Hsm Hst. destruct Hst as [addr t|i c a t t' Hc E|t _|t|t]; [|by eapply open_step_asks|apply asks_kept_dead, mark_dead_alive..|by apply asks_kept_same].
  intros i c' Hc Hu Ha. split; [exact Ha|].
  change (ct_calls (open_begin addr t)) with (ct_calls t ++ [Call (u32 (ct_next t + 1)) addr OSending None []]) in Hc.
  change (ct_pending (open_begin addr t)) with (<[u32 (ct_next t + 1) := length (ct_calls t)]> (ct_pending t)).
  apply lookup_app_Some in Hc as [Hc|[Hge Hc]].
  - left. exists c'. split; [done|]. split; [done|]. split; [done|]. intros Hp. split; [|done]. rewrite lookup_insert_ne; [done|].
    rewrite (ci_next _ Hi), (ci_sid _ Hi i c' Hc). pose proof (lookup_lt_Some _ _ _ Hc) as Hl. unfold small in Hsm. unfold u32.
    rewrite (Z.mod_small (Z.of_nat (length _))), (Z.mod_small (Z.of_nat i + 1)) by lia.
    destruct (decide (Z.of_nat (length (ct_calls t)) + 1 = 2 ^ 32)) as [->|Hne]; [rewrite Z_mod_same_full; lia|rewrite Z.mod_small by lia; lia].
  - apply list_lookup_singleton_Some in Hc as [Hz <-]. right. cbn [op_sid]. split; [apply lookup_ge_None; lia|].
    replace i with (length (ct_calls t)) by lia. by rewrite lookup_insert_eq.
Qed.

(** A frame read: a REPLY takes its waiter along. *)
Lemma reader_frame_asks f d t k st pl : client_inv t -> f = OutFrame_new k st pl -> is_u32 st -> k <> Open ->
  (forall i c, ct_calls t !! i = Some c -> unanswered c -> ct_alive t = true -> ct_pending t !! op_sid c = Some i) ->
  asks_kept t (reader_frame (message f) d t) k st.
Proof.
  intros Hi Ef Hu Hk Hpend. assert (parse_frame (message f) = Ok (k, st, pl)) as Ep by (rewrite Ef; by apply parse_frame_header).
  assert (forall ev, k <> Reply -> asks_kept t (route_event st ev d t) k st) as Hroute.
  { intros ev Hk'. unfold route_event.
    assert (forall t1, ct_calls t1 = ct_calls t -> ct_alive t1 = ct_alive t -> ct_pending t1 = ct_pending t -> asks_kept t (tunnel_try_send (OutFrame_bare Close st) t1) k st) as Hdrop.
    { intros t1 Ec Ea Epd. destruct (try_send_waiters (OutFrame_bare Close st) t1) as [Ea' Epd'], (try_send_spec (OutFrame_bare Close st) t1) as (Ec' & _).
      apply asks_kept_same; [done|congruence..]. }
    destruct (ct_registry t !! st) as [j|]; [|by apply Hdrop]. destruct d, (ct_calls t !! j) as [c|] eqn:Hc; try (by apply Hdrop).
    intros i c' Hc' Hun Ha. split; [exact Ha|left]. destruct (insert_calls _ _ _ _ _ _ Hc Hc') as [[-> ->]|[_ Hd]]; [exists c|exists c'].
    - split; [done|]. split; [done|]. split; [exact Hun|]. by intros Hp.
    - split; [done|]. split; [done|]. split; [done|]. by intros Hp. }
  unfold reader_frame. rewrite Ep. destruct k; [done| |by apply Hroute|by apply Hroute|by apply asks_kept_same].
  intros i c' Hc' Hun Ha. unfold reader_reply in *. destruct (ct_pending t !! st) as [j|] eqn:Hp.
  - destruct (ci_pending _ Hi _ _ Hp) as (c & Hc & Es & _). rewrite Hc in *. split; [exact Ha|left].
    destruct (insert_calls _ _ _ _ _ _ Hc Hc') as [[-> ->]|[Hne Hd]]; [by destruct Hun|]. exists c'. split; [done|]. split; [done|]. split; [done|].
    intros Hp'. assert (st <> op_sid c') as Hst by (intros ->; congruence). split; [|by intros _]. cbn. by rewrite lookup_delete_ne.
  - split; [exact Ha|left]. exists c'. split; [exact Hc'|]. split; [done|]. split; [done|]. intros Hp'.
    assert (st <> op_sid c') as Hst by (intros ->; congruence). split; [|by intros _]. cbn. by rewrite lookup_delete_ne.
Qed.
End Waiting.

(** A task that is past its answer gave it, unless the writer was gone. *)
Lemma task_replied rt s i u a s' : tunnel_inv rt s -> tn_tasks s !! i = Some u -> task_step i u a s = Some s' ->
  forall j u', tn_tasks s' !! j = Some u' -> unreplied (tk_phase u') = false ->
  (exists v, tn_tasks s !! j = Some v /\ tk_stream v = tk_stream u' /\ unreplied (tk_phase v) = false) \/
  tn_closed s' = true \/ (0 < kinds Reply (tk_stream u') (out_log s'))%nat.
Proof.
  intros Hi Hu E j u' Hj Hn.
  assert (forall v, tn_tasks s' = <[i := v]> (tn_tasks s) -> tk_stream v = tk_stream u -> (unreplied (tk_phase v) = false -> unreplied (tk_phase u) = false \/
      tn_closed s' = true \/ (0 < kinds Reply (tk_stream u) (out_log s'))%nat) ->
    (exists v, tn_tasks s !! j = Some v /\ tk_stream v = tk_stream u' /\ unreplied (tk_phase v) = false) \/
    tn_closed s' = true \/ (0 < kinds Reply (tk_stream u') (out_log s'))%nat) as Hins.
  { intros v Et Es Hv. rewrite Et in Hj. apply list_lookup_insert_Some in Hj as [(<- & <- & _)|[Hne Hj]]; [|left; by exists u'].
    rewrite Es. destruct (Hv Hn) as [?|?]; [left; by exists u|by right]. }
  unfold task_step in E. destruct (tk_phase u) as [|ok|[]|r|] eqn:Ep, a; try discriminate.
  - injection E as <-. by eapply Hins.
  - destruct (tn_closed s) eqn:Ec.
    + injection E as <-. right. left. cbn. exact Ec.
    + destruct (_ <? _)%nat; [|discriminate]. injection E as <-. eapply Hins; [done|done|]. intros _. right. right.
      assert (out_log (with_task i (set_phase (if ok then TPumping true else TRemoving true) u) (enqueue (reply_frame (tk_stream u) ok) s)) =
        out_log s ++ [reply_frame (tk_stream u) ok]) as -> by (unfold out_log; cbn; by rewrite app_assoc).
      assert (is_u32 (tk_stream u)) as H32 by (by eapply task_u32, inv_tasks).
      unfold reply_frame. rewrite kinds_snoc, is_kind_new, bool_decide_true, Z.eqb_refl by done. simpl. lia.
  - destruct (tk_queue u); [discriminate|]. destruct (pump_over u); [discriminate|]. injection E as <-. eapply Hins; [done|done|by left].
  - injection E as <-. eapply Hins; [done|done|by left].
  - destruct (_ && _); [|discriminate]. injection E as <-. left. by exists u'.
  - destruct (_ && _); [|discriminate]. injection E as <-. left. by exists u'.
  - injection E as <-. eapply Hins; [done|done|by left].
  - injection E as <-. eapply Hins; [done|done|by left].
Qed.

Lemma local_replied rt s s' : tunnel_inv rt s -> tunnel_local s s' -> forall j u', tn_tasks s' !! j = Some u' -> unreplied (tk_phase u') = false ->
  (exists v, tn_tasks s !! j = Some v /\ tk_stream v = tk_stream u' /\ unreplied (tk_phase v) = false) \/
  tn_closed s' = true \/ (0 < kinds Reply (tk_stream u') (out_log s'))%nat.
Proof.
  intros Hi Hst j u' Hj Hn. destruct Hst as [s stream ev i u Hd Hu Hrc Hroom|s stream ev i u Hd Hu _|s stream ev i u Hd Hu _|s i u a s' Hu E|s f q Hc Hq|s Hd|s Hc];
    [| | |by eapply task_replied| | |]; cbn [with_demux with_task tn_tasks] in Hj; left; try (by exists u').
  - apply list_lookup_insert_Some in Hj as [(-> & <- & _)|[_ Hj]]; [by exists u|by exists u'].
  - unfold route_drop in Hj. cbn [with_demux tn_tasks] in Hj. rewrite (proj1 (out_try_send_spec _ _)) in Hj. by exists u'.
  - unfold route_drop in Hj. cbn [with_demux tn_tasks] in Hj. rewrite (proj1 (out_try_send_spec _ _)) in Hj. by exists u'.
Qed.

Lemma local_closed s s' : tunnel_local s s' -> tn_closed s = true -> tn_closed s' = true.
Proof.
  intros Hst Hc. destruct Hst as [| | |s i u a s' Hu E|s f q Hc' Hq| |]; try done.
  - unfold route_drop, out_try_send. by destruct (_ && _).
  - unfold route_drop, out_try_send. by destruct (_ && _).
  - unfold task_step in E. destruct (tk_phase u), a; try done; repeat (case_match; try done); by injection E as <-.
  - congruence.
Qed.

(** ** What holds of every call and task *)

Record answer_inv (p : Pair) : Prop := {
  ai_pending : forall i c, ct_calls (pr_client p) !! i = Some c -> unanswered c -> ct_alive (pr_client p) = true -> ct_pending (pr_client p) !! op_sid c = Some i;
  ai_seen : forall i c, ct_calls (pr_client p) !! i = Some c -> unanswered c -> ct_alive (pr_client p) = true -> kinds Reply (op_sid c) (down_seen p) = 0%nat;
  ai_replied : forall j u, tn_tasks (pr_server p) !! j = Some u -> unreplied (tk_phase u) = false ->
    tn_closed (pr_server p) = true \/ (0 < kinds Reply (tk_stream u) (out_log (pr_server p)))%nat
}.

Lemma answer_inv_new : answer_inv pair_new.
Proof. by split. Qed.

(** A stream the client read an answer of was opened by a call. *)
Lemma reply_known rt p sid : pair_inv rt p -> (0 < kinds Reply sid (out_log (pr_server p)))%nat ->
  exists j c, ct_calls (pr_client p) !! j = Some c /\ op_sid c = sid.
Proof.
  intros Hp (f & Hf & Hk)%kinds_elem. destruct (sv_frames _ _ (pi_up _ _ Hp) f Hf) as (k & st & x & -> & Hu & _ & Hc).
  rewrite is_kind_new in Hk by done. apply andb_prop in Hk as [->%bool_decide_eq_true ->%Z.eqb_eq].
  destruct Hc as (i & u & Hu' & Es & _); [done|]. destruct (task_call rt p i u Hp Hu') as (j & c & Hc & Ec & _). exists j, c. split; [done|congruence].
Qed.

(** The client moves, or reads a frame. *)
Lemma client_answer_inv rt t t' up n s m m' fs k st : pair_inv rt (Pr t up n s m) -> client_inv t' -> small t' ->
  (forall j d, ct_calls t !! j = Some d -> exists d', ct_calls t' !! j = Some d' /\ op_sid d' = op_sid d) ->
  (fs = [] \/ length (ct_calls t') = length (ct_calls t)) ->
  asks_kept t t' k st -> down_seen (Pr t' up n s m') = down_seen (Pr t up n s m) ++ fs ->
  (forall sid, sid <> st \/ k <> Reply -> kinds Reply sid fs = 0%nat) ->
  answer_inv (Pr t up n s m) -> answer_inv (Pr t' up n s m').
Proof.
  intros Hp Hi' Hsm Hold Hlen Hkept Ed Hfs [A1 A2 A3]. cbn [pr_client pr_server] in *. split; cbn [pr_client pr_server]; [| |done].
  - intros i c Hc Hun Hal. destruct (Hkept i c Hc Hun Hal) as [Ha [(c0 & Hc0 & Es & Hun0 & Hpd)|[_ Hpd]]]; [|done].
    apply Hpd. rewrite <- Es. by apply A1.
  - intros i c Hc Hun Hal. rewrite Ed, kinds_app. destruct (Hkept i c Hc Hun Hal) as [Ha [(c0 & Hc0 & Es & Hun0 & Hpd)|[Hn _]]].
    + destruct Hpd as [_ Hne]; [rewrite <- Es; by apply A1|]. rewrite <- Es at 1. rewrite (A2 i c0 Hc0 Hun0 Ha), Hfs; [done|].
      destruct (decide (k = Reply)) as [->|]; [left; intros E; by apply (Hne eq_refl)|by right].
    + destruct Hlen as [->|Hlen]; [|apply lookup_ge_None in Hn; apply lookup_lt_Some in Hc; lia]. rewrite Nat.add_0_r.
      destruct (kinds Reply (op_sid c) (down_seen (Pr t up n s m))) as [|x] eqn:Ek; [done|exfalso].
      destruct (reply_known rt _ (op_sid c) Hp) as (j & d & Hd & Es).
      { cbn [pr_server]. pose proof (kinds_prefix Reply (op_sid c) _ _ (down_seen_prefix (Pr t up n s m))) as Hle. cbn [pr_server] in Hle. lia. }
      destruct (Hold j d Hd) as (d' & Hd' & Es'). assert (i = j) as -> by (eapply (sid_inj t' i j c d'); [done|done|done|done|congruence]).
      cbn [pr_client] in Hd. congruence.
Qed.

Lemma effect_old t t' who fs j d : client_effect t t' who fs -> ct_calls t !! j = Some d -> exists d', ct_calls t' !! j = Some d' /\ op_sid d' = op_sid d.
Proof.
  intros He Hd. pose proof (ce_length _ _ _ _ He) as Hlen.
  destruct (ct_calls t' !! j) as [d'|] eqn:E; [|apply lookup_lt_Some in Hd; apply lookup_ge_None in E; lia]. exists d'. split; [done|].
  destruct (ce_calls _ _ _ _ He j d' E) as [(e & He' & Es & _)|[Hn _]]; [|congruence]. rewrite Hd in He'. by injection He' as <-.
Qed.

Lemma reader_length msg d t : length (ct_calls (reader_frame msg d t)) = length (ct_calls t).
Proof.
  unfold reader_frame, reader_reply, route_event, reader_end.
  repeat (case_match; try done); cbn; rewrite ?length_insert, ?(proj1 (mark_dead_spec _)); try done; by rewrite (proj1 (try_send_spec _ _)).
Qed.

(** What the demux loop does with a frame of the client: the tasks stay as they are to
    the client, but for a new one. *)
Lemma demux_phases rt k st pl s : is_u32 st -> k <> Reply -> let s' := demux_frame rt (message (OutFrame_new k st pl)) s in
  ((forall j u', tn_tasks s' !! j = Some u' -> exists u, tn_tasks s !! j = Some u /\ tk_stream u' = tk_stream u /\ tk_phase u' = tk_phase u) \/
   exists addr, k = Open /\ tn_tasks s' = tn_tasks s ++ [Tk st addr TConnecting [] [] []]) /\
  tn_closed s' = tn_closed s /\ out_log s `prefix_of` out_log s'.
Proof.
  intros Hu Hk s'. unfold s', demux_frame. assert (parse_frame (message (OutFrame_new k st pl)) = Ok (k, st, pl)) as -> by (by apply parse_frame_header).
  assert (forall s1, tn_tasks s1 = tn_tasks s -> forall j u', tn_tasks s1 !! j = Some u' -> exists u, tn_tasks s !! j = Some u /\ tk_stream u' = tk_stream u /\ tk_phase u' = tk_phase u) as Hsame
    by (intros s1 -> j u' Hj; by exists u').
  set (close := out_try_send (OutFrame_bare Close st) s).
  assert (((forall j u', tn_tasks close !! j = Some u' -> exists u, tn_tasks s !! j = Some u /\ tk_stream u' = tk_stream u /\ tk_phase u' = tk_phase u) \/
    exists addr, k = Open /\ tn_tasks close = tn_tasks s ++ [Tk st addr TConnecting [] [] []]) /\ tn_closed close = tn_closed s /\ out_log s `prefix_of` out_log close) as Hclose.
  { unfold close. destruct (out_try_send_spec (OutFrame_bare Close st) s) as (Et & _ & _ & El). split; [left; by apply Hsame|].
    split; [unfold out_try_send; by destruct (_ && _)|]. destruct El as [->| ->]; [done|by apply prefix_app_r]. }
  assert (forall ev, ((forall j u', tn_tasks (route st ev s) !! j = Some u' -> exists u, tn_tasks s !! j = Some u /\ tk_stream u' = tk_stream u /\ tk_phase u' = tk_phase u) \/
    exists addr, k = Open /\ tn_tasks (route st ev s) = tn_tasks s ++ [Tk st addr TConnecting [] [] []]) /\
    tn_closed (route st ev s) = tn_closed s /\ out_log s `prefix_of` out_log (route st ev s)) as Hroute.
  { intros ev. unfold route. destruct (tn_registry s !! st) as [i|]; [|exact Hclose].
    destruct (tn_tasks s !! i) as [u|] eqn:Ei; [|split; [left; by apply Hsame|done]]. split; [left|done].
    cbn. intros j u' [(-> & <- & _)|[_ Hj]]%list_lookup_insert_Some; [by exists u|by exists u']. }
  destruct k; [|done|apply Hroute|apply Hroute|split; [left; by apply Hsame|done]].
  unfold handle_open. cbv zeta. fold close. destruct (bool_decide _); [exact Hclose|].
  destruct (match rt_max_streams_per_conn rt with Some _ => _ | None => _ end); [exact Hclose|].
  destruct (addr_decode pl) as [addr|]; [|exact Hclose]. split; [right; by exists addr|done].
Qed.

Lemma answer_inv_step rt p p' : pair_inv rt p -> small (pr_client p') -> pair_step rt p p' -> answer_inv p -> answer_inv p'.
Proof.
  intros Hp Hsm Hst Hai. pose proof (pair_step_length rt p p' Hst) as Hlen. pose proof (pair_step_inv rt p p' Hst Hsm Hp) as Hp'.
  assert (small (pr_client p)) as Hsm0 by (unfold small in *; lia). pose proof (pi_client _ _ Hp) as Hic. pose proof (pi_client _ _ Hp') as Hic'.
  destruct Hst as [t t' up n s m Hloc|t f q up n s m Hc Hq|t f d up n s m Hrd Hf|t up n s s' m Hloc|t up n f s m Hd Hf Hw]; cbn [pr_client pr_server] in *.
  - destruct (client_local_effect t t' Hic Hloc) as [(who & fs & He) _].
    eapply (client_answer_inv rt t t' up n s m m [] Data 0); [done..| |by left|by apply client_local_asks|by rewrite app_nil_r|done|done].
    intros j d. by eapply effect_old.
  - destruct Hai as [A1 A2 A3]. by split.
  - assert (f ∈ out_log s) as Hfl by (unfold out_log; apply elem_of_app; left; by eapply list_elem_of_lookup_2).
    destruct (sv_frames _ _ (pi_up _ _ Hp) f Hfl) as (k & st & x & Ef & Hu & Hk & _).
    assert (parse_frame (message f) = Ok (k, st, x)) as Epf by (rewrite Ef; by apply parse_frame_header).
    destruct (reader_frame_effect (message f) d t k st x Hic Epf Hu Hk) as [fs He].
    eapply (client_answer_inv rt t _ up n s m (S m) [f] k st); [done|done|done| | | | | |done].
    + intros j e. by eapply effect_old.
    + right. apply reader_length.
    + eapply reader_frame_asks; [done|done|done|done|]. apply Hai.
    + unfold down_seen. cbn. by apply take_S_r.
    + intros sid Hne. rewrite Ef, kinds_new by done. destruct (decide _) as [[-> ->]|]; [|done]. by destruct Hne.
  - destruct Hai as [A1 A2 A3]. pose proof (pi_down_read _ _ Hp) as Hm. destruct (tunnel_local_effect rt s s' (pi_server _ _ Hp) Hloc) as (who & fs & He). split; cbn [pr_client pr_server] in *; [done| |].
    + intros i c Hc Hun Hal. rewrite <- (A2 i c Hc Hun Hal). unfold down_seen. cbn. by rewrite (take_of_prefix _ _ m (local_wire _ _ Hloc) Hm).
    + intros j u' Hj Hn. destruct (local_replied rt s s' (pi_server _ _ Hp) Hloc j u' Hj Hn) as [(v & Hv & Es & Hn')|?]; [|done].
      destruct (A3 j v Hv Hn') as [?|Hk]; [left; by eapply local_closed|right]. rewrite <- Es, (se_log _ _ _ _ He), kinds_app. lia.
  - destruct Hai as [A1 A2 A3]. split; cbn [pr_client pr_server] in *; [done| |].
    + intros i c Hc Hun Hal. rewrite <- (A2 i c Hc Hun Hal). unfold down_seen. cbn. by rewrite demux_wire.
    + intros j u' Hj Hn. assert (f ∈ client_log (Pr t up n s m)) as Hfl by (unfold client_log; cbn; apply elem_of_app; left; by eapply list_elem_of_lookup_2).
      destruct (lo_frames _ _ (pi_log _ _ Hp) f Hfl) as (k & st & x & -> & Hu & Hk & _).
      destruct (demux_phases rt k st x s Hu Hk) as (Hts & Hc & Hpre). rewrite Hc. destruct Hts as [Hts|(addr & _ & Et)].
      * destruct (Hts j u' Hj) as (u & Hj' & -> & Eph). rewrite Eph in Hn. destruct (A3 j u Hj' Hn) as [?|Hr]; [by left|right].
        eapply Nat.lt_le_trans; [exact Hr|by apply kinds_prefix].
      * rewrite Et in Hj. apply lookup_app_Some in Hj as [Hj|[_ Hj]]; [|apply list_lookup_singleton_Some in Hj as [_ <-]; done].
        destruct (A3 j u' Hj Hn) as [?|Hr]; [by left|right]. eapply Nat.lt_le_trans; [exact Hr|by apply kinds_prefix].
Qed.

Lemma answer_inv_reached rt p : rtc (pair_step rt) pair_new p -> small (pr_client p) -> answer_inv p.
Proof.
  intros Hr. revert p Hr. apply (rtc_ind_r (fun p => small (pr_client p) -> answer_inv p)); [intros _; apply answer_inv_new|].
  intros p p' Hr Hst IH Hsm. assert (small (pr_client p)) as Hsm0 by (pose proof (pair_step_length rt p p' Hst); unfold small in *; lia).
  eapply answer_inv_step; [by apply pair_reachable_inv|done|done|by apply IH].
Qed.

(** ** The way of an answer *)

(** What brings the answer of call [i] nearer; [d] is how an event's send goes. *)
Inductive answer_step (rt : ServerRuntime) (i : nat) : Pair -> Pair -> Prop :=
| an_opens t up k s m c t' :
    ct_calls t !! i = Some c -> open_step i c OSend t = Some t' -> answer_step rt i (Pr t up k s m) (Pr t' up k s m)
| an_client_writes t f q up k s m :
    ct_closed t = false -> ct_queue t = f :: q -> answer_step rt i (Pr t up k s m) (Pr (with_out q t) (up ++ [f]) k s m)
| an_server_reads t up k f s m :
    tn_demux s = DIdle -> up !! k = Some f -> wf_bytes (message f) ->
    answer_step rt i (Pr t up k s m) (Pr t up (S k) (demux_frame rt (message f) s) m)
| an_routed t up k s s' m :
    tn_demux s <> DIdle -> tunnel_local s s' -> tn_demux s' = DIdle -> answer_step rt i (Pr t up k s m) (Pr t up k s' m)
| an_connects t up k s s' m c j u ok :
    ct_calls t !! i = Some c -> tn_tasks s !! j = Some u -> tk_stream u = op_sid c -> task_step j u (AConnected ok) s = Some s' ->
    answer_step rt i (Pr t up k s m) (Pr t up k s' m)
| an_replies t up k s s' m c j u :
    ct_calls t !! i = Some c -> tn_tasks s !! j = Some u -> tk_stream u = op_sid c -> task_step j u AReply s = Some s' ->
    answer_step rt i (Pr t up k s m) (Pr t up k s' m)
| an_server_writes t up k s f q m :
    tn_closed s = false -> tn_queue s = f :: q ->
    answer_step rt i (Pr t up k s m) (Pr t up k (Tun (tn_registry s) (tn_tasks s) q (tn_wire s ++ [f]) false (tn_demux s)) m)
| an_client_reads t up k s m f d :
    ct_reader t = true -> tn_wire s !! m = Some f -> answer_step rt i (Pr t up k s m) (Pr (reader_frame (message f) d t) up k s (S m)).

Lemma answer_step_pair rt i p p' : answer_step rt i p p' -> pair_step rt p p'.
Proof.
  intros [t up k s m c t' Hc Ho|t f q up k s m Hc Hq|t up k f s m Hd Hf Hw|t up k s s' m _ Hl _|t up k s s' m c j u ok _ Hu _ E|t up k s s' m c j u _ Hu _ E
    |t up k s f q m Hc Hq|t up k s m f d Hr Hf].
  - apply pair_client. by eapply client_call.
  - by apply pair_client_writes.
  - by apply pair_server_reads.
  - by apply pair_server.
  - apply pair_server. by eapply tunnel_task.
  - apply pair_server. by eapply tunnel_task.
  - by apply pair_server, tunnel_writes.
  - by apply pair_client_reads.
Qed.

(** An OPEN that the server has not read. *)
Definition opensb (f : OutFrame) : bool := match parse_frame (message f) with Ok (Open, _, _) => true | _ => false end.
Definition opens (fs : list OutFrame) : nat := sum_list_with (fun f => if opensb f then 1 else 0)%nat fs.
Definition sending (i : nat) (t : Pool.Tunnel) : nat :=
  match ct_calls t !! i with Some c => match op_phase c with OSending => 1 | _ => 0 end | None => 0 end.

(** The tunnel is up, the call waits, and the server has not turned it down and has
    room for it behind the OPENs that are on their way. *)
Record in_reach (rt : ServerRuntime) (i : nat) (sid : Z) (p : Pair) : Prop := {
  ir_open : ct_closed (pr_client p) = false;
  ir_alive : ct_alive (pr_client p) = true;
  ir_reader : ct_reader (pr_client p) = true;
  ir_server : tn_closed (pr_server p) = false;
  ir_demux : tn_demux (pr_server p) <> DEnded;
  ir_call : exists c, ct_calls (pr_client p) !! i = Some c /\ op_sid c = sid /\ awaiting c = true;
  ir_room : forall cap, rt_max_streams_per_conn rt = Some cap ->
    Z.of_nat (size (tn_registry (pr_server p)) + (opens (ct_queue (pr_client p)) + opens (drop (pr_up_read p) (pr_up p)) + sending i (pr_client p))) <= cap;
  ir_taken : (0 < kinds Open sid (up_seen p))%nat -> exists j u, tn_tasks (pr_server p) !! j = Some u /\ tk_stream u = sid
}.

Record asking (rt : ServerRuntime) (i : nat) (sid : Z) (p : Pair) : Prop := {
  ak_inv : pair_inv rt p;
  ak_answer : answer_inv p;
  ak_small : small (pr_client p);
  ak_sized : sized p;
  ak_asks : asks_ok (pr_client p);
  ak_reach : in_reach rt i sid p
}.

(** Stages to pass, with what may be bounced on the way. *)
Definition weigh (stage bounce : nat) (fs : list OutFrame) : nat := sum_list_with (fun f => stage + if bounces f then bounce else 0)%nat fs.
Definition stage_of (sid : Z) (u : Task) : nat :=
  if tk_stream u =? sid then match tk_phase u with TConnecting => 6 | TReplying _ => 5 | _ => 0 end else 0.
Definition stages (sid : Z) (us : list Task) : nat := sum_list_with (stage_of sid) us.

Definition server_load (sid : Z) (s : TunnelState) : nat := (3 * in_demux (tn_demux s) + stages sid (tn_tasks s) + weigh 2 2 (tn_queue s))%nat.
Definition answer_load (i : nat) (sid : Z) (p : Pair) : nat :=
  (9 * sending i (pr_client p) + weigh 2 6 (ct_queue (pr_client p)) + weigh 1 6 (drop (pr_up_read p) (pr_up p)) +
   server_load sid (pr_server p) + weigh 1 2 (drop (pr_down_read p) (tn_wire (pr_server p))))%nat.
#[local] Arguments weigh : simpl never.
#[local] Arguments stages : simpl never.
#[local] Arguments opens : simpl never.

Lemma weigh_app a b fs gs : weigh a b (fs ++ gs) = (weigh a b fs + weigh a b gs)%nat.
Proof. apply sum_list_with_app. Qed.
Lemma weigh_cons a b f fs : weigh a b (f :: fs) = (a + (if bounces f then b else 0) + weigh a b fs)%nat.
Proof. done. Qed.
Lemma opens_app fs gs : opens (fs ++ gs) = (opens fs + opens gs)%nat.
Proof. apply sum_list_with_app. Qed.
Lemma opens_cons f fs : opens (f :: fs) = ((if opensb f then 1 else 0) + opens fs)%nat.
Proof. done. Qed.

Lemma opensb_new k st p : is_u32 st -> opensb (OutFrame_new k st p) = bool_decide (k = Open).
Proof. intros Hu. unfold opensb, message. cbn [of_header of_payload OutFrame_new]. rewrite parse_frame_header by done. by destruct k. Qed.

Lemma stages_app sid us vs : stages sid (us ++ vs) = (stages sid us + stages sid vs)%nat.
Proof. apply sum_list_with_app. Qed.

Lemma stages_insert sid us j u v : us !! j = Some u -> (stages sid (<[j := v]> us) + stage_of sid u = stages sid us + stage_of sid v)%nat.
Proof.
  intros Hj. rewrite <- (list_insert_id us j u Hj) at 2. rewrite !insert_take_drop by (by eapply lookup_lt_Some).
  rewrite !stages_app. unfold stages. cbn [sum_list_with]. lia.
Qed.

Lemma stages_same sid us j u v : us !! j = Some u -> tk_stream v = tk_stream u -> tk_phase v = tk_phase u -> stages sid (<[j := v]> us) = stages sid us.
Proof. intros Hj Es Ep. pose proof (stages_insert sid us j u v Hj) as H. unfold stage_of in H. rewrite Es, Ep in H. lia. Qed.

Section Answer.
Context (rt : ServerRuntime) (i : nat) (sid : Z).

(** ** The server's steps *)

(** A best-effort CLOSE. *)
Lemma try_close_load st s : is_u32 st -> let s' := out_try_send (OutFrame_bare Close st) s in
  (server_load sid s' ≤ server_load sid s + 2)%nat /\ tn_closed s' = tn_closed s /\ tn_registry s' = tn_registry s /\ tn_demux s' = tn_demux s.
Proof.
  intros Hu s'. unfold s', out_try_send. destruct (_ && _); [|split; [lia|done]]. split; [|done].
  unfold server_load. cbn. rewrite weigh_app, weigh_cons. unfold OutFrame_bare. rewrite bounces_new by done. change (weigh 2 2 []) with 0%nat. simpl. lia.
Qed.

(** A frame read: it costs at most what it weighed, and an OPEN may take room. *)
Lemma demux_frame_load k st pl s : is_u32 st -> k <> Reply -> tn_demux s = DIdle -> let f := OutFrame_new k st pl in let s' := demux_frame rt (message f) s in
  (server_load sid s' ≤ server_load sid s + if bounces f then 6 else 0)%nat /\ tn_demux s' <> DEnded /\
  (size (tn_registry s') ≤ size (tn_registry s) + if opensb f then 1 else 0)%nat.
Proof.
  intros Hu Hk Hd f s'. unfold f. rewrite bounces_new, opensb_new by done. unfold s', f, demux_frame.
  assert (parse_frame (message (OutFrame_new k st pl)) = Ok (k, st, pl)) as -> by (by apply parse_frame_header).
  destruct (try_close_load st s Hu) as (Hl & _ & Er & Ed). set (close := out_try_send (OutFrame_bare Close st) s) in *.
  assert (forall n, (server_load sid close ≤ server_load sid s + 6)%nat /\ tn_demux close <> DEnded /\ (size (tn_registry close) ≤ size (tn_registry s) + n)%nat) as Hclose
    by (intros n; split; [lia|split; [by rewrite Ed, Hd|rewrite Er; lia]]).
  assert (forall ev, (server_load sid (route st ev s) ≤ server_load sid s + 6)%nat /\ tn_demux (route st ev s) <> DEnded /\
    (size (tn_registry (route st ev s)) ≤ size (tn_registry s) + 0)%nat) as Hroute.
  { intros ev. unfold route. fold close. destruct (tn_registry s !! st) as [j|]; [|apply Hclose].
    destruct (tn_tasks s !! j) as [u|] eqn:Ej; [|split; [lia|split; [by rewrite Hd|lia]]]. split; [|split; [done|cbn; lia]].
    unfold server_load. cbn. rewrite (stages_same _ _ _ u), Hd by done. simpl. lia. }
  destruct k; [|done|apply Hroute|apply Hroute|].
  - change (bool_decide (Open = Close)) with false. change (bool_decide (Open = Open)) with true. unfold handle_open. cbv zeta. fold close. destruct (bool_decide _) eqn:Eb; [apply Hclose|].
    destruct (match rt_max_streams_per_conn rt with Some _ => _ | None => _ end); [apply Hclose|].
    destruct (addr_decode pl) as [addr|]; [|apply Hclose]. apply bool_decide_eq_false in Eb. split; [|split; [cbn; by rewrite Hd|]].
    + unfold server_load. cbn. rewrite stages_app. unfold stages at 2, stage_of. cbn. destruct (_ =? _); cbn; lia.
    + cbn. rewrite map_size_insert_None by (by apply eq_None_not_Some). lia.
  - split; [cbn; unfold server_load; cbn; lia|]. split; [cbn; by rewrite Hd|]. cbn [with_registry tn_registry]. rewrite map_size_delete. destruct (_ !! _); simpl; lia.
Qed.

(** With room for it, an OPEN gets its task, unless it has one. *)
Lemma demux_open_taken st a s : is_u32 st -> addr_ok a -> (forall cap, rt_max_streams_per_conn rt = Some cap -> Z.of_nat (size (tn_registry s)) < cap) ->
  (forall j, tn_registry s !! st = Some j -> exists u, tn_tasks s !! j = Some u /\ tk_stream u = st) ->
  exists j u, tn_tasks (demux_frame rt (message (OutFrame_new Open st (addr_encode a))) s) !! j = Some u /\ tk_stream u = st.
Proof.
  intros Hu Ha Hcap Hreg. unfold demux_frame.
  assert (parse_frame (message (OutFrame_new Open st (addr_encode a))) = Ok (Open, st, addr_encode a)) as -> by (by apply parse_frame_header).
  unfold handle_open. cbv zeta. destruct (bool_decide _) eqn:Eb.
  - apply bool_decide_eq_true in Eb as [j Hj]. destruct (Hreg j Hj) as (u & Hu' & Es). exists j, u.
    by rewrite (proj1 (out_try_send_spec (OutFrame_bare Close st) s)).
  - destruct (match rt_max_streams_per_conn rt with Some cap => cap <=? Z.of_nat (size (tn_registry s)) | None => false end) eqn:Ec.
    + destruct (rt_max_streams_per_conn rt) as [cap|] eqn:Er; [|done]. apply Z.leb_le in Ec. specialize (Hcap cap eq_refl). lia.
    + rewrite (addr_decode_encode a Ha). exists (length (tn_tasks s)). eexists. cbn. rewrite lookup_app_r, Nat.sub_diag by done. done.
Qed.

(** Tasks are only added. *)
Lemma demux_frame_old msg s j u : tn_tasks s !! j = Some u -> exists u', tn_tasks (demux_frame rt msg s) !! j = Some u' /\ tk_stream u' = tk_stream u.
Proof.
  intros Hj. assert (exists u', tn_tasks s !! j = Some u' /\ tk_stream u' = tk_stream u) as Hsame by (by exists u).
  assert (forall f, exists u', tn_tasks (out_try_send f s) !! j = Some u' /\ tk_stream u' = tk_stream u) as Hsend
    by (intros f; by rewrite (proj1 (out_try_send_spec f s))).
  assert (forall st ev, exists u', tn_tasks (route st ev s) !! j = Some u' /\ tk_stream u' = tk_stream u) as Hroute.
  { intros st ev. unfold route. destruct (tn_registry s !! st) as [a|]; [|apply Hsend]. destruct (tn_tasks s !! a) as [v|] eqn:Ha; [|exact Hsame].
    cbn. destruct (decide (j = a)) as [->|Hne]; [|by rewrite list_lookup_insert_ne]. rewrite Hj in Ha. injection Ha as <-.
    eexists. split; [apply list_lookup_insert_eq; by eapply lookup_lt_Some|done]. }
  unfold demux_frame. destruct (parse_frame msg) as [[[[] st] p]|]; try exact Hsame; try apply Hroute.
  unfold handle_open. cbv zeta. destruct (bool_decide _); [apply Hsend|].
  destruct (match rt_max_streams_per_conn rt with Some _ => _ | None => _ end); [apply Hsend|]. destruct (addr_decode p); [|apply Hsend].
  exists u. split; [by apply lookup_app_l_Some|done].
Qed.

(** What the demux waited with goes to its channel or is dropped. *)
Lemma routed_load s s' : tunnel_inv rt s -> tn_demux s <> DIdle -> tunnel_local s s' -> tn_demux s' = DIdle ->
  (server_load sid s' < server_load sid s)%nat /\ tn_closed s' = tn_closed s /\ (size (tn_registry s') ≤ size (tn_registry s))%nat /\
  tn_wire s' = tn_wire s /\ (forall j u, tn_tasks s !! j = Some u -> exists u', tn_tasks s' !! j = Some u' /\ tk_stream u' = tk_stream u).
Proof.
  intros Hi Hne Hst Hd'.
  assert (forall stream ev j, tn_demux s = DRouting stream ev j -> (server_load sid (route_drop stream s) < server_load sid s)%nat /\
    tn_closed (route_drop stream s) = tn_closed s /\ (size (tn_registry (route_drop stream s)) ≤ size (tn_registry s))%nat /\ tn_wire (route_drop stream s) = tn_wire s /\
    (forall j u, tn_tasks s !! j = Some u -> exists u', tn_tasks (route_drop stream s) !! j = Some u' /\ tk_stream u' = tk_stream u)) as Hdrop.
  { intros stream ev j Hd. destruct (inv_route _ _ Hi stream ev j Hd) as (u & Hu & Es & _).
    assert (is_u32 stream) as H32 by (rewrite <- Es; by eapply task_u32, inv_tasks).
    unfold route_drop. set (s1 := with_registry _ s). destruct (try_close_load stream s1 H32) as (Hl & Hc & Hr & _).
    split; [|split; [exact Hc|split; [|split]]].
    - unfold server_load in *. cbn in *. rewrite Hd in *. cbn in *.
      assert (in_demux (tn_demux (out_try_send (OutFrame_bare Close stream) s1)) = 1)%nat as E by (rewrite (proj1 (proj2 (proj2 (out_try_send_spec _ _)))); unfold s1; cbn; by rewrite Hd).
      rewrite E in Hl. lia.
    - cbn [with_demux tn_registry]. rewrite Hr. unfold s1. cbn [with_registry tn_registry]. rewrite map_size_delete. destruct (tn_registry s !! stream); [apply Nat.le_pred_l|done].
    - cbn. unfold out_try_send. by destruct (_ && _).
    - intros a v Ha. exists v. cbn. by rewrite (proj1 (out_try_send_spec _ _)). }
  destruct Hst as [s stream ev j u Hd Hu Hrc Hroom|s stream ev j u Hd Hu _|s stream ev j u Hd Hu _|s j u a s' Hu E|s f q Hc Hq|s Hd|s Hc];
    [|by eapply Hdrop|by eapply Hdrop| |done|done|done].
  - unfold server_load. cbn. rewrite Hd, (stages_same _ _ _ u) by done. simpl. split; [lia|]. split; [done|]. split; [done|]. split; [done|].
    intros a v Ha. destruct (decide (a = j)) as [->|Hn]; [|exists v; by rewrite list_lookup_insert_ne].
    rewrite Hu in Ha. injection Ha as <-. eexists. split; [apply list_lookup_insert_eq; by eapply lookup_lt_Some|done].
  - exfalso. apply Hne. rewrite <- Hd'. unfold task_step in E. destruct (tk_phase u), a; try done; repeat (case_match; try done); by injection E as <-.
Qed.

(** ** The client's steps *)

(** A step that leaves the tunnel up and every call where it was. *)
Record calm (t t' : Pool.Tunnel) : Prop := {
  ca_alive : ct_alive t' = ct_alive t;
  ca_closed : ct_closed t' = ct_closed t;
  ca_reader : ct_reader t' = ct_reader t;
  ca_length : length (ct_calls t') = length (ct_calls t);
  ca_calls : forall j c, ct_calls t !! j = Some c -> exists c', ct_calls t' !! j = Some c' /\ op_sid c' = op_sid c /\ op_addr c' = op_addr c /\ op_phase c' = op_phase c
}.

Lemma calm_same t t' : ct_calls t' = ct_calls t -> ct_alive t' = ct_alive t -> ct_closed t' = ct_closed t -> ct_reader t' = ct_reader t -> calm t t'.
Proof. intros Ec Ea El Er. split; try done; [by rewrite Ec|]. intros j c Hc. exists c. by rewrite Ec. Qed.

Lemma calm_insert t t' j c c' : ct_calls t !! j = Some c -> op_sid c' = op_sid c -> op_addr c' = op_addr c -> op_phase c' = op_phase c ->
  ct_calls t' = <[j := c']> (ct_calls t) -> ct_alive t' = ct_alive t -> ct_closed t' = ct_closed t -> ct_reader t' = ct_reader t -> calm t t'.
Proof.
  intros Hc Es Ea Ep Ec E1 E2 E3. split; try done; [by rewrite Ec, length_insert|]. intros a d Hd. rewrite Ec. destruct (decide (a = j)) as [->|Hne].
  - rewrite Hc in Hd. injection Hd as <-. exists c'. split; [apply list_lookup_insert_eq; by eapply lookup_lt_Some|done].
  - exists d. by rewrite list_lookup_insert_ne.
Qed.

Lemma calm_send f t : calm t (tunnel_try_send f t).
Proof. unfold tunnel_try_send. destruct (_ && _); by apply calm_same. Qed.

Lemma calm_trans t t1 t' : calm t t1 -> calm t1 t' -> calm t t'.
Proof.
  intros [A1 A2 A3 A4 A5] [B1 B2 B3 B4 B5]. split; try congruence. intros j c Hc. destruct (A5 j c Hc) as (d & Hd & ? & ? & ?), (B5 j d Hd) as (e & He & ? & ? & ?).
  exists e. split_and!; [done|congruence..].
Qed.

Lemma reader_calm f d t k st pl : client_inv t -> f = OutFrame_new k st pl -> is_u32 st -> k <> Open -> let t' := reader_frame (message f) d t in
  calm t t' /\ (weigh 2 6 (ct_queue t') ≤ weigh 2 6 (ct_queue t) + if bounces f then 2 else 0)%nat /\ opens (ct_queue t') = opens (ct_queue t).
Proof.
  intros Hi Ef Hu Hk t'. assert (parse_frame (message f) = Ok (k, st, pl)) as Epf by (rewrite Ef; by apply parse_frame_header).
  rewrite Ef, bounces_new by done. unfold t', reader_frame. rewrite Epf.
  assert (forall t1, calm t t1 -> ct_queue t1 = ct_queue t -> calm t (tunnel_try_send (OutFrame_bare Close st) t1) /\
    (weigh 2 6 (ct_queue (tunnel_try_send (OutFrame_bare Close st) t1)) ≤ weigh 2 6 (ct_queue t) + 2)%nat /\
    opens (ct_queue (tunnel_try_send (OutFrame_bare Close st) t1)) = opens (ct_queue t)) as Hsend.
  { intros t1 Hc Eq. split; [eapply calm_trans; [exact Hc|apply calm_send]|].
    destruct (try_send_spec (OutFrame_bare Close st) t1) as (_ & _ & [->| ->]); rewrite Eq; [split; [lia|done]|].
    rewrite weigh_app, weigh_cons, opens_app, opens_cons. unfold OutFrame_bare. rewrite bounces_new, opensb_new by done.
    change (weigh 2 6 []) with 0%nat. change (opens []) with 0%nat. simpl. split; lia. }
  assert (forall t1, calm t t1 -> ct_queue t1 = ct_queue t -> calm t t1 /\
    (weigh 2 6 (ct_queue t1) ≤ weigh 2 6 (ct_queue t) + 2)%nat /\ opens (ct_queue t1) = opens (ct_queue t)) as Hkeep
    by (intros t1 Hc Eq; rewrite Eq; split; [exact Hc|split; [lia|done]]).
  assert (forall ev, calm t (route_event st ev d t) /\ (weigh 2 6 (ct_queue (route_event st ev d t)) ≤ weigh 2 6 (ct_queue t) + 2)%nat /\
    opens (ct_queue (route_event st ev d t)) = opens (ct_queue t)) as Hroute.
  { intros ev. unfold route_event. destruct (ct_registry t !! st) as [j|]; [|by apply Hsend; [apply calm_same|]].
    destruct d, (ct_calls t !! j) as [c|] eqn:Hc; try (by apply Hsend; [apply calm_same|]). apply Hkeep; [|done]. eapply (calm_insert _ _ j c); [exact Hc| | | |reflexivity|done..]; done. }
  destruct k; [done| |apply Hroute|apply Hroute|split; [by apply calm_same|split; [cbn; lia|done]]].
  change (negb (bool_decide (Reply = Close))) with true. unfold reader_reply. destruct (ct_pending t !! st) as [j|] eqn:Hp; [|apply Hkeep; [by apply calm_same|done]].
  destruct (ci_pending _ Hi _ _ Hp) as (c & Hc & _). rewrite Hc. apply Hkeep; [|done]. eapply (calm_insert _ _ j c); [exact Hc| | | |reflexivity|done..]; done.
Qed.

(** The client's side of [in_reach] through a calm step. *)
Lemma calm_asks t t' : calm t t' -> asks_ok t -> asks_ok t'.
Proof.
  intros [_ _ _ Hl Hc] Hok j c' Hj. destruct (ct_calls t !! j) as [c|] eqn:E; [|apply lookup_lt_Some in Hj; apply lookup_ge_None in E; lia].
  destruct (Hc j c E) as (d & Hd & _ & Ea & _). rewrite Hj in Hd. injection Hd as <-. rewrite Ea. by apply (Hok j).
Qed.

Lemma calm_sending t t' : calm t t' -> sending i t' = sending i t.
Proof.
  intros [_ _ _ Hl Hc]. unfold sending. destruct (ct_calls t !! i) as [c|] eqn:E.
  - destruct (Hc i c E) as (d & -> & _ & _ & ->). done.
  - destruct (ct_calls t' !! i) as [d|] eqn:E'; [|done]. apply lookup_lt_Some in E'. apply lookup_ge_None in E. lia.
Qed.

Lemma calm_call t t' : calm t t' -> (exists c, ct_calls t !! i = Some c /\ op_sid c = sid /\ awaiting c = true) ->
  exists c, ct_calls t' !! i = Some c /\ op_sid c = sid /\ awaiting c = true.
Proof.
  intros [_ _ _ _ Hc] (c & Hi & Es & Ha). destruct (Hc i c Hi) as (d & Hd & Es' & _ & Ep). exists d. split; [done|]. split; [congruence|].
  unfold awaiting. by rewrite Ep.
Qed.

(** ** A step of the way *)

Definition nearer (p p' : Pair) : Prop := in_reach rt i sid p' /\ (answer_load i sid p' < answer_load i sid p)%nat /\ asks_ok (pr_client p').

Lemma opens_nearer t up k s m c t' : asking rt i sid (Pr t up k s m) -> ct_calls t !! i = Some c -> open_step i c OSend t = Some t' ->
  nearer (Pr t up k s m) (Pr t' up k s m).
Proof.
  intros [Hp _ _ _ Hok [R1 R2 R3 R4 R5 (c0 & Hc0 & Es & _) R7 R8]] Hc E. cbn [pr_client pr_server pr_up pr_up_read] in *.
  rewrite Hc in Hc0. injection Hc0 as <-. unfold open_step in E. destruct (op_phase c) eqn:Ep; try done. destruct (_ && _); [|done]. injection E as <-.
  assert (is_u32 (op_sid c)) as Hu by (eapply sid_u32, Hc; apply Hp).
  assert (sending i t = 1)%nat as E1 by (unfold sending; by rewrite Hc, Ep).
  set (t' := with_call _ _ _). assert (ct_calls t' !! i = Some (set_open_phase OWaiting c)) as Hc' by (apply list_lookup_insert_eq; by eapply lookup_lt_Some).
  assert (sending i t' = 0)%nat as E0 by (unfold sending; by rewrite Hc').
  assert (ct_queue t' = ct_queue t ++ [OutFrame_new Open (op_sid c) (addr_encode (op_addr c))]) as Eq by done.
  split; [split; cbn [pr_client pr_server pr_up pr_up_read]; try done|split].
  - exists (set_open_phase OWaiting c). by split.
  - intros cap Hcap. specialize (R7 cap Hcap). rewrite Eq, E0, opens_app, opens_cons, opensb_new, bool_decide_true by done. change (opens []) with 0%nat. lia.
  - unfold answer_load. cbn [pr_client pr_server pr_up pr_up_read pr_down_read]. rewrite Eq, E0, E1, weigh_app, weigh_cons, bounces_new by done.
    change (weigh 2 6 []) with 0%nat. simpl. lia.
  - intros j d Hd. unfold t' in Hd. cbn in Hd. destruct (insert_calls _ _ _ _ _ _ Hc Hd) as [[-> ->]|[_ Hd']]; [by apply (Hok i c)|by apply (Hok j d)].
Qed.

Lemma client_writes_nearer t f q up k s m : asking rt i sid (Pr t up k s m) -> ct_queue t = f :: q ->
  nearer (Pr t up k s m) (Pr (with_out q t) (up ++ [f]) k s m).
Proof.
  intros [Hp _ _ _ Hok [R1 R2 R3 R4 R5 R6 R7 R8]] Hq. pose proof (pi_up_read _ _ Hp) as Hk. cbn [pr_client pr_server pr_up pr_up_read] in *.
  split; [split; cbn [pr_client pr_server pr_up pr_up_read with_out ct_queue]; try done|split; [|done]].
  - intros cap Hcap. specialize (R7 cap Hcap). rewrite Hq, opens_cons in R7. rewrite drop_app_le, opens_app, opens_cons by done. change (opens []) with 0%nat.
    unfold sending in *. cbn [with_out ct_calls]. lia.
  - intros Hpos. apply R8. revert Hpos. unfold up_seen. cbn [pr_up pr_up_read]. by rewrite take_app_le.
  - unfold answer_load. cbn [pr_client pr_server pr_up pr_up_read pr_down_read with_out ct_queue]. rewrite Hq, drop_app_le, weigh_app, !weigh_cons by done.
    change (weigh 1 6 []) with 0%nat. unfold sending. cbn [with_out ct_calls]. lia.
Qed.

Lemma server_reads_nearer t up k f s m : asking rt i sid (Pr t up k s m) -> tn_demux s = DIdle -> up !! k = Some f ->
  nearer (Pr t up k s m) (Pr t up (S k) (demux_frame rt (message f) s) m).
Proof.
  intros [Hp _ _ _ Hok [R1 R2 R3 R4 R5 R6 R7 R8]] Hd Hf. cbn [pr_client pr_server pr_up pr_up_read] in *.
  assert (f ∈ client_log (Pr t up k s m)) as Hfl by (unfold client_log; cbn; apply elem_of_app; left; by eapply list_elem_of_lookup_2).
  destruct (lo_frames _ _ (pi_log _ _ Hp) f Hfl) as (kd & st & x & Ef & Hu & Hk & Hopen).
  destruct (demux_frame_load kd st x s Hu Hk Hd) as (Hl & Hd' & Hsz). rewrite <- Ef in Hl, Hd', Hsz.
  destruct (demux_phases rt kd st x s Hu Hk) as (_ & Hc & _). rewrite <- Ef in Hc.
  split; [split; cbn [pr_client pr_server pr_up pr_up_read]; try done|split; [|done]].
  - congruence.
  - intros cap Hcap. specialize (R7 cap Hcap). rewrite (drop_S _ _ _ Hf), opens_cons in R7. lia.
  - intros Hpos. assert (up_seen (Pr t up (S k) (demux_frame rt (message f) s) m) = up_seen (Pr t up k s m) ++ [f]) as Es by (unfold up_seen; cbn; by apply take_S_r).
    rewrite Es, kinds_snoc in Hpos. destruct (decide (0 < kinds Open sid (up_seen (Pr t up k s m)))%nat) as [Hold|Hnew].
    + destruct (R8 Hold) as (j & u & Hj & Esu). destruct (demux_frame_old (message f) s j u Hj) as (u' & Hj' & Es'). exists j, u'. split; [done|congruence].
    + destruct (is_kind Open sid f) eqn:Eo; [|lia]. rewrite Ef, is_kind_new in Eo by done. apply andb_prop in Eo as [->%bool_decide_eq_true ->%Z.eqb_eq].
      destruct (Hopen eq_refl) as (j & c & Hj & Ec & _). rewrite Ec in Ef. apply OutFrame_new_inj in Ef as (_ & Esid & _); [|by eapply sid_u32, Hj; apply Hp|done].
      rewrite Ec. unfold open_frame. rewrite Esid. apply demux_open_taken; [done|by apply (Hok j c)| |].
      * intros cap Hcap. specialize (R7 cap Hcap). rewrite (drop_S _ _ _ Hf), opens_cons, Ec in R7. unfold open_frame in R7. rewrite opensb_new, bool_decide_true in R7 by (by rewrite ?Esid).
        lia.
      * intros a Ha. destruct (inv_registry _ _ (pi_server _ _ Hp) sid a Ha) as (u & Hu' & Es' & _). by exists u.
  - unfold answer_load. cbn [pr_client pr_server pr_up pr_up_read pr_down_read]. rewrite demux_wire, (drop_S _ _ _ Hf), weigh_cons. lia.
Qed.

(** A step of the server's own, with the tasks it had. *)
Lemma server_nearer t up k s s' m : asking rt i sid (Pr t up k s m) -> (server_load sid s' < server_load sid s)%nat ->
  tn_closed s' = tn_closed s -> tn_demux s' <> DEnded -> (size (tn_registry s') ≤ size (tn_registry s))%nat -> tn_wire s' = tn_wire s ->
  (forall j u, tn_tasks s !! j = Some u -> exists u', tn_tasks s' !! j = Some u' /\ tk_stream u' = tk_stream u) ->
  nearer (Pr t up k s m) (Pr t up k s' m).
Proof.
  intros [Hp _ _ _ Hok [R1 R2 R3 R4 R5 R6 R7 R8]] Hl Hc Hd Hsz Hw Hts. cbn [pr_client pr_server pr_up pr_up_read] in *.
  split; [split; cbn [pr_client pr_server pr_up pr_up_read]; try done|split; [|done]].
  - congruence.
  - intros cap Hcap. specialize (R7 cap Hcap). lia.
  - intros Hpos. destruct (R8 Hpos) as (j & u & Hj & Es). destruct (Hts j u Hj) as (u' & Hj' & Es'). exists j, u'. split; [done|congruence].
  - unfold answer_load. cbn [pr_client pr_server pr_up pr_up_read pr_down_read]. rewrite Hw. lia.
Qed.

Lemma task_nearer t up k s s' m j u a : asking rt i sid (Pr t up k s m) -> tn_tasks s !! j = Some u -> tk_stream u = sid ->
  (exists ok, a = AConnected ok) \/ a = AReply -> task_step j u a s = Some s' -> nearer (Pr t up k s m) (Pr t up k s' m).
Proof.
  intros Hak Hu Es Ha E. pose proof (ir_server _ _ _ _ (ak_reach _ _ _ _ Hak)) as R4. pose proof (ir_demux _ _ _ _ (ak_reach _ _ _ _ Hak)) as R5.
  assert (is_u32 sid) as H32 by (rewrite <- Es; eapply task_u32, inv_tasks, Hu; apply Hak). cbn [pr_server] in *.
  assert (forall v, tk_stream v = tk_stream u -> forall l, l = <[j := v]> (tn_tasks s) -> forall b w, tn_tasks s !! b = Some w -> exists w', l !! b = Some w' /\ tk_stream w' = tk_stream w) as Hold.
  { intros v Ev l -> b w Hb. destruct (decide (b = j)) as [->|Hne]; [|exists w; by rewrite list_lookup_insert_ne].
    rewrite Hu in Hb. injection Hb as <-. exists v. split; [apply list_lookup_insert_eq; by eapply lookup_lt_Some|done]. }
  unfold task_step in E. destruct (tk_phase u) as [|ok|[]|r|] eqn:Ep; destruct Ha as [[ok' ->]| ->]; try done.
  - injection E as <-. apply (server_nearer _ _ _ _ _ _ Hak); try done; [|by apply (Hold (set_phase (TReplying ok') u))].
    unfold server_load. cbn. pose proof (stages_insert sid (tn_tasks s) j u (set_phase (TReplying ok') u) Hu) as Hi. unfold stage_of in Hi. cbn in Hi.
    rewrite Es, Ep, Z.eqb_refl in Hi. lia.
  - rewrite R4 in E. destruct (_ <? _)%nat; [|done]. injection E as <-. set (v := set_phase _ u).
    apply (server_nearer _ _ _ _ _ _ Hak); try done; [|by apply (Hold v)]. unfold server_load. cbn.
    pose proof (stages_insert sid (tn_tasks s) j u v Hu) as Hi. unfold stage_of in Hi. rewrite (eq_refl : tk_stream v = tk_stream u), Es, Ep, Z.eqb_refl in Hi.
    assert (match tk_phase v with TConnecting => 6 | TReplying _ => 5 | _ => 0 end = 0)%nat as Ev by (unfold v; by destruct ok). rewrite Ev in Hi.
    unfold reply_frame. rewrite weigh_app, weigh_cons, bounces_new by (by rewrite Es). change (weigh 2 2 []) with 0%nat. simpl. lia.
Qed.

Lemma server_writes_nearer t up k s f q m : asking rt i sid (Pr t up k s m) -> tn_queue s = f :: q ->
  nearer (Pr t up k s m) (Pr t up k (Tun (tn_registry s) (tn_tasks s) q (tn_wire s ++ [f]) false (tn_demux s)) m).
Proof.
  intros [Hp _ _ _ Hok [R1 R2 R3 R4 R5 R6 R7 R8]] Hq. pose proof (pi_down_read _ _ Hp) as Hm. cbn [pr_client pr_server pr_up pr_up_read pr_down_read] in *.
  split; [by split|split; [|done]]. unfold answer_load, server_load. cbn [pr_client pr_server pr_up pr_up_read pr_down_read tn_demux tn_tasks tn_queue tn_wire].
  rewrite Hq, drop_app_le, weigh_app, !weigh_cons by done. change (weigh 1 2 []) with 0%nat. lia.
Qed.

Lemma client_reads_nearer t up k s m f d : asking rt i sid (Pr t up k s m) -> tn_wire s !! m = Some f ->
  nearer (Pr t up k s m) (Pr (reader_frame (message f) d t) up k s (S m)).
Proof.
  intros [Hp _ _ _ Hok [R1 R2 R3 R4 R5 R6 R7 R8]] Hf. cbn [pr_client pr_server pr_up pr_up_read] in *.
  assert (f ∈ out_log s) as Hfl by (unfold out_log; apply elem_of_app; left; by eapply list_elem_of_lookup_2).
  destruct (sv_frames _ _ (pi_up _ _ Hp) f Hfl) as (kd & st & x & Ef & Hu & Hk & _).
  destruct (reader_calm f d t kd st x (pi_client _ _ Hp) Ef Hu Hk) as (Hcalm & Hw & Ho). set (t' := reader_frame _ _ _) in *.
  pose proof (calm_sending _ _ Hcalm) as Es. pose proof Hcalm as [C1 C2 C3 _ _].
  split; [split; cbn [pr_client pr_server pr_up pr_up_read]; try done; try congruence; [by eapply calm_call|]|split; [|by eapply calm_asks]].
  - intros cap Hcap. rewrite Ho, Es. by apply R7.
  - unfold answer_load. cbn [pr_client pr_server pr_up pr_up_read pr_down_read]. rewrite Es, (drop_S _ _ _ Hf), weigh_cons. lia.
Qed.

Lemma answer_step_nearer p p' : answer_step rt i p p' -> asking rt i sid p -> nearer p p'.
Proof.
  intros [t up k s m c t' Hc Ho|t f q up k s m Hc Hq|t up k f s m Hd Hf Hw|t up k s s' m Hd Hl Hd'|t up k s s' m c j u ok Hc Hu Es E|t up k s s' m c j u Hc Hu Es E
    |t up k s f q m Hc Hq|t up k s m f d Hr Hf] Hak.
  - by eapply opens_nearer.
  - by eapply client_writes_nearer.
  - by apply server_reads_nearer.
  - destruct (routed_load s s' (pi_server _ _ (ak_inv _ _ _ _ Hak)) Hd Hl Hd') as (? & ? & ? & ? & ?). apply server_nearer; try done. by rewrite Hd'.
  - destruct (ir_call _ _ _ _ (ak_reach _ _ _ _ Hak)) as (c' & Hc' & Es' & _). cbn [pr_client] in Hc'. rewrite Hc in Hc'. injection Hc' as <-.
    eapply (task_nearer _ _ _ _ _ _ j u _ Hak Hu); [congruence|left; by eexists|exact E].
  - destruct (ir_call _ _ _ _ (ak_reach _ _ _ _ Hak)) as (c' & Hc' & Es' & _). cbn [pr_client] in Hc'. rewrite Hc in Hc'. injection Hc' as <-.
    eapply (task_nearer _ _ _ _ _ _ j u _ Hak Hu); [congruence|by right|exact E].
  - by apply server_writes_nearer.
  - by apply client_reads_nearer.
Qed.

Lemma answer_step_small p p' : answer_step rt i p p' -> pair_inv rt p -> small (pr_client p) -> small (pr_client p').
Proof.
  unfold small. intros [t up k s m c t' Hc Ho| | | | | | |t up k s m f d Hr Hf] _; cbn [pr_client with_out ct_calls]; try done.
  - destruct (open_step_shape i c OSend t t' Hc Ho) as (ph & fs & -> & _). by rewrite length_insert.
  - by rewrite reader_length.
Qed.

Lemma answer_step_asking p p' : answer_step rt i p p' -> asking rt i sid p -> asking rt i sid p' /\ (answer_load i sid p' < answer_load i sid p)%nat.
Proof.
  intros Hst Hak. destruct (answer_step_nearer p p' Hst Hak) as (Hr & Hl & Hok). pose proof (answer_step_pair _ _ _ _ Hst) as Hps.
  destruct Hak as [Hp Ha Hsm Hsz _ _]. pose proof (answer_step_small p p' Hst Hp Hsm) as Hsm'.
  split; [|done]. split; [by eapply pair_step_inv|by eapply answer_inv_step|done|by eapply sized_step|done|done].
Qed.

(** ** There is always a step *)

(** The stream's task, once the OPEN is read, has an answer to give or gave it. *)
Lemma task_moves t up k s m c : asking rt i sid (Pr t up k s m) -> ct_calls t !! i = Some c -> op_reply c = None ->
  tn_queue s = [] -> drop m (tn_wire s) = [] -> (0 < kinds Open sid (up_seen (Pr t up k s m)))%nat -> exists p', answer_step rt i (Pr t up k s m) p'.
Proof.
  intros Hak Hc Hrep Hq Hw Hpos. pose proof Hak as [Hp [A1 A2 A3] _ _ _ [R1 R2 R3 R4 R5 (c0 & Hc0 & Es & Haw) R7 R8]]. cbn [pr_client pr_server] in *.
  rewrite Hc in Hc0. injection Hc0 as <-. destruct (R8 Hpos) as (j & u & Hj & Esu).
  destruct (unreplied (tk_phase u)) eqn:Eu.
  - destruct (tk_phase u) as [|ok| | |] eqn:Ep; try done.
    + eexists. eapply (an_connects rt i t up k s _ m c j u true); [done|done|congruence|]. unfold task_step. by rewrite Ep.
    + eexists. eapply (an_replies rt i t up k s _ m c j u); [done|done|congruence|]. unfold task_step. rewrite Ep, R4, Hq. unfold OUTBOUND_BOUND. cbn. reflexivity.
  - exfalso. destruct (A3 j u Hj Eu) as [?|Hr]; [congruence|].
    assert (out_log s = down_seen (Pr t up k s m)) as El.
    { unfold out_log, down_seen. cbn. rewrite Hq, app_nil_r. rewrite <- (take_drop m (tn_wire s)) at 1. by rewrite Hw, app_nil_r. }
    pose proof (A2 i c Hc (conj Haw Hrep) R2) as H0. rewrite Es in H0. rewrite Esu, El in Hr. lia.
Qed.

Lemma answer_progress p : asking rt i sid p -> (exists c ok, ct_calls (pr_client p) !! i = Some c /\ op_reply c = Some ok) \/ exists p', answer_step rt i p p'.
Proof.
  intros Hak. destruct p as [t up k s m]. pose proof Hak as [Hp Ha Hsm Hsz Hok [R1 R2 R3 R4 R5 (c & Hc & Es & Haw) R7 R8]]. cbn [pr_client pr_server] in *.
  destruct (op_reply c) as [ok|] eqn:Er; [left; by exists c, ok|right].
  destruct (tn_queue s) as [|f q] eqn:Eq; [|eexists; by apply (an_server_writes rt i t up k s f q m)].
  destruct (drop m (tn_wire s)) as [|f fs] eqn:Ew.
  2: { eexists. apply (an_client_reads rt i t up k s m f Delivered); [done|]. replace m with (m + 0)%nat by lia. by rewrite <- lookup_drop, Ew. }
  destruct (tn_demux s) as [|stream ev j|] eqn:Ed; [| |done].
  2: { destruct (inv_route _ _ (pi_server _ _ Hp) stream ev j Ed) as (u & Hu & _). cbn [pr_server] in Hu. assert (tn_demux s <> DIdle) as Hne by congruence.
       destruct (receiving u) eqn:Erc; [|eexists; by apply (an_routed rt i t up k s (route_drop stream s) m Hne); [eapply tunnel_dead|]].
       destruct (decide (length (tk_queue u) < STREAM_BOUND)%nat) as [Hl|Hl].
       - eexists. eapply (an_routed rt i t up k s _ m Hne); [by eapply tunnel_routed|done].
       - eexists. apply (an_routed rt i t up k s (route_drop stream s) m Hne); [eapply tunnel_stalled; [done..|lia]|done]. }
  destruct (ct_queue t) as [|f q] eqn:Ecq; [|eexists; by apply (an_client_writes rt i t f q)].
  destruct (drop k up) as [|f fs] eqn:Eup.
  2: { assert (up !! k = Some f) as Hf by (replace k with (k + 0)%nat by lia; by rewrite <- lookup_drop, Eup).
       eexists. apply (an_server_reads rt i t up k f s m Ed Hf). pose proof (sz_client _ Hsz Hok) as Hall. rewrite Forall_forall in Hall.
       apply (Hall f). unfold client_log. cbn. apply elem_of_app. left. by eapply list_elem_of_lookup_2. }
  destruct (op_phase c) eqn:Eph; unfold awaiting in Haw; rewrite Eph in Haw; try done.
  - eexists. eapply (an_opens rt i t up k s m c); [exact Hc|]. unfold open_step. rewrite Eph, R1, Ecq. unfold OUTBOUND_BOUND. cbn. reflexivity.
  - apply (task_moves t up k s m c Hak Hc Er Eq Ew).
    assert (up_seen (Pr t up k s m) = client_log (Pr t up k s m)) as ->.
    { unfold up_seen, client_log. cbn. rewrite Ecq, app_nil_r. rewrite <- (take_drop k up) at 2. by rewrite Eup, app_nil_r. }
    rewrite <- Es. apply (lo_opened _ _ (pi_log _ _ Hp) i c Hc). unfold opened. by rewrite Eph.
Qed.

(** The answer is the task's. *)
Lemma answer_given p c ok : asking rt i sid p -> ct_calls (pr_client p) !! i = Some c -> op_reply c = Some ok ->
  exists j u, tn_tasks (pr_server p) !! j = Some u /\ tk_stream u = op_sid c /\ tk_addr u = op_addr c /\ answered ok (tk_phase u) = true.
Proof.
  intros [Hp _ Hsm _ Hok _] Hc Hrep. assert (is_u32 (op_sid c)) as Hu by (eapply sid_u32, Hc; apply Hp).
  pose proof (down_seen_log p _ (cv_reply _ _ (pi_down _ _ Hp) i c ok Hc Hrep)) as Hf.
  destruct (reply_task _ _ _ _ (pi_up _ _ Hp) Hu Hf) as (_ & j & u & Hj & Es & Ha). exists j, u. split; [done|]. split; [done|]. split; [|done].
  destruct (task_call rt p j u Hp Hj) as (a & d & Hd & Ed & Hdec). assert (a = i) as -> by (eapply (sid_inj (pr_client p)); [apply Hp|done|done|done|congruence]).
  rewrite Hc in Hd. injection Hd as <-. rewrite (addr_decode_encode _ (Hok i c Hc)) in Hdec. by injection Hdec as <-.
Qed.

Lemma answer_bounded m p p' : asking rt i sid p -> nsteps (answer_step rt i) m p p' -> (m ≤ answer_load i sid p)%nat /\ rtc (pair_step rt) p p'.
Proof.
  intros Hak Hst. induction Hst as [p|m p p1 p' Hst _ IH]; [split; [lia|apply rtc_refl]|].
  destruct (answer_step_asking p p1 Hst Hak) as [Hak1 Hl]. destruct (IH Hak1) as [Hm Hr]. split; [lia|].
  eapply rtc_l; [by eapply answer_step_pair|exact Hr].
Qed.
End Answer.

(** ** Properties *)

(** C4: an OPEN is answered.  Let a client's tunnel and a server's run in any
    interleaving, before the client's 2^32nd stream and with every call asking for an
    address that the address frame can carry (as all SOCKS5 requests do), and come to a
    state where the tunnel is up on both sides, a call of [open] is sending its OPEN or waits for the
    REPLY, and the server has not turned the stream down and has room for it besides
    the streams it has and the OPENs that are on their way.  Then, whatever is in front
    of it in the channels, on the wire and in the demux loop, and however the target's
    connect and the sends to other streams turn out: as long as the call's budget
    lasts there is always a step towards the answer, until the call has one; every run
    of such steps gets there, in a bounded number of them, and is a run of the program.
    The answer is that of the task which the server runs for this stream and the
    address the call asked for: yes from a task that connected, no from one that did
    not. *)
Theorem open_is_answered rt p i c :
  rtc (pair_step rt) pair_new p -> small (pr_client p) -> asks_ok (pr_client p) ->
  ct_calls (pr_client p) !! i = Some c -> in_reach rt i (op_sid c) p ->
  eventually (answer_step rt i) (fun p' => exists c' ok j u,
    ct_calls (pr_client p') !! i = Some c' /\ op_sid c' = op_sid c /\ op_addr c' = op_addr c /\ op_reply c' = Some ok /\
    tn_tasks (pr_server p') !! j = Some u /\ tk_stream u = op_sid c /\ tk_addr u = op_addr c /\ answered ok (tk_phase u) = true) p /\
  (forall m p', nsteps (answer_step rt i) m p p' -> (m ≤ answer_load i (op_sid c) p)%nat /\ rtc (pair_step rt) p p').
Proof.
  intros Hr Hsm Hok Hc Hreach. assert (asking rt i (op_sid c) p) as Hak
    by (split; [by apply pair_reachable_inv|by eapply answer_inv_reached|done|by eapply sized_reachable|done|done]).
  split; [|intros m p'; by apply answer_bounded].
  apply (eventually_lex _ _ (fun p' => asking rt i (op_sid c) p' /\ exists c', ct_calls (pr_client p') !! i = Some c' /\ op_sid c' = op_sid c /\ op_addr c' = op_addr c)
    (answer_load i (op_sid c)) (fun _ => 0%nat)); [|split; [done|by exists c]].
  intros p1 (Hak1 & c1 & Hc1 & Es1 & Ea1). destruct (answer_progress rt i (op_sid c) p1 Hak1) as [(c' & ok & Hc' & Hrep)|Hmv].
  - left. rewrite Hc1 in Hc'. injection Hc' as <-. destruct (answer_given rt i (op_sid c) p1 c1 ok Hak1 Hc1 Hrep) as (j & u & Hj & Eu & Eau & Hans).
    exists c1, ok, j, u. split_and!; congruence.
  - right. split; [done|]. intros p2 Hst. destruct (answer_step_asking rt i (op_sid c) p1 p2 Hst Hak1) as [Hak2 Hl]. split; [|by left]. split; [done|].
    destruct (ir_call _ _ _ _ (ak_reach _ _ _ _ Hak2)) as (c2 & Hc2 & Es2 & _). exists c2. split; [done|]. split; [done|].
    destruct (pair_calls rt p1 p2 i c2 (answer_step_pair _ _ _ _ Hst) (ak_inv _ _ _ _ Hak1) Hc2) as [(d & Hd & _ & Ed)|[Hn _]]; [|congruence].
    rewrite Hc1 in Hd. injection Hd as <-. congruence.
Qed.

(** Two calls, the OPEN of the first on its way, and room for both. *)
Definition two_calls_run : list Move :=
  [MOpen (PAddr (Ip (V4 [127; 0; 0; 1])) 80); MOpen (PAddr (Ip (V4 [127; 0; 0; 1])) 443); MCall 0 OSend; MClientWrites].
Definition two_calls : Pair := default pair_new (run (small_runtime 2) two_calls_run pair_new).
Definition second_call : OpenCall := Call 2 (PAddr (Ip (V4 [127; 0; 0; 1])) 443) OSending None [].

Lemma two_calls_reached : rtc (pair_step (small_runtime 2)) pair_new two_calls.
Proof. apply (run_sound _ two_calls_run). apply default_some. vm_compute. reflexivity. Qed.

Lemma two_calls_reach : in_reach (small_runtime 2) 1 2 two_calls.
Proof.
  split; [vm_compute; reflexivity..|vm_compute; discriminate| | |].
  - exists second_call. split; [vm_compute; reflexivity|]. split; reflexivity.
  - intros cap [= <-]. vm_compute. discriminate.
  - intros Hpos. exfalso. revert Hpos. assert (kinds Open 2 (up_seen two_calls) = 0%nat) as -> by (vm_compute; reflexivity). lia.
Qed.

Lemma open_is_answered_witness : rtc (pair_step (small_runtime 2)) pair_new two_calls /\
  eventually (answer_step (small_runtime 2) 1) (fun p' => exists c' ok j u,
    ct_calls (pr_client p') !! 1%nat = Some c' /\ op_sid c' = 2 /\ op_addr c' = PAddr (Ip (V4 [127; 0; 0; 1])) 443 /\ op_reply c' = Some ok /\
    tn_tasks (pr_server p') !! j = Some u /\ tk_stream u = 2 /\ tk_addr u = PAddr (Ip (V4 [127; 0; 0; 1])) 443 /\ answered ok (tk_phase u) = true) two_calls.
Proof.
  assert (asks_ok (pr_client two_calls)) as Hok.
  { assert (op_addr <$> ct_calls (pr_client two_calls) = [PAddr (Ip (V4 [127; 0; 0; 1])) 80; PAddr (Ip (V4 [127; 0; 0; 1])) 443]) as E by (vm_compute; reflexivity).
    intros j c Hc. assert (op_addr c ∈ op_addr <$> ct_calls (pr_client two_calls)) as Hin by (apply list_elem_of_fmap; exists c; split; [done|by eapply list_elem_of_lookup_2]).
    rewrite E in Hin. apply elem_of_cons in Hin as [->|[->|[]%not_elem_of_nil]%elem_of_cons]; (split; [cbn; lia|]; split; [by apply wf_bytes_eval|reflexivity]). }
  destruct (open_is_answered (small_runtime 2) two_calls 1 second_call two_calls_reached) as [He _];
    [vm_compute; reflexivity|exact Hok|vm_compute; reflexivity|exact two_calls_reach|].
  split; [exact two_calls_reached|exact He].
Defined.
