(* ===== verification/Deliver.v ===== *)
(** * What was sent arrives

    The liveness side of [Relay]: a stream whose two ends are open can always be
    flushed from the application's socket to the target's, whatever else waits in
    front of it.  A step of the flush moves one thing on its way: a chunk into the
    client's channel, a frame to the wire and through the server's demux, an event
    into the stream's channel and out of it, bytes into the target's socket.  The
    demux loop may meet other streams, whose channels have room, are gone, or stay
    full until the timeout. *)
From S2P Require Import Prelude Errors Mux Addr Tunnel KeyConfig Config Server Pool TunnelPair FrameSize PumpStream Relay.

(** A pump with one of its tasks moved. *)
Definition up_moved (a : Pumps) (fs : list OutFrame) (u : Up) : Pumps := Pmp u (pm_down a) (pm_sent a ++ fs) (pm_parent a).
Definition down_moved (b : Pumps) (w : Down) : Pumps := Pmp (pm_up b) w (pm_sent b) (pm_parent b).

(** The stream of call [i], which stream task [n] serves. *)
Inductive flush_step (rt : ServerRuntime) (i n : nat) (sid : Z) : Relay -> Relay -> Prop :=
| flush_sends p A B c f u t' :
    ct_calls (pr_client p) !! i = Some c -> u_task (pm_up (A i)) <> UReading -> up_step (op_sid c) (pm_up (A i)) [f] u ->
    open_step i c (OPump f) (pr_client p) = Some t' ->
    flush_step rt i n sid (Rly p A B) (Rly (with_client t' p) (upd A i (up_moved (A i) [f] u)) B)
| flush_writes t f q up k s m A B :
    ct_closed t = false -> ct_queue t = f :: q ->
    flush_step rt i n sid (Rly (Pr t up k s m) A B) (Rly (Pr (with_out q t) (up ++ [f]) k s m) A B)
| flush_reads t up k f s m A B :
    tn_demux s = DIdle -> up !! k = Some f -> wf_bytes (message f) ->
    flush_step rt i n sid (Rly (Pr t up k s m) A B) (Rly (Pr t up (S k) (demux_frame rt (message f) s) m) A B)
| flush_routed p stream ev j u A B :
    tn_demux (pr_server p) = DRouting stream ev j -> tn_tasks (pr_server p) !! j = Some u -> receiving u = true ->
    (length (tk_queue u) < STREAM_BOUND)%nat ->
    flush_step rt i n sid (Rly p A B) (Rly (with_server (with_demux DIdle
      (with_task j (Tk (tk_stream u) (tk_addr u) (tk_phase u) (tk_queue u ++ [ev]) (tk_routed u) (tk_taken u)) (pr_server p))) p) A B)
| flush_dead p stream ev j u A B :
    tn_demux (pr_server p) = DRouting stream ev j -> tn_tasks (pr_server p) !! j = Some u -> receiving u = false ->
    flush_step rt i n sid (Rly p A B) (Rly (with_server (route_drop stream (pr_server p)) p) A B)
| flush_stalled p stream ev j u A B :
    tn_demux (pr_server p) = DRouting stream ev j -> tn_tasks (pr_server p) !! j = Some u ->
    (STREAM_BOUND ≤ length (tk_queue u))%nat -> stream <> sid ->
    flush_step rt i n sid (Rly p A B) (Rly (with_server (route_drop stream (pr_server p)) p) A B)
| flush_takes p A B u ev q w s' :
    tn_tasks (pr_server p) !! n = Some u -> tk_queue u = ev :: q ->
    down_step (tk_stream u) (pm_down (B n)) [] w -> w_taken w = w_taken (pm_down (B n)) ++ [ev] -> ev <> SClose ->
    task_step n u ATake (pr_server p) = Some s' ->
    flush_step rt i n sid (Rly p A B) (Rly (with_server s' p) A (upd B n (down_moved (B n) w)))
| flush_delivers p A B u w :
    tn_tasks (pr_server p) !! n = Some u -> (exists rx, tk_phase u = TPumping rx) -> w_task (pm_down (B n)) <> WWaiting ->
    down_step (tk_stream u) (pm_down (B n)) [] w -> ~ down_failed (w_task w) ->
    flush_step rt i n sid (Rly p A B) (Rly p A (upd B n (down_moved (B n) w))).

Section Deliver.
Context (rt : ServerRuntime) (i n : nat) (sid : Z).

(** ** A flush is steps of the relay *)

Lemma pump_up_moved stream a fs u : up_step stream (pm_up a) fs u -> pump_step stream a (up_moved a fs u).
Proof. destruct a. apply pump_up_moves. Qed.

Lemma pump_down_moved stream b w : down_step stream (pm_down b) [] w -> pump_step stream b (down_moved b w).
Proof. destruct b as [u w0 sent p]. intros Hst. unfold down_moved. cbn. rewrite <- (app_nil_r sent) at 2. by apply pump_down_moves. Qed.

Lemma events_close st sid' : is_u32 st -> events sid' [OutFrame_bare Close st] = [].
Proof. intros Hu. unfold events, OutFrame_bare. cbn. rewrite frame_event_new by done. by destruct (_ =? _). Qed.

(** A bounced CLOSE says nothing of a stream. *)
Lemma try_close_log st s : exists fs, out_log (out_try_send (OutFrame_bare Close st) s) = out_log s ++ fs /\
  (fs = [] \/ fs = [OutFrame_bare Close st]) /\ tn_tasks (out_try_send (OutFrame_bare Close st) s) = tn_tasks s /\
  tn_registry (out_try_send (OutFrame_bare Close st) s) = tn_registry s /\ tn_demux (out_try_send (OutFrame_bare Close st) s) = tn_demux s.
Proof.
  unfold out_try_send. destruct (_ && _); [exists [OutFrame_bare Close st]|exists []]; [|by rewrite app_nil_r; auto].
  split; [by unfold out_log; cbn; rewrite app_assoc|auto].
Qed.

(** ** What the server's demux does to the others *)

(** Nothing is said of a stream, no task takes anything, moves on or loses an event,
    and [st] is the only stream that may be deregistered. *)
Record kept (st : option Z) (s s' : TunnelState) : Prop := {
  kp_log : forall sid', events sid' (out_log s') = events sid' (out_log s);
  kp_tasks : forall j u, tn_tasks s !! j = Some u -> exists u', tn_tasks s' !! j = Some u' /\ tk_stream u' = tk_stream u /\
    tk_taken u' = tk_taken u /\ tk_phase u' = tk_phase u /\ tk_queue u' = tk_queue u;
  kp_registry : forall sid' j, tn_registry s !! sid' = Some j -> st <> Some sid' -> tn_registry s' !! sid' = Some j
}.

Lemma kept_close st s : is_u32 st -> kept None s (out_try_send (OutFrame_bare Close st) s).
Proof.
  intros Hu. destruct (try_close_log st s) as (fs & El & Hfs & Et & Er & _). split.
  - intros sid'. rewrite El, events_app. destruct Hfs as [->| ->]; [|rewrite events_close by done]; apply app_nil_r.
  - rewrite Et. intros j u Hu'. by exists u.
  - by rewrite Er.
Qed.

Lemma kept_trans st s s1 s' : kept None s s1 -> kept st s1 s' -> kept st s s'.
Proof.
  intros [L1 T1 R1] [L2 T2 R2]. split.
  - intros sid'. by rewrite L2, L1.
  - intros j u Hu. destruct (T1 j u Hu) as (u1 & Hu1 & ? & ? & ? & ?), (T2 j u1 Hu1) as (u2 & Hu2 & ? & ? & ? & ?).
    exists u2. split_and!; [done|congruence..].
  - auto.
Qed.

Lemma kept_delete st s : kept (Some st) s (with_registry (delete st (tn_registry s)) s).
Proof.
  split; [done|intros j u Hu; by exists u|]. intros sid' j Hj Hne. cbn. rewrite lookup_delete_ne; [done|]. congruence.
Qed.

Lemma kept_drop st s : is_u32 st -> kept (Some st) s (route_drop st s).
Proof.
  intros Hu. unfold route_drop. set (s1 := with_registry _ s).
  assert (kept (Some st) s (out_try_send (OutFrame_bare Close st) s1)) as [L T G].
  { destruct (kept_delete st s) as [L1 T1 R1], (kept_close st s1 Hu) as [L2 T2 R2]. split.
    - intros sid'. by rewrite L2, L1.
    - intros j u Hj. destruct (T1 j u Hj) as (u1 & Hu1 & ? & ? & ? & ?), (T2 j u1 Hu1) as (u2 & Hu2 & ? & ? & ? & ?).
      exists u2. split_and!; [done|congruence..].
    - intros sid' j Hj Hne. apply R2; [|done]. by apply R1. }
  by split.
Qed.

(** How much there is of an event. *)
Definition ev_size (ev : StreamEvent) : nat := match ev with SData d => length d | _ => 0 end.

(** A frame of the client through the demux loop. *)
Lemma demux_kept k st payload s : is_u32 st -> k <> Reply -> tn_demux s = DIdle -> let s' := demux_frame rt (message (OutFrame_new k st payload)) s in
  kept (match k with Close => Some st | _ => None end) s s' /\
  (tn_demux s' = DIdle \/ exists ev j, tn_demux s' = DRouting st ev j /\ (ev_size ev ≤ length payload)%nat).
Proof.
  intros Hu Hk Hd s'. unfold s', demux_frame, message. cbn [of_header of_payload OutFrame_new]. rewrite parse_frame_header by done.
  assert (forall ev, (ev_size ev ≤ length payload)%nat -> kept None s (route st ev s) /\
    (tn_demux (route st ev s) = DIdle \/ exists ev' j, tn_demux (route st ev s) = DRouting st ev' j /\ (ev_size ev' ≤ length payload)%nat)) as Hroute.
  { intros ev Hev. unfold route. destruct (tn_registry s !! st) as [j|] eqn:Hj.
    - destruct (tn_tasks s !! j) as [t|] eqn:Ht; [|split; [split; [done|intros a u Ha; by exists u|done]|by left]].
      split; [|right; by exists ev, j]. split; cbn; [done| |done]. intros a u Ha. destruct (decide (a = j)) as [->|Hne].
      + rewrite Ht in Ha. injection Ha as <-. eexists. split; [apply list_lookup_insert_eq; by eapply lookup_lt_Some|done].
      + exists u. by rewrite list_lookup_insert_ne.
    - destruct (try_close_log st s) as (_ & _ & _ & _ & _ & Ed). split; [by apply kept_close|left; by rewrite Ed]. }
  destruct k; [|done|apply Hroute; simpl; lia|apply Hroute; simpl; lia|].
  - assert (kept None s (out_try_send (OutFrame_bare Close st) s) /\
      (tn_demux (out_try_send (OutFrame_bare Close st) s) = DIdle \/
       exists ev j, tn_demux (out_try_send (OutFrame_bare Close st) s) = DRouting st ev j /\ (ev_size ev ≤ length payload)%nat)) as Hclose.
    { destruct (try_close_log st s) as (_ & _ & _ & _ & _ & Ed). split; [by apply kept_close|left; by rewrite Ed]. }
    unfold handle_open. cbv zeta. destruct (bool_decide _) eqn:Eb; [exact Hclose|]. apply bool_decide_eq_false in Eb.
    destruct (match rt_max_streams_per_conn rt with Some _ => _ | None => _ end); [exact Hclose|].
    destruct (addr_decode payload); [|exact Hclose]. split; [|by left]. split; cbn; [done| |].
    + intros j u Hj. exists u. split; [by apply lookup_app_l_Some|done].
    + intros sid' j Hj _. rewrite lookup_insert_ne; [done|]. intros ->. by destruct Eb.
  - split; [apply kept_delete|by left].
Qed.

(** ** The state of a flush *)

Definition up_running (t : UpTask) : Prop := match t with UEnded d => d = DEof | UAborted => False | _ => True end.
Definition down_running (t : DownTask) : Prop := match t with WEnded d => d = DEof | WAborted => False | _ => True end.

(** Both ends of the stream are open, and the way from one to the other is. *)
Record flowing (r : Relay) : Prop := {
  fl_open : ct_closed (pr_client (rl_pair r)) = false;
  fl_call : exists c, ct_calls (pr_client (rl_pair r)) !! i = Some c /\ op_sid c = sid /\ op_phase c = OStreaming false;
  fl_task : exists u, tn_tasks (pr_server (rl_pair r)) !! n = Some u /\ tk_stream u = sid /\ exists rx, tk_phase u = TPumping rx;
  fl_registry : tn_registry (pr_server (rl_pair r)) !! sid = Some n;
  fl_demux : tn_demux (pr_server (rl_pair r)) <> DEnded;
  fl_unclosed : kinds Close sid (client_log (rl_pair r)) = 0%nat;
  fl_up : up_running (u_task (pm_up (rl_client r i)));
  fl_down : down_running (w_task (pm_down (rl_server r n)))
}.

Record flushing (r : Relay) : Prop := {
  fg_inv : relay_inv rt r;
  fg_small : small (pr_client (rl_pair r));
  fg_wf : Forall (fun f => wf_bytes (message f)) (client_log (rl_pair r));
  fg_flowing : flowing r
}.

(** The application has sent everything it will. *)
Definition ended (t : UpTask) : bool := match t with UFinishing | UEnded _ => true | _ => false end.

(** The target was written [sent], and told if that is all. *)
Definition arrived (sent : bytes) (all : bool) (r : Relay) : Prop :=
  w_written (pm_down (rl_server r n)) = sent /\ w_shut (pm_down (rl_server r n)) = all.

(** How far everything still has to go: stages to pass and bytes. *)
Definition up_load (t : UpTask) : nat := match t with USending d => 6 + length d | UFinishing => 6 | _ => 0 end.
Definition frames_load (stage : nat) (fs : list OutFrame) : nat := sum_list_with (fun f => stage + length (of_payload f))%nat fs.
Definition route_load (d : Demux) : nat := match d with DRouting _ ev _ => 3 + ev_size ev | _ => 0 end.
Definition queue_load (q : list StreamEvent) : nat := sum_list_with (fun ev => 2 + ev_size ev)%nat q.
Definition down_load (t : DownTask) : nat := match t with WWriting d k => 1 + (length d - k) | WShutting => 1 | _ => 0 end.

Definition load (r : Relay) : nat :=
  let p := rl_pair r in
  (up_load (u_task (pm_up (rl_client r i))) + frames_load 5 (ct_queue (pr_client p)) + frames_load 4 (drop (pr_up_read p) (pr_up p)) +
   route_load (tn_demux (pr_server p)) + match tn_tasks (pr_server p) !! n with Some u => queue_load (tk_queue u) | None => 0 end +
   down_load (w_task (pm_down (rl_server r n))))%nat.

Lemma frames_load_cons stage f fs : frames_load stage (f :: fs) = (stage + length (of_payload f) + frames_load stage fs)%nat.
Proof. done. Qed.

Lemma queue_load_cons ev q : queue_load (ev :: q) = (2 + ev_size ev + queue_load q)%nat.
Proof. done. Qed.

Lemma queue_load_app a b : queue_load (a ++ b) = (queue_load a + queue_load b)%nat.
Proof. apply sum_list_with_app. Qed.
#[local] Arguments frames_load : simpl never.
#[local] Arguments queue_load : simpl never.

Lemma frames_load_app stage a b : frames_load stage (a ++ b) = (frames_load stage a + frames_load stage b)%nat.
Proof. apply sum_list_with_app. Qed.

(** A frame read by the server is one the client made, and no CLOSE of the stream. *)
Lemma flushing_frame r f : flushing r -> f ∈ client_log (rl_pair r) ->
  exists k st p, f = OutFrame_new k st p /\ is_u32 st /\ k <> Reply /\ (k = Close -> st <> sid).
Proof.
  intros [Hinv Hsm _ Hfl] Hf. destruct (lo_frames _ _ (pi_log _ _ (ri_pair _ _ Hinv)) f Hf) as (k & st & p & Ef & Hu & Hk & _).
  exists k, st, p. refine (conj Ef (conj Hu (conj Hk _))). intros -> ->. pose proof (fl_unclosed _ Hfl) as H0. revert H0. unfold kinds.
  assert (0 < count (fun g => is_kind Close sid g = true) (client_log (rl_pair r)))%nat; [|lia].
  apply list_elem_of_lookup_1 in Hf as [j Hj]. apply (count_pos _ _ j f Hj). by rewrite Ef, is_kind_new, bool_decide_true, Z.eqb_refl.
Qed.

(** ** A step of it *)

(** What a step has to be: one of the relay, that leaves the stream flowing with less
    to go, reads nothing more of the application, and logs well-formed frames only. *)
Definition step_ok (r r' : Relay) : Prop :=
  relay_step rt r r' /\ flowing r' /\ (load r' < load r)%nat /\
  (ct_calls (pr_client (rl_pair r')) = ct_calls (pr_client (rl_pair r)) /\
   u_read (pm_up (rl_client r' i)) = u_read (pm_up (rl_client r i)) /\
   ended (u_task (pm_up (rl_client r' i))) = ended (u_task (pm_up (rl_client r i)))) /\
  exists fs, client_log (rl_pair r') = client_log (rl_pair r) ++ fs /\ Forall (fun f => wf_bytes (message f)) fs.

Lemma pump_frame_wf f : is_u32 sid -> pump_frame sid f = true -> wf_bytes (message f).
Proof. intros Hu Hf. by destruct (pump_fits sid f Hu Hf). Qed.

(** A pump's frame takes its bytes along. *)
Lemma sent_load a f u : is_u32 sid -> up_step sid a [f] u -> u_task a <> UReading ->
  is_kind Close sid f = false /\ up_running (u_task u) /\ u_read u = u_read a /\ ended (u_task u) = ended (u_task a) /\
  (up_load (u_task u) + 5 + length (of_payload f) < up_load (u_task a))%nat.
Proof.
  intros Hu Hup Hne. destruct a as [tu ru bu]. cbn [u_task] in *. inversion Hup; subst; try (by destruct Hne);
    unfold OutFrame_bare; rewrite is_kind_new by done; cbn; (split; [done|]; split; [done|]; split; [done|]; split; [done|lia]).
Qed.

Lemma sends_ok p A B c f u t' : flushing (Rly p A B) ->
  ct_calls (pr_client p) !! i = Some c -> u_task (pm_up (A i)) <> UReading -> up_step (op_sid c) (pm_up (A i)) [f] u ->
  open_step i c (OPump f) (pr_client p) = Some t' -> step_ok (Rly p A B) (Rly (with_client t' p) (upd A i (up_moved (A i) [f] u)) B).
Proof.
  intros [Hinv Hsm _ [Hop (c0 & Hc0 & Es & Hph) Htk Hreg Hdm Hcl _ Hdn]] Hc Hne Hup Ho. cbn [rl_pair rl_client rl_server] in *.
  rewrite Hc in Hc0. injection Hc0 as <-. assert (is_u32 sid) as Hu by (rewrite <- Es; eapply sid_u32, Hc; apply Hinv).
  split. { apply relay_pumps_client. eapply pumps_client_sends; [done|by apply pump_up_moved|by split|done]. }
  destruct (client_queues _ _ _ _ _ Ho) as [-> Hf]. rewrite Es in Hup, Hf.
  assert (client_log (with_client (with_out (ct_queue (pr_client p) ++ [f]) (pr_client p)) p) = client_log p ++ [f]) as El
    by (unfold client_log; cbn; by rewrite app_assoc).
  destruct (sent_load _ _ _ Hu Hup Hne) as (Hk & Hrun & Hread & Hend & Hload).
  split; [split; cbn [rl_pair rl_client rl_server]; try done|split; [|split; [by cbn; rewrite upd_same|]]].
  - by exists c.
  - rewrite El, kinds_snoc, Hk, Hcl. done.
  - by rewrite upd_same.
  - unfold load. cbn. rewrite upd_same, frames_load_app, frames_load_cons. cbn. change (frames_load 5 []) with 0%nat. lia.
  - exists [f]. split; [exact El|]. apply Forall_singleton. by apply pump_frame_wf.
Qed.

Lemma writes_ok t f q up k s m A B : flushing (Rly (Pr t up k s m) A B) -> ct_closed t = false -> ct_queue t = f :: q ->
  step_ok (Rly (Pr t up k s m) A B) (Rly (Pr (with_out q t) (up ++ [f]) k s m) A B).
Proof.
  intros [Hinv _ _ [Hop Hca Htk Hreg Hdm Hcl Hup Hdn]] Hc Hq. pose proof (pi_up_read _ _ (ri_pair _ _ Hinv)) as Hk. cbn [rl_pair rl_client rl_server pr_up_read pr_up] in *.
  assert (client_log (Pr (with_out q t) (up ++ [f]) k s m) = client_log (Pr t up k s m)) as El by (unfold client_log; cbn; by rewrite Hq, <- app_assoc).
  split; [apply relay_pair; [by apply pair_client_writes|by apply elsewhere_same]|].
  split; [split; cbn [rl_pair rl_client rl_server]; try done; by rewrite El|]. split.
  - unfold load. cbn. rewrite Hq, drop_app_le, frames_load_app, !frames_load_cons by done. change (frames_load 4 []) with 0%nat. lia.
  - split; [done|]. exists []. split; [by rewrite app_nil_r|by apply Forall_nil].
Qed.

(** The server moves by [s'] and leaves the task of the stream as it is. *)
Lemma demux_moves_ok p p' st A B : flushing (Rly p A B) -> kept st (pr_server p) (pr_server p') -> pair_step rt p p' ->
  pr_client p' = pr_client p -> pr_up p' = pr_up p -> tn_demux (pr_server p') <> DEnded -> st <> Some sid ->
  (frames_load 4 (drop (pr_up_read p') (pr_up p')) + route_load (tn_demux (pr_server p')) <
   frames_load 4 (drop (pr_up_read p) (pr_up p)) + route_load (tn_demux (pr_server p)))%nat ->
  step_ok (Rly p A B) (Rly p' A B).
Proof.
  intros [_ _ _ [Hop Hca (u & Hu & Es & Eph) Hreg _ Hcl Hup Hdn]] [Kl Kt Kr] Hst Ec Eu Hd Hne Hload. cbn [rl_pair rl_client rl_server] in *.
  destruct (Kt n u Hu) as (u' & Hu' & Es' & _ & Ep' & Eq').
  assert (client_log p' = client_log p) as El by (unfold client_log; by rewrite Ec, Eu).
  split. { apply relay_pair; [done|]. split; [by rewrite El|done|]. intros j v Hv. destruct (Kt j v Hv) as (v' & ? & ? & ? & Ep & _). exists v'. split; [done|]. split_and!; [done|done|by rewrite Ep]. }
  split; [split; cbn [rl_pair rl_client rl_server]; rewrite ?Ec, ?El; try done|split; [|split; [by cbn; rewrite Ec|]]].
  - exists u'. rewrite Es', Ep'. by split.
  - by apply Kr.
  - unfold load. cbn. rewrite Ec, Hu, Hu', Eq'. lia.
  - exists []. cbn. rewrite El. split; [by rewrite app_nil_r|by apply Forall_nil].
Qed.

Lemma reads_ok t up k f s m A B : flushing (Rly (Pr t up k s m) A B) -> tn_demux s = DIdle -> up !! k = Some f -> wf_bytes (message f) ->
  step_ok (Rly (Pr t up k s m) A B) (Rly (Pr t up (S k) (demux_frame rt (message f) s) m) A B).
Proof.
  intros Hfl Hd Hf Hw. destruct (flushing_frame _ f Hfl) as (kd & st & pl & -> & Hu & Hk & Hne).
  { unfold client_log. cbn. apply elem_of_app. left. by eapply list_elem_of_lookup_2. }
  destruct (demux_kept kd st pl s Hu Hk Hd) as [Hkept Hdm].
  apply (demux_moves_ok _ (Pr t up (S k) _ m) _ A B Hfl Hkept); cbn [pr_client pr_up pr_server pr_up_read];
    [by apply pair_server_reads|done|done|destruct Hdm as [->|(ev & j & -> & _)]; done|destruct kd; try done; intros [= E]; by apply Hne|].
  rewrite (drop_S _ _ _ Hf), Hd, frames_load_cons. destruct Hdm as [->|(ev & j & -> & Hl)]; simpl; lia.
Qed.

Lemma events_no_close l : SClose ∉ events sid l.
Proof.
  intros (f & Hf & _)%list_elem_of_bind. unfold frame_event in Hf.
  destruct (parse_frame _) as [[[[] st] p]|e]; try destruct (_ =? _); try (by apply not_elem_of_nil in Hf); by apply list_elem_of_singleton in Hf.
Qed.

(** Nothing comes behind the EOF that a pump ended at. *)
Lemma down_ended_last a b ev q : pump_inv sid a -> pump_inv sid b -> w_taken (pm_down b) ++ ev :: q `prefix_of` events sid (pm_sent a) ->
  w_task (pm_down b) <> WEnded DEof.
Proof.
  intros Ha Hb Hpre E. pose proof (pv_down _ _ Hb) as [_ [Hlast _]]. rewrite E in Hlast. destruct Hlast as [t0 Et].
  destruct (pv_up _ _ Ha) as (chunks & Es & _). rewrite Es, Et in Hpre.
  assert (t0 ++ [SEof] `prefix_of` map SData chunks ++ (if up_eof (u_task (pm_up a)) then [SEof] else [])) as Hp'
    by (etransitivity; [|exact Hpre]; by eexists).
  destruct (eof_is_last _ _ _ Hp') as [He ->]. rewrite He in Hpre. apply prefix_length in Hpre. rewrite !length_app in Hpre. simpl in Hpre. lia.
Qed.

(** Where the events of the stream are: sent by one pump, taken by the other, queued,
    in the demux, or in frames the server has not read.  When the receiver is gone,
    every event sent was taken. *)
Lemma flushing_dropped p A B u : flushing (Rly p A B) -> tn_tasks (pr_server p) !! n = Some u -> receiving u = false ->
  tk_taken u = tk_routed u /\ tk_queue u = [] /\ in_route (pr_server p) n = [].
Proof.
  intros [Hinv _ _ [_ (c & Hc & Ec & _) (v & Hv & Ev & rx & Ep) Hreg _ _ _ Hdn]] Hu Hrc. cbn [rl_pair rl_server] in *. rewrite Hu in Hv. injection Hv as <-.
  pose proof (ri_pair _ _ Hinv) as Hp. cbn [rl_pair] in Hp. pose proof (pi_server _ _ Hp) as His.
  unfold receiving in Hrc. rewrite Ep in Hrc. subst rx.
  destruct (ri_client _ _ Hinv i c Hc) as (Hpi & Hev & _), (ri_server _ _ Hinv n u Hu) as (Hpn & _ & Htk & Hdeaf). cbn [rl_pair rl_client rl_server] in *.
  rewrite Ec in *. rewrite Ev in *. pose proof (inv_tasks _ _ His n u Hu) as Hti.
  assert (w_task (pm_down (B n)) = WEnded DEof) as Hend.
  { specialize (Hdeaf Ep). unfold listening, down_running in *. destruct (w_task _); try done. by rewrite Hdn. }
  pose proof (task_dropped _ _ _ Hti) as Hq. unfold receiving in Hq. rewrite Ep in Hq. specialize (Hq eq_refl).
  pose proof (task_prefix _ _ _ Hti) as [k Hk]. rewrite Hq, app_nil_r in Hk.
  assert (tk_routed u `prefix_of` events sid (pm_sent (A i))) as Hpre.
  { rewrite <- Ev in Hreg. rewrite (sv_exact _ _ (pi_up _ _ Hp) n u Hu Hreg), Ev, <- Hev. apply events_prefix, up_seen_prefix. }
  assert (k = []) as ->.
  { destruct k as [|x k]; [done|]. destruct (down_ended_last (A i) (B n) x k Hpi Hpn); [by rewrite Htk, <- Hk|exact Hend]. }
  rewrite app_nil_r in Hk. split; [done|]. split; [done|]. unfold in_route. destruct (tn_demux (pr_server p)) as [|st ev j|] eqn:Ed; try done.
  case_decide as E; [subst j|done]. destruct (inv_route _ _ His st ev n Ed) as (u' & Hu' & _ & _ & pre & Epre & Hpp & _).
  rewrite Hu in Hu'. injection Hu' as <-. apply prefix_length in Hpp. apply (f_equal length) in Epre. rewrite Hk, !length_app in *. simpl in *. lia.
Qed.

Lemma flushing_events p A B u : flushing (Rly p A B) -> tn_tasks (pr_server p) !! n = Some u ->
  w_taken (pm_down (B n)) ++ tk_queue u ++ in_route (pr_server p) n = events sid (up_seen p) /\
  events sid (up_seen p) `prefix_of` events sid (pm_sent (A i)) /\
  (ct_queue (pr_client p) = [] -> drop (pr_up_read p) (pr_up p) = [] -> events sid (up_seen p) = events sid (pm_sent (A i))) /\
  is_u32 sid /\ pump_inv sid (A i) /\ pump_inv sid (B n).
Proof.
  intros Hfl Hu. pose proof (flushing_dropped p A B u Hfl Hu) as Hdr.
  destruct Hfl as [Hinv _ _ [_ (c & Hc & Ec & _) (v & Hv & Ev & _) Hreg _ _ _ _]]. cbn [rl_pair] in *. rewrite Hu in Hv. injection Hv as <-.
  pose proof (ri_pair _ _ Hinv) as Hp. cbn [rl_pair] in Hp.
  destruct (ri_client _ _ Hinv i c Hc) as (Hpi & Hev & _), (ri_server _ _ Hinv n u Hu) as (Hpn & _ & Htk & _). cbn [rl_pair rl_client rl_server] in *.
  rewrite Ec in *. rewrite Ev in *.
  pose proof (inv_tasks _ _ (pi_server _ _ Hp) n u Hu) as Hti. rewrite <- Ev in Hreg.
  assert (tk_taken u ++ tk_queue u ++ in_route (pr_server p) n = tk_routed u) as Hex.
  { destruct (receiving u) eqn:Er; [by apply (task_exact _ _ _ Hti)|]. destruct (Hdr eq_refl) as (-> & -> & ->). by rewrite !app_nil_r. }
  rewrite Htk, Hex, (sv_exact _ _ (pi_up _ _ Hp) n u Hu Hreg), Ev.
  split; [done|]. split; [rewrite <- Hev; apply events_prefix, up_seen_prefix|]. split.
  - intros Eq Ed. rewrite <- Hev. unfold client_log, up_seen. rewrite Eq, app_nil_r. f_equal.
    rewrite <- (take_drop (pr_up_read p) (pr_up p)) at 2. by rewrite Ed, app_nil_r.
  - split; [|by split]. rewrite <- Ev. by eapply task_u32.
Qed.

Lemma drops_ok p stream ev j u A B : flushing (Rly p A B) -> tn_demux (pr_server p) = DRouting stream ev j ->
  tn_tasks (pr_server p) !! j = Some u -> (receiving u = false \/ (STREAM_BOUND ≤ length (tk_queue u))%nat /\ stream <> sid) ->
  step_ok (Rly p A B) (Rly (with_server (route_drop stream (pr_server p)) p) A B).
Proof.
  intros Hfl Hd Hu Hc. pose proof Hfl as [Hinv _ _ [_ _ _ Hreg _ _ _ _]]. cbn [rl_pair] in *.
  pose proof (pi_server _ _ (ri_pair _ _ Hinv)) as His. cbn [rl_pair] in His. destruct (inv_route _ _ His stream ev j Hd) as (u' & Hu' & Es & Hj & _).
  rewrite Hu in Hu'. injection Hu' as <-. assert (is_u32 stream) as Hst by (rewrite <- Es; by eapply task_u32, inv_tasks).
  assert (stream <> sid) as Hne.
  { destruct Hc as [Hr|[_ ?]]; [|done]. intros ->. rewrite <- (Hj n Hreg) in *. destruct (flushing_dropped p A B u Hfl Hu Hr) as (_ & _ & E).
    unfold in_route in E. rewrite Hd in E. by rewrite decide_True in E. }
  apply (demux_moves_ok p _ (Some stream) A B Hfl); cbn [with_server pr_client pr_up pr_server pr_up_read]; [by apply kept_drop| |done|done|done|congruence|].
  - destruct p as [t up k s m]. apply pair_server. destruct Hc as [Hr|[Hl _]]; [by eapply tunnel_dead|by eapply tunnel_stalled].
  - rewrite Hd. simpl. lia.
Qed.

Lemma routed_ok p stream ev j u A B : flushing (Rly p A B) -> tn_demux (pr_server p) = DRouting stream ev j ->
  tn_tasks (pr_server p) !! j = Some u -> receiving u = true -> (length (tk_queue u) < STREAM_BOUND)%nat ->
  step_ok (Rly p A B) (Rly (with_server (with_demux DIdle
    (with_task j (Tk (tk_stream u) (tk_addr u) (tk_phase u) (tk_queue u ++ [ev]) (tk_routed u) (tk_taken u)) (pr_server p))) p) A B).
Proof.
  intros [Hinv _ _ [Hop Hca (v & Hv & Ev & Ep) Hreg _ Hcl Hup Hdn]] Hd Hu Hr Hl. cbn [rl_pair rl_client rl_server] in *.
  split.
  { apply relay_pair; [destruct p; by apply pair_server, (tunnel_routed _ stream ev j u)|]. split; [done..|]. intros a b Hb.
    destruct (decide (a = j)) as [->|Hne]; [|exists b; cbn; by rewrite list_lookup_insert_ne].
    cbn in Hb. rewrite Hu in Hb. injection Hb as <-. eexists. split; [cbn; apply list_lookup_insert_eq; by eapply lookup_lt_Some|done]. }
  set (v' := Tk _ _ _ _ _ _). split; [split; cbn [rl_pair rl_client rl_server]; try done|split; [|split; [done|]]].
  - cbn. destruct (decide (n = j)) as [->|Hne]; [|exists v; by rewrite list_lookup_insert_ne].
    rewrite Hu in Hv. injection Hv as <-. exists v'. split; [apply list_lookup_insert_eq; by eapply lookup_lt_Some|done].
  - unfold load. cbn. rewrite Hd. cbn. destruct (decide (n = j)) as [->|Hne]; [|rewrite list_lookup_insert_ne by done; lia].
    rewrite Hu, list_lookup_insert_eq by (by eapply lookup_lt_Some). cbn. rewrite queue_load_app, queue_load_cons. change (queue_load []) with 0%nat. lia.
  - exists []. split; [by rewrite app_nil_r|by apply Forall_nil].
Qed.

(** The target's pump takes an event, or works on what it took. *)
Lemma down_takes stream w w' ev : down_step stream w [] w' -> w_taken w' = w_taken w ++ [ev] -> ev <> SClose ->
  down_running (w_task w') /\ (down_load (w_task w') < 2 + ev_size ev + down_load (w_task w))%nat.
Proof.
  assert (forall (t : list StreamEvent), t <> t ++ [ev]) as Hno.
  { intros t E. apply (f_equal length) in E. rewrite length_app in E. simpl in E. lia. }
  intros Hst Et Hne. inversion Hst; subst; cbn in *; try (by destruct (Hno _ Et)); apply app_inj_tail in Et as [_ <-]; try done;
    (split; [done|simpl; lia]).
Qed.

Lemma down_delivers stream w w' : down_step stream w [] w' -> w_task w <> WWaiting -> ~ down_failed (w_task w') ->
  down_running (w_task w') /\ w_taken w' = w_taken w /\ (down_load (w_task w') < down_load (w_task w))%nat.
Proof.
  intros Hst Hw Hf. inversion Hst; subst; cbn in *; try (by destruct Hw); try (split; [done|]; split; [done|lia]).
  destruct Hf. apply classify_not_eof.
Qed.

Lemma takes_ok p A B u ev q w s' : flushing (Rly p A B) -> tn_tasks (pr_server p) !! n = Some u -> tk_queue u = ev :: q ->
  down_step (tk_stream u) (pm_down (B n)) [] w -> w_taken w = w_taken (pm_down (B n)) ++ [ev] -> ev <> SClose ->
  task_step n u ATake (pr_server p) = Some s' ->
  step_ok (Rly p A B) (Rly (with_server s' p) A (upd B n (down_moved (B n) w))).
Proof.
  intros [_ _ _ [Hop Hca (v & Hv & Ev & Ep) Hreg Hd Hcl Hup _]] Hu Hq Hw Et Hne Ho. cbn [rl_pair rl_client rl_server] in *.
  rewrite Hu in Hv. injection Hv as <-. destruct (down_takes _ _ _ _ Hw Et Hne) as [Hrun Hload]. split.
  { apply relay_pumps_server. eapply pumps_server_takes; [done|done|by apply pump_down_moved|by split|done]. }
  destruct Ep as [rx Ep]. unfold task_step in Ho. rewrite Ep, Hq in Ho. destruct rx; [|done]. destruct (pump_over u); [done|]. injection Ho as <-.
  set (u' := Tk _ _ _ _ _ _).
  split; [split; cbn [rl_pair rl_client rl_server]; try done|split; [|split; [done|]]].
  - exists u'. split; [cbn; apply list_lookup_insert_eq; by eapply lookup_lt_Some|split; [done|by exists true]].
  - by rewrite upd_same.
  - unfold load. cbn. rewrite Hu, list_lookup_insert_eq, upd_same, Hq, queue_load_cons by (by eapply lookup_lt_Some). cbn. lia.
  - exists []. split; [by rewrite app_nil_r|by apply Forall_nil].
Qed.

Lemma delivers_ok p A B u w : flushing (Rly p A B) -> tn_tasks (pr_server p) !! n = Some u -> (exists rx, tk_phase u = TPumping rx) ->
  w_task (pm_down (B n)) <> WWaiting -> down_step (tk_stream u) (pm_down (B n)) [] w -> ~ down_failed (w_task w) ->
  step_ok (Rly p A B) (Rly p A (upd B n (down_moved (B n) w))).
Proof.
  intros [_ _ _ [Hop Hca Htk Hreg Hd Hcl Hup _]] Hu [rx Hph] Hne Hw Hf. cbn [rl_pair rl_client rl_server] in *.
  destruct (down_delivers _ _ _ Hw Hne Hf) as (Hrun & Htaken & Hload). split.
  { apply relay_pumps_own. eapply pumps_server_moves; [done|done|by apply pump_down_moved|]. split; [by cbn; rewrite app_nil_r|exact Htaken]. }
  split; [split; cbn [rl_pair rl_client rl_server]; try done; by rewrite upd_same|split; [|split; [done|]]].
  - unfold load. cbn. rewrite upd_same. cbn. lia.
  - exists []. split; [by rewrite app_nil_r|by apply Forall_nil].
Qed.

Lemma flush_step_ok r r' : flush_step rt i n sid r r' -> flushing r -> step_ok r r'.
Proof.
  intros [p A B c f u t' H1 H2 H3 H4|t f q up k s m A B H1 H2|t up k f s m A B H1 H2 H3|p stream ev j u A B H1 H2 H3 H4
    |p stream ev j u A B H1 H2 H3|p stream ev j u A B H1 H2 H3 H4|p A B u ev q w s' H1 H2 H3 H4 H5 H6|p A B u w H1 H2 H3 H4 H5] Hfl.
  - by eapply sends_ok.
  - by apply writes_ok.
  - by apply reads_ok.
  - by apply (routed_ok p stream ev j u).
  - eapply drops_ok; [done..|by left].
  - eapply drops_ok; [done..|by right].
  - by eapply takes_ok.
  - by eapply delivers_ok.
Qed.

Lemma flush_step_flushing r r' : step_ok r r' -> flushing r -> flushing r'.
Proof.
  intros (Hst & Hfl & _ & (Ec & _) & fs & El & Hw) [Hinv Hsm Hwf _].
  assert (small (pr_client (rl_pair r'))) as Hsm' by (unfold small in *; by rewrite Ec).
  split; [by eapply relay_step_inv|done| |done]. rewrite El. by apply Forall_app.
Qed.

(** ** There is always a step *)

(** A pump towards a socket works on what it took, or has nothing to do. *)
Lemma down_works b : pump_inv sid b -> down_running (w_task (pm_down b)) ->
  (w_task (pm_down b) = WWaiting \/ w_task (pm_down b) = WEnded DEof) \/
  exists w', w_task (pm_down b) <> WWaiting /\ down_step sid (pm_down b) [] w' /\ ~ down_failed (w_task w').
Proof.
  intros [_ [(whole & _ & _ & Hr) _] _ _ _] Hdn. destruct (pm_down b) as [td tk w sh k0]. cbn [w_task w_taken w_written] in *.
  destruct td as [|d k| |d|]; [by left; left| | |by left; right; rewrite Hdn|done]; right.
  - eexists. split; [done|]. split; [apply down_wrote; apply Hr|]. by intros [].
  - eexists. split; [done|]. split; [apply down_shuts|]. cbn. by intros [].
Qed.

(** One that waits takes the next event, *)
Lemma down_takes_next w ev : w_task w = WWaiting -> ev <> SClose -> exists w', down_step sid w [] w' /\ w_taken w' = w_taken w ++ [ev].
Proof.
  destruct w as [td tk w sh b]. cbn. intros -> Hne. destruct ev as [[|x d]| |]; [..|done].
  - eexists. split; [apply down_empty|done].
  - eexists. split; [by apply (down_data sid (x :: d))|done].
  - eexists. split; [apply down_eof|done].
Qed.

(** The target's pump. *)
Lemma down_moves_on p A B u : flushing (Rly p A B) -> tn_tasks (pr_server p) !! n = Some u -> pump_inv sid (B n) ->
  (w_task (pm_down (B n)) = WWaiting \/ w_task (pm_down (B n)) = WEnded DEof) \/ exists r', flush_step rt i n sid (Rly p A B) r'.
Proof.
  intros [_ _ _ [_ _ (v & Hv & Ev & Ep) _ _ _ _ Hdn]] Hu Hpn. cbn [rl_pair rl_server] in *. rewrite Hu in Hv. injection Hv as <-.
  destruct (down_works _ Hpn Hdn) as [Hw|(w' & Hne & Hst & Hf)]; [by left|right].
  eexists. eapply flush_delivers; [exact Hu|exact Ep|exact Hne|by rewrite Ev|exact Hf].
Qed.

(** A pump that waits has not met the end of its loop. *)
Lemma still_taking p A B u : flushing (Rly p A B) -> tn_tasks (pr_server p) !! n = Some u -> w_task (pm_down (B n)) = WWaiting ->
  pump_over u = false.
Proof.
  intros Hfl Hu Hw. destruct (flushing_events p A B u Hfl Hu) as (Eev & _ & _ & _ & _ & Hpn).
  destruct (ri_server _ _ (fg_inv _ Hfl) n u Hu) as (_ & _ & Htk & _). cbn [rl_server] in Htk. rewrite Htk in Eev.
  pose proof (pv_down _ _ Hpn) as [_ [Hlast _]]. rewrite Hw, Htk in Hlast. unfold pump_over.
  destruct (last (tk_taken u)) as [ev|] eqn:El; [|done]. apply last_Some in El as [l El]. destruct ev; [done|..]; exfalso.
  - apply Hlast. rewrite El, elem_of_app. right. by left.
  - apply (events_no_close (up_seen p)). rewrite <- Eev, El, !elem_of_app. left. right. by left.
Qed.

(** A queued event is taken, or what was taken before it is being worked on. *)
Lemma own_queue_moves p A B u ev q : flushing (Rly p A B) -> tn_tasks (pr_server p) !! n = Some u -> tk_queue u = ev :: q ->
  exists r', flush_step rt i n sid (Rly p A B) r'.
Proof.
  intros Hfl Hu Hq. destruct (flushing_events p A B u Hfl Hu) as (Eev & Hpre & _ & _ & Hpi & Hpn).
  destruct (down_moves_on p A B u Hfl Hu Hpn) as [Hw|Hmv]; [|done]. rewrite Hq in Eev.
  pose proof (flushing_dropped p A B u Hfl Hu) as Hdr.
  pose proof Hfl as [_ _ _ [_ _ (v & Hv & Ev & rx & Ep) _ _ _ _ _]]. cbn [rl_pair rl_server] in *. rewrite Hu in Hv. injection Hv as <-.
  destruct rx; [|unfold receiving in Hdr; rewrite Ep in Hdr; destruct (Hdr eq_refl) as (_ & E & _); congruence].
  assert (ev <> SClose) as Hne by (intros ->; apply (events_no_close (up_seen p)); rewrite <- Eev, !elem_of_app; right; left; by left).
  destruct Hw as [Hw|Hw].
  - destruct (down_takes_next _ ev Hw Hne) as (w' & Hst & Et). eexists.
    eapply flush_takes; [exact Hu|exact Hq|by rewrite Ev|exact Et|exact Hne|unfold task_step; by rewrite Ep, Hq, (still_taking p A B u Hfl Hu Hw)].
  - by destruct (down_ended_last (A i) (B n) ev (q ++ in_route (pr_server p) n) Hpi Hpn); [rewrite <- Eev in Hpre|].
Qed.

(** What the demux is waiting with goes to a channel or is dropped. *)
Lemma routing_moves p A B stream ev j : flushing (Rly p A B) -> tn_demux (pr_server p) = DRouting stream ev j ->
  exists r', flush_step rt i n sid (Rly p A B) r'.
Proof.
  intros Hfl Hd. pose proof Hfl as [Hinv _ _ [_ _ _ Hreg _ _ _ _]]. cbn [rl_pair] in *.
  destruct (inv_route _ _ (pi_server _ _ (ri_pair _ _ Hinv)) stream ev j Hd) as (u & Hu & Es & Hj & _).
  destruct (receiving u) eqn:Er; [|eexists; by eapply flush_dead].
  destruct (decide (length (tk_queue u) < STREAM_BOUND)%nat) as [Hl|Hl]; [eexists; by eapply flush_routed|].
  destruct (decide (stream = sid)) as [->|Hne]; [|eexists; eapply flush_stalled; [done..|lia|done]].
  rewrite <- (Hj n Hreg) in Hu. destruct (tk_queue u) as [|x q] eqn:Eq; [|by eapply own_queue_moves].
  exfalso. apply Hl. unfold STREAM_BOUND. simpl. lia.
Qed.

(** The client's pump has a frame to queue, and there is room. *)
Lemma sends_move p A B f u : flushing (Rly p A B) -> ct_queue (pr_client p) = [] -> u_task (pm_up (A i)) <> UReading ->
  up_step sid (pm_up (A i)) [f] u -> exists r', flush_step rt i n sid (Rly p A B) r'.
Proof.
  intros Hfl Hq Hne Hup. pose proof Hfl as [_ _ _ [Hop (c & Hc & Es & Hph) (v & Hv & _) _ _ _ _ _]]. cbn [rl_pair] in *.
  destruct (flushing_events p A B v Hfl Hv) as (_ & _ & _ & Hu & Hpi & _).
  destruct (up_step_inv sid Hu _ _ _ _ Hup (pv_up _ _ Hpi)) as (_ & Hf & _). rewrite Forall_singleton in Hf.
  eexists. eapply flush_sends; [exact Hc|exact Hne|rewrite Es; exact Hup|]. unfold open_step. rewrite Hph, Es, Hf, Hop, Hq.
  unfold OUTBOUND_BOUND. cbn. reflexivity.
Qed.

(** Two pumps with nothing between them and nothing in hand have the same bytes. *)
Lemma settled_arrived a b : pump_inv sid a -> pump_inv sid b -> w_taken (pm_down b) = events sid (pm_sent a) ->
  u_task (pm_up a) = UReading \/ u_task (pm_up a) = UEnded DEof -> w_task (pm_down b) = WWaiting \/ w_task (pm_down b) = WEnded DEof ->
  w_written (pm_down b) = u_read (pm_up a) /\ w_shut (pm_down b) = ended (u_task (pm_up a)).
Proof.
  intros [Hup _ _ _ _] [_ [(whole & _ & _ & Hr) [Hlast Hsh]] _ _ _] Et Hu Hw. destruct Hup as (chunks & Es & _ & Hread). rewrite Es in Et.
  assert (w_written (pm_down b) = data_of (w_taken (pm_down b))) as -> by (destruct Hw as [E|E]; rewrite E in Hr; apply Hr).
  assert (SEof ∉ map SData chunks) as Hno by (intros (d & ? & _)%list_elem_of_fmap; done).
  rewrite Et in Hlast. rewrite Et, data_of_app, data_of_chunks, Hsh. destruct Hu as [E|E]; rewrite E in *; cbn [up_eof ended] in *; rewrite Hread.
  - rewrite app_nil_r in *. split; [done|]. destruct Hw as [E'|E']; rewrite E' in *; [done|]. destruct Hlast as [t Ht].
    exfalso. apply Hno. rewrite Ht, elem_of_app. right. by left.
  - split; [apply app_nil_r|]. destruct Hw as [E'|E']; rewrite E' in *; [|done]. exfalso. apply Hlast. rewrite elem_of_app. right. by left.
Qed.

Lemma flush_progress r : flushing r ->
  arrived (u_read (pm_up (rl_client r i))) (ended (u_task (pm_up (rl_client r i)))) r \/ exists r', flush_step rt i n sid r r'.
Proof.
  intros Hfl. destruct r as [p A B]. pose proof Hfl as [Hinv _ Hwf [Hop _ (u & Hu & Es & Ep) _ Hdm _ Hup _]]. cbn [rl_pair rl_client rl_server] in *.
  destruct (ct_queue (pr_client p)) as [|f q] eqn:Eq; [|right; destruct p; eexists; by apply (flush_writes rt i n sid _ f q)].
  destruct (flushing_events p A B u Hfl Hu) as (Eev & _ & Eall & Hsid & Hpi & Hpn).
  destruct (tn_demux (pr_server p)) as [|stream ev j|] eqn:Ed; [|right; by eapply routing_moves|done].
  destruct (drop (pr_up_read p) (pr_up p)) as [|f fs] eqn:Edrop.
  2: { right. assert (pr_up p !! pr_up_read p = Some f) as Hf.
       { replace (pr_up_read p) with (pr_up_read p + 0)%nat by lia. by rewrite <- lookup_drop, Edrop. }
       destruct p as [t up k s m]. eexists. apply flush_reads; [exact Ed|exact Hf|]. apply list_elem_of_lookup_2 in Hf.
       rewrite Forall_forall in Hwf. apply Hwf. unfold client_log. apply elem_of_app. by left. }
  destruct (tk_queue u) as [|ev q] eqn:Etq; [|right; by eapply own_queue_moves].
  unfold in_route in Eev. rewrite Ed, app_nil_r in Eev. cbn in Eev. rewrite (Eall Eq eq_refl) in Eev.
  destruct (down_moves_on p A B u Hfl Hu Hpn) as [Hw|Hmv]; [|by right].
  assert (forall f u', u_task (pm_up (A i)) <> UReading -> up_step sid (pm_up (A i)) [f] u' -> exists r', flush_step rt i n sid (Rly p A B) r') as Hsend
    by (intros f u'; by apply sends_move).
  assert (u_task (pm_up (A i)) = UReading \/ u_task (pm_up (A i)) = UEnded DEof ->
    arrived (u_read (pm_up (A i))) (ended (u_task (pm_up (A i)))) (Rly p A B)) as Harr
    by (intros Hu'; by apply settled_arrived).
  destruct (pm_up (A i)) as [[|d| |d|] ru bu] eqn:EA; cbn in Hup; subst; try done.
  - left. apply Harr. by left.
  - right. by eapply Hsend; [|apply up_sends].
  - right. by eapply Hsend; [|apply up_finishes].
  - left. apply Harr. by right.
Qed.

(** ** Delivery *)

Lemma flush_delivers_all r : flushing r ->
  eventually (flush_step rt i n sid) (arrived (u_read (pm_up (rl_client r i))) (ended (u_task (pm_up (rl_client r i))))) r.
Proof.
  intros Hr. apply (eventually_lex _ _ (fun r' => flushing r' /\ u_read (pm_up (rl_client r' i)) = u_read (pm_up (rl_client r i)) /\
    ended (u_task (pm_up (rl_client r' i))) = ended (u_task (pm_up (rl_client r i)))) load (fun _ => 0%nat)); [|by split_and!].
  intros r1 (Hfl & <- & <-). destruct (flush_progress r1 Hfl) as [|Hex]; [by left|right]. split; [exact Hex|].
  intros r2 Hst. pose proof (flush_step_ok r1 r2 Hst Hfl) as Hok. pose proof Hok as (_ & _ & Hl & (_ & Er & Ee) & _).
  split; [|by left]. split; [by eapply flush_step_flushing|by split].
Qed.

Lemma flush_bounded k r r' : flushing r -> nsteps (flush_step rt i n sid) k r r' -> (k + load r' ≤ load r)%nat /\ rtc (relay_step rt) r r'.
Proof.
  intros Hfl Hst. induction Hst as [r|k r r1 r' Hst _ IH]; [split; [lia|apply rtc_refl]|].
  pose proof (flush_step_ok r r1 Hst Hfl) as Hok. destruct IH as [IH Hr]; [by eapply flush_step_flushing|].
  destruct Hok as (Hs & _ & Hl & _). split; [lia|]. by eapply rtc_l.
Qed.
End Deliver.

(** ** Properties *)

Lemma flushing_reached rt r i n sid :
  rtc (relay_step rt) relay_new r -> small (pr_client (rl_pair r)) -> asks_ok (pr_client (rl_pair r)) -> flowing i n sid r -> flushing rt i n sid r.
Proof.
  intros Hr Hsm Hok Hfl. split; [by apply relay_reachable_inv|done| |done].
  destruct (sized_reachable rt (rl_pair r)) as [Hc _]; [by apply relay_pair_reached|done|].
  eapply Forall_impl; [exact (Hc Hok)|]. by intros f [Hw _].
Qed.

(** What was sent arrives.  Let a client's tunnel and a server's run with all their
    pumps in any interleaving, and come to a state where a stream is open at both
    ends: its call streams, its task pumps and is registered, neither direction of
    the application's way to the target has failed, the client has not closed the
    stream, and the tunnel's writer and demux loop are there.  However much is in
    front of it, in the channels, on the wire, or stuck in the demux behind another
    stream, the steps that only move things along deliver: there is always one until
    the target has been written exactly what the application had sent, and has been
    told the end of it exactly if the application had ended; every run of such steps
    gets there, in no more of them than there are stages and bytes left, and is a run
    of the program. *)
Theorem sent_arrives rt r i n sid :
  rtc (relay_step rt) relay_new r -> small (pr_client (rl_pair r)) -> asks_ok (pr_client (rl_pair r)) -> flowing i n sid r ->
  eventually (flush_step rt i n sid) (arrived n (u_read (pm_up (rl_client r i))) (ended (u_task (pm_up (rl_client r i))))) r /\
  (forall k r', nsteps (flush_step rt i n sid) k r r' -> (k ≤ load i n r)%nat /\ rtc (relay_step rt) r r').
Proof.
  intros Hr Hsm Hok Hfl. pose proof (flushing_reached rt r i n sid Hr Hsm Hok Hfl) as Hfg.
  split; [by apply flush_delivers_all|]. intros k r' Hst. destruct (flush_bounded rt i n sid k r r' Hfg Hst) as [Hk Hrun]. split; [lia|done].
Qed.

(** Three bytes of the sample are in the client's channel. *)
Definition sample_sending : Relay := Rly sample_sent sample_A2 sample_A0.

Lemma sample_sending_reached : rtc (relay_step (small_runtime 1)) relay_new sample_sending.
Proof.
  etransitivity; [exact (run_elsewhere_sound _ _ _ _ sample_A0 sample_A0 sample_run_open)|].
  eapply rtc_l; [exact sample_step_reads|]. apply rtc_once. exact sample_step_sends.
Qed.

Lemma sample_sending_flowing : flowing 0 0 1 sample_sending.
Proof.
  split.
  - vm_compute. reflexivity.
  - exists sample_call. split_and!; vm_compute; reflexivity.
  - exists (default sample_task (tn_tasks (pr_server sample_sent) !! 0%nat)).
    split; [vm_compute; reflexivity|]. split; [vm_compute; reflexivity|]. exists true. vm_compute. reflexivity.
  - vm_compute. reflexivity.
  - vm_compute. discriminate.
  - vm_compute. reflexivity.
  - exact I.
  - exact I.
Qed.

Lemma sent_arrives_witness : rtc (relay_step (small_runtime 1)) relay_new sample_sending /\
  w_written (pm_down (rl_server sample_sending 0)) = [] /\
  eventually (flush_step (small_runtime 1) 0 0 1) (arrived 0 [1; 2; 3] false) sample_sending /\
  forall k r', nsteps (flush_step (small_runtime 1) 0 0 1) k sample_sending r' -> (k ≤ 8)%nat.
Proof.
  assert (load 0 0 sample_sending = 8)%nat as El by (vm_compute; reflexivity).
  destruct (sent_arrives (small_runtime 1) sample_sending 0 0 1 sample_sending_reached) as [He Hb].
  - vm_compute. reflexivity.
  - intros [|j] c Hc; [|vm_compute in Hc; discriminate Hc]. assert (op_addr <$> ct_calls (pr_client (rl_pair sample_sending)) !! 0%nat = Some (PAddr (Ip (V4 [127; 0; 0; 1])) 80)) as E by (vm_compute; reflexivity).
    rewrite Hc in E. injection E as ->. split; [cbn; lia|]. split; [by apply wf_bytes_eval|reflexivity].
  - exact sample_sending_flowing.
  - split; [exact sample_sending_reached|]. split; [reflexivity|]. split; [exact He|]. intros k r' Hst. rewrite <- El. by apply (Hb k r').
Defined.
