(* ===== verification/DeliverBack.v ===== *)
(** * What was answered arrives

    The other direction of [Deliver]: from the target's socket to the application's.
    Here the frames are met by the client's [run_reader], which hands a stream's
    events to its channel, bounded as in the code, and the pump at the application's
    end takes them from there. *)
From S2P Require Import Prelude Errors Mux Addr Tunnel KeyConfig Config Server Pool TunnelPair FrameSize PumpStream Relay Deliver.

(** The bound of a stream's event channel at the client. *)
Definition STREAM_BOUND : nat := 32.

(** What [tx.send(ev)] gives for a frame of a registered stream: it is delivered if the
    receiver is there and has room, and stalls until the timeout if it is full. *)
Definition send_result (A : nat -> Pumps) (t : Pool.Tunnel) (f : OutFrame) : Delivery :=
  match parse_frame (message f) with
  | Ok (_, st, _) =>
      match ct_registry t !! st with
      | Some j =>
          match ct_calls t !! j with
          | Some c =>
              if listening (w_task (pm_down (A j))) then
                if (length (op_events c) <? length (w_taken (pm_down (A j))) + STREAM_BOUND)%nat then Delivered else Stalled
              else Dead
          | None => Dead
          end
      | None => Dead
      end
  | Err _ => Dead
  end.

(** The writer task moved a frame from the outbound channel to the wire. *)
Definition server_wrote (f : OutFrame) (q : list OutFrame) (s : TunnelState) : TunnelState :=
  Tun (tn_registry s) (tn_tasks s) q (tn_wire s ++ [f]) false (tn_demux s).

(** The stream of call [i], which stream task [n] serves. *)
Inductive back_step (i n : nat) (sid : Z) : Relay -> Relay -> Prop :=
| back_sends p A B v f u s' :
    tn_tasks (pr_server p) !! n = Some v -> u_task (pm_up (B n)) <> UReading -> up_step (tk_stream v) (pm_up (B n)) [f] u ->
    task_step n v (APump f) (pr_server p) = Some s' ->
    back_step i n sid (Rly p A B) (Rly (with_server s' p) A (upd B n (up_moved (B n) [f] u)))
| back_writes t up k s m f q A B :
    tn_closed s = false -> tn_queue s = f :: q ->
    back_step i n sid (Rly (Pr t up k s m) A B) (Rly (Pr t up k (server_wrote f q s) m) A B)
| back_reads t up k s m f A B :
    ct_reader t = true -> tn_wire s !! m = Some f -> (send_result A t f = Stalled -> frame_event sid f = []) ->
    back_step i n sid (Rly (Pr t up k s m) A B) (Rly (Pr (reader_frame (message f) (send_result A t f) t) up k s (S m)) A B)
| back_takes p A B c ev w :
    ct_calls (pr_client p) !! i = Some c -> op_phase c = OStreaming false ->
    op_events c !! length (w_taken (pm_down (A i))) = Some ev ->
    down_step (op_sid c) (pm_down (A i)) [] w -> w_taken w = w_taken (pm_down (A i)) ++ [ev] -> ev <> SClose ->
    back_step i n sid (Rly p A B) (Rly p (upd A i (down_moved (A i) w)) B)
| back_delivers p A B c w :
    ct_calls (pr_client p) !! i = Some c -> op_phase c = OStreaming false -> w_task (pm_down (A i)) <> WWaiting ->
    down_step (op_sid c) (pm_down (A i)) [] w -> ~ down_failed (w_task w) ->
    back_step i n sid (Rly p A B) (Rly p (upd A i (down_moved (A i) w)) B).

(** ** A pump takes what its channel was given *)

Definition takes_given (r : Relay) : Prop :=
  forall j c, ct_calls (pr_client (rl_pair r)) !! j = Some c -> w_taken (pm_down (rl_client r j)) `prefix_of` op_events c.

Lemma reader_frame_events msg d t j c : ct_calls t !! j = Some c ->
  exists c', ct_calls (reader_frame msg d t) !! j = Some c' /\ op_events c `prefix_of` op_events c'.
Proof.
  intros Hc. assert (exists c', ct_calls t !! j = Some c' /\ op_events c `prefix_of` op_events c') as Hsame by (by exists c).
  assert (forall a x y, ct_calls t !! a = Some x -> op_events x `prefix_of` op_events y ->
    exists c', <[a := y]> (ct_calls t) !! j = Some c' /\ op_events c `prefix_of` op_events c') as Hins.
  { intros a x y Ha Hp. destruct (decide (j = a)) as [->|Hne]; [|exists c; by rewrite list_lookup_insert_ne].
    exists y. split; [apply list_lookup_insert_eq; by eapply lookup_lt_Some|]. rewrite Hc in Ha. by injection Ha as ->. }
  assert (forall sid ev, exists c', ct_calls (route_event sid ev d t) !! j = Some c' /\ op_events c `prefix_of` op_events c') as Hroute.
  { intros sid ev. unfold route_event. destruct (ct_registry t !! sid) as [a|]; [|destruct (try_send_spec (OutFrame_bare Close sid) t) as [-> _]; done].
    destruct d, (ct_calls t !! a) as [x|] eqn:Ha;
      try (match goal with |- context [tunnel_try_send ?f ?t] => destruct (try_send_spec f t) as [-> _] end; exact Hsame).
    eapply Hins; [exact Ha|]. cbn. by eexists. }
  unfold reader_frame, reader_reply, reader_end. destruct (mark_dead_spec t) as (Em & _).
  destruct (parse_frame msg) as [[[[] sid] x]|]; cbn; rewrite ?Em; try done; try apply Hroute.
  destruct (ct_pending t !! sid) as [a|]; [|done]. destruct (ct_calls t !! a) as [y|] eqn:Ha; [|done].
  by eapply Hins.
Qed.

Lemma pair_events rt p p' j c : pair_inv rt p -> pair_step rt p p' -> ct_calls (pr_client p) !! j = Some c ->
  exists c', ct_calls (pr_client p') !! j = Some c' /\ op_events c `prefix_of` op_events c'.
Proof.
  intros [Hic _ _ _ _ _ _] Hst Hc. destruct Hst as [t t' up n s m Hloc| |t f d up n s m Hrd Hf| |]; cbn [pr_client] in *;
    try (by exists c); [|by apply reader_frame_events].
  destruct (client_local_effect t t' Hic Hloc) as [(who & fs & He) Hq]. pose proof (ce_length _ _ _ _ He) as Hlen.
  destruct (ct_calls t' !! j) as [c'|] eqn:Hc'; [|apply lookup_lt_Some in Hc; apply lookup_ge_None in Hc'; lia].
  exists c'. split; [done|]. destruct (cq_calls _ _ Hq j c' Hc') as [(d & Hd & -> & _)|[Hn _]]; [|congruence]. rewrite Hc in Hd. by injection Hd as ->.
Qed.

Lemma takes_given_step rt r r' : relay_inv rt r -> relay_step rt r r' -> takes_given r -> takes_given r'.
Proof.
  intros Hinv Hst Hg. destruct Hst as [p p' A B Hst _|p t s A' B' A B Hst]; unfold takes_given in *; cbn [rl_pair rl_client] in *.
  - intros j c' Hc'. destruct (ct_calls (pr_client p) !! j) as [c|] eqn:Hc.
    + destruct (pair_events rt p p' j c (ri_pair _ _ Hinv) Hst Hc) as (d & Hd & Hp). rewrite Hc' in Hd. injection Hd as <-.
      etransitivity; [by apply Hg|done].
    + pose proof (ri_fresh _ _ Hinv j Hc) as E. cbn in E. rewrite E. apply prefix_nil.
  - assert (forall i a, (forall c, ct_calls (pr_client p) !! i = Some c -> w_taken (pm_down a) `prefix_of` op_events c) ->
      forall j c, ct_calls (pr_client p) !! j = Some c -> w_taken (pm_down (upd A i a j)) `prefix_of` op_events c) as Hupd.
    { intros i a Ha j c Hc. unfold upd. case_decide as E; [subst; by apply Ha|by apply Hg]. }
    destruct Hst as [i c a Hl Ho _ [_ Et]|i c a f t' Hl _ [_ Et] Ho|i c a ev Hl Ho _ [_ Et] Hev| | | |]; cbn; try exact Hg.
    + apply Hupd. intros d Hd. rewrite Et. by apply Hg.
    + destruct (client_queues _ _ _ _ _ Ho) as [-> _]. apply Hupd. intros d Hd. rewrite Et. by apply Hg.
    + apply Hupd. intros d Hd. rewrite Hl in Hd. injection Hd as <-. rewrite Et. eapply prefix_snoc_lookup, Hev; [by apply Hg|done].
Qed.

Lemma takes_given_reached rt r : rtc (relay_step rt) relay_new r -> small (pr_client (rl_pair r)) -> takes_given r.
Proof.
  intros Hr. revert r Hr. apply (rtc_ind_r (fun r => small (pr_client (rl_pair r)) -> takes_given r)); [by intros _ j c Hc|].
  intros r r' Hr Hst IH Hsm. assert (small (pr_client (rl_pair r))) as Hsm0.
  { pose proof (relay_step_length rt r r' Hst). unfold small in *. lia. }
  eapply takes_given_step; [by apply relay_reachable_inv|done|by apply IH].
Qed.

Section Back.
Context (rt : ServerRuntime) (i n : nat) (sid : Z).

(** ** What the client's reader does *)

(** The stream stays registered and its call gets what the frame has for it; all that
    may be queued is a CLOSE of another stream. *)
Record reads_on (t t' : Pool.Tunnel) (c : OpenCall) (f : OutFrame) : Prop := {
  ro_registry : ct_registry t' !! sid = Some i;
  ro_closed : ct_closed t' = ct_closed t;
  ro_reader : ct_reader t' = ct_reader t;
  ro_length : length (ct_calls t') = length (ct_calls t);
  ro_call : exists c', ct_calls t' !! i = Some c' /\ op_sid c' = op_sid c /\ op_phase c' = op_phase c /\
    op_events c' = op_events c ++ frame_event sid f;
  ro_queue : ct_queue t' = ct_queue t \/
    exists k st pl, f = OutFrame_new k st pl /\ k <> Close /\ st <> sid /\ is_u32 st /\ ct_queue t' = ct_queue t ++ [OutFrame_bare Close st]
}.

Lemma try_send_spec' f t : ct_closed (tunnel_try_send f t) = ct_closed t /\ ct_reader (tunnel_try_send f t) = ct_reader t.
Proof. unfold tunnel_try_send. by destruct (_ && _). Qed.

(** A CLOSE of a stream that was not, or no longer is, registered. *)
Lemma reads_on_close t t1 c k st pl : ct_calls t !! i = Some c -> k <> Close -> st <> sid -> is_u32 st ->
  ct_registry t1 !! sid = Some i -> ct_calls t1 = ct_calls t -> ct_queue t1 = ct_queue t -> ct_closed t1 = ct_closed t -> ct_reader t1 = ct_reader t ->
  reads_on t (tunnel_try_send (OutFrame_bare Close st) t1) c (OutFrame_new k st pl).
Proof.
  intros Hc Hk Hne Hu Hr Ec Eq El Ed. destruct (try_send_spec (OutFrame_bare Close st) t1) as (Ec' & Er' & Hq), (try_send_spec' (OutFrame_bare Close st) t1) as [El' Ed'].
  split; [by rewrite Er'|by rewrite El'|by rewrite Ed'|by rewrite Ec', Ec| |].
  - exists c. rewrite Ec', Ec, frame_event_new, (proj2 (Z.eqb_neq st sid)), app_nil_r by done. split_and!; done.
  - destruct Hq as [->| ->]; [by left|right]. exists k, st, pl. rewrite Eq. split_and!; try done; apply Hu.
Qed.

(** One that changes a call of another stream, or nothing but the answer of this. *)
Lemma reads_on_call t t1 c j d d' f : ct_calls t !! i = Some c -> ct_registry t !! sid = Some i -> ct_calls t !! j = Some d ->
  op_sid d' = op_sid d -> op_phase d' = op_phase d -> (j = i -> op_events d' = op_events d ++ frame_event sid f) ->
  (j <> i -> frame_event sid f = []) -> ct_calls t1 = <[j := d']> (ct_calls t) ->
  ct_registry t1 = ct_registry t -> ct_queue t1 = ct_queue t -> ct_closed t1 = ct_closed t -> ct_reader t1 = ct_reader t -> reads_on t t1 c f.
Proof.
  intros Hc Hr Hd Es Ep Ei Ene Ec Er Eq El Ed. split; [by rewrite Er|done|done|by rewrite Ec, length_insert| |by left].
  rewrite Ec. destruct (decide (j = i)) as [->|Hne].
  - rewrite Hc in Hd. injection Hd as <-. exists d'. split; [apply list_lookup_insert_eq; by eapply lookup_lt_Some|auto].
  - exists c. rewrite list_lookup_insert_ne, (Ene Hne), app_nil_r by done. auto.
Qed.

(** The event of a DATA or EOF frame goes to its channel, or the stream is dropped. *)
Lemma reads_on_route t c k st pl ev d : client_inv t -> is_u32 st -> k <> Close -> (st = sid -> d = Delivered) ->
  (forall sid', frame_event sid' (OutFrame_new k st pl) = if st =? sid' then [ev] else []) ->
  ct_calls t !! i = Some c -> ct_registry t !! sid = Some i ->
  reads_on t (route_event st ev d t) c (OutFrame_new k st pl).
Proof.
  intros Hi Hu Hk Hd Hev Hc Hr. unfold route_event. destruct (ct_registry t !! st) as [j|] eqn:Hj.
  - destruct (ci_registry _ Hi _ _ Hj) as (x & Hx & Es & _). rewrite Hx.
    assert (forall t1, st <> sid -> ct_registry t1 = delete st (ct_registry t) -> ct_calls t1 = ct_calls t -> ct_queue t1 = ct_queue t ->
      ct_closed t1 = ct_closed t -> ct_reader t1 = ct_reader t -> reads_on t (tunnel_try_send (OutFrame_bare Close st) t1) c (OutFrame_new k st pl)) as Hdrop.
    { intros t1 Hne Er. apply reads_on_close; try done. by rewrite Er, lookup_delete_ne. }
    destruct d; [|apply Hdrop; try done; intros E; by specialize (Hd E)..].
    set (d' := Call _ _ _ _ _). apply (reads_on_call t _ c j x d'); try done.
    + intros ->. assert (op_sid x = sid) as Es'.
      { destruct (ci_registry _ Hi _ _ Hr) as (y & Hy & Ey & _). rewrite Hx in Hy. by injection Hy as <-. }
      rewrite Hev, (proj2 (Z.eqb_eq st sid)); [done|congruence].
    + intros Hne. rewrite Hev. destruct (Z.eqb_spec st sid) as [->|]; [congruence|done].
  - assert (st <> sid) by congruence. by apply reads_on_close.
Qed.

Lemma reader_reads t c k st pl d : client_inv t -> is_u32 st -> k <> Open -> (k = Close -> st <> sid) ->
  (frame_event sid (OutFrame_new k st pl) <> [] -> d = Delivered) -> ct_calls t !! i = Some c -> ct_registry t !! sid = Some i ->
  reads_on t (reader_frame (message (OutFrame_new k st pl)) d t) c (OutFrame_new k st pl).
Proof.
  intros Hi Hu Hk Hcl Hd Hc Hr. unfold reader_frame.
  assert (parse_frame (message (OutFrame_new k st pl)) = Ok (k, st, pl)) as -> by (by apply parse_frame_header).
  assert (forall sid', frame_event sid' (OutFrame_new k st pl) = if st =? sid' then match k with Data => [SData pl] | Eof => [SEof] | _ => [] end else []) as Hev
    by (intros; by rewrite frame_event_new).
  destruct k; [done| | | |].
  - unfold reader_reply. destruct (ct_pending t !! st) as [j|] eqn:Hp.
    + destruct (ci_pending _ Hi _ _ Hp) as (x & Hx & _). rewrite Hx. set (d' := Call _ _ _ _ _).
      apply (reads_on_call t _ c j x d'); try done; intros _; rewrite Hev; destruct (_ =? _); by rewrite ?app_nil_r.
    + apply (reads_on_call t _ c i c c); try done; [intros _|by rewrite list_insert_id].
      rewrite Hev. destruct (_ =? _); by rewrite app_nil_r.
  - apply reads_on_route; try done. intros ->. apply Hd. by rewrite Hev, Z.eqb_refl.
  - apply reads_on_route; try done. intros ->. apply Hd. by rewrite Hev, Z.eqb_refl.
  - split; cbn; try done; [by rewrite lookup_delete_ne; [|apply Hcl]| |by left].
    exists c. rewrite Hev. destruct (_ =? _); by rewrite app_nil_r.
Qed.

(** ** The state of it *)

(** Both ends of the stream are open, and the way back from one to the other is. *)
Record flowing_back (r : Relay) : Prop := {
  bk_open : tn_closed (pr_server (rl_pair r)) = false;
  bk_reader : ct_reader (pr_client (rl_pair r)) = true;
  bk_call : exists c, ct_calls (pr_client (rl_pair r)) !! i = Some c /\ op_sid c = sid /\ op_phase c = OStreaming false;
  bk_registry : ct_registry (pr_client (rl_pair r)) !! sid = Some i;
  bk_task : exists u, tn_tasks (pr_server (rl_pair r)) !! n = Some u /\ tk_stream u = sid /\ exists rx, tk_phase u = TPumping rx;
  bk_unclosed : kinds Close sid (out_log (pr_server (rl_pair r))) = 0%nat;
  bk_up : up_running (u_task (pm_up (rl_server r n)));
  bk_down : down_running (w_task (pm_down (rl_client r i)))
}.

Record backing (r : Relay) : Prop := {
  bg_inv : relay_inv rt r;
  bg_given : takes_given r;
  bg_small : small (pr_client (rl_pair r));
  bg_flowing : flowing_back r
}.

(** The application was written [sent], and told if that is all. *)
Definition answered (sent : bytes) (all : bool) (r : Relay) : Prop :=
  w_written (pm_down (rl_client r i)) = sent /\ w_shut (pm_down (rl_client r i)) = all.

(** How far everything still has to go; an event waits from the reader's send until
    the pump takes it. *)
Definition waiting (b : Pumps) (c : OpenCall) : list StreamEvent := drop (length (w_taken (pm_down b))) (op_events c).

Definition back_load (r : Relay) : nat :=
  let p := rl_pair r in
  (up_load (u_task (pm_up (rl_server r n))) + frames_load 5 (tn_queue (pr_server p)) +
   frames_load 4 (drop (pr_down_read p) (tn_wire (pr_server p))) +
   match ct_calls (pr_client p) !! i with Some c => queue_load (waiting (rl_client r i) c) | None => 0 end +
   down_load (w_task (pm_down (rl_client r i))))%nat.
#[local] Arguments frames_load : simpl never.
#[local] Arguments queue_load : simpl never.

(** What a step has to be: one of the relay, that leaves the stream flowing with less
    to go, and reads nothing more of the target. *)
Definition back_ok (r r' : Relay) : Prop :=
  relay_step rt r r' /\ flowing_back r' /\ (back_load r' < back_load r)%nat /\
  length (ct_calls (pr_client (rl_pair r'))) = length (ct_calls (pr_client (rl_pair r))) /\
  u_read (pm_up (rl_server r' n)) = u_read (pm_up (rl_server r n)) /\
  ended (u_task (pm_up (rl_server r' n))) = ended (u_task (pm_up (rl_server r n))).

(** ** A step of it *)

Lemma back_sends_ok p A B v f u s' : backing (Rly p A B) ->
  tn_tasks (pr_server p) !! n = Some v -> u_task (pm_up (B n)) <> UReading -> up_step (tk_stream v) (pm_up (B n)) [f] u ->
  task_step n v (APump f) (pr_server p) = Some s' -> back_ok (Rly p A B) (Rly (with_server s' p) A (upd B n (up_moved (B n) [f] u))).
Proof.
  intros [Hinv _ _ [Hop Hrd Hca Hreg (w & Hw & Es & rx & Eph) Hcl Hup Hdn]] Hv Hne Hst Ho. cbn [rl_pair rl_client rl_server] in *.
  rewrite Hv in Hw. injection Hw as <-. assert (is_u32 sid) as Hu by (rewrite <- Es; eapply task_u32, inv_tasks, Hv; apply Hinv).
  split. { apply relay_pumps_server. eapply pumps_server_sends; [done|by apply pump_up_moved|by split|done]. }
  unfold task_step in Ho. rewrite Eph in Ho.
  assert (s' = enqueue f (pr_server p)) as -> by (destruct rx, (_ && _); try done; by injection Ho as <-). clear Ho. rewrite Es in Hst.
  destruct (sent_load sid _ _ _ Hu Hst Hne) as (Hk & Hrun & Hread & Hend & Hload).
  split; [split; cbn [rl_pair rl_client rl_server]; try done|split; [|by cbn; rewrite upd_same]].
  - exists v. split; [done|]. split; [done|by exists rx].
  - cbn [with_server pr_server]. change (out_log (enqueue f (pr_server p))) with (tn_wire (pr_server p) ++ tn_queue (pr_server p) ++ [f]).
    rewrite app_assoc, kinds_snoc, Hk. fold (out_log (pr_server p)). by rewrite Hcl.
  - by rewrite upd_same.
  - unfold back_load. cbn. rewrite upd_same, frames_load_app, frames_load_cons. cbn. change (frames_load 5 []) with 0%nat. lia.
Qed.

Lemma back_writes_ok t up k s m f q A B : backing (Rly (Pr t up k s m) A B) -> tn_closed s = false -> tn_queue s = f :: q ->
  back_ok (Rly (Pr t up k s m) A B) (Rly (Pr t up k (server_wrote f q s) m) A B).
Proof.
  intros [Hinv _ _ [Hop Hrd Hca Hreg Htk Hcl Hup Hdn]] Hc Hq. pose proof (pi_down_read _ _ (ri_pair _ _ Hinv)) as Hm.
  cbn [rl_pair rl_client rl_server pr_server pr_down_read] in *.
  assert (out_log (server_wrote f q s) = out_log s) as El by (unfold out_log; cbn; by rewrite Hq, <- app_assoc).
  split; [apply relay_pair; [by apply pair_server, tunnel_writes|by apply elsewhere_same]|].
  split; [split; cbn [rl_pair rl_client rl_server pr_server pr_client]; try done; by rewrite El|]. split; [|done].
  unfold back_load. cbn. rewrite Hq, drop_app_le, frames_load_app, !frames_load_cons by done. change (frames_load 4 []) with 0%nat. lia.
Qed.

(** A frame read by the client is one the server made, and no CLOSE of the stream. *)
Lemma backing_frame p A B f : backing (Rly p A B) -> f ∈ out_log (pr_server p) ->
  exists k st x, f = OutFrame_new k st x /\ is_u32 st /\ k <> Open /\ (k = Close -> st <> sid).
Proof.
  intros [Hinv _ _ Hfl] Hf. destruct (sv_frames _ _ (pi_up _ _ (ri_pair _ _ Hinv)) f Hf) as (k & st & x & Ef & Hu & Hk & _).
  exists k, st, x. refine (conj Ef (conj Hu (conj Hk _))). intros -> ->. pose proof (bk_unclosed _ Hfl) as H0. revert H0. unfold kinds. cbn [rl_pair].
  assert (0 < count (fun g => is_kind Close sid g = true) (out_log (pr_server p)))%nat; [|lia].
  apply list_elem_of_lookup_1 in Hf as [j Hj]. apply (count_pos _ _ j f Hj). by rewrite Ef, is_kind_new, bool_decide_true, Z.eqb_refl.
Qed.

(** Where the events of the stream are: sent by one pump, in frames the client has not
    read, in the channel, taken by the other. *)
Lemma backing_events p A B c : backing (Rly p A B) -> ct_calls (pr_client p) !! i = Some c ->
  op_sid c = sid /\ op_phase c = OStreaming false /\ op_events c = events sid (down_seen p) /\
  op_events c = w_taken (pm_down (A i)) ++ waiting (A i) c /\
  events sid (out_log (pr_server p)) = events sid (pm_sent (B n)) /\ is_u32 sid /\ pump_inv sid (A i) /\ pump_inv sid (B n).
Proof.
  intros [Hinv Hg _ [_ _ (d & Hd & Ed & Ep) Hreg (u & Hu & Eu & _) _ _ _]] Hc. cbn [rl_pair rl_client rl_server] in *.
  rewrite Hc in Hd. injection Hd as <-. pose proof (ri_pair _ _ Hinv) as Hp. cbn [rl_pair] in Hp.
  destruct (ri_client _ _ Hinv i c Hc) as (Hpi & _), (ri_server _ _ Hinv n u Hu) as (Hpn & Hev & _). cbn [rl_pair rl_client rl_server] in *.
  rewrite Ed in Hpi. rewrite Eu in Hpn, Hev. rewrite <- Ed in Hreg. split; [done|]. split; [done|].
  split; [rewrite <- Ed; by apply (cv_exact _ _ (pi_down _ _ Hp) i)|]. split.
  - destruct (Hg i c Hc) as [k Hk]. unfold waiting. cbn in Hk. by rewrite Hk, drop_app_length.
  - split; [done|]. split; [|done]. rewrite <- Ed. by eapply sid_u32, Hc; apply Hp.
Qed.

(** As long as there is more to take, the application's pump is there. *)
Lemma still_listening p A B c rest : backing (Rly p A B) -> ct_calls (pr_client p) !! i = Some c -> rest <> [] ->
  w_taken (pm_down (A i)) ++ rest `prefix_of` events sid (out_log (pr_server p)) ->
  listening (w_task (pm_down (A i))) = true /\ w_task (pm_down (A i)) <> WEnded DEof.
Proof.
  intros Hbk Hc Hr Hpre. destruct (backing_events p A B c Hbk Hc) as (_ & _ & _ & _ & Elog & _ & Hpi & Hpn).
  rewrite Elog in Hpre. destruct rest as [|ev q]; [done|].
  pose proof (down_ended_last sid (B n) (A i) ev q Hpn Hpi Hpre) as Hne. split; [|done].
  pose proof (bk_down _ (bg_flowing _ Hbk)) as Hdn. cbn [rl_client] in Hdn. destruct (w_task _) as [| | |d|]; try done. by rewrite Hdn in Hne.
Qed.

(** A frame the client has not read brings what it has for the stream. *)
Lemma unread_events t up k s m f A B c : backing (Rly (Pr t up k s m) A B) -> tn_wire s !! m = Some f -> ct_calls t !! i = Some c ->
  w_taken (pm_down (A i)) ++ waiting (A i) c ++ frame_event sid f `prefix_of` events sid (out_log s).
Proof.
  intros Hbk Hf Hc. destruct (backing_events _ A B c Hbk Hc) as (_ & _ & Eev & Ew & _).
  rewrite app_assoc, <- Ew, Eev, <- events_snoc. apply events_prefix. unfold down_seen, out_log. cbn.
  rewrite <- (take_S_r _ _ _ Hf). apply prefix_app_r. by exists (drop (S m) (tn_wire s)); rewrite take_drop.
Qed.

(** The stream's own event is delivered once there is room. *)
Lemma send_delivers t up k s m f A B : backing (Rly (Pr t up k s m) A B) -> tn_wire s !! m = Some f ->
  (send_result A t f = Stalled -> frame_event sid f = []) -> frame_event sid f <> [] -> send_result A t f = Delivered.
Proof.
  intros Hbk Hf Hs Hne. pose proof Hbk as [_ _ _ [_ _ (c & Hc & _) Hreg _ _ _ _]]. cbn [rl_pair pr_client] in *.
  destruct (still_listening _ A B c (waiting (A i) c ++ frame_event sid f) Hbk Hc) as [Hl _].
  { intros [_ E]%app_eq_nil. by rewrite E in Hne. }
  { by eapply unread_events. }
  assert (f ∈ out_log s) as Hfl by (unfold out_log; apply elem_of_app; left; by eapply list_elem_of_lookup_2).
  destruct (backing_frame _ A B f Hbk Hfl) as (kd & st & x & -> & Hu & _). rewrite frame_event_new in Hne, Hs by done.
  unfold send_result in *. assert (parse_frame (message (OutFrame_new kd st x)) = Ok (kd, st, x)) as Ep by (by apply parse_frame_header).
  rewrite Ep in *. destruct (Z.eqb_spec st sid) as [->|]; [|done]. rewrite Hreg, Hc, Hl in *. destruct (_ <? _)%nat; [done|]. by specialize (Hs eq_refl).
Qed.

Lemma back_reads_ok t up k s m f A B : backing (Rly (Pr t up k s m) A B) -> ct_reader t = true -> tn_wire s !! m = Some f ->
  (send_result A t f = Stalled -> frame_event sid f = []) ->
  back_ok (Rly (Pr t up k s m) A B) (Rly (Pr (reader_frame (message f) (send_result A t f) t) up k s (S m)) A B).
Proof.
  intros Hbk Hrd Hf Hs. pose proof (send_delivers t up k s m f A B Hbk Hf Hs) as Hdv.
  assert (f ∈ out_log s) as Hfl by (unfold out_log; apply elem_of_app; left; by eapply list_elem_of_lookup_2).
  destruct (backing_frame _ A B f Hbk Hfl) as (kd & st & x & -> & Hu & Hk & Hcl). pose proof Hbk as [Hinv _ _ [Hop _ (c & Hc & Es & Eph) Hreg Htk Hnc Hup Hdn]].
  destruct (backing_events _ A B c Hbk Hc) as (_ & _ & _ & Ew & _). cbn [rl_pair rl_client rl_server pr_client pr_server] in *.
  set (d := send_result _ _ _) in *. set (t' := reader_frame _ _ _).
  assert (reads_on t t' c (OutFrame_new kd st x)) as [R1 R2 R3 R4 (c' & Hc' & Es' & Ep' & Ev') R6]
    by (apply reader_reads; try done; apply (pi_client _ _ (ri_pair _ _ Hinv))).
  assert (forall sid', events sid' (up ++ ct_queue t') = events sid' (up ++ ct_queue t)) as Hq.
  { intros sid'. destruct R6 as [->|(k0 & st0 & _ & _ & _ & _ & Hu0 & ->)]; [done|]. by rewrite app_assoc, events_app, events_close, app_nil_r. }
  split; [apply relay_pair; [by apply pair_client_reads|]|].
  { split; [exact Hq|done|]. intros j u Hj. by exists u. }
  split; [split; cbn [rl_pair rl_client rl_server pr_server pr_client]; try done; [by rewrite R3|]|split; [|by split]].
  { exists c'. split; [exact Hc'|]. split; [by rewrite Es'|by rewrite Ep']. }
  unfold back_load. cbn [rl_pair rl_client rl_server pr_server pr_client pr_down_read]. rewrite Hc, Hc', (drop_S _ _ _ Hf), frames_load_cons.
  assert (waiting (A i) c' = waiting (A i) c ++ frame_event sid (OutFrame_new kd st x)) as ->.
  { unfold waiting at 1. by rewrite Ev', Ew, <- app_assoc, drop_app_length. }
  rewrite queue_load_app, frame_event_new by done.
  assert (queue_load (if (st =? sid)%Z then match kd with Data => [SData x] | Eof => [SEof] | _ => [] end else []) ≤ 2 + length x)%nat as Hl.
  { destruct (_ =? _); [|apply Nat.le_0_l]. destruct kd; rewrite ?queue_load_cons; change (queue_load []) with 0%nat; simpl; lia. }
  cbn [of_payload OutFrame_new]. lia.
Qed.

Lemma back_takes_ok p A B c ev w : backing (Rly p A B) -> ct_calls (pr_client p) !! i = Some c -> op_phase c = OStreaming false ->
  op_events c !! length (w_taken (pm_down (A i))) = Some ev -> down_step (op_sid c) (pm_down (A i)) [] w ->
  w_taken w = w_taken (pm_down (A i)) ++ [ev] -> ev <> SClose -> back_ok (Rly p A B) (Rly p (upd A i (down_moved (A i) w)) B).
Proof.
  intros [_ _ _ [Hop Hrd Hca Hreg Htk Hcl Hup _]] Hc Hph Hev Hw Et Hne. cbn [rl_pair rl_client rl_server] in *.
  destruct (down_takes _ _ _ _ Hw Et Hne) as [Hrun Hload]. split.
  { apply relay_pumps_own. eapply pumps_client_takes; [done|done|by apply pump_down_moved|by split|done]. }
  split; [split; cbn [rl_pair rl_client rl_server]; try done; by rewrite upd_same|split; [|done]].
  unfold back_load, waiting. cbn [rl_pair rl_client rl_server]. rewrite Hc, upd_same. cbn [down_moved pm_down].
  rewrite (drop_S _ _ _ Hev), queue_load_cons, Et, length_app, Nat.add_1_r. lia.
Qed.

Lemma back_delivers_ok p A B c w : backing (Rly p A B) -> ct_calls (pr_client p) !! i = Some c -> op_phase c = OStreaming false ->
  w_task (pm_down (A i)) <> WWaiting -> down_step (op_sid c) (pm_down (A i)) [] w -> ~ down_failed (w_task w) ->
  back_ok (Rly p A B) (Rly p (upd A i (down_moved (A i) w)) B).
Proof.
  intros [_ _ _ [Hop Hrd Hca Hreg Htk Hcl Hup _]] Hc Hph Hne Hw Hf. cbn [rl_pair rl_client rl_server] in *.
  destruct (down_delivers _ _ _ Hw Hne Hf) as (Hrun & Htaken & Hload). split.
  { apply relay_pumps_own. eapply pumps_client_moves; [done|done|by apply pump_down_moved|]. split; [by cbn; rewrite app_nil_r|exact Htaken]. }
  split; [split; cbn [rl_pair rl_client rl_server]; try done; by rewrite upd_same|split; [|done]].
  unfold back_load, waiting. cbn [rl_pair rl_client rl_server]. rewrite Hc, upd_same. cbn [down_moved pm_down]. rewrite Htaken. lia.
Qed.

Lemma back_step_ok r r' : back_step i n sid r r' -> backing r -> back_ok r r'.
Proof.
  intros [p A B v f u s' H1 H2 H3 H4|t up k s m f q A B H1 H2|t up k s m f A B H1 H2 H3|p A B c ev w H1 H2 H3 H4 H5 H6|p A B c w H1 H2 H3 H4 H5] Hbk.
  - by eapply back_sends_ok.
  - by apply back_writes_ok.
  - by apply back_reads_ok.
  - by eapply back_takes_ok.
  - by eapply back_delivers_ok.
Qed.

Lemma back_step_backing r r' : back_ok r r' -> backing r -> backing r'.
Proof.
  intros (Hst & Hfl & _ & El & _) [Hinv Hg Hsm _].
  assert (small (pr_client (rl_pair r'))) as Hsm' by (unfold small in *; by rewrite El).
  split; [by eapply relay_step_inv|by eapply takes_given_step|done|done].
Qed.

(** ** There is always a step *)

(** What waits in the stream's channel is taken, or what was taken before it is being
    worked on. *)
Lemma own_events_move p A B c : backing (Rly p A B) -> ct_calls (pr_client p) !! i = Some c -> waiting (A i) c <> [] ->
  exists r', back_step i n sid (Rly p A B) r'.
Proof.
  intros Hbk Hc Hw. destruct (backing_events p A B c Hbk Hc) as (Es & Eph & Eev & Ew & _ & _ & Hpi & _).
  destruct (still_listening p A B c (waiting (A i) c) Hbk Hc Hw) as [_ Hne].
  { rewrite <- Ew, Eev. apply events_prefix, down_seen_prefix. }
  destruct (waiting (A i) c) as [|ev q] eqn:Eq; [done|].
  destruct (down_works sid _ Hpi (bk_down _ (bg_flowing _ Hbk))) as [[Ht|Ht]|(w' & Hnw & Hst & Hf)]; [|done|].
  - assert (ev <> SClose) as Hcl by (intros ->; apply (events_no_close sid (down_seen p)); rewrite <- Eev, Ew, elem_of_app; right; by left).
    destruct (down_takes_next sid _ ev Ht Hcl) as (w' & Hst & Et). eexists. eapply back_takes; [exact Hc|exact Eph| |by rewrite Es|exact Et|exact Hcl].
    by rewrite Ew, lookup_app_r, Nat.sub_diag by done.
  - eexists. eapply back_delivers; [exact Hc|exact Eph|exact Hnw|by rewrite Es|exact Hf].
Qed.

(** The client's reader gets rid of the next frame, unless its stream's own pump has
    to make room first. *)
Lemma reader_moves t up k s m f A B : backing (Rly (Pr t up k s m) A B) -> tn_wire s !! m = Some f ->
  exists r', back_step i n sid (Rly (Pr t up k s m) A B) r'.
Proof.
  intros Hbk Hf. pose proof Hbk as [_ _ _ [_ Hrd (c & Hc & _) Hreg _ _ _ _]]. cbn [rl_pair pr_client] in *.
  destruct (decide (frame_event sid f = [])) as [Hn|Hn]; [eexists; by eapply back_reads|].
  destruct (decide (waiting (A i) c = [])) as [Hw|Hw]; [|by eapply own_events_move].
  eexists. eapply back_reads; [done|done|]. intros E. exfalso. revert E.
  assert (f ∈ out_log s) as Hfl by (unfold out_log; apply elem_of_app; left; by eapply list_elem_of_lookup_2).
  destruct (backing_frame _ A B f Hbk Hfl) as (kd & st & x & -> & Hu & _). rewrite frame_event_new in Hn by done.
  unfold send_result. assert (parse_frame (message (OutFrame_new kd st x)) = Ok (kd, st, x)) as -> by (by apply parse_frame_header).
  destruct (Z.eqb_spec st sid) as [->|]; [|done]. rewrite Hreg, Hc. destruct (listening _); [|done].
  destruct (backing_events _ A B c Hbk Hc) as (_ & _ & _ & Ew & _). rewrite Ew, Hw, app_nil_r.
  rewrite (proj2 (Nat.ltb_lt _ _)); [done|]. unfold STREAM_BOUND. lia.
Qed.

(** The target's pump has a frame to queue, and there is room. *)
Lemma answers_move p A B f u : backing (Rly p A B) -> tn_queue (pr_server p) = [] -> u_task (pm_up (B n)) <> UReading ->
  up_step sid (pm_up (B n)) [f] u -> exists r', back_step i n sid (Rly p A B) r'.
Proof.
  intros Hbk Hq Hne Hup. pose proof Hbk as [_ _ _ [Hop _ (c & Hc & _) _ (v & Hv & Es & rx & Hph) _ _ _]]. cbn [rl_pair] in *.
  destruct (backing_events p A B c Hbk Hc) as (_ & _ & _ & _ & _ & Hu & _ & Hpn).
  destruct (up_step_inv sid Hu _ _ _ _ Hup (pv_up _ _ Hpn)) as (_ & Hf & _). rewrite Forall_singleton in Hf.
  eexists. eapply back_sends; [exact Hv|exact Hne|rewrite Es; exact Hup|]. unfold task_step. rewrite Hph, Es, Hf, Hop, Hq.
  unfold OUTBOUND_BOUND. cbn. by destruct rx.
Qed.

Lemma back_progress r : backing r ->
  answered (u_read (pm_up (rl_server r n))) (ended (u_task (pm_up (rl_server r n)))) r \/ exists r', back_step i n sid r r'.
Proof.
  intros Hbk. destruct r as [p A B]. pose proof Hbk as [Hinv _ _ [Hop _ (c & Hc & _) _ (u & Hu & Es & Ep) _ Hup Hdn]]. cbn [rl_pair rl_client rl_server] in *.
  destruct (tn_queue (pr_server p)) as [|f q] eqn:Eq; [|right; destruct p; eexists; by apply (back_writes i n sid _ _ _ _ _ f q)].
  destruct (drop (pr_down_read p) (tn_wire (pr_server p))) as [|f fs] eqn:Edrop.
  2: { right. destruct p as [t up k s m]. apply (reader_moves t up k s m f A B Hbk).
       replace m with (m + 0)%nat by lia. rewrite <- lookup_drop. cbn in Edrop. by rewrite Edrop. }
  destruct (backing_events p A B c Hbk Hc) as (_ & _ & Eev & Ew & Elog & _ & Hpi & Hpn).
  destruct (waiting (A i) c) as [|ev q] eqn:Ewt; [|right; eapply own_events_move; [done..|by rewrite Ewt]].
  assert (out_log (pr_server p) = down_seen p) as Eall.
  { unfold out_log, down_seen. rewrite Eq, app_nil_r. rewrite <- (take_drop (pr_down_read p) (tn_wire (pr_server p))) at 1. by rewrite Edrop, app_nil_r. }
  rewrite Eall, <- Eev, Ew, app_nil_r in Elog.
  destruct (down_works sid _ Hpi Hdn) as [Hw|(w' & Hnw & Hst & Hf)].
  2: { right. destruct (backing_events p A B c Hbk Hc) as (Ec & Eph & _). eexists. eapply back_delivers; [exact Hc|exact Eph|exact Hnw|by rewrite Ec|exact Hf]. }
  assert (forall f u', u_task (pm_up (B n)) <> UReading -> up_step sid (pm_up (B n)) [f] u' -> exists r', back_step i n sid (Rly p A B) r') as Hsend
    by (intros f u'; by apply answers_move).
  assert (u_task (pm_up (B n)) = UReading \/ u_task (pm_up (B n)) = UEnded DEof ->
    answered (u_read (pm_up (B n))) (ended (u_task (pm_up (B n)))) (Rly p A B)) as Harr
    by (intros Hu'; by apply (settled_arrived sid)).
  destruct (pm_up (B n)) as [[|d| |d|] ru bu] eqn:EB; cbn in Hup; subst; try done.
  - left. apply Harr. by left.
  - right. by eapply Hsend; [|apply up_sends].
  - right. by eapply Hsend; [|apply up_finishes].
  - left. apply Harr. by right.
Qed.

(** ** Delivery *)

Lemma back_delivers_all r : backing r ->
  eventually (back_step i n sid) (answered (u_read (pm_up (rl_server r n))) (ended (u_task (pm_up (rl_server r n))))) r.
Proof.
  intros Hr. apply (eventually_lex _ _ (fun r' => backing r' /\ u_read (pm_up (rl_server r' n)) = u_read (pm_up (rl_server r n)) /\
    ended (u_task (pm_up (rl_server r' n))) = ended (u_task (pm_up (rl_server r n)))) back_load (fun _ => 0%nat)); [|by split_and!].
  intros r1 (Hbk & <- & <-). destruct (back_progress r1 Hbk) as [|Hex]; [by left|right]. split; [exact Hex|].
  intros r2 Hst. pose proof (back_step_ok r1 r2 Hst Hbk) as Hok. pose proof Hok as (_ & _ & Hl & _ & Er & Ee).
  split; [|by left]. split; [by eapply back_step_backing|by split].
Qed.
End Back.
