(* ===== verification/Exchange.v ===== *)
(** * Both directions at once

    [Deliver] and [DeliverBack] together: the steps that move a stream's bytes along,
    in either direction and any interleaving.  One direction may give the other more
    to do: a frame of a stream that is gone, or stuck, is answered by a CLOSE.  But a
    CLOSE is answered by nothing, so that what can still be added is bounded by the
    frames that are not one. *)
From S2P Require Import Prelude Errors Mux Addr Tunnel KeyConfig Config Server Pool TunnelPair FrameSize PumpStream Relay Deliver DeliverBack.

Inductive exchange_step (rt : ServerRuntime) (i n : nat) (sid : Z) (r r' : Relay) : Prop :=
| exchange_flush : flush_step rt i n sid r r' -> exchange_step rt i n sid r r'
| exchange_back : back_step i n sid r r' -> exchange_step rt i n sid r r'.

(** What may still be answered by a CLOSE. *)
Definition bouncing (fs : list OutFrame) : nat := sum_list_with (fun f => if bounces f then 1 else 0)%nat fs.
Definition to_come (t : UpTask) : nat := match t with USending _ | UFinishing => 1 | _ => 0 end.

Lemma bouncing_app a b : bouncing (a ++ b) = (bouncing a + bouncing b)%nat.
Proof. apply sum_list_with_app. Qed.

Lemma bouncing_cons f fs : bouncing (f :: fs) = ((if bounces f then 1 else 0) + bouncing fs)%nat.
Proof. done. Qed.

Lemma bouncing_one f : (bouncing [f] ≤ 1)%nat.
Proof. unfold bouncing. simpl. destruct (bounces f); lia. Qed.

(** A CLOSE of another stream, or nothing. *)
Definition closes (sid : Z) (fs : list OutFrame) : Prop := fs = [] \/ exists st, st <> sid /\ is_u32 st /\ fs = [OutFrame_bare Close st].

Lemma closes_kinds sid fs : closes sid fs -> kinds Close sid fs = 0%nat.
Proof.
  intros [->|(st & Hne & Hu & ->)]; [done|]. unfold OutFrame_bare. rewrite kinds_new by done.
  destruct (decide _) as [[_ ?]|]; [done|done].
Qed.

Lemma closes_bouncing sid fs : closes sid fs -> bouncing fs = 0%nat.
Proof.
  intros [->|(st & _ & Hu & ->)]; [done|]. unfold bouncing, OutFrame_bare. cbn [sum_list_with]. by rewrite bounces_new.
Qed.

Lemma closes_load sid fs : closes sid fs -> frames_load 5 fs = (5 * length fs)%nat.
Proof. by intros [->|(st & _ & _ & ->)]. Qed.

Lemma closes_wf sid fs : closes sid fs -> Forall (fun f => wf_bytes (message f)) fs.
Proof.
  intros [->|(st & _ & Hu & ->)]; [by apply Forall_nil|]. apply Forall_singleton.
  eapply pump_frame_wf; [exact Hu|apply pump_frame_close].
Qed.
#[local] Arguments frames_load : simpl never.
#[local] Arguments queue_load : simpl never.
#[local] Arguments bouncing : simpl never.

Section Exchange.
Context (rt : ServerRuntime) (i n : nat) (sid : Z).

Definition bounce_load (r : Relay) : nat :=
  let p := rl_pair r in
  (to_come (u_task (pm_up (rl_client r i))) + bouncing (ct_queue (pr_client p)) + bouncing (drop (pr_up_read p) (pr_up p)) +
   in_demux (tn_demux (pr_server p)) +
   to_come (u_task (pm_up (rl_server r n))) + bouncing (tn_queue (pr_server p)) + bouncing (drop (pr_down_read p) (tn_wire (pr_server p))))%nat.

Definition exchange_load (r : Relay) : nat := (load i n r + back_load i n r + 6 * bounce_load r)%nat.

Record exchanging (r : Relay) : Prop := {
  eg_flushing : flushing rt i n sid r;
  eg_given : takes_given r;
  eg_back : flowing_back i n sid r
}.

Lemma exchanging_backing r : exchanging r -> backing rt i n sid r.
Proof. intros [[Hi Hs _ _] Hg Hb]. by split. Qed.

(** ** What a step of one direction is for the other *)

(** The way back after a step of the way forth: open as before, with nothing more to go
    but CLOSEs, one for each thing that can no longer be answered. *)
Definition beside (r r' : Relay) : Prop :=
  flowing_back i n sid r' /\ (back_load i n r' + 6 * bounce_load r' ≤ back_load i n r + 6 * bounce_load r)%nat /\
  (u_read (pm_up (rl_server r' n)) = u_read (pm_up (rl_server r n)) /\ ended (u_task (pm_up (rl_server r' n))) = ended (u_task (pm_up (rl_server r n)))).

(** The server's demux moved. *)
Record demux_moved (s s' : TunnelState) (fs : list OutFrame) : Prop := {
  dm_closed : tn_closed s' = tn_closed s;
  dm_wire : tn_wire s' = tn_wire s;
  dm_queue : tn_queue s' = tn_queue s ++ fs;
  dm_closes : closes sid fs
}.

Lemma demux_beside p p' A B fs : exchanging (Rly p A B) -> flowing i n sid (Rly p' A B) -> demux_moved (pr_server p) (pr_server p') fs ->
  pr_client p' = pr_client p -> pr_up p' = pr_up p -> pr_down_read p' = pr_down_read p ->
  (length fs + bouncing (drop (pr_up_read p') (pr_up p')) + in_demux (tn_demux (pr_server p')) ≤
   bouncing (drop (pr_up_read p) (pr_up p)) + in_demux (tn_demux (pr_server p)))%nat -> beside (Rly p A B) (Rly p' A B).
Proof.
  intros [_ _ [Hop Hrd Hca Hreg _ Hcl Hup Hdn]] [_ _ Htk _ _ _ _ _] [Ec Ew Eq Hfs] El Eu Em Hb. cbn [rl_pair rl_client rl_server] in *.
  split; [split; cbn [rl_pair rl_client rl_server]; rewrite ?El, ?Ec; try done|split; [|done]].
  - unfold out_log in *. rewrite Ew, Eq, app_assoc, kinds_app, Hcl. by rewrite (closes_kinds _ _ Hfs).
  - unfold back_load, bounce_load. cbn [rl_pair rl_client rl_server]. rewrite El, Em, Ew, Eq, frames_load_app, bouncing_app,
      (closes_load _ _ Hfs), (closes_bouncing _ _ Hfs). lia.
Qed.

(** A best-effort CLOSE of another stream. *)
Lemma try_close_moved st s : st <> sid -> is_u32 st -> exists fs, demux_moved s (out_try_send (OutFrame_bare Close st) s) fs /\ (length fs ≤ 1)%nat.
Proof.
  intros Hne Hu. unfold out_try_send. destruct (_ && _).
  - exists [OutFrame_bare Close st]. split; [split; try done; right; exists st; split_and!; try done; apply Hu|done].
  - exists []. split; [|simpl; lia]. split; try done; [by rewrite app_nil_r|by left].
Qed.

Lemma demux_unmoved s s' : tn_closed s' = tn_closed s -> tn_wire s' = tn_wire s -> tn_queue s' = tn_queue s -> demux_moved s s' [].
Proof. intros. split; try done; [by rewrite app_nil_r|by left]. Qed.

Lemma demux_frame_moved k st pl s : is_u32 st -> k <> Reply -> tn_demux s = DIdle -> tn_registry s !! sid = Some n -> (k = Open -> st <> sid) ->
  let s' := demux_frame rt (message (OutFrame_new k st pl)) s in
  exists fs, demux_moved s s' fs /\ (length fs + in_demux (tn_demux s') ≤ if bounces (OutFrame_new k st pl) then 1 else 0)%nat.
Proof.
  intros Hu Hk Hd Hreg Hop s'. rewrite bounces_new by done. unfold s', demux_frame.
  assert (parse_frame (message (OutFrame_new k st pl)) = Ok (k, st, pl)) as -> by (by apply parse_frame_header).
  assert (st <> sid -> exists fs, demux_moved s (out_try_send (OutFrame_bare Close st) s) fs /\
    (length fs + in_demux (tn_demux (out_try_send (OutFrame_bare Close st) s)) ≤ 1)%nat) as Hclose.
  { intros Hne. destruct (try_close_moved st s Hne Hu) as (fs & Hm & Hl), (try_close_log st s) as (_ & _ & _ & _ & _ & ->).
    exists fs. split; [done|]. rewrite Hd. simpl. lia. }
  assert (forall ev, exists fs, demux_moved s (route st ev s) fs /\ (length fs + in_demux (tn_demux (route st ev s)) ≤ 1)%nat) as Hroute.
  { intros ev. unfold route. destruct (tn_registry s !! st) as [j|] eqn:Hj; [|apply Hclose; congruence].
    exists []. destruct (tn_tasks s !! j); (split; [by apply demux_unmoved|cbn; rewrite ?Hd; simpl; lia]). }
  destruct k; [|done|apply Hroute|apply Hroute|].
  - specialize (Hop eq_refl). unfold handle_open. cbv zeta. destruct (bool_decide _); [by apply Hclose|].
    destruct (match rt_max_streams_per_conn rt with Some _ => _ | None => _ end); [by apply Hclose|].
    destruct (addr_decode pl); [|by apply Hclose]. exists []. split; [by apply demux_unmoved|]. cbn. rewrite Hd. simpl. lia.
  - exists []. split; [by apply demux_unmoved|]. cbn. by rewrite Hd.
Qed.

(** A stream is opened once. *)
Lemma next_not_reopened r : forall st pl, flushing rt i n sid r -> pr_up (rl_pair r) !! pr_up_read (rl_pair r) = Some (OutFrame_new Open st pl) ->
  is_u32 st -> st <> sid.
Proof.
  intros st pl [Hinv _ _ [_ _ (u & Hu & Es & _) _ _ _ _ _]] Hf Hst ->. pose proof (ri_pair _ _ Hinv) as Hp.
  destruct (sv_addr _ _ (pi_up _ _ Hp) n u Hu) as (q & Hq & _). rewrite Es in Hq.
  pose proof (lo_once _ _ (pi_log _ _ Hp) sid) as Honce.
  assert (up_seen (rl_pair r) ++ [OutFrame_new Open sid pl] `prefix_of` client_log (rl_pair r)) as Hpre.
  { unfold up_seen, client_log. rewrite <- (take_S_r _ _ _ Hf). apply prefix_app_r. by exists (drop (S (pr_up_read (rl_pair r))) (pr_up (rl_pair r))); rewrite take_drop. }
  pose proof (kinds_prefix Open sid _ _ Hpre) as Hle. rewrite kinds_snoc, is_kind_new, bool_decide_true, Z.eqb_refl in Hle by done.
  assert (0 < kinds Open sid (up_seen (rl_pair r)))%nat; [|simpl in Hle; lia].
  unfold kinds. apply list_elem_of_lookup_1 in Hq as [j Hj]. apply (count_pos _ _ j _ Hj). by rewrite is_kind_new, bool_decide_true, Z.eqb_refl.
Qed.

(** ** The way forth moves *)

Lemma drop_beside p stream ev j A B : exchanging (Rly p A B) -> tn_demux (pr_server p) = DRouting stream ev j ->
  flowing i n sid (Rly (with_server (route_drop stream (pr_server p)) p) A B) ->
  beside (Rly p A B) (Rly (with_server (route_drop stream (pr_server p)) p) A B).
Proof.
  intros Hex Hd Hfl'. pose proof Hex as [[Hinv _ _ _] _ _]. pose proof (fl_registry _ _ _ _ Hfl') as Hreg'. cbn [rl_pair with_server pr_server] in *.
  pose proof (pi_server _ _ (ri_pair _ _ Hinv)) as His. destruct (inv_route _ _ His stream ev j Hd) as (u & Hu & Es & _).
  assert (is_u32 stream) as Hst by (rewrite <- Es; by eapply task_u32, inv_tasks).
  assert (stream <> sid) as Hne.
  { intros ->. revert Hreg'. unfold route_drop. set (s1 := with_registry _ _). destruct (try_close_log sid s1) as (_ & _ & _ & _ & E & _).
    cbn [with_demux tn_registry]. rewrite E. unfold s1. cbn. by rewrite lookup_delete_eq. }
  destruct (try_close_moved stream (with_registry (delete stream (tn_registry (pr_server p))) (pr_server p)) Hne Hst) as (fs & [C1 C2 C3 C4] & Hl).
  apply (demux_beside p _ A B fs Hex Hfl'); try done. cbn. rewrite Hd. simpl. lia.
Qed.

Lemma reads_beside t up k f s m A B : exchanging (Rly (Pr t up k s m) A B) -> tn_demux s = DIdle -> up !! k = Some f ->
  flowing i n sid (Rly (Pr t up (S k) (demux_frame rt (message f) s) m) A B) ->
  beside (Rly (Pr t up k s m) A B) (Rly (Pr t up (S k) (demux_frame rt (message f) s) m) A B).
Proof.
  intros Hex Hd Hf Hfl'. pose proof (eg_flushing _ Hex) as Hfg.
  destruct (flushing_frame _ _ _ _ _ f Hfg) as (kd & st & pl & -> & Hu & Hk & _).
  { unfold client_log. cbn. apply elem_of_app. left. by eapply list_elem_of_lookup_2. }
  destruct (demux_frame_moved kd st pl s Hu Hk Hd (fl_registry _ _ _ _ (fg_flowing _ _ _ _ _ Hfg))) as (fs & Hm & Hl).
  { intros ->. by eapply (next_not_reopened _ st pl Hfg). }
  apply (demux_beside _ _ A B fs Hex Hfl' Hm); try done. cbn [rl_pair pr_up pr_up_read pr_server].
  rewrite (drop_S _ _ _ Hf), Hd, bouncing_cons. simpl. lia.
Qed.

(** A step that leaves the way back as it is. *)
Lemma untouched_beside p p' A A' B B' : exchanging (Rly p A B) -> flowing i n sid (Rly p' A' B') ->
  (forall c, ct_calls (pr_client p) !! i = Some c -> ct_calls (pr_client p') !! i = Some c) ->
  ct_registry (pr_client p') = ct_registry (pr_client p) -> ct_reader (pr_client p') = ct_reader (pr_client p) ->
  tn_closed (pr_server p') = tn_closed (pr_server p) -> tn_wire (pr_server p') = tn_wire (pr_server p) ->
  tn_queue (pr_server p') = tn_queue (pr_server p) -> pr_down_read p' = pr_down_read p ->
  pm_down (A' i) = pm_down (A i) -> pm_up (B' n) = pm_up (B n) ->
  (to_come (u_task (pm_up (A' i))) + bouncing (ct_queue (pr_client p')) + bouncing (drop (pr_up_read p') (pr_up p')) + in_demux (tn_demux (pr_server p')) ≤
   to_come (u_task (pm_up (A i))) + bouncing (ct_queue (pr_client p)) + bouncing (drop (pr_up_read p) (pr_up p)) + in_demux (tn_demux (pr_server p)))%nat ->
  beside (Rly p A B) (Rly p' A' B').
Proof.
  intros [_ _ [Hop Hrd (c & Hc & Es) Hreg _ Hcl Hup Hdn]] [_ _ Htk _ _ _ _ _] Ecalls Er Erd Ec Ew Eq Em EA EB Hb. cbn [rl_pair rl_client rl_server] in *.
  pose proof (Ecalls c Hc) as Hc'.
  split; [split; cbn [rl_pair rl_client rl_server]; rewrite ?Er, ?Ec, ?Erd, ?EA, ?EB; try done|split; [|cbn; by rewrite EB]].
  - by exists c.
  - unfold out_log in *. by rewrite Ew, Eq.
  - unfold back_load, bounce_load, waiting. cbn [rl_pair rl_client rl_server]. rewrite Hc, Hc', EA, EB, Ew, Eq, Em. lia.
Qed.

Lemma upd_down A j a k : pm_down a = pm_down (A j) -> pm_down (upd A j a k) = pm_down (A k).
Proof. intros E. unfold upd. by case_decide as D; [subst|]. Qed.

Lemma upd_up B j b k : pm_up b = pm_up (B j) -> pm_up (upd B j b k) = pm_up (B k).
Proof. intros E. unfold upd. by case_decide as D; [subst|]. Qed.

Lemma sent_to_come stream a f u : up_step stream a [f] u -> u_task a <> UReading -> (to_come (u_task u) + 1 ≤ to_come (u_task a))%nat.
Proof. intros Hst Hne. inversion Hst; subst; cbn in *; try done; lia. Qed.

Lemma flush_beside r r' : flush_step rt i n sid r r' -> exchanging r -> flowing i n sid r' -> beside r r'.
Proof.
  intros [p A B c f u t' H1 H2 H3 H4|t f q up k s m A B H1 H2|t up k f s m A B H1 H2 H3|p stream ev j u A B H1 H2 H3 H4
    |p stream ev j u A B H1 H2 H3|p stream ev j u A B H1 H2 H3 H4|p A B u ev q w s' H1 H2 H3 H4 H5 H6|p A B u w H1 H2 H3 H4 H5] Hex Hfl'.
  - destruct (client_queues _ _ _ _ _ H4) as [-> _]. apply untouched_beside; try done; [by apply upd_down|]. cbn. rewrite upd_same. cbn.
    rewrite bouncing_app. pose proof (bouncing_one f). pose proof (sent_to_come _ _ _ _ H3 H2). lia.
  - apply untouched_beside; try done. cbn. rewrite H2, drop_app_le, bouncing_app, !bouncing_cons; [change (bouncing []) with 0%nat; lia|].
    apply (pi_up_read _ _ (ri_pair _ _ (fg_inv _ _ _ _ _ (eg_flushing _ Hex)))).
  - by apply reads_beside.
  - apply untouched_beside; try done. cbn. rewrite H1. simpl. lia.
  - by eapply drop_beside.
  - by eapply drop_beside.
  - unfold task_step in H6. rewrite H2 in H6. destruct (tk_phase u) as [| |[]| |]; try done. destruct (pump_over u); [done|]. injection H6 as <-.
    apply untouched_beside; try done. by apply upd_up.
  - apply untouched_beside; try done. by apply upd_up.
Qed.

(** ** The way back moves *)

(** And the way forth after a step of the way back. *)
Definition abreast (r r' : Relay) : Prop :=
  flowing i n sid r' /\ (load i n r' + 6 * bounce_load r' ≤ load i n r + 6 * bounce_load r)%nat /\
  (u_read (pm_up (rl_client r' i)) = u_read (pm_up (rl_client r i)) /\ ended (u_task (pm_up (rl_client r' i))) = ended (u_task (pm_up (rl_client r i)))) /\
  exists fs, client_log (rl_pair r') = client_log (rl_pair r) ++ fs /\ Forall (fun f => wf_bytes (message f)) fs.

Lemma untouched_abreast p p' A A' B B' fs : exchanging (Rly p A B) -> flowing_back i n sid (Rly p' A' B') -> closes sid fs ->
  ct_queue (pr_client p') = ct_queue (pr_client p) ++ fs -> ct_closed (pr_client p') = ct_closed (pr_client p) ->
  pr_up p' = pr_up p -> pr_up_read p' = pr_up_read p -> tn_registry (pr_server p') = tn_registry (pr_server p) ->
  tn_demux (pr_server p') = tn_demux (pr_server p) -> tn_tasks (pr_server p') = tn_tasks (pr_server p) ->
  pm_up (A' i) = pm_up (A i) -> pm_down (B' n) = pm_down (B n) ->
  (length fs + to_come (u_task (pm_up (B' n))) + bouncing (tn_queue (pr_server p')) + bouncing (drop (pr_down_read p') (tn_wire (pr_server p'))) ≤
   to_come (u_task (pm_up (B n))) + bouncing (tn_queue (pr_server p)) + bouncing (drop (pr_down_read p) (tn_wire (pr_server p))))%nat ->
  abreast (Rly p A B) (Rly p' A' B').
Proof.
  intros [[_ _ _ [Hop Hca Htk Hreg Hdm Hcl Hup Hdn]] _ _] [_ _ Hca' _ Htk' _ _ _] Hfs Eq Ec Eu Er Eg Ed Et EA EB Hb. cbn [rl_pair rl_client rl_server] in *.
  assert (client_log p' = client_log p ++ fs) as El by (unfold client_log; by rewrite Eu, Eq, app_assoc).
  split; [split; cbn [rl_pair rl_client rl_server]; rewrite ?Ec, ?Eg, ?Ed, ?EA, ?EB; try done|split; [|split; [by cbn; rewrite EA|]]].
  - by rewrite El, kinds_app, Hcl, (closes_kinds _ _ Hfs).
  - unfold load, bounce_load. cbn [rl_pair rl_client rl_server]. rewrite EA, EB, Et, Ed, Eu, Er, Eq, frames_load_app, bouncing_app,
      (closes_load _ _ Hfs), (closes_bouncing _ _ Hfs). lia.
  - exists fs. split; [exact El|by eapply closes_wf].
Qed.

Lemma reader_abreast t up k s m f A B : exchanging (Rly (Pr t up k s m) A B) -> tn_wire s !! m = Some f ->
  (send_result A t f = Stalled -> frame_event sid f = []) -> let t' := reader_frame (message f) (send_result A t f) t in
  flowing_back i n sid (Rly (Pr t' up k s (S m)) A B) -> abreast (Rly (Pr t up k s m) A B) (Rly (Pr t' up k s (S m)) A B).
Proof.
  intros Hex Hf Hs t' Hfb. pose proof (exchanging_backing _ Hex) as Hbk.
  pose proof (send_delivers rt i n sid t up k s m f A B Hbk Hf Hs) as Hdv.
  assert (f ∈ out_log s) as Hfl by (unfold out_log; apply elem_of_app; left; by eapply list_elem_of_lookup_2).
  destruct (backing_frame _ _ _ _ _ _ _ f Hbk Hfl) as (kd & st & x & -> & Hu & Hk & Hcl).
  pose proof Hbk as [Hinv _ _ [_ _ (c & Hc & _) Hreg _ _ _ _]]. cbn [rl_pair pr_client] in *.
  destruct (reader_reads i sid t c kd st x (send_result A t (OutFrame_new kd st x)) (pi_client _ _ (ri_pair _ _ Hinv)) Hu Hk Hcl Hdv Hc Hreg) as [_ R2 _ _ _ R6].
  assert (exists fs, ct_queue t' = ct_queue t ++ fs /\ closes sid fs /\ (length fs ≤ if bounces (OutFrame_new kd st x) then 1 else 0)%nat) as (fs & Eq & Hfs & Hl).
  { destruct R6 as [E|(k0 & st0 & pl & Ef & Hk0 & Hne & Hu0 & E)]; [exists []; rewrite app_nil_r; split; [exact E|split; [by left|apply Nat.le_0_l]]|].
    exists [OutFrame_bare Close st0]. split; [exact E|]. split; [right; exists st0; split; [exact Hne|by split]|].
    rewrite Ef, bounces_new, bool_decide_false by done. simpl. lia. }
  apply (untouched_abreast _ _ _ _ _ _ fs Hex Hfb Hfs Eq R2); try done. cbn [rl_pair pr_server pr_down_read].
  rewrite (drop_S _ _ _ Hf), bouncing_cons. lia.
Qed.

Lemma back_abreast r r' : back_step i n sid r r' -> exchanging r -> flowing_back i n sid r' -> abreast r r'.
Proof.
  intros [p A B v f u s' H1 H2 H3 H4|t up k s m f q A B H1 H2|t up k s m f A B H1 H2 H3|p A B c ev w H1 H2 H3 H4 H5 H6|p A B c w H1 H2 H3 H4 H5] Hex Hfb.
  - assert (s' = enqueue f (pr_server p)) as -> by (unfold task_step in H4; destruct (tk_phase v) as [| |[]| |]; try done; (destruct (_ && _); [|done]); by injection H4 as <-).
    apply (untouched_abreast _ _ _ _ _ _ [] Hex Hfb); try done; [by left|by rewrite app_nil_r|by apply upd_down|]. cbn. rewrite upd_same. cbn.
    rewrite bouncing_app. pose proof (bouncing_one f). pose proof (sent_to_come _ _ _ _ H3 H2). lia.
  - apply (untouched_abreast _ _ _ _ _ _ [] Hex Hfb); try done; [by left|by rewrite app_nil_r|]. cbn.
    rewrite H2, drop_app_le, bouncing_app, !bouncing_cons; [change (bouncing []) with 0%nat; lia|].
    apply (pi_down_read _ _ (ri_pair _ _ (fg_inv _ _ _ _ _ (eg_flushing _ Hex)))).
  - by apply reader_abreast.
  - apply (untouched_abreast _ _ _ _ _ _ [] Hex Hfb); try done; [by left|by rewrite app_nil_r|by apply upd_up].
  - apply (untouched_abreast _ _ _ _ _ _ [] Hex Hfb); try done; [by left|by rewrite app_nil_r|by apply upd_up].
Qed.

(** ** A step of either *)

Definition sent_same (r r' : Relay) : Prop :=
  (u_read (pm_up (rl_client r' i)) = u_read (pm_up (rl_client r i)) /\ ended (u_task (pm_up (rl_client r' i))) = ended (u_task (pm_up (rl_client r i)))) /\
  u_read (pm_up (rl_server r' n)) = u_read (pm_up (rl_server r n)) /\ ended (u_task (pm_up (rl_server r' n))) = ended (u_task (pm_up (rl_server r n))).

Lemma exchange_step_ok r r' : exchange_step rt i n sid r r' -> exchanging r ->
  relay_step rt r r' /\ exchanging r' /\ (exchange_load r' < exchange_load r)%nat /\ sent_same r r'.
Proof.
  intros Hst Hex. pose proof Hex as [Hfg Hg Hfb]. pose proof (exchanging_backing _ Hex) as Hbk. unfold exchange_load. destruct Hst as [Hst|Hst].
  - pose proof (flush_step_ok rt i n sid r r' Hst Hfg) as Hok. pose proof (flush_step_flushing rt i n sid r r' Hok Hfg) as Hfg'.
    destruct (flush_beside r r' Hst Hex (fg_flowing _ _ _ _ _ Hfg')) as (Hfb' & Hl & Hsame). destruct Hok as (Hs & _ & Hlt & (_ & Ha) & _).
    split; [done|]. split; [split; [done| |done]|split; [lia|by split]]. by eapply takes_given_step; [apply Hfg| |].
  - pose proof (back_step_ok rt i n sid r r' Hst Hbk) as Hok. pose proof (back_step_backing rt i n sid r r' Hok Hbk) as [Hinv' Hg' Hsm' Hfb'].
    destruct (back_abreast r r' Hst Hex Hfb') as (Hfl' & Hl & Hsame & fs & El & Hw). destruct Hok as (Hs & _ & Hlt & _ & Ha).
    split; [done|]. split; [split; [split; try done|done|done]|split; [lia|by split]]. rewrite El. apply Forall_app. split; [apply Hfg|done].
Qed.

(** Both sockets were written what the other gave. *)
Definition exchanged (r : Relay) : Prop :=
  arrived n (u_read (pm_up (rl_client r i))) (ended (u_task (pm_up (rl_client r i)))) r /\
  answered i (u_read (pm_up (rl_server r n))) (ended (u_task (pm_up (rl_server r n)))) r.

Lemma exchange_progress r : exchanging r -> exchanged r \/ exists r', exchange_step rt i n sid r r'.
Proof.
  intros Hex. destruct (flush_progress rt i n sid r (eg_flushing _ Hex)) as [Ha|(r' & Hr')]; [|right; exists r'; by left].
  destruct (back_progress rt i n sid r (exchanging_backing _ Hex)) as [Hb|(r' & Hr')]; [by left; split|right; exists r'; by right].
Qed.

Lemma exchange_delivers_all r : exchanging r -> eventually (exchange_step rt i n sid) (fun r' =>
  arrived n (u_read (pm_up (rl_client r i))) (ended (u_task (pm_up (rl_client r i)))) r' /\
  answered i (u_read (pm_up (rl_server r n))) (ended (u_task (pm_up (rl_server r n)))) r') r.
Proof.
  intros Hr. apply (eventually_lex _ _ (fun r' => exchanging r' /\ sent_same r r') exchange_load (fun _ => 0%nat)); [|by split_and!].
  intros r1 (Hex & (Ea & Eb) & Ec & Ed). destruct (exchange_progress r1 Hex) as [Hdone|Hmv]; [left; by rewrite <- Ea, <- Eb, <- Ec, <- Ed|right].
  split; [exact Hmv|]. intros r2 Hst. destruct (exchange_step_ok r1 r2 Hst Hex) as (_ & Hex' & Hl & (Ea' & Eb') & Ec' & Ed').
  split; [|by left]. split; [done|]. repeat split; congruence.
Qed.

Lemma exchange_bounded k r r' : exchanging r -> nsteps (exchange_step rt i n sid) k r r' ->
  (k + exchange_load r' ≤ exchange_load r)%nat /\ rtc (relay_step rt) r r'.
Proof.
  intros Hex Hst. induction Hst as [r|k r r1 r' Hst _ IH]; [split; [lia|apply rtc_refl]|].
  destruct (exchange_step_ok r r1 Hst Hex) as (Hs & Hex' & Hl & _). destruct IH as [IH Hr]; [done|].
  split; [lia|]. by eapply rtc_l.
Qed.
End Exchange.

(** ** Properties *)

(** What was sent arrives, both ways.  Let a client's tunnel and a server's run with
    all their pumps in any interleaving, and come to a state where a stream is open at
    both ends: its call streams, its task pumps, both are registered, neither direction
    has failed, nobody has closed the stream, and the tunnel's writers and readers are
    there.  However much is in front of it, in the channels, on the wire, or stuck in a
    demux loop behind another stream, the steps that only move things along deliver, in
    whatever order the two directions take them: there is always one until the target
    has been written exactly what the application had sent and the application exactly
    what the target had, each told the end of it exactly if the other had ended; every
    run of such steps gets there, in no more of them than what is left of stages, bytes
    and CLOSEs to be answered with; and every such run is one of the program. *)
Theorem exchange_completes rt r i n sid :
  rtc (relay_step rt) relay_new r -> small (pr_client (rl_pair r)) -> asks_ok (pr_client (rl_pair r)) ->
  flowing i n sid r -> flowing_back i n sid r ->
  eventually (exchange_step rt i n sid) (fun r' =>
    arrived n (u_read (pm_up (rl_client r i))) (ended (u_task (pm_up (rl_client r i)))) r' /\
    answered i (u_read (pm_up (rl_server r n))) (ended (u_task (pm_up (rl_server r n)))) r') r /\
  (forall k r', nsteps (exchange_step rt i n sid) k r r' -> (k ≤ exchange_load i n r)%nat /\ rtc (relay_step rt) r r').
Proof.
  intros Hr Hsm Hok Hfl Hfb. assert (exchanging rt i n sid r) as Hex.
  { split; [by apply flushing_reached|by eapply takes_given_reached|done]. }
  split; [by apply exchange_delivers_all|]. intros k r' Hst. destruct (exchange_bounded rt i n sid k r r' Hex Hst) as [Hk Hrun]. split; [lia|done].
Qed.

(** The sample with three bytes in the client's channel, two in the server's, and an end
    of file behind those. *)
Definition sample_answer : OutFrame := OutFrame_new Data 1 [4; 5].
Definition sample_v : Task := default sample_task (tn_tasks (pr_server sample_sent) !! 0%nat).
Definition sample_both_pair : Pair :=
  with_server (default tunnel_new (task_step 0 sample_v (APump sample_answer) (pr_server sample_sent))) sample_sent.
Definition sample_v1 : Up := Up_ (USending [4; 5]) [4; 5] 0.
Definition sample_v2 : Up := Up_ UReading [4; 5] 2.
Definition sample_v3 : Up := Up_ UFinishing [4; 5] 2.
Definition sample_pumps (u : Up) (fs : list OutFrame) : Pumps := Pmp u sample_w0 fs PSelecting.
Definition sample_C1 : nat -> Pumps := upd sample_A0 0 (sample_pumps sample_v1 []).
Definition sample_C2 : nat -> Pumps := upd sample_C1 0 (sample_pumps sample_v2 [sample_answer]).
Definition sample_C3 : nat -> Pumps := upd sample_C2 0 (sample_pumps sample_v3 [sample_answer]).
Definition sample_both : Relay := Rly sample_both_pair sample_A2 sample_C3.

Lemma sample_v_at : tn_tasks (pr_server sample_sent) !! 0%nat = Some sample_v /\ tk_stream sample_v = 1 /\ tk_phase sample_v = TPumping true.
Proof. split; [apply default_some; vm_compute; reflexivity|]. split; vm_compute; reflexivity. Qed.

Lemma sample_answers : exists s', task_step 0 sample_v (APump sample_answer) (pr_server sample_sent) = Some s' /\ sample_both_pair = with_server s' sample_sent.
Proof. eexists. split; [|reflexivity]. apply default_some. vm_compute. reflexivity. Qed.

Lemma sample_v_still : tn_tasks (pr_server sample_both_pair) !! 0%nat = Some sample_v.
Proof. vm_compute. reflexivity. Qed.

Lemma sample_both_computed : load 0 0 sample_both = 8%nat /\ back_load 0 0 sample_both = 13%nat /\ bounce_load 0 0 sample_both = 3%nat /\
  asks_ok (pr_client sample_both_pair) /\ small (pr_client sample_both_pair).
Proof.
  split; [vm_compute; reflexivity|]. split; [vm_compute; reflexivity|]. split; [vm_compute; reflexivity|]. split; [|vm_compute; reflexivity].
  intros [|j] c Hc; [|vm_compute in Hc; discriminate Hc].
  assert (op_addr <$> ct_calls (pr_client sample_both_pair) !! 0%nat = Some (PAddr (Ip (V4 [127; 0; 0; 1])) 80)) as E by (vm_compute; reflexivity).
  rewrite Hc in E. injection E as ->. split; [cbn; lia|]. split; [by apply wf_bytes_eval|reflexivity].
Qed.

Lemma sample_both_flowing : flowing 0 0 1 sample_both /\ flowing_back 0 0 1 sample_both.
Proof.
  pose proof sample_v_at as (_ & Hs & Hp). pose proof sample_v_still as Hv.
  assert (exists c, ct_calls (pr_client sample_both_pair) !! 0%nat = Some c /\ op_sid c = 1 /\ op_phase c = OStreaming false) as Hc
    by (exists sample_call; split_and!; vm_compute; reflexivity).
  assert (exists u, tn_tasks (pr_server sample_both_pair) !! 0%nat = Some u /\ tk_stream u = 1 /\ exists rx, tk_phase u = TPumping rx) as Ht
    by (exists sample_v; exact (conj Hv (conj Hs (ex_intro _ true Hp)))).
  split; (split; [vm_compute; reflexivity|..]).
  - exact Hc.
  - exact Ht.
  - vm_compute. reflexivity.
  - vm_compute. discriminate.
  - vm_compute. reflexivity.
  - exact I.
  - exact I.
  - vm_compute. reflexivity.
  - exact Hc.
  - vm_compute. reflexivity.
  - exact Ht.
  - vm_compute. reflexivity.
  - exact I.
  - exact I.
Qed.
#[local] Opaque sample_sent sample_both_pair sample_v.

Lemma sample_step_answer_reads : relay_step (small_runtime 1) (Rly sample_sent sample_A2 sample_A0) (Rly sample_sent sample_A2 sample_C1).
Proof.
  destruct sample_v_at as (Hv & Hs & Hp). apply relay_pumps_own, (pumps_server_moves _ _ _ _ 0 sample_v true); [exact Hv|exact Hp| |by split].
  rewrite Hs. apply (pump_up_moves _ (Up_ UReading [] 0) [] sample_v1), (up_reads _ [4; 5] [] 0); [done|unfold STREAM_CHUNK; cbn; lia|by apply wf_bytes_eval].
Qed.

Lemma sample_step_answer_sends : relay_step (small_runtime 1) (Rly sample_sent sample_A2 sample_C1) (Rly sample_both_pair sample_A2 sample_C2).
Proof.
  destruct sample_v_at as (Hv & Hs & Hp), sample_answers as (s' & Hsend & ->).
  apply relay_pumps_server, (pumps_server_sends _ _ _ _ 0 sample_v _ sample_answer); [exact Hv| |by split|exact Hsend].
  rewrite Hs. apply (pump_up_moves _ sample_v1 [sample_answer] sample_v2), (up_sends 1 [4; 5] [4; 5] 0).
Qed.

Lemma sample_step_answer_ends : relay_step (small_runtime 1) (Rly sample_both_pair sample_A2 sample_C2) sample_both.
Proof.
  destruct sample_v_at as (_ & Hs & Hp). apply relay_pumps_own, (pumps_server_moves _ _ _ _ 0 sample_v true); [exact sample_v_still|exact Hp| |by split].
  rewrite Hs. apply (pump_up_moves _ sample_v2 [] sample_v3), up_reads_eof.
Qed.

Lemma sample_both_reached : rtc (relay_step (small_runtime 1)) relay_new sample_both.
Proof.
  etransitivity; [exact sample_sending_reached|]. eapply rtc_l; [exact sample_step_answer_reads|].
  eapply rtc_l; [exact sample_step_answer_sends|]. apply rtc_once. exact sample_step_answer_ends.
Qed.

Lemma exchange_completes_witness : rtc (relay_step (small_runtime 1)) relay_new sample_both /\
  w_written (pm_down (rl_server sample_both 0)) = [] /\ w_written (pm_down (rl_client sample_both 0)) = [] /\
  eventually (exchange_step (small_runtime 1) 0 0 1) (fun r' => arrived 0 [1; 2; 3] false r' /\ answered 0 [4; 5] true r') sample_both /\
  forall k r', nsteps (exchange_step (small_runtime 1) 0 0 1) k sample_both r' -> (k ≤ 39)%nat.
Proof.
  destruct sample_both_computed as (E1 & E2 & E3 & Hok & Hsm), sample_both_flowing as [Hfl Hfb].
  destruct (exchange_completes (small_runtime 1) sample_both 0 0 1 sample_both_reached Hsm Hok Hfl Hfb) as [He Hb].
  split; [exact sample_both_reached|]. split; [reflexivity|]. split; [reflexivity|]. split; [exact He|].
  intros k r' Hst. destruct (Hb k r' Hst) as [Hk _]. unfold exchange_load in Hk. rewrite E1, E2, E3 in Hk. exact Hk.
Defined.
