(* ===== verification/NetLive.v ===== *)
(** * What was sent arrives, anywhere in the pool

    The flush of [Exchange] as part of the whole program of [Net]: a stream of any
    tunnel of the pool, for whatever application, moves along by steps of the program
    that leave the other tunnels and the pool's own business alone. *)
From S2P Require Import Prelude Errors Env Mux Pump Addr Tunnel KeyConfig Config Server Pool Socks5 TunnelPair FrameSize PumpStream TunnelPool Relay Proxy Net Deliver DeliverBack Exchange.

(** A step of the program that moves the stream of call [i] and task [n] of tunnel [k]
    along, and nothing else. *)
Inductive net_exchange (multi : bool) (pool_size max_streams : Z) (rt : ServerRuntime) (k i n : nat) (sid : Z) (x x' : Net) : Prop :=
| net_moves_along r r' :
    nt_relays x !! k = Some r -> exchange_step rt i n sid r r' -> nt_relays x' = <[k := r']> (nt_relays x) -> nt_apps x' = nt_apps x ->
    sg_callers (nt_pool x') = sg_callers (nt_pool x) -> sg_maintainer (nt_pool x') = sg_maintainer (nt_pool x) ->
    net_step multi pool_size max_streams rt x x' -> net_exchange multi pool_size max_streams rt k i n sid x x'.

(** No pump reads anything more, nor the end of its socket. *)
Lemma exchange_reads rt i n sid r r' : flowing i n sid r -> exchange_step rt i n sid r r' -> forall j,
  u_read (pm_up (rl_client r' j)) = u_read (pm_up (rl_client r j)) /\
  (at_eof (u_task (pm_up (rl_client r' j))) = true -> at_eof (u_task (pm_up (rl_client r j))) = true).
Proof.
  intros Hfl Hst j. pose proof (fl_up _ _ _ _ Hfl) as Hup. revert Hup. clear Hfl.
  destruct Hst as [[p A B c f u t' _ Hne Hst _| | | | | | |]|[| | |p A B c ev w _ _ _ _ _ _|p A B c w _ _ _ _ _]]; cbn [rl_client]; intros Hup; try done;
    try (by rewrite (upd_up A i (down_moved (A i) w) j)).
  unfold upd. case_decide as E; [subst j|done]. cbn [up_moved pm_up].
  destruct (pm_up (A i)) as [tu ru bu]. cbn [u_task] in *. inversion Hst; subst; try (by destruct Hne); done.
Qed.

Section Live.
Context (multi : bool) (pool_size max_streams : Z) (rt : ServerRuntime).

(** ** Each relay runs by itself *)

Lemma net_relay_reached x k r : rtc (net_step multi pool_size max_streams rt) net_new x -> nt_relays x !! k = Some r -> rtc (relay_step rt) relay_new r.
Proof.
  intros Hr. revert x Hr k r. apply (rtc_ind_r (fun x => forall k r, nt_relays x !! k = Some r -> rtc (relay_step rt) relay_new r)); [done|].
  intros x x' _ [P P' rs rs' apps apps' _ Hrs _ _ _ _] IH k r Hk. cbn [nt_relays] in *.
  destruct (relays_move_back _ _ _ _ _ Hrs Hk) as [(r0 & Hr0 & [->|Hst])|[_ ->]]; [by eapply IH|eapply rtc_r; [by eapply IH|done]|apply rtc_refl].
Qed.

Lemma net_asks_ok x k r : net_inv multi max_streams rt x -> nt_relays x !! k = Some r -> asks_ok (pr_client (rl_pair r)).
Proof.
  intros Hx Hk j d Hj. destruct (ni_calls _ _ _ _ Hx k r j d Hk Hj) as (a & c & Ha & <-).
  destruct (caller_app _ _ _ _ _ _ Hx Ha) as (w & _ & Hw & Has). by destruct (asked_spec w _ Hw Has) as (_ & _ & _ & ? & _).
Qed.

Lemma net_exchanging_at x k r i n sid : is_u32 max_streams -> rtc (net_step multi pool_size max_streams rt) net_new x -> all_small (nt_relays x) ->
  nt_relays x !! k = Some r -> flowing i n sid r -> flowing_back i n sid r -> exchanging rt i n sid r.
Proof.
  intros HM Hr Hsm Hk Hfl Hfb. pose proof (net_relay_reached x k r Hr Hk) as Hrr. pose proof (Hsm k r Hk) as Hs.
  pose proof (net_reachable_inv _ _ _ _ _ HM Hr Hsm) as Hx.
  split; [apply flushing_reached; [done|done|by eapply net_asks_ok|done]|by eapply takes_given_reached|done].
Qed.

(** ** The pool's side of a step *)

Lemma set_at_same s a c : sg_callers s !! a = Some c -> set_at a (cl_at c) s = s.
Proof. intros Ha. unfold set_at. rewrite (alter_insert _ _ _ _ Ha), list_insert_id; [by destruct s|by destruct c]. Qed.

Lemma may_move_any s me : may_move multi None s -> may_move multi me s.
Proof. intros [?|[Hm Hq]]; [by left|right]. split; [done|]. intros a c Ha Hb. by specialize (Hq a c Ha Hb). Qed.

Lemma exchange_serving P rs k i n sid r r' sp : serving_inv multi max_streams P -> synced P (client_ends rs) -> may_move multi None P -> rs !! k = Some r ->
  sg_tunnels P !! k = Some sp -> flowing i n sid r -> exchange_step rt i n sid r r' ->
  let P' := set_tunnel k (pr_client (rl_pair r')) P in P' = P \/ serving_step multi pool_size max_streams P P'.
Proof.
  intros Hinv Hsy Hmay Hr Hsp Hfl Hst P'. assert (sp_tunnel sp = pr_client (rl_pair r)) as Esp.
  { destruct (synced_at _ _ _ _ Hsy Hr) as (sp' & Hsp' & <-). rewrite Hsp in Hsp'. by injection Hsp' as <-. }
  assert (pr_client (rl_pair r') = pr_client (rl_pair r) -> P' = P \/ serving_step multi pool_size max_streams P P') as Hsame
    by (intros E; left; unfold P'; rewrite E, <- Esp; by apply set_tunnel_same).
  assert (tunnel_moves (pr_client (rl_pair r)) (pr_client (rl_pair r')) -> P' = P \/ serving_step multi pool_size max_streams P P') as Hmoves
    by (intros Hm; right; unfold P'; eapply sv_moves; [done|exact Hsp|by rewrite Esp]).
  subst P'. revert Hr Hfl Esp Hsame Hmoves. destruct Hst as [[p A B c f u t' Hc _ _ Ho|t f q up m s d A B Hcl Hq| | | | | |]|[| |t up m s d f A B Hrd _ _| |]]; intros Hr Hfl Esp Hsame Hmoves; try (by apply Hsame).
  - destruct (fl_call _ _ _ _ Hfl) as (c' & Hc' & _ & Eph). cbn [rl_pair with_client pr_client] in *. rewrite Hc in Hc'. injection Hc' as <-.
    destruct (open_call_held multi max_streams P rs k _ i c Hinv Hsy Hr Hc) as (a & cl & Ha & _ & Hat); [unfold is_open; by rewrite Eph|].
    specialize (Hat (ex_intro _ false Eph)). right. destruct (client_queues _ _ _ _ _ Ho) as [Et _].
    set (P' := set_tunnel _ _ P). assert (sg_callers P' !! a = Some cl) as Ha' by exact Ha. rewrite <- (set_at_same P' a cl Ha'), Hat.
    assert (AtStream k i = after_call k i (AtStream k i) (op_phase c)) as -> by (by rewrite Eph).
    destruct cl as [addr w]. cbn [cl_at] in Hat. subst w.
    eapply (sv_acts multi pool_size max_streams P a addr (AtStream k i) k i sp c (OPump f) t' c); try done; [by apply may_move_any|by rewrite Esp..|by rewrite Et].
  - apply Hmoves. by apply (moves_writes t f q).
  - apply Hmoves. by apply moves_frame.
Qed.

(** ** A step of the program *)

Definition moved (x : Net) (k : nat) (r' : Relay) : Net :=
  Nt (set_tunnel k (pr_client (rl_pair r')) (nt_pool x)) (<[k := r']> (nt_relays x)) (nt_apps x).

Lemma moved_synced x k r r' : synced (nt_pool x) (client_ends (nt_relays x)) -> nt_relays x !! k = Some r ->
  synced (nt_pool (moved x k r')) (client_ends (nt_relays (moved x k r'))).
Proof.
  intros Hs Hk. destruct (synced_at _ _ _ _ Hs Hk) as (sp & Hsp & _). unfold synced, client_ends, moved in *. cbn [nt_pool nt_relays].
  rewrite (set_tunnel_eq _ _ _ _ Hsp). cbn [with_tunnels sg_tunnels]. by rewrite !list_fmap_insert, Hs.
Qed.

Lemma moved_reads x k i n sid r r' : net_inv multi max_streams rt x -> nt_relays x !! k = Some r -> flowing i n sid r -> exchange_step rt i n sid r r' ->
  reads_streams (nt_pool (moved x k r')) (rl_client <$> nt_relays (moved x k r')) (nt_apps (moved x k r')).
Proof.
  intros Hx Hk Hfl Hst a c b j w A Ha Hs Hw HA. cbn [moved nt_pool nt_relays nt_apps set_tunnel with_tunnels sg_callers] in *.
  pose proof (ni_reads _ _ _ _ Hx a c b j w) as Hreads. rewrite list_lookup_fmap in HA, Hreads.
  destruct (decide (b = k)) as [->|Hne]; [|rewrite list_lookup_insert_ne in HA by done; by apply Hreads].
  rewrite list_lookup_insert_eq in HA by (by eapply lookup_lt_Some). injection HA as <-.
  destruct (Hreads (rl_client r) Ha Hs Hw) as [Hp He]; [by rewrite Hk|]. destruct (exchange_reads rt i n sid r r' Hfl Hst j) as [E1 E2].
  split; rewrite E1; [done|]. intros E. by apply He, E2.
Qed.

Lemma moved_step x k i n sid r r' : net_inv multi max_streams rt x -> may_move multi None (nt_pool x) -> nt_relays x !! k = Some r ->
  exchanging rt i n sid r -> exchange_step rt i n sid r r' -> net_exchange multi pool_size max_streams rt k i n sid x (moved x k r').
Proof.
  intros Hx Hmay Hk Hex Hst. pose proof (fg_flowing _ _ _ _ _ (eg_flushing _ _ _ _ _ Hex)) as Hfl. destruct (exchange_step_ok rt i n sid r r' Hst Hex) as (Hrel & _).
  destruct (synced_at _ _ _ _ (ni_synced _ _ _ _ Hx) Hk) as (sp & Hsp & _). apply (net_moves_along _ _ _ _ _ _ _ _ _ _ r r'); try done.
  destruct x as [P rs apps] eqn:Ex. apply net_moves; cbn [nt_relays nt_pool nt_apps] in *.
  - eapply exchange_serving; [apply Hx|apply Hx|exact Hmay|exact Hk|exact Hsp|exact Hfl|exact Hst].
  - by eapply relays_one.
  - by apply (moved_synced (Nt P rs apps) k r r' (ni_synced _ _ _ _ Hx)).
  - done.
  - apply (ni_apps _ _ _ _ Hx).
  - by apply (moved_reads (Nt P rs apps) k i n sid r r').
Qed.

(** ** The state of it *)

Record net_exchanging (k i n : nat) (sid : Z) (x : Net) (r : Relay) : Prop := {
  nx_inv : net_inv multi max_streams rt x;
  nx_small : all_small (nt_relays x);
  nx_may : may_move multi None (nt_pool x);
  nx_relay : nt_relays x !! k = Some r;
  nx_exchanging : exchanging rt i n sid r
}.

Lemma may_move_kept s s' : sg_callers s' = sg_callers s -> sg_maintainer s' = sg_maintainer s -> may_move multi None s -> may_move multi None s'.
Proof. unfold may_move, quiet. by intros -> ->. Qed.

Lemma net_exchange_ok k i n sid x x' r : is_u32 max_streams -> net_exchange multi pool_size max_streams rt k i n sid x x' -> net_exchanging k i n sid x r ->
  exists r', net_exchanging k i n sid x' r' /\ (exchange_load i n r' < exchange_load i n r)%nat /\ sent_same i n r r'.
Proof.
  intros HM [r0 r' Hk Hst Erel Eapps Ecallers Emaint Hnet] [Hinv Hsm Hmay Hr Hex]. rewrite Hk in Hr. injection Hr as ->.
  destruct (exchange_step_ok rt i n sid r r' Hst Hex) as (_ & Hex' & Hl & Hsame). exists r'. split; [|done].
  assert (all_small (nt_relays x')) as Hsm'.
  { rewrite Erel. intros j q [(-> & <- & _)|[_ Hj]]%list_lookup_insert_Some; [apply (fg_small _ _ _ _ _ (eg_flushing _ _ _ _ _ Hex'))|by apply (Hsm j)]. }
  split; [by eapply net_step_inv|done|by eapply may_move_kept| |done].
  rewrite Erel. apply list_lookup_insert_eq. by eapply lookup_lt_Some.
Qed.

(** The stream's target has [sent], its application [back]. *)
Definition net_exchanged (k i n : nat) (sent back : bytes) (all all_back : bool) (x : Net) : Prop :=
  exists r, nt_relays x !! k = Some r /\ arrived n sent all r /\ answered i back all_back r.

Lemma net_exchange_delivers k i n sid x r : is_u32 max_streams -> net_exchanging k i n sid x r ->
  eventually (net_exchange multi pool_size max_streams rt k i n sid)
    (net_exchanged k i n (u_read (pm_up (rl_client r i))) (u_read (pm_up (rl_server r n)))
       (ended (u_task (pm_up (rl_client r i)))) (ended (u_task (pm_up (rl_server r n))))) x.
Proof.
  intros HM Hx. remember (exchange_load i n r) as m eqn:Em. assert (exchange_load i n r ≤ m)%nat as Hm by lia. clear Em. revert x r Hx Hm.
  induction m as [m IH] using (well_founded_induction lt_wf). intros x r Hx Hm. pose proof Hx as [Hinv _ Hmay Hr Hex].
  destruct (exchange_progress rt i n sid r Hex) as [Hdone|(r' & Hst)]; [apply eventually_now; exists r; split; [done|exact Hdone]|].
  apply eventually_later; [exists (moved x k r'); by eapply moved_step|].
  intros x' Hst'. destruct (net_exchange_ok k i n sid x x' r HM Hst' Hx) as (r2 & Hx2 & Hl & (<- & <-) & <- & <-).
  eapply (IH (exchange_load i n r2)); [lia|done|done].
Qed.

(** Nothing else changes, and not for long. *)
Lemma net_exchange_bounded m k i n sid x x' r : is_u32 max_streams -> net_exchanging k i n sid x r ->
  nsteps (net_exchange multi pool_size max_streams rt k i n sid) m x x' ->
  (m ≤ exchange_load i n r)%nat /\ rtc (net_step multi pool_size max_streams rt) x x' /\ nt_apps x' = nt_apps x /\
  sg_callers (nt_pool x') = sg_callers (nt_pool x) /\ (forall j, j <> k -> nt_relays x' !! j = nt_relays x !! j).
Proof.
  intros HM Hx Hst. revert r Hx. induction Hst as [x|m x x1 x' Hst _ IH]; intros r Hx; [split; [lia|]; split; [apply rtc_refl|done]|].
  destruct (net_exchange_ok k i n sid x x1 r HM Hst Hx) as (r1 & Hx1 & Hl & _). destruct (IH r1 Hx1) as (Hm & Hrun & Ea & Ec & Er).
  destruct Hst as [r0 r' _ _ Erel Eapps Ecallers _ Hnet]. split; [lia|]. split; [by eapply rtc_l|]. split; [congruence|]. split; [congruence|].
  intros j Hj. rewrite (Er j Hj), Erel. by apply list_lookup_insert_ne.
Qed.

(** ** Whose stream it is *)

Lemma flowing_serves k i n sid x r : net_inv multi max_streams rt x -> nt_relays x !! k = Some r -> flowing i n sid r ->
  exists a c w, sg_callers (nt_pool x) !! a = Some c /\ cl_at c = AtStream k i /\ nt_apps x !! a = Some w /\ serves x a k n /\ reads_app (rl_client r i) w.
Proof.
  intros Hx Hk [_ (d & Hd & Es & Eph) (u & Hu & Eu & _) _ _ _ _ _].
  destruct (open_call_held multi max_streams (nt_pool x) (nt_relays x) k r i d) as (a & c & Ha & Haddr & Hat); [apply Hx|apply Hx|done|done|unfold is_open; by rewrite Eph|].
  specialize (Hat (ex_intro _ false Eph)). destruct (caller_app _ _ _ _ _ _ Hx Ha) as (w & Hw & _). assert (streams (cl_at c) = Some (k, i)) as Hs by (by rewrite Hat).
  exists a, c, w. split; [done|]. split; [done|]. split; [done|]. split.
  - exists c, r, i, d, u. split; [done|]. split; [done|]. split; [done|]. split; [exact Hd|]. split; [done|congruence].
  - apply (ni_reads _ _ _ _ Hx a c k i w _ Ha Hs Hw). by rewrite list_lookup_fmap, Hk.
Qed.
End Live.

(** ** Properties *)

(** C3: what was sent arrives, both ways, wherever in the pool.  Let the whole program
    run in any interleaving, before any tunnel's 2^32nd stream, and come to a state
    where some stream of some tunnel is open at both ends: its call streams, its task
    pumps, both are registered, neither direction has failed, nobody has closed the
    stream, and the tunnel's writers and readers are there (with one worker, no other
    caller is in the middle of a section without awaits).  Some application has that
    stream, and what its pump has read is what the application sent behind its
    request, up to there, or all of it if the end was read.  However much is in front
    of it, in the channels, on the wire, or stuck in a demux loop behind another
    stream, there is always a step of the program that moves the stream along, until
    the target has been written exactly those bytes and the application exactly what
    was read of the target, each told the end exactly if the other's end was read;
    every run of such steps gets there, in a bounded number of them, and leaves the
    applications, their callers and the other tunnels as they are. *)
Theorem net_exchange_completes multi P M rt x k r i n sid :
  is_u32 M -> rtc (net_step multi P M rt) net_new x -> all_small (nt_relays x) -> may_move multi None (nt_pool x) ->
  nt_relays x !! k = Some r -> flowing i n sid r -> flowing_back i n sid r ->
  let sent := u_read (pm_up (rl_client r i)) in let all := ended (u_task (pm_up (rl_client r i))) in
  let back := u_read (pm_up (rl_server r n)) in let all_back := ended (u_task (pm_up (rl_server r n))) in
  (exists a c w, sg_callers (nt_pool x) !! a = Some c /\ cl_at c = AtStream k i /\ nt_apps x !! a = Some w /\ serves x a k n /\
     sent `prefix_of` unread w /\ (all = true -> sent = unread w)) /\
  eventually (net_exchange multi P M rt k i n sid) (net_exchanged k i n sent back all all_back) x /\
  (forall m x', nsteps (net_exchange multi P M rt k i n sid) m x x' ->
     (m ≤ exchange_load i n r)%nat /\ rtc (net_step multi P M rt) x x' /\ nt_apps x' = nt_apps x /\
     sg_callers (nt_pool x') = sg_callers (nt_pool x) /\ (forall j, j <> k -> nt_relays x' !! j = nt_relays x !! j)).
Proof.
  intros HM Hr Hsm Hmay Hk Hfl Hfb sent all back all_back. pose proof (net_reachable_inv _ _ _ _ _ HM Hr Hsm) as Hx.
  assert (net_exchanging multi M rt k i n sid x r) as Hex by (split; try done; by eapply net_exchanging_at).
  split; [|split; [by apply net_exchange_delivers|intros m x'; by apply net_exchange_bounded]].
  destruct (flowing_serves multi M rt k i n sid x r Hx Hk Hfl) as (a & c & w & Ha & Hc & Hw & Hs & Hp & Hall).
  exists a, c, w. split; [done|]. split; [done|]. split; [done|]. split; [done|]. split; [done|]. intros He. apply Hall.
  pose proof (fl_up _ _ _ _ Hfl) as Hup. revert Hup He. unfold all.
  destruct (u_task (pm_up (rl_client r i))) as [| | |d|]; cbn; try done. by intros ->.
Qed.

(** The run of [Exchange] with a caller beside it. *)
Definition sample_net_both : Net := sample_net sample_both_pair sample_A2 sample_C3 (AtStream 0 0).

Lemma sample_both_clients : pr_client sample_both_pair = pr_client sample_sent.
Proof. by destruct sample_answers as (s' & _ & ->). Qed.

Lemma sample_net_both_reached : rtc (net_step true 0 1 (small_runtime 1)) net_new sample_net_both.
Proof.
  etransitivity; [exact sample_net_sending|].
  destruct sample_reads_all as (_ & _ & R2).
  eapply rtc_l; [by apply (sample_streaming_step _ _ _ _ _ _ sample_step_answer_reads R2); left|].
  eapply rtc_l; [apply (sample_streaming_step _ _ _ _ _ _ sample_step_answer_sends R2); left; by rewrite sample_both_clients|].
  apply rtc_once, (sample_streaming_step _ _ _ _ _ _ sample_step_answer_ends R2). by left.
Qed.

Lemma net_exchange_completes_witness : rtc (net_step true 0 1 (small_runtime 1)) net_new sample_net_both /\
  eventually (net_exchange true 0 1 (small_runtime 1) 0 0 0 1) (net_exchanged 0 0 0 [1; 2; 3] [4; 5] false true) sample_net_both /\
  forall m x', nsteps (net_exchange true 0 1 (small_runtime 1) 0 0 0 1) m sample_net_both x' -> (m ≤ 39)%nat.
Proof.
  destruct sample_both_computed as (E1 & E2 & E3 & _ & Hsm), sample_both_flowing as [Hfl Hfb].
  destruct (net_exchange_completes true 0 1 (small_runtime 1) sample_net_both 0 sample_both 0 0 1 ltac:(lia) sample_net_both_reached) as (_ & He & Hb).
  - intros [|j] r Hj; [|discriminate Hj]. injection Hj as <-. exact Hsm.
  - by left.
  - exact eq_refl.
  - exact Hfl.
  - exact Hfb.
  - split; [exact sample_net_both_reached|]. split; [exact He|]. intros m x' Hst. destruct (Hb m x' Hst) as [Hm _].
    unfold exchange_load in Hm. rewrite E1, E2, E3 in Hm. exact Hm.
Defined.
