(* ===== verification/ByteTunnel.v ===== *)
(** * A tunnel down to its bytes

    The client's tunnel ([Pool]) and the server's ([Server]) joined by two
    directions of bytes ([Framing]): the writer tasks encode batches of queued
    frames, the network hands on any number of bytes at a time, the reader tasks
    reassemble and decode.  The theorem is that this system does nothing that the
    frames of [TunnelPair] do not: the codecs, the batching of writes and the
    chunking of reads are invisible to the mux protocol. *)
From S2P Require Import Prelude Errors Env Base94Codec Base94 Cipher Binary KeyConfig Handshake Transmission Session Mux Pump Tunnel.
From S2P Require Import Framing Addr Config Server Pool TunnelPair FrameSize.

Record Tunnels (R : Type) := BT {
  bt_client : Pool.Tunnel;
  bt_up : Dir R;
  bt_server : TunnelState;
  bt_down : Dir R
}.
Arguments BT {R}.
Arguments bt_client {R}.
Arguments bt_up {R}.
Arguments bt_server {R}.
Arguments bt_down {R}.

Definition tunnels_new {R} (txC : TxWire R) (rxS : RxWire) (txS : TxWire R) (rxC : RxWire) : Tunnels R :=
  BT spawn_tunnel (dir_new txC rxS) tunnel_new (dir_new txS rxC).

(** The queue is taken by the writer up to [q]. *)
Definition out_taken (fs q : list OutFrame) (s : TunnelState) : TunnelState :=
  Tun (tn_registry s) (tn_tasks s) q (tn_wire s ++ fs) false (tn_demux s).

(** A batch of the writer: at most [WRITE_BATCH] frames of bytes. *)
Definition batch (fs : list OutFrame) : Prop :=
  (1 ≤ length fs ≤ WRITE_BATCH)%nat /\ Forall (fun f => wf_bytes (message f)) fs.

(** The steps.  A side's own moves are those of its state machine that write
    nothing; a reader takes a turn of its loop: more bytes, a frame, or an error that
    ends it. *)
Inductive byte_turn `{CryptoBackend} `{Base94Codec} {R} `{Rng R} (rt : ServerRuntime) : Tunnels R -> Tunnels R -> Prop :=
| byte_client t t' up s down : client_local t t' -> byte_turn rt (BT t up s down) (BT t' up s down)
| byte_client_waits t n up s down down' :
    ct_reader t = true -> (0 < n ≤ length (d_net down))%nat -> dir_turn n down = (Ok None, down') ->
    byte_turn rt (BT t up s down) (BT t up s down')
| byte_client_reads t n m d up s down down' :
    ct_reader t = true -> dir_turn n down = (Ok (Some m), down') ->
    byte_turn rt (BT t up s down) (BT (reader_frame m d t) up s down')
| byte_client_read_fails t n e up s down down' :
    ct_reader t = true -> dir_turn n down = (Err e, down') ->
    byte_turn rt (BT t up s down) (BT (reader_end t) up s down')
| byte_server t up s s' down :
    tunnel_local s s' -> tn_wire s' = tn_wire s -> byte_turn rt (BT t up s down) (BT t up s' down)
| byte_server_waits t n up up' s down :
    tn_demux s = DIdle -> (0 < n ≤ length (d_net up))%nat -> dir_turn n up = (Ok None, up') ->
    byte_turn rt (BT t up s down) (BT t up' s down)
| byte_server_reads t n m up up' s down :
    tn_demux s = DIdle -> dir_turn n up = (Ok (Some m), up') ->
    byte_turn rt (BT t up s down) (BT t up' (demux_frame rt m s) down)
| byte_server_read_fails t n e up up' s down :
    tn_demux s = DIdle -> dir_turn n up = (Err e, up') ->
    byte_turn rt (BT t up s down) (BT t up' (demux_end s) down).

(** A writer takes a batch of its queue, or loses the socket while it writes it. *)
Inductive client_batch `{CryptoBackend} `{Base94Codec} {R} `{Rng R} : Tunnels R -> Tunnels R -> Prop :=
| byte_client_writes t fs q up up' s down :
    ct_closed t = false -> ct_queue t = fs ++ q -> batch fs -> dir_write fs None up = Some up' ->
    client_batch (BT t up s down) (BT (with_out q t) up' s down)
| byte_client_write_fails t fs q kept up up' s down :
    ct_closed t = false -> ct_queue t = fs ++ q -> batch fs -> dir_write fs (Some kept) up = Some up' ->
    client_batch (BT t up s down) (BT (writer_gone (with_out q t)) up' s down).

Inductive server_batch `{CryptoBackend} `{Base94Codec} {R} `{Rng R} : Tunnels R -> Tunnels R -> Prop :=
| byte_server_writes t up s fs q down down' :
    tn_closed s = false -> tn_queue s = fs ++ q -> batch fs -> dir_write fs None down = Some down' ->
    server_batch (BT t up s down) (BT t up (out_taken fs q s) down')
| byte_server_write_fails t up s fs q kept down down' :
    tn_closed s = false -> tn_queue s = fs ++ q -> batch fs -> dir_write fs (Some kept) down = Some down' ->
    server_batch (BT t up s down) (BT t up (out_gone (out_taken fs q s)) down').

Inductive byte_step `{CryptoBackend} `{Base94Codec} {R} `{Rng R} (rt : ServerRuntime) : Tunnels R -> Tunnels R -> Prop :=
| byte_turns s s' : byte_turn rt s s' -> byte_step rt s s'
| byte_client_batch s s' : client_batch s s' -> byte_step rt s s'
| byte_server_batch s s' : server_batch s s' -> byte_step rt s s'.

(** ** A gone writer stays gone *)

Lemma client_closed_mono t t' : client_step t t' -> ct_closed t = true -> ct_closed t' = true.
Proof.
  assert (forall f t, ct_closed (tunnel_try_send f t) = ct_closed t) as Hsend by (intros; unfold tunnel_try_send; by destruct (_ && _)).
  assert (forall t, ct_closed (mark_dead t) = ct_closed t) as Hdead by (intros; unfold mark_dead; by destruct (ct_alive _)).
  intros Hst Hc. destruct Hst as [t t' Hl|msg d t _|t f q _ _]; [destruct Hl as [addr t|i c a t t' Hl E|t _|t|t]| |done]; try done;
    cbn; rewrite ?Hdead; try done.
  - unfold open_step, with_call, kill in E. destruct (op_phase c), a; try done;
      repeat (case_match; try done); injection E as <-; cbn; by rewrite ?Hdead, ?Hsend.
  - unfold reader_frame, reader_reply, route_event, reader_end, with_call.
    repeat (case_match; try done); cbn; by rewrite ?Hdead, ?Hsend.
Qed.

Lemma server_closed_mono rt s s' : tunnel_step rt s s' -> tn_closed s = true -> tn_closed s' = true.
Proof.
  assert (forall f s, tn_closed (out_try_send f s) = tn_closed s) as Hsend by (intros; unfold out_try_send; by destruct (_ && _)).
  intros Hst Hc. destruct Hst as [msg s _ _|s s' Hl].
  - unfold demux_frame, handle_open, route. repeat (case_match; try done); by rewrite ?Hsend.
  - destruct Hl as [| | |s i t a s' _ E|s f q Hc' _| |]; try done; try (by unfold route_drop; cbn; rewrite Hsend); [|congruence].
    unfold task_step in E. destruct (tk_phase t), a; try done; repeat (case_match; try done); by injection E as <-.
Qed.

(** ** Batches as single writes *)

Lemma client_writes_run (T : Pair -> Pair -> Prop) :
  (forall t f q up n s m, ct_closed t = false -> ct_queue t = f :: q -> T (Pr t up n s m) (Pr (with_out q t) (up ++ [f]) n s m)) ->
  forall fs t q up n s m, ct_closed t = false -> ct_queue t = fs ++ q -> rtc T (Pr t up n s m) (Pr (with_out q t) (up ++ fs) n s m).
Proof.
  intros HT fs. induction fs as [|f fs IH]; intros t q up n s m Hc Hq.
  - rewrite app_nil_r. assert (with_out q t = t) as -> by (destruct t; cbn in *; by subst). apply rtc_refl.
  - eapply rtc_l; [by apply (HT t f (fs ++ q))|].
    replace (up ++ f :: fs) with ((up ++ [f]) ++ fs) by (by rewrite <- app_assoc).
    exact (IH (with_out (fs ++ q) t) q (up ++ [f]) n s m Hc eq_refl).
Qed.

Lemma server_writes_run (T : Pair -> Pair -> Prop) :
  (forall t up n s m f q, tn_closed s = false -> tn_queue s = f :: q -> T (Pr t up n s m) (Pr t up n (out_taken [f] q s) m)) ->
  forall fs t q up n s m, tn_closed s = false -> tn_queue s = fs ++ q -> rtc T (Pr t up n s m) (Pr t up n (out_taken fs q s) m).
Proof.
  intros HT fs. induction fs as [|f fs IH]; intros t q up n s m Hc Hq.
  - assert (out_taken [] q s = s) as -> by (destruct s; unfold out_taken; cbn in *; subst; by rewrite app_nil_r). apply rtc_refl.
  - eapply rtc_l; [by apply (HT t up n s m f (fs ++ q))|]. set (s1 := out_taken [f] (fs ++ q) s).
    assert (out_taken (f :: fs) q s = out_taken fs q s1) as ->; [|by apply IH].
    unfold out_taken, s1. cbn. by rewrite <- app_assoc.
Qed.

(** ** The simulation *)

Section Simulation.
Context `{CryptoBackend} `{Base94Codec} {R} `{Rng R} (rt : ServerRuntime).
Context (Pu Pd : TxWire R -> RxWire -> bytes -> bytes -> list bytes -> Prop) (HPu : Framing Pu) (HPd : Framing Pd).
Implicit Types P : TxWire R -> RxWire -> bytes -> bytes -> list bytes -> Prop.

(** The frames the other side has not decoded yet are pending as bytes. *)
Record sim (s : Tunnels R) (p : Pair) : Prop := {
  sim_client : pr_client p = bt_client s;
  sim_server : pr_server p = bt_server s;
  sim_up : pending Pu (ct_closed (bt_client s)) (bt_up s) (map message (drop (pr_up_read p) (pr_up p)));
  sim_down : pending Pd (tn_closed (bt_server s)) (bt_down s) (map message (drop (pr_down_read p) (tn_wire (bt_server s))));
  sim_up_read : (pr_up_read p ≤ length (pr_up p))%nat;
  sim_down_read : (pr_down_read p ≤ length (tn_wire (bt_server s)))%nat;
  sim_bytes : Forall (fun f => wf_bytes (message f)) (pr_up p)
}.

Lemma sim_new txC rxS txS rxC : Pu txC rxS [] [] [] -> Pd txS rxC [] [] [] -> sim (tunnels_new txC rxS txS rxC) pair_new.
Proof. intros Hu Hd. split; try done; try apply Nat.le_0_l; try by apply Forall_nil. all: exists []; split; [done|by left]. Qed.

Lemma pending_drop P gone n d f (l : list OutFrame) ms : map message (drop n l) = f :: ms -> pending P gone d ms ->
  exists g, l !! n = Some g /\ f = message g /\ pending P gone d (map message (drop (S n) l)) /\ (S n ≤ length l)%nat.
Proof.
  intros E Hp. destruct (l !! n) as [g|] eqn:El.
  - rewrite (drop_S _ _ _ El) in E. injection E as <- <-. apply lookup_lt_Some in El. exists g. by split_and!.
  - apply lookup_ge_None in El. by rewrite drop_ge in E.
Qed.

Lemma pending_closed P gone gone' d ms : (gone = true -> gone' = true) -> pending P gone d ms -> pending P gone' d ms.
Proof. intros Hg (rest & Hp & Hr). exists rest. split; [done|]. destruct Hr as [Hr|Hr]; [by left|right; auto]. Qed.

Lemma write_client t up s down p fs q up' kept :
  sim (BT t up s down) p -> ct_closed t = false -> ct_queue t = fs ++ q -> batch fs -> dir_write fs kept up = Some up' ->
  exists up_log n m, p = Pr t up_log n s m /\
    pending Pu (bool_decide (is_Some kept)) up' (map message (drop n (up_log ++ fs))) /\ (n ≤ length (up_log ++ fs))%nat /\
    Forall (fun f => wf_bytes (message f)) (up_log ++ fs).
Proof.
  destruct p as [pt pu n ps m]. intros [Hc Hs Hu Hd Hn Hm Hb] Ho Hq [_ Hw] E. cbn in *. subst pt ps. exists pu, n, m.
  split; [done|]. rewrite drop_app_le, map_app, length_app by done. rewrite Ho in Hu.
  split; [by eapply dir_write_pending|]. split; [lia|]. by apply Forall_app.
Qed.

Lemma write_server t up s down p fs q down' kept :
  sim (BT t up s down) p -> tn_closed s = false -> tn_queue s = fs ++ q -> batch fs -> dir_write fs kept down = Some down' ->
  exists up_log n m, p = Pr t up_log n s m /\
    pending Pd (bool_decide (is_Some kept)) down' (map message (drop m (tn_wire s ++ fs))) /\ (m ≤ length (tn_wire s ++ fs))%nat.
Proof.
  destruct p as [pt pu n ps m]. intros [Hc Hs Hu Hd Hn Hm Hb] Ho Hq [_ Hw] E. cbn in *. subst pt ps. exists pu, n, m.
  split; [done|]. rewrite drop_app_le, map_app, length_app by done. rewrite Ho in Hd.
  split; [by eapply dir_write_pending|]. lia.
Qed.

(** A turn is a step of the pair, or none, that writes nothing. *)
Lemma sim_turn s s' p : byte_turn rt s s' -> sim s p ->
  exists p', (p' = p \/ pair_step rt p p') /\ sim s' p' /\ pr_up p' = pr_up p /\ tn_wire (bt_server s') = tn_wire (bt_server s).
Proof.
  intros Hst Hsim.
  destruct Hst as [t t' up s down Hl|t n up s down down' Hr Hn E|t n m d up s down down' Hr E|t n e up s down down' Hr E
    |t up s s' down Hl Hw|t n up up' s down Hi Hn E|t n m up up' s down Hi E|t n e up up' s down Hi E].
  all: destruct p as [pt pu k ps j]; pose proof Hsim as [Hc Hs Hu Hd Hk Hj Hf]; cbn in Hc, Hs, Hu, Hd, Hk, Hj, Hf; subst pt ps.
  - exists (Pr t' pu k s j). split; [by right; apply pair_client|]. split; [|done]. split; cbn; try done.
    eapply pending_closed; [|exact Hu]. by apply client_closed_mono, client_own.
  - exists (Pr t pu k s j). split; [by left|]. split; [|done]. split; try done. cbn.
    destruct (dir_turn_pending _ HPd _ n _ _ Hd) as [(d' & E' & Hp & _)|(x & ms & d' & _ & E' & _)]; rewrite E in E'; [by injection E' as <-|done].
  - destruct (dir_turn_pending _ HPd _ n _ _ Hd) as [(d' & E' & _)|(x & ms & d' & Em & E' & Hp)]; rewrite E in E'; [done|]. injection E' as <- <-.
    destruct (pending_drop _ _ _ _ _ _ _ Em Hp) as (g & Hg & -> & Hp' & Hl). exists (Pr (reader_frame (message g) d t) pu k s (S j)).
    split; [by right; apply pair_client_reads|]. split; [|done]. split; cbn; try done.
    eapply pending_closed; [|exact Hu]. by apply client_closed_mono, client_frame.
  - destruct (dir_turn_pending _ HPd _ n _ _ Hd) as [(d' & E' & _)|(x & ms & d' & _ & E' & _)]; by rewrite E in E'.
  - exists (Pr t pu k s' j). split; [by right; apply pair_server|]. split; [|done]. split; cbn; rewrite ?Hw; try done.
    eapply pending_closed; [|exact Hd]. by apply (server_closed_mono rt), tunnel_own.
  - exists (Pr t pu k s j). split; [by left|]. split; [|done]. split; try done. cbn.
    destruct (dir_turn_pending _ HPu _ n _ _ Hu) as [(d' & E' & Hp & _)|(x & ms & d' & _ & E' & _)]; rewrite E in E'; [by injection E' as <-|done].
  - destruct (dir_turn_pending _ HPu _ n _ _ Hu) as [(d' & E' & _)|(x & ms & d' & Em & E' & Hp)]; rewrite E in E'; [done|]. injection E' as <- <-.
    destruct (pending_drop _ _ _ _ _ _ _ Em Hp) as (g & Hg & -> & Hp' & Hl). exists (Pr t pu (S k) (demux_frame rt (message g) s) j).
    assert (wf_bytes (message g)) as Hw by (by eapply (Forall_lookup_1 _ _ _ _ Hf)).
    split; [by right; apply pair_server_reads|]. split; [|split; [done|apply demux_wire]]. split; cbn; rewrite ?demux_wire; try done.
    eapply pending_closed; [|exact Hd]. by apply (server_closed_mono rt), tunnel_demux.
  - destruct (dir_turn_pending _ HPu _ n _ _ Hu) as [(d' & E' & _)|(x & ms & d' & _ & E' & _)]; by rewrite E in E'.
Qed.

(** A batch of the client is its frames written one by one, and the writer's end when
    the socket failed. *)
Lemma sim_client_batch s s' p : client_batch s s' -> sim s p ->
  exists fs q p' (gone : bool), ct_closed (bt_client s) = false /\ ct_queue (bt_client s) = fs ++ q /\ sim s' p' /\
    p' = Pr (if gone then writer_gone (with_out q (bt_client s)) else with_out q (bt_client s)) (pr_up p ++ fs) (pr_up_read p) (pr_server p) (pr_down_read p).
Proof.
  intros Hst Hsim. destruct Hst as [t fs q up up' s down Ho Hq Hb E|t fs q kept up up' s down Ho Hq Hb E];
    destruct (write_client _ _ _ _ _ _ _ _ _ Hsim Ho Hq Hb E) as (pu & k & m & -> & Hp & Hk & Hf); destruct Hsim; cbn in *.
  - eexists fs, q, _, false. split_and!; [done..| |done]. split; cbn; try done. by rewrite Ho.
  - eexists fs, q, _, true. split_and!; [done..| |done]. by split.
Qed.

Lemma sim_server_batch s s' p : server_batch s s' -> sim s p ->
  exists fs q p' (gone : bool), tn_closed (bt_server s) = false /\ tn_queue (bt_server s) = fs ++ q /\ sim s' p' /\
    p' = Pr (pr_client p) (pr_up p) (pr_up_read p)
      (if gone then out_gone (out_taken fs q (bt_server s)) else out_taken fs q (bt_server s)) (pr_down_read p).
Proof.
  intros Hst Hsim. destruct Hst as [t up s fs q down down' Ho Hq Hb E|t up s fs q kept down down' Ho Hq Hb E];
    destruct (write_server _ _ _ _ _ _ _ _ _ Hsim Ho Hq Hb E) as (pu & k & m & -> & Hp & Hk); destruct Hsim; cbn in *.
  - eexists fs, q, _, false. split_and!; [done..| |done]. by split.
  - eexists fs, q, _, true. split_and!; [done..| |done]. by split.
Qed.

Lemma sim_step s s' p : byte_step rt s s' -> sim s p -> exists p', rtc (pair_step rt) p p' /\ sim s' p'.
Proof.
  intros Hst Hsim. destruct Hst as [s s' Hst|s s' Hst|s s' Hst].
  - destruct (sim_turn s s' p Hst Hsim) as (p' & Hp & Hs & _). exists p'. split; [|done]. destruct Hp as [->|Hp]; [apply rtc_refl|by apply rtc_once].
  - destruct (sim_client_batch s s' p Hst Hsim) as (fs & q & p' & gone & Hc & Hq & Hs & E). exists p'. split; [|done]. subst p'.
    destruct Hsim as [Ec _ _ _ _ _ _], p as [t up n sv m]. cbn in Ec. subst t. cbn in Hs |- *. pose proof (client_writes_run (pair_step rt) (pair_client_writes rt) fs _ q up n sv m Hc Hq) as Hw.
    destruct gone; [|done]. eapply rtc_r; [exact Hw|]. by apply pair_client, client_writer_ends.
  - destruct (sim_server_batch s s' p Hst Hsim) as (fs & q & p' & gone & Hc & Hq & Hs & E). exists p'. split; [|done]. subst p'.
    destruct Hsim as [_ Es _ _ _ _ _], p as [t up n sv m]. cbn in Es. subst sv. cbn in Hs |- *. pose proof (server_writes_run (pair_step rt) (fun t up n s m f q Hc Hq => pair_server rt t up n s _ m (tunnel_writes s f q Hc Hq)) fs t q up n _ m Hc Hq) as Hw.
    destruct gone; [|done]. eapply rtc_r; [exact Hw|]. by apply pair_server, tunnel_writer_ends.
Qed.

Lemma sim_reachable txC rxS txS rxC s : Pu txC rxS [] [] [] -> Pd txS rxC [] [] [] ->
  rtc (byte_step rt) (tunnels_new txC rxS txS rxC) s -> exists p, rtc (pair_step rt) pair_new p /\ sim s p.
Proof. intros Hu Hd Hr. eapply rtc_simulation; [exact sim_step|exact Hr|by apply sim_new]. Qed.

Lemma fits_writable fs : Forall frame_fits fs ->
  Forall (fun f => wf_bytes (message f) /\ (1 ≤ length (message f) ≤ PPP_BUFFER_SIZE)%nat) fs.
Proof.
  intros Hfs. eapply Forall_impl; [exact Hfs|]. intros f [Hw Hl]. split; [exact Hw|]. split; [lia|]. apply Nat2Z.inj_le. unfold PPP_BUFFER_SIZE.
  rewrite Z2Nat.id; lia.
Qed.

(** What is pending settles what a turn, and a write, can do. *)
Lemma pending_progress P (HP : Framing P) gone d n (l : list OutFrame) : pending P gone d (map message (drop n l)) -> (n ≤ length l)%nat ->
  (forall k, exists r d', dir_turn k d = (Ok r, d') /\ (r = None -> d_net d = [] -> gone = false -> n = length l)) /\
  (gone = false -> forall fs, Forall (fun f => wf_bytes (message f) /\ (1 ≤ length (message f) ≤ PPP_BUFFER_SIZE)%nat) fs ->
     is_Some (dir_write fs None d)).
Proof.
  intros Hp Hn. split.
  - intros k. destruct (dir_turn_pending _ HP _ k _ _ Hp) as [(d' & -> & _ & He)|(m & ms & d' & _ & -> & _)]; eexists _, _; (split; [done|]); [|done].
    intros _ Hnet Hg. specialize (He Hnet Hg). apply (f_equal length) in He. rewrite length_map, length_drop in He. simpl in He. lia.
  - intros -> fs Hfs. by eapply dir_write_accepts.
Qed.

(** No codec ends the tunnel, when the frames of the pair fit. *)
Lemma sim_writable s p : sim s p -> sized p -> asks_ok (pr_client p) ->
  (ct_closed (bt_client s) = false -> forall n, is_Some (dir_write (take n (ct_queue (bt_client s))) None (bt_up s))) /\
  (tn_closed (bt_server s) = false -> forall n, is_Some (dir_write (take n (tn_queue (bt_server s))) None (bt_down s))).
Proof.
  intros [<- <- Hsu Hsd Hn Hm _] [Hfc Hfs] Hok. specialize (Hfc Hok).
  unfold client_log in Hfc. apply Forall_app in Hfc as [_ Hfc]. unfold out_log in Hfs. apply Forall_app in Hfs as [_ Hfs].
  destruct (pending_progress Pu HPu _ _ _ _ Hsu Hn) as [_ Hwu], (pending_progress Pd HPd _ _ _ _ Hsd Hm) as [_ Hwd].
  split; intros Hc n; [apply Hwu|apply Hwd]; try done; by apply fits_writable, Forall_take.
Qed.

Lemma sim_turns s p n : sim s p -> (exists r d', dir_turn n (bt_up s) = (Ok r, d')) /\ (exists r d', dir_turn n (bt_down s) = (Ok r, d')).
Proof.
  intros [_ _ Hsu Hsd Hn Hm _].
  destruct (proj1 (pending_progress Pu HPu _ _ _ _ Hsu Hn) n) as (r & d & E & _), (proj1 (pending_progress Pd HPd _ _ _ _ Hsd Hm) n) as (r' & d' & E' & _).
  split; eauto.
Qed.
End Simulation.

(** ** Runs *)

Inductive ByteMove :=
| BOwn (m : Move)                       (** a move of [TunnelPair] that writes and reads nothing *)
| BWrite (up : bool) (n : nat)          (** a batch of [n] frames *)
| BArrive (up : bool) (n : nat)         (** [n] bytes *)
| BFrame (up : bool).                   (** a frame from the buffer *)

Section Runs.
Context `{CryptoBackend} `{Base94Codec} {R} `{Rng R} (rt : ServerRuntime).

Definition batchb (n : nat) (q : list OutFrame) : bool :=
  (1 <=? length (take n q))%nat && (length (take n q) <=? WRITE_BATCH)%nat && forallb (fun f => wf_bytesb (message f)) (take n q).

Definition own (m : Move) : bool := match m with MOpen _ | MCall _ _ | MTask _ _ | MRouted => true | _ => false end.

Definition byte_move (m : ByteMove) (s : Tunnels R) : option (Tunnels R) :=
  let '(BT t up sv down) := s in
  match m with
  | BOwn m => if own m then p ← move rt m (Pr t [] 0 sv 0); Some (BT (pr_client p) up (pr_server p) down) else None
  | BWrite true n =>
      if negb (ct_closed t) && batchb n (ct_queue t)
      then up' ← dir_write (take n (ct_queue t)) None up; Some (BT (with_out (drop n (ct_queue t)) t) up' sv down) else None
  | BWrite false n =>
      if negb (tn_closed sv) && batchb n (tn_queue sv)
      then down' ← dir_write (take n (tn_queue sv)) None down; Some (BT t up (out_taken (take n (tn_queue sv)) (drop n (tn_queue sv)) sv) down')
      else None
  | BArrive true n =>
      match tn_demux sv, dir_turn n up with
      | DIdle, (Ok None, up') => if (0 <? n)%nat && (n <=? length (d_net up))%nat then Some (BT t up' sv down) else None
      | _, _ => None
      end
  | BArrive false n =>
      match dir_turn n down with
      | (Ok None, down') =>
          if ct_reader t && ((0 <? n)%nat && (n <=? length (d_net down))%nat) then Some (BT t up sv down') else None
      | _ => None
      end
  | BFrame true =>
      match tn_demux sv, dir_turn 0 up with DIdle, (Ok (Some m), up') => Some (BT t up' (demux_frame rt m sv) down) | _, _ => None end
  | BFrame false =>
      match dir_turn 0 down with
      | (Ok (Some m), down') => if ct_reader t then Some (BT (reader_frame m Delivered t) up sv down') else None
      | _ => None
      end
  end.

Fixpoint byte_run (ms : list ByteMove) (s : Tunnels R) : option (Tunnels R) :=
  match ms with [] => Some s | m :: ms => s ← byte_move m s; byte_run ms s end.

Lemma batchb_spec n q : batchb n q = true -> batch (take n q).
Proof.
  unfold batchb, batch. intros [[Hge%Nat.leb_le Hle%Nat.leb_le]%andb_prop Hb]%andb_prop. split; [done|].
  apply Forall_forall. intros f Hf. apply wf_bytes_eval. rewrite forallb_forall in Hb. apply Hb. by apply list_elem_of_In.
Qed.

Lemma byte_move_steps m s s' : byte_move m s = Some s' ->
  match m with BWrite true _ => client_batch s s' | BWrite false _ => server_batch s s' | _ => byte_turn rt s s' end.
Proof.
  destruct s as [t up sv down], m as [m|[] n|[] n|[]]; cbn [byte_move]; intros E.
  - destruct (own m) eqn:Ho; [|done]. destruct (move rt m _) as [p|] eqn:Em; [|done]. injection E as <-.
    destruct m; try done; cbn [move] in Em.
    + injection Em as <-. apply byte_client. constructor.
    + destruct (ct_calls t !! i) as [c|] eqn:Hc; [|done]. cbn in Em. destruct (open_step i c a t) as [t'|] eqn:Es; [|done].
      injection Em as <-. apply byte_client. by econstructor.
    + destruct (tn_tasks sv !! i) as [u|] eqn:Hu; [|done]. cbn in Em. destruct (task_step i u a sv) as [sv'|] eqn:Es; [|done].
      injection Em as <-. apply byte_server; [by econstructor|].
      unfold task_step in Es. destruct (tk_phase u), a; try done; repeat (case_match; try done); by injection Es as <-.
    + destruct (tn_demux sv) as [|stream ev i|] eqn:Hd; try done. destruct (tn_tasks sv !! i) as [u|] eqn:Hu; [|done]. cbn in Em.
      destruct (_ && _) eqn:Eb; [|done]. injection Em as <-. apply andb_prop in Eb as [Hr Hl].
      assert (length (tk_queue u) < Server.STREAM_BOUND)%nat by (by apply Nat.ltb_lt). apply byte_server; [by apply (tunnel_routed sv stream ev i u)|done].
  - destruct (negb _ && _) eqn:Eb; [|done]. apply andb_prop in Eb as [Hc%negb_true_iff Hb%batchb_spec].
    destruct (dir_write _ _ up) as [up'|] eqn:Ew; [|done]. injection E as <-.
    eapply byte_client_writes; [done| |done|done]. by rewrite take_drop.
  - destruct (negb _ && _) eqn:Eb; [|done]. apply andb_prop in Eb as [Hc%negb_true_iff Hb%batchb_spec].
    destruct (dir_write _ _ down) as [down'|] eqn:Ew; [|done]. injection E as <-.
    eapply byte_server_writes; [done| |done|done]. by rewrite take_drop.
  - destruct (tn_demux sv) eqn:Hd; try done. destruct (dir_turn n up) as [[[x|]|e] up'] eqn:Et; try done.
    destruct (_ && _) eqn:Eb; [|done]. injection E as <-. apply andb_prop in Eb as [Hge%Nat.ltb_lt Hle%Nat.leb_le].
    by eapply byte_server_waits.
  - destruct (dir_turn n down) as [[[x|]|e] down'] eqn:Et; try done. destruct (_ && _) eqn:Eb; [|done]. injection E as <-.
    apply andb_prop in Eb as [Hr [Hge%Nat.ltb_lt Hle%Nat.leb_le]%andb_prop]. by eapply byte_client_waits.
  - destruct (tn_demux sv) eqn:Hd; try done. destruct (dir_turn 0 up) as [[[x|]|e] up'] eqn:Et; try done. injection E as <-.
    by eapply byte_server_reads.
  - destruct (dir_turn 0 down) as [[[x|]|e] down'] eqn:Et; try done. destruct (ct_reader t) eqn:Hr; [|done]. injection E as <-.
    by eapply byte_client_reads.
Qed.

Lemma byte_move_sound m s s' : byte_move m s = Some s' -> byte_step rt s s'.
Proof.
  intros E%byte_move_steps. destruct m as [m|[] n|up n|up];
    (by apply byte_turns) || (by apply byte_client_batch) || (by apply byte_server_batch).
Qed.

Lemma byte_run_sound ms s s' : byte_run ms s = Some s' -> rtc (byte_step rt) s s'.
Proof.
  revert s. induction ms as [|m ms IH]; intros s E; cbn [byte_run] in E; [injection E as <-; apply rtc_refl|].
  destruct (byte_move m s) as [s1|] eqn:Em; [|done]. eapply rtc_l; [by eapply byte_move_sound|by apply IH].
Qed.
End Runs.

(** ** Properties *)

(** The bytes of a tunnel refine its frames.  When both directions start in step,
    as sessions after their handshake or with the prefix codec, then however the
    writers batch their queues or lose the socket in the middle of a batch, and
    however the network cuts the bytes up, whatever state the client's and the
    server's side of the tunnel reach, they reach as well when whole frames pass
    between them in order: no frame is lost, doubled, merged or altered before the
    end of the tunnel.  No turn of a reader fails; one that waits with nothing left
    to come, from a writer that is still there, has read every frame; and a writer
    that has its socket can encode everything that is queued for it, at either end,
    when the client was asked for well-formed addresses: no tunnel ends over a frame
    that does not fit. *)
Theorem bytes_refine_frames `{CryptoLaws} `{Base94Laws} {R} `{RngLaws R} rt (txC txS : TxWire R) rxS rxC s :
  in_step txC rxS -> in_step txS rxC -> rtc (byte_step rt) (tunnels_new txC rxS txS rxC) s ->
  exists p, rtc (pair_step rt) pair_new p /\ pr_client p = bt_client s /\ pr_server p = bt_server s /\
    (forall n, exists r d', dir_turn n (bt_up s) = (Ok r, d') /\
       (r = None -> d_net (bt_up s) = [] -> ct_closed (bt_client s) = false -> pr_up_read p = length (pr_up p))) /\
    (forall n, exists r d', dir_turn n (bt_down s) = (Ok r, d') /\
       (r = None -> d_net (bt_down s) = [] -> tn_closed (bt_server s) = false -> pr_down_read p = length (tn_wire (bt_server s)))) /\
    (Z.of_nat (length (ct_calls (bt_client s))) < 2 ^ 32 ->
     (forall i c, ct_calls (bt_client s) !! i = Some c -> addr_ok (op_addr c)) ->
       (ct_closed (bt_client s) = false -> forall n, is_Some (dir_write (take n (ct_queue (bt_client s))) None (bt_up s))) /\
       (tn_closed (bt_server s) = false -> forall n, is_Some (dir_write (take n (tn_queue (bt_server s))) None (bt_down s)))).
Proof.
  intros (Pu & HPu & Hu)%in_step_framing (Pd & HPd & Hd)%in_step_framing Hr.
  destruct (sim_reachable rt Pu Pd HPu HPd _ _ _ _ s Hu Hd Hr) as (p & Hp & Hsim). exists p.
  pose proof Hsim as [Ec Es Hsu Hsd Hn Hm _].
  split_and!; [done..|by apply (pending_progress Pu HPu _ _ _ _ Hsu Hn)|by apply (pending_progress Pd HPd _ _ _ _ Hsd Hm)|].
  intros Hsm Hok. rewrite <- Ec in Hsm, Hok. eapply sim_writable; [exact HPu|exact HPd|exact Hsim|by eapply sized_reachable|exact Hok].
Qed.

#[local] Existing Instance Toy.backend.
#[local] Existing Instance Toy.toy_laws.
#[local] Existing Instance Doc.codec.
#[local] Existing Instance Doc.laws.

(** A session tunnel: one call opened and answered, its bytes arriving in pieces, then
    two DATA frames in one batch that arrive cut in the middle of the second. *)
Definition byte_sample_start : Tunnels tape :=
  tunnels_new (TxSession (STx (tx_new quiet_key ([9; 9] : tape)))) (RxSession (SRx (rx_new quiet_key) None 0))
    (TxSession (STx (tx_new quiet_key ([4] : tape)))) (RxSession (SRx (rx_new quiet_key) None 0)).

Definition byte_sample_run : list ByteMove :=
  [BOwn (MOpen (PAddr (Ip (V4 [127; 0; 0; 1])) 80)); BOwn (MCall 0 OSend); BWrite true 1; BArrive true 7; BArrive true 22; BFrame true;
   BOwn (MTask 0 (AConnected true)); BOwn (MTask 0 AReply); BWrite false 1; BArrive false 3; BArrive false 15; BFrame false;
   BOwn (MCall 0 OAccepted); BOwn (MCall 0 (OPump (OutFrame_new Data 1 [1; 2; 3]))); BOwn (MCall 0 (OPump (OutFrame_new Data 1 [4])));
   BWrite true 2; BArrive true 25; BFrame true; BOwn MRouted; BArrive true 4].

Lemma byte_sample_reached : exists s, byte_run (small_runtime 1) byte_sample_run byte_sample_start = Some s /\
  rtc (byte_step (small_runtime 1)) byte_sample_start s /\
  match ct_calls (bt_client s), tn_tasks (bt_server s) with
  | [c], [t] => op_reply c = Some true /\ tk_queue t = [SData [1; 2; 3]]
  | _, _ => False
  end.
Proof.
  destruct (byte_run (small_runtime 1) byte_sample_run byte_sample_start) as [s|] eqn:E.
  - exists s. split; [done|]. split; [by eapply byte_run_sound|].
    assert (match byte_run (small_runtime 1) byte_sample_run byte_sample_start with
      | Some s => match ct_calls (bt_client s), tn_tasks (bt_server s) with
                  | [c], [t] => op_reply c = Some true /\ tk_queue t = [SData [1; 2; 3]] | _, _ => False end
      | None => False end) as Hs by (vm_compute; auto).
    by rewrite E in Hs.
  - exfalso. assert (match byte_run (small_runtime 1) byte_sample_run byte_sample_start with Some _ => true | None => false end = true) as Hs
      by (vm_compute; reflexivity).
    by rewrite E in Hs.
Qed.

Lemma bytes_refine_frames_witness : exists s p, rtc (byte_step (small_runtime 1)) byte_sample_start s /\
  rtc (pair_step (small_runtime 1)) pair_new p /\ pr_server p = bt_server s /\
  match tn_tasks (pr_server p) with [t] => tk_queue t = [SData [1; 2; 3]] | _ => False end /\
  exists r d', dir_turn 9 (bt_up s) = (Ok r, d').
Proof.
  destruct byte_sample_reached as (s & _ & Hr & Hs). exists s.
  destruct (bytes_refine_frames (small_runtime 1) (TxSession (STx (tx_new quiet_key ([9; 9] : tape))))
    (TxSession (STx (tx_new quiet_key ([4] : tape)))) (RxSession (SRx (rx_new quiet_key) None 0)) (RxSession (SRx (rx_new quiet_key) None 0)) s)
    as (p & Hp & Ec & Es & Ht & _).
  - apply in_step_session. exact (sync_new quiet_key ([9; 9] : tape)).
  - apply in_step_session. exact (sync_new quiet_key ([4] : tape)).
  - exact Hr.
  - exists p. split; [exact Hr|]. split; [exact Hp|]. split; [exact Es|]. split.
    + rewrite Es. destruct (ct_calls (bt_client s)) as [|c [|]]; [done| |done].
      destruct (tn_tasks (bt_server s)) as [|t [|]]; [done| |done]. by destruct Hs.
    + destruct (Ht 9%nat) as (r & d' & E & _). by exists r, d'.
Defined.
