(* ===== verification/WireNet.v ===== *)
(** * The whole system down to the bytes

    [Net] with the tunnels of [ByteTunnel] instead of those of [TunnelPair]: the
    writers encrypt batches of frames, the network cuts the bytes up as it likes and
    loses a connection in the middle of a batch, the readers reassemble and decrypt.
    A tunnel comes up with the codecs that a handshake leaves
    ([Establish.tunnel_established]) or with length prefixes.  The theorem is that
    nothing of this is visible to the applications. *)
From S2P Require Import Prelude Errors Env Base94Codec Base94 Cipher Binary KeyConfig Handshake Transmission Session Mux Pump Addr Tunnel Framing Config.
From S2P Require Import Server Pool Socks5 TunnelPair FrameSize ByteTunnel PumpStream TunnelPool Relay Proxy Net.

Record Wires (R : Type) := Wi {
  wi_tunnel : Tunnels R;
  wi_client : nat -> Pumps;   (** by call *)
  wi_server : nat -> Pumps    (** by stream task *)
}.
Arguments Wi {R}.
Arguments wi_tunnel {R}.
Arguments wi_client {R}.
Arguments wi_server {R}.

(** What was queued carries no stream's DATA or EOF, no task took an event and no
    pump lost its receiver: what the two sides do apart from their pumps. *)
Definition queued_aside (q q' : list OutFrame) : Prop := exists fs, q' = q ++ fs /\ forall sid, events sid fs = [].

Record aside {R} (s s' : Tunnels R) : Prop := {
  as_client : queued_aside (ct_queue (bt_client s)) (ct_queue (bt_client s'));
  as_server : queued_aside (tn_queue (bt_server s)) (tn_queue (bt_server s'));
  as_tasks : forall i u, tn_tasks (bt_server s) !! i = Some u ->
    exists u', tn_tasks (bt_server s') !! i = Some u' /\ task_kept u u'
}.

Inductive wire_step `{CryptoBackend} `{Base94Codec} {R} `{Rng R} (rt : ServerRuntime) : Wires R -> Wires R -> Prop :=
| wire_turn s s' A B : byte_turn rt s s' -> aside s s' -> wire_step rt (Wi s A B) (Wi s' A B)
| wire_server_batch s s' A B : server_batch s s' -> wire_step rt (Wi s A B) (Wi s' A B)
| wire_pumps s t sv A' B' A B : pumps_step (bt_client s) (bt_server s) A B t sv A' B' ->
    wire_step rt (Wi s A B) (Wi (BT t (bt_up s) sv (bt_down s)) A' B').

Inductive wires_move `{CryptoBackend} `{Base94Codec} {R} `{Rng R} (rt : ServerRuntime) : list (Wires R) -> list (Wires R) -> Prop :=
| wires_rest ws : wires_move rt ws ws
| wires_one ws i w w' : ws !! i = Some w -> wire_step rt w w' -> wires_move rt ws (<[i := w']> ws)
| wires_spawn ws txC rxS txS rxC : in_step txC rxS -> in_step txS rxC ->
    wires_move rt ws (ws ++ [Wi (tunnels_new txC rxS txS rxC) (fun _ => pump_new) (fun _ => pump_new)]).

Record WireNet (R : Type) := WN {
  wn_pool : Serving;
  wn_wires : list (Wires R);   (** by tunnel *)
  wn_apps : list bytes         (** by caller *)
}.
Arguments WN {R}.
Arguments wn_pool {R}.
Arguments wn_wires {R}.
Arguments wn_apps {R}.

Definition wire_net_new {R} : WireNet R := WN serving_new [] [].

Definition wire_ends {R} (ws : list (Wires R)) : list Pool.Tunnel := (fun w => bt_client (wi_tunnel w)) <$> ws.

(** The steps of [Net], and the batches a client's writer task takes of its queue. *)
Inductive wire_net_step `{CryptoBackend} `{Base94Codec} {R} `{Rng R} (multi : bool) (pool_size max_streams : Z) (rt : ServerRuntime) :
  WireNet R -> WireNet R -> Prop :=
| wire_net_moves P P' ws ws' apps apps' :
    P' = P \/ serving_step multi pool_size max_streams P P' -> wires_move rt ws ws' -> synced P' (wire_ends ws') ->
    apps `prefix_of` apps' -> Forall2 asks (sg_callers P') apps' -> reads_streams P' (wi_client <$> ws') apps' ->
    wire_net_step multi pool_size max_streams rt (WN P ws apps) (WN P' ws' apps')
| wire_net_writes P ws apps i w s' :
    may_move multi None P -> ws !! i = Some w -> client_batch (wi_tunnel w) s' ->
    wire_net_step multi pool_size max_streams rt (WN P ws apps)
      (WN (set_tunnel i (bt_client s') P) (<[i := Wi s' (wi_client w) (wi_server w)]> ws) apps).

(** ** Batches as steps of the system above *)

(** A step of the pair that its client's end makes on its own, if it moves at all;
    [M] is when it may. *)
Definition carrier_step (rt : ServerRuntime) (M : Prop) (p p' : Pair) : Prop :=
  pair_step rt p p' /\ elsewhere p p' /\ (pr_client p' = pr_client p \/ M /\ tunnel_moves (pr_client p) (pr_client p')).

Section Carrier.
Context (rt : ServerRuntime) (M : Prop).

Lemma carrier_client_batch fs t q up n s m (gone : bool) : M -> ct_closed t = false -> ct_queue t = fs ++ q ->
  rtc (carrier_step rt M) (Pr t up n s m) (Pr (if gone then writer_gone (with_out q t) else with_out q t) (up ++ fs) n s m).
Proof.
  intros HM Hc Hq. assert (rtc (carrier_step rt M) (Pr t up n s m) (Pr (with_out q t) (up ++ fs) n s m)) as Hw.
  { apply client_writes_run; [|done..]. clear dependent t q up fs n s m. intros t f q up n s m Hc Hq. split; [by apply pair_client_writes|]. split.
    - apply elsewhere_same; [|done..]. unfold client_log. cbn. by rewrite Hq, <- app_assoc.
    - right. split; [done|]. by apply (moves_writes t f q). }
  destruct gone; [|done]. eapply rtc_r; [exact Hw|]. split; [by apply pair_client, client_writer_ends|].
  split; [by apply elsewhere_same|]. right. split; [done|]. apply moves_writer_ends.
Qed.

Lemma carrier_server_batch fs t q up n s m (gone : bool) : tn_closed s = false -> tn_queue s = fs ++ q ->
  rtc (carrier_step rt M) (Pr t up n s m) (Pr t up n (if gone then out_gone (out_taken fs q s) else out_taken fs q s) m).
Proof.
  intros Hc Hq. assert (rtc (carrier_step rt M) (Pr t up n s m) (Pr t up n (out_taken fs q s) m)) as Hw.
  { apply server_writes_run; [|done..]. clear dependent s t q up fs n m. intros s t up n m f q Hc Hq. split; [by apply pair_server, tunnel_writes|].
    split; [|by left]. apply elsewhere_same; [done| |done]. unfold out_log, out_taken. cbn. by rewrite Hq, <- app_assoc. }
  destruct gone; [|done]. eapply rtc_r; [exact Hw|]. split; [by apply pair_server, tunnel_writer_ends|].
  split; [by apply elsewhere_same|by left].
Qed.
End Carrier.

(** The pool's tunnel and the relay's end change together. *)
Lemma synced_set P ts i t : synced P ts -> synced (set_tunnel i t P) (<[i := t]> ts).
Proof.
  unfold synced, set_tunnel. cbn. intros ->. apply list_eq. intros j. rewrite list_lookup_fmap.
  destruct (decide (i = j)) as [<-|Hne]; [|by rewrite list_lookup_insert_ne, list_lookup_fmap, list_lookup_alter_ne by done].
  rewrite list_lookup_alter_eq. destruct (sg_tunnels P !! i) eqn:E.
  - apply list_lookup_insert_eq. rewrite length_fmap. by eapply lookup_lt_Some.
  - apply lookup_ge_None. rewrite length_insert, length_fmap. by apply lookup_ge_None.
Qed.

Lemma set_tunnel_twice i t t' P : set_tunnel i t' (set_tunnel i t P) = set_tunnel i t' P.
Proof.
  unfold set_tunnel, with_tunnels. cbn. f_equal. rewrite list_alter_alter_eq. by apply list_alter_ext.
Qed.

Section Net.
Context (multi : bool) (pool_size max_streams : Z) (rt : ServerRuntime).

(** Such steps of one tunnel, in the whole system. *)
Lemma net_carrier M i A B p p' : rtc (carrier_step rt M) p p' -> forall P rs apps sp, (M -> may_move multi None P) ->
  sg_tunnels P !! i = Some sp -> sp_tunnel sp = pr_client p -> rs !! i = Some (Rly p A B) ->
  synced P (client_ends rs) -> Forall2 asks (sg_callers P) apps -> reads_streams P (rl_client <$> rs) apps ->
  rtc (net_step multi pool_size max_streams rt) (Nt P rs apps) (Nt (set_tunnel i (pr_client p') P) (<[i := Rly p' A B]> rs) apps).
Proof.
  intros Hr. induction Hr as [p|p p1 p' (Hst & He & Hc) _ IH]; intros P rs apps sp HM Hsp Esp Hi Hsync Hasks Hreads.
  - rewrite list_insert_id, <- Esp, set_tunnel_same by done. apply rtc_refl.
  - assert (synced (set_tunnel i (pr_client p1) P) (client_ends (<[i := Rly p1 A B]> rs))) as Hsync'.
    { unfold client_ends. rewrite list_fmap_insert. by apply synced_set. }
    assert (reads_streams (set_tunnel i (pr_client p1) P) (rl_client <$> <[i := Rly p1 A B]> rs) apps) as Hreads'.
    { rewrite list_fmap_insert. cbn [rl_client]. rewrite list_insert_id; [exact Hreads|]. by rewrite list_lookup_fmap, Hi. }
    apply (rtc_l _ _ (Nt (set_tunnel i (pr_client p1) P) (<[i := Rly p1 A B]> rs) apps)).
    + apply net_moves; [|eapply relays_one; [exact Hi|by apply relay_pair]|done|done|done|done].
      destruct Hc as [->|[Hm Ht]]; [left; by rewrite <- Esp, set_tunnel_same|right]. apply sv_moves with sp; [auto|done|by rewrite Esp].
    + rewrite <- (set_tunnel_twice i (pr_client p1) (pr_client p') P), <- (list_insert_insert_eq rs i (Rly p' A B) (Rly p1 A B)).
      apply (IH _ _ _ (Sp (pr_client p1) (sp_pooled sp))); [done| |done| |done|done|done].
      * rewrite (set_tunnel_eq _ _ _ _ Hsp). cbn. apply list_lookup_insert_eq. by eapply lookup_lt_Some.
      * apply list_lookup_insert_eq. by eapply lookup_lt_Some.
Qed.

(** The pair of every tunnel is one of [TunnelPair]. *)
Lemma net_pairs x : rtc (net_step multi pool_size max_streams rt) net_new x -> forall i r, nt_relays x !! i = Some r -> rtc (pair_step rt) pair_new (rl_pair r).
Proof.
  intros Hr. revert x Hr. apply (rtc_ind_r (fun x => forall i r, nt_relays x !! i = Some r -> rtc (pair_step rt) pair_new (rl_pair r))); [done|].
  intros x x' _ Hst IH i r' Hi'. destruct Hst as [P P' rs rs' apps apps' _ Hrs _ _ _ _]. cbn [nt_relays] in *.
  destruct (relays_move_back _ _ _ _ _ Hrs Hi') as [(r & Hi & Hm)|[_ ->]]; [|apply rtc_refl].
  specialize (IH i r Hi). destruct Hm as [->|[->|Hst]%relay_step_pair]; [done|done|]. by eapply rtc_r.
Qed.

(** Every call of every tunnel was made for an address that a request can name. *)
Lemma net_addr_ok x i r j c : net_inv multi max_streams rt x -> nt_relays x !! i = Some r -> calls r !! j = Some c -> addr_ok (op_addr c).
Proof.
  intros Hx Hi Hj. destruct (ni_calls _ _ _ _ Hx i r j c Hi Hj) as (k & d & Hk & <-).
  destruct (Forall2_lookup_l _ _ _ _ _ (ni_apps _ _ _ _ Hx) Hk) as (w & _ & Hw & Ha). destruct (asked_spec w _ Hw Ha) as (_ & _ & _ & Hok & _). done.
Qed.
End Net.

(** ** The simulation *)

Section Simulation.
Context `{CryptoLaws} `{Base94Laws} {R} `{RngLaws R} (multi : bool) (pool_size max_streams : Z) (rt : ServerRuntime).

Definition wire_sim (w : Wires R) (r : Relay) : Prop :=
  rl_client r = wi_client w /\ rl_server r = wi_server w /\ exists Pu Pd, Framing Pu /\ Framing Pd /\ sim Pu Pd (wi_tunnel w) (rl_pair r).

Record net_sim (x : WireNet R) (y : Net) : Prop := {
  ns_pool : nt_pool y = wn_pool x;
  ns_apps : nt_apps y = wn_apps x;
  ns_wires : Forall2 wire_sim (wn_wires x) (nt_relays y);
  ns_synced : synced (nt_pool y) (client_ends (nt_relays y));
  ns_asks : Forall2 asks (sg_callers (nt_pool y)) (nt_apps y);
  ns_reads : reads_streams (nt_pool y) (rl_client <$> nt_relays y) (nt_apps y)
}.

Lemma net_sim_new : net_sim wire_net_new net_new.
Proof. by split. Qed.

(** The two systems have the same tunnels and pumps. *)
Lemma wire_sim_same ws rs : Forall2 wire_sim ws rs -> wire_ends ws = client_ends rs /\ wi_client <$> ws = rl_client <$> rs.
Proof.
  intros Hs. induction Hs as [|w r ws rs (Ec & _ & Pu & Pd & _ & _ & Hsim) _ [IH1 IH2]]; [done|].
  unfold wire_ends, client_ends in *. cbn. rewrite IH1, IH2, (sim_client _ _ _ _ Hsim). by rewrite Ec.
Qed.

(** A turn with nothing of the pumps. *)
Lemma aside_elsewhere Pu Pd (s s' : Tunnels R) p p' : aside s s' -> sim Pu Pd s p -> sim Pu Pd s' p' -> pr_up p' = pr_up p ->
  tn_wire (bt_server s') = tn_wire (bt_server s) -> elsewhere p p'.
Proof.
  intros [(fs & Ef & Hf) (gs & Eg & Hg) Ht] [Ec Es _ _ _ _ _] [Ec' Es' _ _ _ _ _] Eu Ew. split.
  - intros sid. unfold client_log. rewrite Ec', Ec, Eu, Ef, app_assoc, (events_app sid _ fs), Hf. apply app_nil_r.
  - intros sid. unfold out_log. rewrite Es', Es, Ew, Eg, app_assoc, (events_app sid _ gs), Hg. apply app_nil_r.
  - by rewrite Es, Es'.
Qed.

(** A direction that only its sockets moved. *)
Lemma sim_ends Pu Pd (s : Tunnels R) p t sv : sim Pu Pd s p -> ct_closed t = ct_closed (bt_client s) -> tn_closed sv = tn_closed (bt_server s) ->
  tn_wire sv = tn_wire (bt_server s) -> sim Pu Pd (BT t (bt_up s) sv (bt_down s)) (with_client t (with_server sv p)).
Proof. intros [Ec Es Hu Hd Hk Hj Hf] E1 E2 E3. split; cbn; rewrite ?E1, ?E2, ?E3; done. Qed.

Lemma pumps_step_open t s A B t' s' A' B' : pumps_step t s A B t' s' A' B' ->
  ct_closed t' = ct_closed t /\ tn_closed s' = tn_closed s /\ tn_wire s' = tn_wire s.
Proof.
  intros [| i c a f u Hl _ _ Ho| | |i u b f v Hl _ _ Ho|i u b ev q v Hl Hq _ _ Ho|i u v Hl _ Ho]; try done.
  - by destruct (client_queues _ _ _ _ _ Ho) as [-> _].
  - unfold task_step in Ho. destruct (tk_phase u) as [| |[]| |]; try done; (destruct (_ && _); [|done]); by injection Ho as <-.
  - unfold task_step in Ho. rewrite Hq in Ho. destruct (tk_phase u) as [| |[]| |]; try done. destruct (pump_over u); [done|]. by injection Ho as <-.
  - unfold task_step in Ho. destruct (tk_phase u) as [| |[]| |]; try done. by injection Ho as <-.
Qed.

Lemma wire_step_sim w w' p A B : wire_step rt w w' -> wire_sim w (Rly p A B) ->
  exists r', wire_sim w' r' /\
    (r' = Rly p A B \/ relay_step rt (Rly p A B) r' \/ exists p', r' = Rly p' A B /\ rtc (carrier_step rt False) p p').
Proof.
  intros Hst (EA & EB & Pu & Pd & HPu & HPd & Hsim). cbn in EA, EB.
  destruct Hst as [s s' A0 B0 Hst Ha|s s' A0 B0 Hst|s t sv A' B' A0 B0 Hst]; cbn in EA, EB, Hsim; subst A0 B0.
  - destruct (sim_turn rt Pu Pd HPu HPd s s' p Hst Hsim) as (p' & Hp & Hs' & Eu & Ew).
    exists (Rly p' A B). split; [by refine (conj eq_refl (conj eq_refl _)); exists Pu, Pd|].
    destruct Hp as [->|Hp]; [by left|right; left]. apply relay_pair; [done|by eapply aside_elsewhere].
  - destruct (sim_server_batch Pu Pd HPd s s' p Hst Hsim) as (fs & q & p' & gone & Hc & Hq & Hs' & E).
    exists (Rly p' A B). split; [by refine (conj eq_refl (conj eq_refl _)); exists Pu, Pd|]. right. right. exists p'. split; [done|].
    rewrite E. destruct p as [t up n sv m]. pose proof (sim_server _ _ _ _ Hsim) as Es. cbn in Es. subst sv. by apply carrier_server_batch.
  - destruct (pumps_step_open _ _ _ _ _ _ _ _ Hst) as (E1 & E2 & E3).
    exists (Rly (with_client t (with_server sv p)) A' B'). split.
    + refine (conj eq_refl (conj eq_refl _)). exists Pu, Pd. split; [done|]. split; [done|]. by apply sim_ends.
    + right. left. apply relay_pumps. by rewrite (sim_client _ _ _ _ Hsim), (sim_server _ _ _ _ Hsim).
Qed.

(** Steps below that the pool does not see, and one that it does. *)
Lemma net_sim_moves P P' ws' rs rs1 rs' apps apps' :
  P' = P \/ serving_step multi pool_size max_streams P P' ->
  rtc (net_step multi pool_size max_streams rt) (Nt P rs apps) (Nt P rs1 apps) -> relays_move rt rs1 rs' ->
  Forall2 wire_sim ws' rs' -> synced P' (wire_ends ws') -> apps `prefix_of` apps' -> Forall2 asks (sg_callers P') apps' ->
  reads_streams P' (wi_client <$> ws') apps' ->
  exists y', rtc (net_step multi pool_size max_streams rt) (Nt P rs apps) y' /\ net_sim (WN P' ws' apps') y'.
Proof.
  intros HP Hr Hm Hs Hsync Hpre Hasks Hreads. destruct (wire_sim_same _ _ Hs) as [Ee Ec]. rewrite Ee in Hsync. rewrite Ec in Hreads.
  exists (Nt P' rs' apps'). split; [|by split]. eapply rtc_r; [exact Hr|]. by apply net_moves.
Qed.

(** The wires move as relays, one of them by its server's batch perhaps. *)
Lemma wires_move_sim P ws ws' rs apps : net_sim (WN P ws apps) (Nt P rs apps) -> wires_move rt ws ws' ->
  exists rs1 rs', rtc (net_step multi pool_size max_streams rt) (Nt P rs apps) (Nt P rs1 apps) /\ relays_move rt rs1 rs' /\ Forall2 wire_sim ws' rs'.
Proof.
  intros [_ _ Hws Hsync Hasks Hreads] Hm. cbn in Hws, Hsync, Hasks, Hreads.
  destruct Hm as [ws|ws i w w' Hi Hst|ws txC rxS txS rxC Hu Hd].
  - exists rs, rs. split; [apply rtc_refl|]. by split; [constructor|].
  - destruct (Forall2_lookup_l _ _ _ _ _ Hws Hi) as ([p A B] & Hr & Hw).
    destruct (wire_step_sim w w' p A B Hst Hw) as (r' & Hw' & Hcase).
    assert (Forall2 wire_sim (<[i := w']> ws) (<[i := r']> rs)) as Hws' by (by apply Forall2_insert).
    destruct Hcase as [->|[Hst'|(p' & -> & Hrun)]].
    + exists rs, rs. rewrite (list_insert_id rs) in Hws' by done. split; [apply rtc_refl|]. by split; [constructor|].
    + exists rs, (<[i := r']> rs). split; [apply rtc_refl|]. by split; [eapply relays_one|].
    + exists (<[i := Rly p' A B]> rs), (<[i := Rly p' A B]> rs). split; [|by split; [constructor|]].
      destruct (synced_at _ _ _ _ Hsync Hr) as (sp & Hsp & Esp). cbn in Esp.
      pose proof (net_carrier multi pool_size max_streams rt False i A B p p' Hrun P rs apps sp ltac:(done) Hsp Esp Hr Hsync Hasks Hreads) as Hnet.
      assert (pr_client p' = pr_client p) as E.
      { clear -Hrun. induction Hrun as [|p p1 p' (_ & _ & [E|[[] _]]) _ IH]; [done|congruence]. }
      by rewrite E, <- Esp, (set_tunnel_same _ _ _ Hsp) in Hnet.
  - exists rs, (rs ++ [relay_new]). split; [apply rtc_refl|]. split; [constructor|]. apply Forall2_app; [done|]. constructor; [|constructor].
    destruct (in_step_framing _ _ Hu) as (Pu & HPu & Hu'), (in_step_framing _ _ Hd) as (Pd & HPd & Hd').
    refine (conj eq_refl (conj eq_refl _)). exists Pu, Pd. split; [done|]. split; [done|]. by apply sim_new.
Qed.

Lemma wire_net_sim x x' y : wire_net_step multi pool_size max_streams rt x x' -> net_sim x y ->
  exists y', rtc (net_step multi pool_size max_streams rt) y y' /\ net_sim x' y'.
Proof.
  intros Hst Hsim. destruct y as [Py rs appsy]. pose proof (ns_pool _ _ Hsim) as EP. pose proof (ns_apps _ _ Hsim) as Ea.
  destruct Hst as [P P' ws ws' apps apps' HP Hws Hsync Hpre Hasks Hreads|P ws apps i w s' Hmay Hi Hst]; cbn in EP, Ea; subst Py appsy.
  - destruct (wires_move_sim P ws ws' rs apps Hsim Hws) as (rs1 & rs' & Hr & Hm & Hs). by eapply net_sim_moves.
  - destruct Hsim as [_ _ Hws Hsync Hasks Hreads]. cbn in Hws, Hsync, Hasks, Hreads.
    destruct (Forall2_lookup_l _ _ _ _ _ Hws Hi) as ([p A B] & Hr & (EA & EB & Pu & Pd & HPu & HPd & Hsim)). cbn in EA, EB, Hsim.
    destruct (sim_client_batch Pu Pd HPu _ s' p Hst Hsim) as (fs & q & p' & gone & Hc & Hq & Hs' & E).
    pose proof (sim_client _ _ _ _ Hsim) as Ec. pose proof (sim_client _ _ _ _ Hs') as Ec'.
    assert (rtc (carrier_step rt True) p p') as Hrun by (rewrite E; destruct p; cbn in Ec; subst; by apply carrier_client_batch).
    destruct (synced_at _ _ _ _ Hsync Hr) as (sp & Hsp & Esp).
    pose proof (net_carrier multi pool_size max_streams rt True i A B p p' Hrun P rs apps sp ltac:(done) Hsp Esp Hr Hsync Hasks Hreads) as Hnet.
    rewrite Ec' in Hnet. eexists. split; [exact Hnet|]. split; cbn; [done|done| | |done|].
    + apply Forall2_insert; [done|]. refine (conj EA (conj EB _)). by exists Pu, Pd.
    + unfold client_ends. rewrite list_fmap_insert. cbn. rewrite Ec'. by apply synced_set.
    + rewrite list_fmap_insert. cbn. rewrite list_insert_id; [exact Hreads|]. by rewrite list_lookup_fmap, Hr.
Qed.

Lemma wire_net_reachable x : rtc (wire_net_step multi pool_size max_streams rt) wire_net_new x ->
  exists y, rtc (net_step multi pool_size max_streams rt) net_new y /\ net_sim x y.
Proof. intros Hr. eapply rtc_simulation; [exact wire_net_sim|exact Hr|exact net_sim_new]. Qed.
End Simulation.

(** ** A run

    The sample of [Net] over a session tunnel: the application's OPEN and the answer to
    it, in pieces. *)
#[local] Instance OutFrame_eq_dec : EqDecision OutFrame.
Proof. solve_decision. Defined.

Definition queued_asideb (q q' : list OutFrame) : bool :=
  bool_decide (take (length q) q' = q) && match tagged (drop (length q) q') with [] => true | _ => false end.

Definition asideb {R} (s s' : Tunnels R) : bool :=
  queued_asideb (ct_queue (bt_client s)) (ct_queue (bt_client s')) && queued_asideb (tn_queue (bt_server s)) (tn_queue (bt_server s')) &&
  tasks_keptb (bt_server s) (bt_server s').

Lemma queued_asideb_sound q q' : queued_asideb q q' = true -> queued_aside q q'.
Proof.
  intros [Ht%bool_decide_eq_true Hn]%andb_prop. exists (drop (length q) q'). split; [by rewrite <- Ht at 1; rewrite take_drop|].
  intros sid. rewrite events_tagged. by destruct (tagged _).
Qed.

Lemma asideb_sound {R} (s s' : Tunnels R) : asideb s s' = true -> aside s s'.
Proof. intros [[Hc Hs]%andb_prop Ht]%andb_prop. split; [by apply queued_asideb_sound..|]. intros i u. by apply tasks_keptb_sound. Qed.

Section Runs.
Context `{CryptoBackend} `{Base94Codec} {R} `{Rng R} (rt : ServerRuntime).

Definition no_pumps : nat -> Pumps := fun _ => pump_new.
Definition sample_wires (s : Tunnels R) (w : Where) : WireNet R :=
  WN (sample_pool (bt_client s) w) [Wi s no_pumps no_pumps] [sample_app].

Definition wire_ok (m : ByteMove) (w : Where) (s s' : Tunnels R) : bool :=
  match m with BOwn m => net_ok m w && asideb s s' | BWrite _ _ => true | _ => asideb s s' end.

Definition wire_next (m : ByteMove) (s' : Tunnels R) (w : Where) : Where :=
  match m with BOwn m => next_where m (Pr (bt_client s') [] 0 (bt_server s') 0) w | _ => w end.

Fixpoint wire_run (ms : list ByteMove) (s : Tunnels R) (w : Where) : option (Tunnels R * Where) :=
  match ms with
  | [] => Some (s, w)
  | m :: ms => s' ← byte_move rt m s; if wire_ok m w s s' then wire_run ms s' (wire_next m s' w) else None
  end.

Lemma sample_wire_step s s' w w' :
  sample_pool (bt_client s') w' = sample_pool (bt_client s) w \/
    serving_step true 0 1 (sample_pool (bt_client s) w) (sample_pool (bt_client s') w') ->
  wire_step rt (Wi s no_pumps no_pumps) (Wi s' no_pumps no_pumps) -> (streams w' = None \/ streams w' = Some (0%nat, 0%nat)) ->
  wire_net_step true 0 1 rt (sample_wires s w) (sample_wires s' w').
Proof.
  intros HP Hst Hw. apply wire_net_moves; [done|by apply (wires_one rt [_] 0 (Wi s no_pumps no_pumps) (Wi s' no_pumps no_pumps))|done|done|apply sample_asks|].
  apply (sample_reads_net (bt_client s') no_pumps w'); [|done]. by apply sample_reads_app; [apply prefix_nil|].
Qed.

Lemma wire_move_sound m s s' w : byte_move rt m s = Some s' -> wire_ok m w s s' = true ->
  (streams w = None \/ streams w = Some (0%nat, 0%nat)) ->
  wire_net_step true 0 1 rt (sample_wires s w) (sample_wires s' (wire_next m s' w)).
Proof.
  intros E Hok Hw. pose proof (byte_move_steps rt m s s' E) as Hst. destruct s as [t up sv down], m as [m|[] n|[] n|[]]; cbn [byte_move wire_ok wire_next] in *.
  - apply andb_prop in Hok as [Hok Ha%asideb_sound]. destruct (own m) eqn:Eo; [|done]. destruct (move rt m _) as [p|] eqn:Em; [|done]. injection E as <-.
    pose proof (move_serving rt m _ p w Em Hok) as HP. cbn zeta in HP. cbn [bt_client bt_server] in *.
    assert (next_where m (Pr (pr_client p) [] 0 (pr_server p) 0) w = next_where m p w) as -> by done.
    apply sample_wire_step; [exact HP|by apply wire_turn|by apply next_where_streams].
  - apply (wire_net_writes true 0 1 rt (sample_pool t w) [Wi (BT t up sv down) no_pumps no_pumps] [sample_app] 0 (Wi (BT t up sv down) no_pumps no_pumps) s'); [by left|done|done].
  - apply sample_wire_step; [left|by apply wire_server_batch|done]. by inversion Hst.
  - apply sample_wire_step; [left|apply wire_turn; [done|by apply asideb_sound]|done].
    destruct (tn_demux sv), (dir_turn n up) as [[[]|] ?]; try done. destruct (_ && _); [|done]. by injection E as <-.
  - apply sample_wire_step; [left|apply wire_turn; [done|by apply asideb_sound]|done].
    destruct (dir_turn n down) as [[[]|] ?]; try done. destruct (_ && _); [|done]. by injection E as <-.
  - apply sample_wire_step; [left|apply wire_turn; [done|by apply asideb_sound]|done].
    destruct (tn_demux sv), (dir_turn 0 up) as [[[]|] ?]; try done. by injection E as <-.
  - apply sample_wire_step; [right|apply wire_turn; [done|by apply asideb_sound]|done].
    destruct (dir_turn 0 down) as [[[x|]|] d']; try done. destruct (ct_reader t) eqn:Hr; [|done]. injection E as <-.
    apply (sv_moves true 0 1 (sample_pool t w) 0 (Sp t false)); [by left|done|by apply moves_frame].
Qed.

Lemma wire_run_sound ms s w s' w' : (streams w = None \/ streams w = Some (0%nat, 0%nat)) -> wire_run ms s w = Some (s', w') ->
  rtc (wire_net_step true 0 1 rt) (sample_wires s w) (sample_wires s' w').
Proof.
  revert s w. induction ms as [|m ms IH]; intros s w Hw E; cbn [wire_run] in E; [injection E as <- <-; apply rtc_refl|].
  destruct (byte_move rt m s) as [s1|] eqn:Em; [|done]. cbn in E. destruct (wire_ok m w s s1) eqn:Ok; [|done].
  eapply rtc_l; [by apply wire_move_sound|]. apply IH; [|done]. destruct m; try done. by apply next_where_streams.
Qed.

(** The application enters, and its own tunnel is dialed and opened. *)
Lemma sample_wires_open txC rxS txS rxC : in_step txC rxS -> in_step txS rxC ->
  let s := tunnels_new txC rxS txS rxC in
  rtc (wire_net_step true 0 1 rt) wire_net_new
    (sample_wires (BT (open_begin sample_addr spawn_tunnel) (bt_up s) (bt_server s) (bt_down s)) (AtOpening 0 0)).
Proof.
  intros Hu Hd s.
  assert (forall P c, sg_callers P = [c] -> streams (cl_at c) = None -> forall As apps, reads_streams P As apps) as Hno.
  { intros P c E Hs As apps k d i j v A Hk Hsd. rewrite E in Hk. apply list_lookup_singleton_Some in Hk as [_ <-]. congruence. }
  apply (rtc_l _ _ (WN (Srv [] [] 0 0 0 MIdle [Clr sample_addr AtDialing]) [] [sample_app])).
  { apply wire_net_moves; [right; apply (sv_enters true 0 1 serving_new sample_addr); by left|constructor|done|apply prefix_nil|apply sample_asks|by eapply Hno]. }
  apply (rtc_l _ _ (sample_wires s (AtPicked 0))).
  { apply wire_net_moves; [right|by apply (wires_spawn _ [])|done|done|apply sample_asks|by eapply Hno].
    apply (sv_dedicated true 0 1 (Srv [] [] 0 0 0 MIdle [Clr sample_addr AtDialing]) 0 sample_addr); [by left|done]. }
  apply rtc_once. apply sample_wire_step; [right| |by left].
  - apply (sv_opens true 0 1 (sample_pool spawn_tunnel (AtPicked 0)) 0 sample_addr 0 (Sp spawn_tunnel false)); [by left|done|done].
  - apply wire_turn; [apply byte_client; constructor|]. split; [by exists []|by exists []|]. intros i u Hiu. by exists u.
Qed.
End Runs.

(** ** Properties *)

(** C2: the system over encrypted bytes does nothing that it does not do over frames.
    Let the applications, the pool, the tunnels' two ends and the pumps run as in
    [Net], but over tunnels of bytes: sessions in step after their handshake or
    length prefixes, the writers encoding batches and losing their sockets in the
    middle of them, the network cutting the bytes up freely.  Whatever the pool, the
    applications, the two ends of every tunnel and all pumps come to, they come to
    over whole frames as well, so [Net.net_end_to_end] holds of them.  And before any
    tunnel's 2^32nd stream no tunnel of the system is lost to its codecs: no turn of
    a reader fails, at either end, and a writer that has its socket encodes any batch
    of what is queued for it. *)
Theorem bytes_refine_net `{CryptoLaws} `{Base94Laws} {R} `{RngLaws R} multi P M rt (x : WireNet R) :
  is_u32 M -> rtc (wire_net_step multi P M rt) wire_net_new x ->
  exists y, rtc (net_step multi P M rt) net_new y /\ nt_pool y = wn_pool x /\ nt_apps y = wn_apps x /\
    Forall2 (fun w r => pr_client (rl_pair r) = bt_client (wi_tunnel w) /\ pr_server (rl_pair r) = bt_server (wi_tunnel w) /\
      rl_client r = wi_client w /\ rl_server r = wi_server w) (wn_wires x) (nt_relays y) /\
    (all_small (nt_relays y) -> forall i w, wn_wires x !! i = Some w -> let s := wi_tunnel w in
      (forall n, (exists r d', dir_turn n (bt_up s) = (Ok r, d')) /\ (exists r d', dir_turn n (bt_down s) = (Ok r, d'))) /\
      (ct_closed (bt_client s) = false -> forall n, is_Some (dir_write (take n (ct_queue (bt_client s))) None (bt_up s))) /\
      (tn_closed (bt_server s) = false -> forall n, is_Some (dir_write (take n (tn_queue (bt_server s))) None (bt_down s)))).
Proof.
  intros HM Hr. destruct (wire_net_reachable multi P M rt x Hr) as (y & Hy & Hs). exists y. split; [exact Hy|].
  split; [apply Hs|]. split; [apply Hs|]. split.
  - eapply Forall2_impl; [exact (ns_wires _ _ Hs)|]. intros w r (Ec & Es & Pu & Pd & _ & _ & Hsim). by destruct Hsim.
  - intros Hsm i w Hi s. destruct (Forall2_lookup_l _ _ _ _ _ (ns_wires _ _ Hs) Hi) as (r & Hri & _ & _ & Pu & Pd & HPu & HPd & Hsim).
    split; [intros n; by eapply (sim_turns Pu Pd)|]. apply (sim_writable Pu Pd HPu HPd s (rl_pair r) Hsim).
    + apply (sized_reachable rt); [by eapply net_pairs|by apply (Hsm i)].
    + intros j c Hj. eapply net_addr_ok; [by apply (net_reachable_inv multi P M rt)|exact Hri|exact Hj].
Qed.

#[local] Existing Instance Toy.backend.
#[local] Existing Instance Toy.toy_laws.
#[local] Existing Instance Doc.codec.
#[local] Existing Instance Doc.laws.

Definition wire_sample_open : Tunnels tape :=
  BT (open_begin sample_addr spawn_tunnel) (bt_up byte_sample_start) tunnel_new (bt_down byte_sample_start).

Definition wire_sample_moves : list ByteMove :=
  [BOwn (MCall 0 OSend); BWrite true 1; BArrive true 7; BArrive true 22; BFrame true; BOwn (MTask 0 (AConnected true)); BOwn (MTask 0 AReply);
   BWrite false 1; BArrive false 3; BArrive false 15; BFrame false; BOwn (MCall 0 OAccepted)].

Definition wire_sample_end : option (Tunnels tape * Where) := wire_run (small_runtime 1) wire_sample_moves wire_sample_open (AtOpening 0 0).

Lemma wire_sample_facts : (fun x => (tk_addr <$> tn_tasks (bt_server (fst x)), snd x)) <$> wire_sample_end = Some ([sample_addr], AtStream 0 0).
Proof. vm_compute. reflexivity. Qed.

Lemma wire_sample_reached s w : wire_sample_end = Some (s, w) -> rtc (wire_net_step true 0 1 (small_runtime 1)) wire_net_new (sample_wires s w).
Proof.
  intros E. etransitivity; [|exact (wire_run_sound (small_runtime 1) wire_sample_moves wire_sample_open (AtOpening 0 0) s w (or_introl eq_refl) E)].
  apply (sample_wires_open (small_runtime 1) _ (RxSession (SRx (rx_new quiet_key) None 0)) _ (RxSession (SRx (rx_new quiet_key) None 0))).
  - apply in_step_session. exact (sync_new quiet_key ([9; 9] : tape)).
  - apply in_step_session. exact (sync_new quiet_key ([4] : tape)).
Qed.
#[local] Opaque wire_sample_end.

Lemma bytes_refine_net_witness : exists s w y, wire_sample_end = Some (s, w) /\
  rtc (wire_net_step true 0 1 (small_runtime 1)) wire_net_new (sample_wires s w) /\
  rtc (net_step true 0 1 (small_runtime 1)) net_new y /\ sg_callers (nt_pool y) = [Clr sample_addr (AtStream 0 0)] /\
  (fun r => tk_addr <$> tn_tasks (pr_server (rl_pair r))) <$> nt_relays y = [[sample_addr]].
Proof.
  pose proof wire_sample_facts as Hf. destruct wire_sample_end as [[s w]|] eqn:E; [|discriminate Hf].
  injection Hf as Ht ->. exists s, (AtStream 0 0).
  destruct (bytes_refine_net true 0 1 (small_runtime 1) (sample_wires s (AtStream 0 0)) ltac:(lia) (wire_sample_reached s _ E))
    as (y & Hy & EP & _ & Hw & _).
  exists y. split; [reflexivity|]. split; [exact (wire_sample_reached s _ E)|]. split; [exact Hy|]. split; [by rewrite EP|].
  inversion Hw as [|? r ? rs (_ & Es & _) Hnil Ews Ers]. subst. inversion Hnil. subst. cbn. rewrite Es. cbn. by rewrite Ht.
Defined.
