(* ===== verification/Establish.v ===== *)
(** * From a connection to a tunnel

    The two handshake wrappers ([dial_once] of [crates/client/src/pool.rs] after its
    connect, [handshake_sync] of [crates/server/src/lib.rs]), what they hand on
    ([Session::split], the writer task and the reader of the tunnel, as
    [PlainDialer] and [run_tunnel] wire them), and how their failures are
    classified.  A socket option call is its answer. *)
From S2P Require Import Prelude Errors Env Base94Codec Base94 Cipher KeyConfig Handshake Transmission Session Mux Pump Tunnel Framing Config Server Pool.

(** The [anyhow] chain of an error of the core crate: an I/O error is its source. *)
Definition error_chain (e : Error) : list Cause :=
  CoreCause e :: match e with Io e => [IoCause e] | _ => [] end.

(** A pair of [set_read_timeout], [set_write_timeout] calls: the first failure. *)
Definition set_timeouts (read write : result io_error unit) : result (list Cause) unit :=
  match read, write with
  | Err e, _ => Err [IoCause e]
  | _, Err e => Err [IoCause e]
  | Ok _, Ok _ => Ok tt
  end.

Section Establish.
Context `{CryptoBackend} `{Base94Codec} {R} `{Rng R}.

(** [dial_once] from the connected stream on; [before] and [after] are what setting and
    clearing the timeouts answers. *)
Definition dial_handshake (before after : result (list Cause) unit) (key : ObfuscationKey) (rng : R) (stream : duplex) (role : SessionRole)
    : result (list Cause) (Session R * duplex) :=
  let? _ := before in
  match handshake_client (with_rng stream key rng) role with
  | (Err e, _) => Err (OtherCause :: error_chain e)
  | (Ok _, tx) => let? _ := after in Ok (into_session tx)
  end.

(** [handshake_sync]. *)
Definition handshake_sync (before after : result (list Cause) unit) (rt : ServerRuntime) (rng : R) (stream : duplex) (sid : Z) (allow_bond : bool)
    : result (list Cause) (Session R * duplex * SessionRole) :=
  let? _ := before in
  match handshake_server (with_rng stream (rt_key rt) rng) sid allow_bond with
  | (Err e, _) => Err (error_chain e)
  | (Ok role, tx) => let? _ := after in let (session, io) := into_session tx in Ok (session, io, role)
  end.

(** The two halves of a tunnel over a session. *)
Definition tunnel_writer (s : Session R) : TxWire R := TxSession (fst (split s)).
Definition tunnel_reader (s : Session R) (sock : list sock_event) : FrameReader := FReader (RxSession (snd (split s))) sock [].

(** [TunnelEnds]. *)
Record TunnelEnds := Ends { te_reader : FrameReader; te_writer : TxWire R; te_id : Z }.

(** [PlainDialer::dial] after its [dial]: [nonblocking] and [from_std] are what the
    conversions of the socket answer, [sock] what its read half will give. *)
Definition plain_dial (dialed : result (list Cause) (Session R * duplex)) (nonblocking from_std : result io_error unit) (sock : list sock_event)
    : result (list Cause) TunnelEnds :=
  let? (session, _) := dialed in
  match nonblocking, from_std with
  | Err e, _ => Err [OtherCause; IoCause e]
  | _, Err e => Err [OtherCause; IoCause e]
  | Ok _, Ok _ => Ok (Ends (tunnel_reader session sock) (tunnel_writer session) (s_session_id session))
  end.
End Establish.

(** ** Sending does not read *)

Definition prepend (p : bytes) (w : writer) : writer := Writer (p ++ wr_out w) (wr_err w).

Section Frame.
Context `{CryptoBackend} `{Base94Codec} {R} `{Rng R}.
Implicit Types T : Transmission R.

(** The same transmission with another receiving end. *)
Definition with_reader (rd : reader) T : Transmission R := set_rx T (tr_rx T) rd.

Lemma send_session_id_reader rd T id :
  send_session_id (with_reader rd T) id = let (r, T') := send_session_id T id in (r, with_reader rd T').
Proof.
  unfold send_session_id, with_tx_rng, write. cbn [with_reader set_rx tr_tx tr_io io_wr].
  destruct (pack_session_id _ _ _) as [packet rng]. cbn [set_tx tr_tx tr_io io_wr].
  by destruct (tx_write _ _ _) as [r [t w]].
Qed.

Lemma send_nops_reader rd n T : send_nops n (with_reader rd T) = let (r, T') := send_nops n T in (r, with_reader rd T').
Proof.
  revert T. induction n as [|n IH]; intros T; [done|]. cbn [send_nops]. rewrite send_session_id_reader.
  destruct (send_session_id T 0) as [[[]|e] T1]; [apply IH|done].
Qed.

Lemma client_send_reader rd T role :
  handshake_client_send (with_reader rd T) role = let (r, T') := handshake_client_send T role in (r, with_reader rd T').
Proof.
  unfold handshake_client_send, handshake_prelude, with_tx_rng. cbn [with_reader set_rx tr_tx tr_io io_wr].
  destruct (nop_rounds _ _) as [n rng].
  change (set_tx (with_reader rd T) (set_rng (tr_tx T) rng) (io_wr (tr_io T)))
    with (with_reader rd (set_tx T (set_rng (tr_tx T) rng) (io_wr (tr_io T)))).
  rewrite send_nops_reader. destruct (send_nops _ _) as [[[]|e] T1]; [|done]. cbn [with_reader set_rx tr_tx tr_io io_wr].
  destruct (random_u64 _) as [nonce rng'].
  change (set_tx (with_reader rd T1) (set_rng (tr_tx T1) rng') (io_wr (tr_io T1)))
    with (with_reader rd (set_tx T1 (set_rng (tr_tx T1) rng') (io_wr (tr_io T1)))).
  rewrite send_session_id_reader. by destruct (send_session_id _ _) as [[[]|e] T2].
Qed.

(** What the writer task has written stays in front. *)
Lemma run_writer_prepend fuel p : forall (w : TxWire R) sock fs ready, wr_err sock = None ->
  run_writer fuel w (prepend p sock) fs ready = prepend p (run_writer fuel w sock fs ready).
Proof.
  induction fuel as [|fuel IH]; intros w sock fs ready He; [done|]. destruct fs as [|f fs]; [done|]. cbn [run_writer].
  destruct (encode_all _ _ _) as [[[]|e] [w' o]]; [|done]. unfold write_all. cbn [prepend wr_err wr_out]. rewrite He.
  rewrite <- app_assoc. exact (IH w' (Writer (wr_out sock ++ o) None) _ _ eq_refl).
Qed.
End Frame.

Section Confirm.
Context `{CryptoBackend} `{Base94Codec} {R} `{Rng R}.
Implicit Types T : Transmission R.

Lemma read_writer T r T' : read T = (r, T') -> io_wr (tr_io T') = io_wr (tr_io T).
Proof. unfold read. destruct (read_buf _ _) as [res [rx rd]]. by intros [= _ <-]. Qed.

Lemma read_session_id_writer n : forall T r T', read_session_id_loop n T = (r, T') -> io_wr (tr_io T') = io_wr (tr_io T).
Proof.
  induction n as [|n IH]; intros T r T'; cbn [read_session_id_loop]; destruct (read T) as [[packet|e] T1] eqn:Er;
    apply read_writer in Er; try (by intros [= _ <-]); destruct (unpack_session_id _ _) as [[|id]|e]; try (by intros [= _ <-]).
  intros E. by rewrite (IH _ _ _ E).
Qed.

(** Confirming does not write. *)
Lemma client_confirm_writer T r T' : handshake_client_confirm T = (r, T') -> io_wr (tr_io T') = io_wr (tr_io T).
Proof.
  unfold handshake_client_confirm, read_session_id. destruct (tr_pending T) as [[ivv role]|]; [|by intros [= _ <-]].
  destruct (read_session_id_loop _ _) as [[sid|e] T1] eqn:E1; apply read_session_id_writer in E1; cbn [set_pending tr_io] in E1;
    [|by intros [= _ <-]].
  destruct (sid =? 0); [by intros [= _ <-]|].
  destruct (read_session_id_loop _ T1) as [[nmux|e] T2] eqn:E2; apply read_session_id_writer in E2; rewrite E1 in E2; clear E1;
    [|by intros [= _ <-]].
  destruct (nmux =? 0); [by intros [= _ <-]|]. destruct (_ && _); [by intros [= _ <-]|].
  destruct (negb _); by intros [= _ <-].
Qed.
End Confirm.

(** What two directions in step deliver does not depend on which receiver in step is
    asked about. *)
Lemma delivered_wire `{CryptoLaws} `{Base94Laws} {R} `{RngLaws R} (t : TxCore R) fs : Forall (mux_ok PPP_BUFFER_SIZE) fs ->
  (exists r, in_sync t r) -> exists wire,
    (forall out ready, run_writer (length fs) (TxSession (STx t)) (Writer out None) (map out_frame fs) ready = Writer (out ++ wire) None) /\
    (forall r, in_sync t r -> forall chunks, Forall (fun c => c <> []) chunks -> concat chunks = wire ->
      exists rd, next_all (S (length fs)) (FReader (RxSession (SRx r None 0)) (map SockData chunks) []) = (map mux_message fs, Ok None, rd)).
Proof.
  intros Hfs [r0 Hr0]. destruct (session_tunnel t r0 fs Hr0 Hfs) as (wire & Hw & _). exists wire. split.
  - intros out ready. pose proof (run_writer_prepend (length fs) out (TxSession (STx t)) (Writer [] None) (map out_frame fs) ready eq_refl) as E.
    unfold prepend in E. cbn [wr_out wr_err] in E. rewrite app_nil_r in E. by rewrite E, Hw.
  - intros r Hr. destruct (session_tunnel t r fs Hr Hfs) as (wire' & Hw' & Hrd). specialize (Hw []). rewrite Hw' in Hw.
    injection Hw as ->. exact Hrd.
Qed.

(** ** Properties *)

(** C6: from two connected sockets to a working tunnel.  A client and a server built
    from the same valid key, with any generators, any requested role and any
    session id the server assigns, exchange one greeting each ([hello] and
    [answer]).  When the role is granted, both handshake wrappers succeed with
    the server's session id and hand on exactly the bytes that follow the
    greetings; the two sessions are then the ends of a tunnel, in step both ways
    (where [ByteTunnel] starts), so that whatever mux frames either side's writer
    task is given, in whatever batches, the bytes it appends make the other side's
    reader, however they arrive, return just those messages in order and then the
    end.  When the role is refused, the client's dial fails with [RoleRefused],
    whatever follows the answer. *)
Theorem tunnel_established `{CryptoLaws} `{Base94Laws} {R} `{RngLaws R} key (rngC rngS : R) rt role sid allow_bond fs_up fs_down :
  key_valid key -> rt_key rt = key -> is_u128 sid -> sid <> 0 ->
  Forall (mux_ok PPP_BUFFER_SIZE) fs_up -> Forall (mux_ok PPP_BUFFER_SIZE) fs_down ->
  exists hello answer up down ss,
    handshake_sync (Ok tt) (Ok tt) rt rngS (Duplex (Reader (hello ++ up) None) (Writer [] None)) sid allow_bond =
      Ok (ss, Duplex (Reader up None) (Writer answer None), effective_role role allow_bond) /\
    (effective_role role allow_bond <> role -> forall rest e,
       dial_handshake (Ok tt) (Ok tt) key rngC (Duplex (Reader (answer ++ rest) e) (Writer [] None)) role =
         Err (OtherCause :: error_chain RoleRefused)) /\
    (effective_role role allow_bond = role -> exists sc,
       dial_handshake (Ok tt) (Ok tt) key rngC (Duplex (Reader (answer ++ down) None) (Writer [] None)) role =
         Ok (sc, Duplex (Reader down None) (Writer hello None)) /\
       (forall sock, plain_dial (Ok (sc, Duplex (Reader down None) (Writer hello None))) (Ok tt) (Ok tt) sock =
          Ok (Ends (tunnel_reader sc sock) (tunnel_writer sc) sid)) /\
       s_session_id ss = sid /\
       in_step (tunnel_writer sc) (frd_wire (tunnel_reader ss [])) /\ in_step (tunnel_writer ss) (frd_wire (tunnel_reader sc [])) /\
       (forall ready, run_writer (length fs_up) (tunnel_writer sc) (Writer hello None) (map out_frame fs_up) ready = Writer (hello ++ up) None) /\
       (forall ready, run_writer (length fs_down) (tunnel_writer ss) (Writer answer None) (map out_frame fs_down) ready = Writer (answer ++ down) None) /\
       (forall chunks, Forall (fun c => c <> []) chunks -> concat chunks = up ->
          exists rd, next_all (S (length fs_up)) (tunnel_reader ss (map SockData chunks)) = (map mux_message fs_up, Ok None, rd)) /\
       (forall chunks, Forall (fun c => c <> []) chunks -> concat chunks = down ->
          exists rd, next_all (S (length fs_down)) (tunnel_reader sc (map SockData chunks)) = (map mux_message fs_down, Ok None, rd))).
Proof.
  intros Hv Hrt Hsid Hne Hup Hdown.
  destruct (handshake_end_to_end key rngC rngS role sid allow_bond Hv Hsid Hne) as (C1 & hello & E1 & Hw1 & Hserver).
  destruct (Hserver [] None) as (S0 & _ & _ & _ & Hs0 & _).
  destruct (delivered_wire (tr_tx C1) fs_up Hup (ex_intro _ _ Hs0)) as (up & Hwup & Hrup).
  destruct (Hserver up None) as (S1 & answer & E2 & Hio1 & Hs1 & _ & Hid1 & Hclient).
  assert (exists down, effective_role role allow_bond = role ->
    (forall out ready, run_writer (length fs_down) (TxSession (STx (tr_tx S1))) (Writer out None) (map out_frame fs_down) ready = Writer (out ++ down) None) /\
    (forall r, in_sync (tr_tx S1) r -> forall chunks, Forall (fun c => c <> []) chunks -> concat chunks = down ->
      exists rd, next_all (S (length fs_down)) (FReader (RxSession (SRx r None 0)) (map SockData chunks) []) = (map mux_message fs_down, Ok None, rd)))
    as (down & Hdn).
  { destruct (Hclient [] None) as (C0 & _ & _ & Hok0). destruct (decide (effective_role role allow_bond = role)) as [Eeff|]; [|by exists []].
    destruct (Hok0 Eeff) as (Hsd & _). destruct (delivered_wire (tr_tx S1) fs_down Hdown (ex_intro _ _ Hsd)) as (down & Hd). by exists down. }
  exists hello, answer, up, down, (fst (into_session S1)). split; [|split].
  - unfold handshake_sync. rewrite Hrt, E2. unfold into_session. by rewrite Hio1.
  - intros Href rest e. unfold dial_handshake, handshake_client.
    change (with_rng (Duplex (Reader (answer ++ rest) e) (Writer [] None)) key rngC)
      with (with_reader (Reader (answer ++ rest) e) (with_rng (Duplex (Reader [] None) (Writer [] None)) key rngC)).
    rewrite client_send_reader, E1. destruct (Hclient rest e) as (C2 & E3 & _). unfold with_reader. rewrite E3.
    by rewrite decide_False.
  - intros Heff. destruct (Hdn Heff) as [Hwdn Hrdn]. destruct (Hclient down None) as (C2 & E3 & Hrd2 & Hok).
    destruct (Hok Heff) as (Hsd & Htx & Hid2 & _). exists (fst (into_session C2)).
    assert (tr_io C2 = Duplex (Reader down None) (Writer hello None)) as Hio2.
    { pose proof (client_confirm_writer _ _ _ E3) as Hw2. cbn [set_rx tr_io io_wr] in Hw2. rewrite Hw1 in Hw2.
      destruct (tr_io C2) as [rd wr]. cbn [io_rd io_wr] in *. congruence. }
    split; [|split; [|split; [exact Hid1|split; [|split; [exact (in_step_session _ _ Hsd)|split; [|split; [exact (Hwdn answer)|split]]]]]]].
    + unfold dial_handshake, handshake_client.
      change (with_rng (Duplex (Reader (answer ++ down) None) (Writer [] None)) key rngC)
        with (with_reader (Reader (answer ++ down) None) (with_rng (Duplex (Reader [] None) (Writer [] None)) key rngC)).
      rewrite client_send_reader, E1. unfold with_reader. rewrite E3, decide_True by done. unfold into_session. by rewrite Hio2.
    + intros sock. unfold plain_dial. cbn [fst into_session from_cores s_session_id]. by rewrite Hid2.
    + unfold tunnel_writer. cbn [fst into_session from_cores split s_tx]. rewrite Htx. exact (in_step_session _ _ Hs1).
    + intros ready. unfold tunnel_writer. cbn [fst into_session from_cores split s_tx]. rewrite Htx. exact (Hwup hello ready).
    + exact (Hrup _ Hs1).
    + exact (Hrdn _ Hsd).
Qed.

#[local] Existing Instance Toy.backend.
#[local] Existing Instance Toy.toy_laws.
#[local] Existing Instance Doc.codec.
#[local] Existing Instance Doc.laws.

Lemma tunnel_established_witness :
  exists hello answer up down ss sc,
    handshake_sync (Ok tt) (Ok tt) (SRuntime quiet_key 10 15 None None None true) ([5] : tape)
      (Duplex (Reader (hello ++ up) None) (Writer [] None)) 77 true = Ok (ss, Duplex (Reader up None) (Writer answer None), BondLink) /\
    dial_handshake (Ok tt) (Ok tt) quiet_key ([3; 1; 4] : tape) (Duplex (Reader (answer ++ down) None) (Writer [] None)) BondLink =
      Ok (sc, Duplex (Reader down None) (Writer hello None)) /\
    run_writer 1 (tunnel_writer sc) (Writer hello None) (map out_frame [(Data, 1, [7; 8])]) [] = Writer (hello ++ up) None.
Proof.
  destruct (tunnel_established quiet_key ([3; 1; 4] : tape) ([5] : tape) (SRuntime quiet_key 10 15 None None None true) BondLink 77 true
    [(Data, 1, [7; 8])] []) as (hello & answer & up & down & ss & E1 & _ & E2).
  - done.
  - reflexivity.
  - lia.
  - done.
  - apply Forall_cons; split; [|by apply Forall_nil].
    split; [lia|split; [by apply wf_bytes_eval|apply Nat.leb_le; vm_compute; reflexivity]].
  - by apply Forall_nil.
  - exists hello, answer, up, down, ss. destruct (E2 eq_refl) as (sc & E3 & _ & _ & _ & _ & E4 & _). exists sc.
    split; [exact E1|]. split; [exact E3|]. exact (E4 []).
Defined.

(** What a failed handshake makes of a dial: it is retried after routine transport
    failures, a peer that closed, and a handshake that went wrong half way; a
    configuration mismatch, a refused role or a corrupted frame ends the dial. *)
Theorem handshake_retried e :
  retryable (OtherCause :: error_chain e) =
    match e with
    | Io err => is_routine_io err || bool_decide (io_kind err = ConnectionRefused)
    | HandshakeFailed _ => true
    | _ => false
    end.
Proof.
  destruct e as [[k m]| | | | | | | | | |]; try reflexivity. destruct k; reflexivity.
Qed.

Lemma handshake_retried_examples :
  retryable (OtherCause :: error_chain FlagsMismatch) = false /\ retryable (OtherCause :: error_chain RoleRefused) = false.
Proof. by rewrite !handshake_retried. Qed.
