(* ===== verification/Dialer.v ===== *)
(** * Dialers ([TunnelDialer] of [crates/client/src/pool.rs] and its two
      implementations, [PlainDialer] there and [BondDialer] of
      [crates/client/src/bond.rs])

    The trait as a class of operations with a class of laws, its two instances with
    their clocks, and what the pool does with a dialer it knows by its laws only:
    its dial tasks, its dedicated tunnels, its rounds of upkeep.  A call of the
    system or of the aggregator is its answer and the time it takes; a time is a
    reading of the clock in ms. *)
From S2P Require Import Prelude Errors Env Base94Codec Cipher Session Pump Tunnel Framing Pool Bond Establish.

(** ** The trait *)

(** [TunnelDialer]: a tunnel's [ends] or the error, and the upkeep of one of the pool's
    tunnels (links dialed and added), each begun at a time and over at another. *)
Class TunnelDialer (D E T : Type) := {
  dial : D -> Z -> result (list Cause) E * Z;
  maintain_tunnel : D -> T -> Z -> (nat * nat) * Z
}.

(** What the pool may rely on. *)
Class DialerLaws (D E T : Type) `{TunnelDialer D E T} := {
  good : D -> Prop;
  good_tunnel : D -> T -> Prop;
  dial_budget : D -> Z;
  upkeep_budget : D -> Z;
  dial_time : forall d now, good d -> now <= snd (dial d now) <= now + dial_budget d;
  upkeep_time : forall d t now, good d -> good_tunnel d t -> now <= snd (maintain_tunnel d t now) <= now + upkeep_budget d
}.

(** ** One dial *)

(** The connection and handshake of each attempt, the pauses between two readings of
    the clock, and whether the blocking task could be joined. *)
Record Attempts (A : Type) := Att { at_exchange : nat -> Z -> Z -> result (list Cause) A * Z; at_lag : nat -> Z; at_join : bool }.
Arguments Att {A}.
Arguments at_exchange {A}.
Arguments at_lag {A}.
Arguments at_join {A}.

(** A link dial and what [add_io] makes of its link. *)
Record LinkTry (A B : Type) := Try { lt_attempts : Attempts A; lt_split : A -> result io_error B; lt_joined : bool; lt_added : bool; lt_add_time : Z }.
Arguments Try {A B}.
Arguments lt_attempts {A B}.
Arguments lt_split {A B}.
Arguments lt_joined {A B}.
Arguments lt_added {A B}.
Arguments lt_add_time {A B}.

Section Dial.
Context (connect_timeout : Z) (connect_retries : nat).

(** [dial_endpoint]. *)
Definition dial_endpoint {A} (a : Attempts A) (deadline now : Z) : result (list Cause) A * Z :=
  let '(r, t, _) := dial_sync connect_timeout (at_exchange a) (at_lag a) connect_retries deadline now in
  (if at_join a then r else Err [OtherCause; OtherCause], t).

(** [pool::dial]. *)
Definition pool_dial {A} (a : Attempts A) (now : Z) : result (list Cause) A * Z :=
  dial_endpoint a (dial_deadline connect_timeout connect_retries now) now.

(** [dial_link]: [split] is [split_link] of the session and its socket. *)
Definition dial_link {A B} (a : Attempts A) (split : A -> result io_error B) (now : Z) : result (list Cause) B * Z :=
  match dial_endpoint a (dial_deadline connect_timeout connect_retries now) now with
  | (Ok v, t) => (match split v with Ok b => Ok b | Err e => Err [IoCause e] end, t)
  | (Err e, t) => (Err e, t)
  end.

Context {A B : Type}.
Implicit Types l : LinkTry A B.

(** How the link task ends, begun at [now], and when. *)
Definition link_task l (now : Z) : LinkEnd * Z :=
  let '(r, t) := dial_link (lt_attempts l) (lt_split l) now in
  (if lt_joined l then match r with Ok _ => LinkDialed (lt_added l) | Err e => LinkFailed e end else LinkJoinError, t).

(** The loop that awaits the link tasks, begun at [start], and adds their links; the
    clock after it. *)
Fixpoint await_links (ls : list (LinkTry A B)) (start now : Z) : Z :=
  match ls with
  | [] => now
  | l :: ls =>
      let '(e, t) := link_task l start in
      match e with
      | LinkJoinError => Z.max now t
      | LinkDialed _ => await_links ls start (Z.max now t + lt_add_time l)
      | LinkFailed _ => await_links ls start (Z.max now t)
      end
  end.

(** The channel under its timeout: how [outgoing.connect()] ends, and how long it takes. *)
Record BondNet := BNet {
  bn_links : list (LinkTry A B);             (** one per configured link *)
  bn_shown : Z -> nat -> nat;                (** [control.links().len()] at each look of a wait *)
  bn_look : Z -> nat -> Z;                   (** the clock at it *)
  bn_channel : ChannelEnd;
  bn_channel_time : Z;
  bn_sock : list sock_event                  (** what the channel will deliver *)
}.

(** [BondDialer::dial]: how it ends, whether the aggregator was terminated, and when. *)
Definition bond_dial_at (n : BondNet) (start : Z) : (result BondError Z * bool) * Z :=
  let ends := map (fun l => fst (link_task l start)) (bn_links n) in
  let now := await_links (bn_links n) start start in
  let out := bond_dial ends (bn_channel n) in
  match collect_links ends 0 false with
  | None | Some (O, _) => (out, now)
  | Some (live, _) =>
      match settle (bn_shown n now) (bn_look n now) live (now + 250) 26 0 with
      | Some i => (out, bn_look n now i + bn_channel_time n)
      | None => (out, now)
      end
  end.

(** ** Upkeep of a bonded tunnel *)

(** [saturating_sub] of the links [Control::links] shows, in [u32]. *)
Definition missing_links (links shown : Z) : Z := Z.max 0 (links - (if shown <? 2 ^ 32 then shown else 0)).

(** The top-up loop over the dials it would make: dials made, links added, the clock. *)
Fixpoint top_up (missing : nat) (tries : nat -> LinkTry A B) (made added : nat) (now : Z) : (nat * nat) * Z :=
  match missing with
  | O => ((made, added), now)
  | S missing =>
      let '(r, t) := dial_link (lt_attempts (tries made)) (lt_split (tries made)) now in
      match r with
      | Ok _ =>
          let t := t + lt_add_time (tries made) in
          if lt_added (tries made) then top_up missing tries (S made) (S added) t else ((S made, added), t)
      | Err _ => ((S made, added), t)
      end
  end.

(** What upkeep finds of one tunnel: its life and its links at the first and the second
    look, and whether it has a link controller. *)
Record BondTunnel := BTun { bt_control : bool; bt_alive1 : bool; bt_shown1 : Z; bt_alive2 : bool; bt_shown2 : Z; bt_tries : nat -> LinkTry A B }.

(** The pause between the two looks. *)
Definition SECOND_LOOK : Z := 250.

Definition bond_maintain (links : Z) (t : BondTunnel) (now : Z) : (nat * nat) * Z :=
  if negb (bt_alive1 t) then ((0, 0)%nat, now)
  else if negb (bt_control t) then ((0, 0)%nat, now)
  else if 0 <? missing_links links (bt_shown1 t) then
    if negb (bt_alive2 t) then ((0, 0)%nat, now + SECOND_LOOK)
    else top_up (Z.to_nat (missing_links links (bt_shown2 t))) (bt_tries t) 0 0 (now + SECOND_LOOK)
  else top_up (Z.to_nat (missing_links links (bt_shown1 t))) (bt_tries t) 0 0 now.
End Dial.

(** ** The two dialers *)

Section Dialers.
Context `{CryptoBackend} `{Base94Codec} {R} `{Rng R} (connect_timeout : Z) (connect_retries : nat).

(** [PlainDialer] and the network it dials over. *)
Record PlainDialer := Plain {
  pd_attempts : Attempts (Session R * duplex);
  pd_nonblocking : result io_error unit;
  pd_from_std : result io_error unit;
  pd_sock : list sock_event
}.

(** Its dial; its upkeep is the trait's, which does nothing. *)
#[export] Instance plain_dialer {T} : TunnelDialer PlainDialer (TunnelEnds (R:=R)) T := {
  dial d now :=
    let '(r, t) := pool_dial connect_timeout connect_retries (pd_attempts d) now in
    (plain_dial r (pd_nonblocking d) (pd_from_std d) (pd_sock d), t);
  maintain_tunnel _ _ now := ((0, 0)%nat, now)
}.

(** The [anyhow] chain of a failed bond dial. *)
Definition bond_chain (e : BondError) : list Cause :=
  match e with LinkJoin => [OtherCause; OtherCause] | _ => [OtherCause] end.

(** The ends of an aggregated channel: its frames have a length prefix. *)
Definition bond_ends (id : Z) (sock : list sock_event) : TunnelEnds (R:=R) := Ends (FReader RxPrefix sock []) TxPrefix id.

Context {A B : Type}.

(** [BondDialer] with the configured count and its network. *)
Record BondDialer := Bonded { bd_links : Z; bd_net : BondNet (A:=A) (B:=B) }.

#[export] Instance bond_dialer : TunnelDialer BondDialer (TunnelEnds (R:=R)) (BondTunnel (A:=A) (B:=B)) := {
  dial d now :=
    let '((r, _), t) := bond_dial_at connect_timeout connect_retries (bd_net d) now in
    (match r with Ok id => Ok (bond_ends id (bn_sock (bd_net d))) | Err e => Err (bond_chain e) end, t);
  maintain_tunnel d := bond_maintain connect_timeout connect_retries (bd_links d)
}.
End Dialers.

(** The server's end of an aggregated channel ([run_bonded] of
    [crates/server/src/bond.rs]): the wires [run_demux] is started with. *)
Definition run_bonded {R} (sock : list sock_event) : FrameReader * TxWire R := (FReader RxPrefix sock [], TxPrefix).

(** Both directions of a bonded tunnel start in step, as [ByteTunnel.bytes_refine_frames]
    asks. *)
Lemma bonded_in_step `{CryptoBackend} {R} id sock sock' :
  in_step (te_writer (bond_ends (R:=R) id sock)) (frd_wire (run_bonded (R:=R) sock').1) /\
  in_step (run_bonded (R:=R) sock').2 (frd_wire (te_reader (bond_ends (R:=R) id sock))).
Proof. split; constructor. Qed.

(** ** The pool and its dialer *)

Section Pool.
Context {D E T : Type} `{TunnelDialer D E T}.

(** A dial task of the maintainer, from taking its slot to giving it back. *)
Definition dial_task (d : D) (now : Z) : option E * Z := let '(r, t) := dial d now in (match r with Ok e => Some e | Err _ => None end, t).

(** The upkeep of a round, one tunnel after the other. *)
Fixpoint upkeep_all (d : D) (ts : list T) (now : Z) : list (nat * nat) * Z :=
  match ts with
  | [] => ([], now)
  | t :: ts => let '(r, now) := maintain_tunnel d t now in let '(rs, now) := upkeep_all d ts now in (r :: rs, now)
  end.

Definition DIAL_RETRY_DELAY : Z := 1000.
Definition MAINTAIN_IDLE_SLEEP : Z := 30 * 1000.

(** One round of [maintain]: [woken] is when something notified. *)
Definition round (d : D) (ts : list T) (short : bool) (woken now : Z) : Z :=
  snd (upkeep_all d ts now) + Z.min woken (if short then DIAL_RETRY_DELAY else MAINTAIN_IDLE_SLEEP).
End Pool.

(** ** Times *)

Section Times.
Context (connect_timeout : Z) (connect_retries : nat) (k add_max step : Z)
  (Hct : 0 < connect_timeout) (Hretries : Z.of_nat connect_retries + 1 < 2 ^ 32) (Hk : 2 <= k) (Hadd : 0 <= add_max) (Hstep : 10 <= step).

(** The attempts of a dial run on a forward clock, two readings of it are at most
    [connect_timeout] apart, and the [k] blocking calls of an exchange under budget
    [b] take [k * b] at most. *)
Definition timed {A} (a : Attempts A) : Prop :=
  (forall i, 0 <= at_lag a i <= connect_timeout) /\
  (forall i b now, 0 < b -> now <= snd (at_exchange a i b now) <= now + k * b).

(** A dial of any of them is over within this. *)
Definition link_budget : Z := connect_timeout * (Z.of_nat connect_retries + k).

Lemma dial_endpoint_time {A} (a : Attempts A) now : timed a ->
  now <= snd (dial_endpoint connect_timeout connect_retries a (dial_deadline connect_timeout connect_retries now) now) <= now + link_budget.
Proof.
  intros [Hl Hx]. unfold dial_endpoint.
  assert (dial_deadline connect_timeout connect_retries now = now + connect_timeout * (Z.of_nat connect_retries + 1)) as Ed.
  { unfold dial_deadline, u32. by rewrite Z.mod_small by lia. }
  pose proof (dial_loop_ok connect_timeout (at_exchange a) (at_lag a) k Hct Hk Hl Hx connect_retries (dial_deadline connect_timeout connect_retries now)
    (S connect_retries) 0 now None ltac:(lia) ltac:(lia)) as Hr. fold (dial_sync connect_timeout (at_exchange a) (at_lag a) connect_retries (dial_deadline connect_timeout connect_retries now) now) in Hr.
  destruct (dial_sync _ _ _ _ _ _) as [[r t] n]. destruct Hr as (_ & Ht & _). cbn [snd]. rewrite Ed in Ht. unfold link_budget. nia.
Qed.

Lemma dial_link_time {A B} (a : Attempts A) (split : A -> result io_error B) now : timed a ->
  now <= snd (dial_link connect_timeout connect_retries a split now) <= now + link_budget.
Proof. intros Ha. pose proof (dial_endpoint_time a now Ha) as Ht. unfold dial_link. by destruct (dial_endpoint _ _ _ _ _) as [[v|e] t]. Qed.

Definition timed_try {A B} (l : LinkTry A B) : Prop := timed (lt_attempts l) /\ 0 <= lt_add_time l <= add_max.

Lemma await_links_time {A B} (ls : list (LinkTry A B)) start : Forall timed_try ls -> forall now,
  start <= now -> now <= await_links connect_timeout connect_retries ls start now <= Z.max now (start + link_budget) + Z.of_nat (length ls) * add_max.
Proof.
  induction 1 as [|l ls [Ha Hl] _ IH]; intros now Hn; cbn [await_links length]; [lia|].
  unfold link_task. pose proof (dial_link_time (lt_attempts l) (lt_split l) start Ha) as Ht. destruct (dial_link _ _ _ _ _) as [r t]. cbn [snd] in Ht.
  destruct (lt_joined l); [destruct r as [b|e]|].
  - specialize (IH (Z.max now t + lt_add_time l) ltac:(lia)). nia.
  - specialize (IH (Z.max now t) ltac:(lia)). nia.
  - nia.
Qed.

(** The wait for the links to show. *)
Lemma settle_time links now live start i : start <= now 0%nat <= start + step -> (forall j, now j + 10 <= now (S j) <= now j + step) ->
  settle links now live (start + 250) 26 0 = Some i -> start <= now i <= start + 250 + step.
Proof.
  intros H0 Hc. assert (forall fuel j, start <= now j <= start + 250 + step -> settle links now live (start + 250) fuel j = Some i ->
    start <= now i <= start + 250 + step) as Hgen; [|by apply Hgen; lia].
  induction fuel as [|fuel IH]; intros j Hj; cbn [settle]; [done|]. destruct (_ && _) eqn:E; [|by intros [= <-]].
  apply andb_prop in E as [_ Hlt%Z.ltb_lt]. apply IH. specialize (Hc j). lia.
Qed.

(** The network of a bonded dial on such a clock. *)
Record timed_net {A B} (n : BondNet (A:=A) (B:=B)) : Prop := {
  tn_links : Forall timed_try (bn_links n);
  tn_first : forall s, s <= bn_look n s 0 <= s + step;
  tn_look : forall s i, bn_look n s i + 10 <= bn_look n s (S i) <= bn_look n s i + step;
  tn_channel : 0 <= bn_channel_time n <= connect_timeout
}.

Definition bond_budget (links : nat) : Z := link_budget + Z.of_nat links * add_max + (250 + step) + connect_timeout.

Lemma bond_dial_time {A B} (n : BondNet (A:=A) (B:=B)) start : timed_net n ->
  start <= snd (bond_dial_at connect_timeout connect_retries n start) <= start + bond_budget (length (bn_links n)).
Proof.
  intros [Hl Hf Hs Hc]. unfold bond_dial_at, bond_budget. pose proof (await_links_time (bn_links n) start Hl start ltac:(lia)) as Ht.
  assert (0 <= link_budget) by (unfold link_budget; nia).
  set (now := await_links _ _ _ _ _) in *. destruct (collect_links _ _ _) as [[[|live] r]|]; cbn [snd]; try lia.
  destruct (settle_ends (bn_shown n now) (bn_look n now) (S live) now (proj1 (Hf now)) (fun i => proj1 (Hs now i))) as [i E]. rewrite E. cbn [snd].
  pose proof (settle_time _ _ _ _ _ (Hf now) (Hs now) E). lia.
Qed.

(** *** Upkeep *)

(** A try whose link is dialed and taken. *)
Definition try_adds {A B} (l : LinkTry A B) (now : Z) : Prop :=
  (exists b t, dial_link connect_timeout connect_retries (lt_attempts l) (lt_split l) now = (Ok b, t)) /\ lt_added l = true.

Lemma top_up_spec {A B} (tries : nat -> LinkTry A B) missing : (forall i, timed_try (tries i)) -> forall made added now,
  (added ≤ made)%nat ->
  let '((m, a), t) := top_up connect_timeout connect_retries missing tries made added now in
  (made ≤ m ≤ made + missing)%nat /\ (added ≤ a)%nat /\ (a - added ≤ m - made ≤ S (a - added))%nat /\
  ((a - added < missing)%nat -> (m - made = S (a - added))%nat /\ exists at_, ~ try_adds (tries (pred m)) at_) /\
  now <= t <= now + Z.of_nat (m - made) * (link_budget + add_max).
Proof.
  intros Ht. induction missing as [|missing IH]; intros made added now Hle; cbn [top_up].
  { rewrite !Nat.sub_diag. cbn. split_and!; lia. }
  destruct (Ht made) as [Ha Hm]. pose proof (dial_link_time (lt_attempts (tries made)) (lt_split (tries made)) now Ha) as Hd.
  destruct (dial_link _ _ _ _ _) as [[b|e] t] eqn:E; cbn [snd] in Hd.
  - destruct (lt_added (tries made)) eqn:Ea.
    + specialize (IH (S made) (S added) (t + lt_add_time (tries made)) ltac:(lia)). destruct (top_up _ _ _ _ _ _ _) as [[m a] t'].
      destruct IH as (H1 & H2 & H3 & H4 & H5). split_and!; try lia.
      * intros Hlt. destruct H4 as [H4 H6]; [lia|]. split; [lia|done].
      * replace (m - made)%nat with (S (m - S made)) by lia. rewrite Nat2Z.inj_succ. nia.
    + replace (S made - made)%nat with 1%nat by lia. rewrite Nat.sub_diag. split_and!; try lia.
      intros _. split; [done|]. exists now. cbn [pred]. intros [_ ?]. congruence.
  - replace (S made - made)%nat with 1%nat by lia. rewrite Nat.sub_diag. split_and!; try lia.
    intros _. split; [done|]. exists now. cbn [pred]. intros [(b & t' & E') _]. congruence.
Qed.

(** What one tunnel's upkeep comes to. *)
Record upkeep_ok {A B} (links : Z) (t : BondTunnel (A:=A) (B:=B)) (made added : nat) : Prop := {
  uo_each : (added ≤ made ≤ S added)%nat;
  uo_missing : Z.of_nat made <= Z.max 0 (links - bt_shown2 t);
  uo_total : bt_shown2 t + Z.of_nat added <= Z.max links (bt_shown2 t);
  uo_when : (0 < made)%nat -> bt_alive1 t = true /\ bt_alive2 t = true /\ bt_control t = true /\ bt_shown1 t < links;
  uo_full : bt_alive1 t = true -> bt_alive2 t = true -> bt_control t = true -> bt_shown1 t < links ->
    bt_shown2 t + Z.of_nat added = Z.max links (bt_shown2 t) \/ (made = S added /\ exists at_, ~ try_adds (bt_tries t added) at_)
}.

Definition timed_tunnel {A B} (t : BondTunnel (A:=A) (B:=B)) : Prop :=
  0 <= bt_shown1 t < 2 ^ 32 /\ 0 <= bt_shown2 t < 2 ^ 32 /\ forall i, timed_try (bt_tries t i).

Lemma bond_maintain_ok {A B} links (t : BondTunnel (A:=A) (B:=B)) now : 0 <= links < 2 ^ 32 -> timed_tunnel t ->
  let '((made, added), e) := bond_maintain connect_timeout connect_retries links t now in
  upkeep_ok links t made added /\ now <= e <= now + SECOND_LOOK + Z.of_nat made * (link_budget + add_max).
Proof.
  intros Hl (H1 & H2 & Ht). unfold bond_maintain, missing_links, SECOND_LOOK.
  assert (forall made added, (bt_alive1 t && bt_control t && (bt_shown1 t <? links) && bt_alive2 t = false) -> made = 0%nat -> added = 0%nat ->
    upkeep_ok links t made added) as Hnone.
  { intros made added Hb -> ->. split; try lia. intros Ha1 Ha2 Hc Hs. rewrite Ha1, Ha2, Hc, (proj2 (Z.ltb_lt _ _) Hs) in Hb. done. }
  rewrite (proj2 (Z.ltb_lt (bt_shown1 t) _)), (proj2 (Z.ltb_lt (bt_shown2 t) _)) by lia.
  destruct (bt_alive1 t) eqn:Ea1; [|split; [by apply Hnone|cbn; lia]]. destruct (bt_control t) eqn:Ec; [|split; [by apply Hnone|cbn; lia]].
  cbn [negb]. destruct (Z.ltb_spec 0 (Z.max 0 (links - bt_shown1 t))) as [Hm|Hm].
  - destruct (bt_alive2 t) eqn:Ea2; cbn [negb]; [|split; [apply Hnone; [by rewrite andb_false_r|done..]|cbn; lia]].
    pose proof (top_up_spec (bt_tries t) (Z.to_nat (Z.max 0 (links - bt_shown2 t))) Ht 0 0 (now + 250) ltac:(lia)) as Hs.
    destruct (top_up _ _ _ _ _ _ _) as [[m a] e]. rewrite !Nat.sub_0_r in Hs. destruct Hs as (Hmm & _ & Hma & Hf & Hte). split; [|lia].
    split; [lia|lia|lia|intros; split_and!; (done || lia)|]. intros _ _ _ _.
    destruct (decide (a < Z.to_nat (Z.max 0 (links - bt_shown2 t)))%nat) as [Hlt|Hge]; [right|left; lia].
    destruct (Hf Hlt) as [-> Hn]. by split.
  - replace (Z.to_nat (Z.max 0 (links - bt_shown1 t))) with 0%nat by lia. cbn [top_up]. split; [|lia]. apply Hnone; [|done..].
    rewrite (proj2 (Z.ltb_ge (bt_shown1 t) links)) by lia. done.
Qed.
End Times.

(** ** The laws of both dialers *)

Section Laws.
Context `{CryptoBackend} `{Base94Codec} {R} `{Rng R} (connect_timeout : Z) (connect_retries : nat) (k add_max step : Z).
Context (Hct : 0 < connect_timeout) (Hretries : Z.of_nat connect_retries + 1 < 2 ^ 32) (Hk : 2 <= k) (Hadd : 0 <= add_max) (Hstep : 10 <= step).

#[export] Instance plain_laws {T} : DialerLaws (PlainDialer (R:=R)) TunnelEnds T (H := plain_dialer connect_timeout connect_retries).
Proof.
  refine {| good d := timed connect_timeout k (pd_attempts d); good_tunnel _ _ := True;
            dial_budget _ := link_budget connect_timeout connect_retries k; upkeep_budget _ := 0 |}.
  - intros d now Hd. cbn. pose proof (dial_endpoint_time connect_timeout connect_retries k Hct Hretries Hk (pd_attempts d) now Hd) as Ht.
    unfold pool_dial. by destruct (dial_endpoint _ _ _ _ _).
  - intros d t now _ _. cbn. lia.
Defined.

#[export] Instance bond_laws {A B} : DialerLaws (BondDialer (A:=A) (B:=B)) (TunnelEnds (R:=R)) (BondTunnel (A:=A) (B:=B)) (H := bond_dialer connect_timeout connect_retries).
Proof.
  refine {| good d := timed_net connect_timeout k add_max step (bd_net d) /\ 0 <= bd_links d < 2 ^ 32;
            good_tunnel d t := timed_tunnel connect_timeout k add_max t;
            dial_budget d := bond_budget connect_timeout connect_retries k add_max step (length (bn_links (bd_net d)));
            upkeep_budget d := SECOND_LOOK + bd_links d * (link_budget connect_timeout connect_retries k + add_max) |}.
  - intros d now [Hd _]. cbn.
    pose proof (bond_dial_time connect_timeout connect_retries k add_max step Hct Hretries Hk Hadd Hstep (bd_net d) now Hd) as Ht.
    by destruct (bond_dial_at _ _ _ _) as [[r b] t].
  - intros d t now [_ Hl] Ht. cbn.
    pose proof (bond_maintain_ok connect_timeout connect_retries k add_max Hct Hretries Hk Hadd (bd_links d) t now Hl Ht) as Hm.
    destruct (bond_maintain _ _ _ _ _) as [[m a] e]. destruct Hm as [[_ Hm _ _ _] He]. cbn [snd].
    destruct Ht as (_ & H2 & _). assert (0 <= link_budget connect_timeout connect_retries k + add_max) by (unfold link_budget; nia). nia.
Defined.
End Laws.

(** ** What the pool gets from any of them *)

Section Client.
Context {D E T : Type} `{DialerLaws D E T}.

(** A dial task gives its slot of [dialing] back within the dialer's budget. *)
Lemma dial_task_bounded (d : D) now : good d -> now <= snd (dial_task d now) <= now + dial_budget d.
Proof. intros Hd. pose proof (dial_time d now Hd) as Ht. unfold dial_task. by destruct (dial d now). Qed.

(** A round of the maintainer: an upkeep budget for each tunnel, and its wait. *)
Lemma round_bounded (d : D) ts short woken now : good d -> Forall (good_tunnel d) ts -> 0 <= woken ->
  now <= round d ts short woken now <= now + Z.of_nat (length ts) * upkeep_budget d + MAINTAIN_IDLE_SLEEP.
Proof.
  intros Hd Hts Hw. assert (now <= snd (upkeep_all d ts now) <= now + Z.of_nat (length ts) * upkeep_budget d) as Hu.
  { revert now. induction Hts as [|t ts Ht _ IH]; intros now; cbn [upkeep_all length]; [cbn; lia|].
    pose proof (upkeep_time d t now Hd Ht) as Hm. destruct (maintain_tunnel d t now) as [r n]. cbn [snd] in Hm. specialize (IH n).
    destruct (upkeep_all d ts n) as [rs n']. cbn [snd] in *. lia. }
  unfold round, MAINTAIN_IDLE_SLEEP, DIAL_RETRY_DELAY. destruct short; lia.
Qed.
End Client.

(** ** Properties *)

Section Upkeep.
Context `{CryptoBackend} `{Base94Codec} {R} `{Rng R} {A B : Type} (connect_timeout : Z) (connect_retries : nat) (k add_max : Z).
#[local] Existing Instance bond_dialer.

(** The time a round spends on tunnels where it made these dials. *)
Definition round_budget (rs : list (nat * nat)) : Z :=
  fold_right (fun r n => SECOND_LOOK + Z.of_nat r.1 * (link_budget connect_timeout connect_retries k + add_max) + n) 0 rs.

(** C37: a round of upkeep over bonded tunnels does to each what it should, in bounded
    time.  On every tunnel it makes at most as many dials as links were missing at
    its last look, stops at the first that is not dialed or not taken, adds no
    link beyond [links], reaches [links] when every dial succeeds, and does
    nothing to a dead tunnel or one with all its links.  The round lasts at most
    the second look of each tunnel and, for every dial made, [connect_retries] and
    [k] budgets of [connect_timeout] and the aggregator's answer, [k] being the
    number of blocking calls of a connection and its handshake; the next round
    begins at most 30 s after that.  Besides those calls time is assumed to pass only
    between the two readings of the clock of an attempt, at most [connect_timeout]. *)
Theorem upkeep_round_exact links (net : BondNet (A:=A) (B:=B)) (ts : list (BondTunnel (A:=A) (B:=B))) short woken now :
  0 < connect_timeout -> Z.of_nat connect_retries + 1 < 2 ^ 32 -> 2 <= k -> 0 <= add_max -> 0 <= links < 2 ^ 32 -> 0 <= woken ->
  Forall (timed_tunnel connect_timeout k add_max) ts ->
  let d := Bonded links net in
  let '(rs, t) := upkeep_all (H := bond_dialer (R:=R) connect_timeout connect_retries) d ts now in
  length rs = length ts /\
  (forall i tn made added, ts !! i = Some tn -> rs !! i = Some (made, added) -> upkeep_ok connect_timeout connect_retries links tn made added) /\
  now <= t <= now + round_budget rs /\
  t <= round (H := bond_dialer (R:=R) connect_timeout connect_retries) d ts short woken now <= t + MAINTAIN_IDLE_SLEEP.
Proof.
  intros Hct Hr Hk Hadd Hl Hw Hts d. unfold round.
  assert (let '(rs, t) := upkeep_all (H := bond_dialer (R:=R) connect_timeout connect_retries) d ts now in length rs = length ts /\
    (forall i tn made added, ts !! i = Some tn -> rs !! i = Some (made, added) -> upkeep_ok connect_timeout connect_retries links tn made added) /\
    now <= t <= now + round_budget rs) as Hu.
  { revert now. induction Hts as [|tn ts Ht _ IH]; intros now; cbn [upkeep_all]; [split_and!; try done; cbn; lia|].
    pose proof (bond_maintain_ok connect_timeout connect_retries k add_max Hct Hr Hk Hadd links tn now Hl Ht) as Hm.
    change (maintain_tunnel (TunnelDialer:=bond_dialer (R:=R) connect_timeout connect_retries) d tn now) with (bond_maintain connect_timeout connect_retries links tn now).
    destruct (bond_maintain _ _ _ _ _) as [[m a] e]. destruct Hm as [Hok He]. specialize (IH e).
    destruct (upkeep_all d ts e) as [rs t]. destruct IH as (Hn & Hi & Ht'). split; [cbn; by rewrite Hn|]. split; [|cbn [round_budget fold_right fst]; unfold round_budget in *; lia].
    intros [|i] tn' made added; cbn [lookup list_lookup]; [by intros [= <-] [= <- <-]|apply Hi]. }
  destruct (upkeep_all d ts now) as [rs t]. destruct Hu as (Hn & Hi & Ht). split_and!; try done; try lia; cbn [snd];
    unfold MAINTAIN_IDLE_SLEEP, DIAL_RETRY_DELAY; destruct short; lia.
Qed.
End Upkeep.

(** Two bonded tunnels that each lost one of three links; the server does not answer
    the first dial for its whole budget, and takes the second. *)
Definition sample_try (ok : bool) : LinkTry unit unit :=
  Try (Att (fun _ b now => (if ok then Ok tt else Err [IoCause (IoError TimedOut "connect")], now + (if ok then Z.min b 50 else b))) (fun _ => 0) true)
    (fun _ => Ok tt) true true 5.
Definition sample_tunnel (ok : bool) : BondTunnel (A:=unit) (B:=unit) := BTun true true 2 true 2 (fun _ => sample_try ok).
Definition sample_net : BondNet (A:=unit) (B:=unit) := BNet [] (fun _ _ => 0%nat) (fun s i => s + 10 * Z.of_nat i) ChannelErr 0 [].

Lemma sample_timed ok : timed_tunnel 10000 4 5 (sample_tunnel ok).
Proof.
  split; [cbn; lia|]. split; [cbn; lia|]. intros i. split; [|cbn; lia]. split; [intros j; cbn; lia|].
  intros j b now Hb. unfold sample_tunnel, sample_try. cbn. destruct ok; lia.
Qed.

Lemma upkeep_round_exact_witness :
  let d := Bonded 3 sample_net in
  let ts := [sample_tunnel false; sample_tunnel true] in
  upkeep_all (H := bond_dialer (R:=tape) 10000 3) d ts 0 = ([(1, 0)%nat; (1, 1)%nat], 40555) /\
  40555 <= 0 + round_budget 10000 3 4 5 [(1, 0)%nat; (1, 1)%nat].
Proof.
  intros d ts.
  assert (upkeep_all (H := bond_dialer (R:=tape) 10000 3) d ts 0 = ([(1, 0)%nat; (1, 1)%nat], 40555)) as E by (vm_compute; reflexivity).
  split; [exact E|].
  pose proof (upkeep_round_exact (R:=tape) 10000 3 4 5 3 sample_net ts true 0 0 ltac:(lia) ltac:(lia) ltac:(lia) ltac:(lia) ltac:(lia) ltac:(lia)
    (Forall_cons_2 _ _ _ (sample_timed false) (Forall_cons_2 _ _ _ (sample_timed true) (Forall_nil_2 _)))) as H.
  fold d in H. cbv zeta in H. rewrite E in H. destruct H as (_ & _ & Ht & _). apply Ht.
Defined.

(** A lost link can wait longer than the idle sleep for its turn: upkeep goes through the
    tunnels one by one, and the dial for the first held up the second here. *)
Lemma lost_link_waits : MAINTAIN_IDLE_SLEEP < snd (upkeep_all (H := bond_dialer (R:=tape) 10000 3) (Bonded 3 sample_net) [sample_tunnel false] 0).
Proof. vm_compute. reflexivity. Qed.
